(** * check_layout_sections: extraction-and-comparison engine

    A shallow embedding of [scripts/check_layout_sections.py].  Python
    strings are sequences of Unicode code points; they are modelled as
    lists of code points ([N]).  The Python string methods and the part
    of the [re] module the script relies on are embedded first, the
    script's own functions after them, and the properties last. *)

From Stdlib Require Import String Ascii NArith ZArith Arith Bool Lia List.
Import ListNotations.

Set Implicit Arguments.

(** ** Code points and text *)

Definition char := N.
Definition str := list char.

Definition chr (a : ascii) : char := N_of_ascii a.

(** [py "abc"] is the Python literal ['abc'] (ASCII literals only). *)
Definition py (s : string) : str := map chr (list_ascii_of_string s).

Definition HT  : char := 9%N.
Definition LF  : char := 10%N.
Definition CR  : char := 13%N.
Definition SP  : char := 32%N.
Definition BOM : char := 65279%N.   (* U+FEFF *)
Definition BSL : char := 92%N.      (* backslash *)
Definition LBRACE : char := 123%N.
Definition RBRACE : char := 125%N.

Definition in_range (lo hi c : char) : bool := (N.leb lo c && N.leb c hi)%bool.

Fixpoint str_eqb (a b : str) : bool :=
  match a, b with
  | [], [] => true
  | x :: a', y :: b' => (N.eqb x y && str_eqb a' b')%bool
  | _, _ => false
  end.

(** ** Python [str] methods used by the script *)

Module Py.

(** [str.isspace] on one code point (CPython's [_PyUnicode_IsWhitespace]);
    also the class [\s] of [re] on [str] patterns. *)
Definition isspace (c : char) : bool :=
  (in_range 9%N 13%N c || in_range 28%N 31%N c || N.eqb c 32%N || N.eqb c 133%N
   || N.eqb c 160%N || N.eqb c 5760%N || in_range 8192%N 8202%N c
   || N.eqb c 8232%N || N.eqb c 8233%N || N.eqb c 8239%N || N.eqb c 8287%N
   || N.eqb c 12288%N)%bool.

(** Line boundaries of [str.splitlines] (CPython's
    [_PyUnicode_IsLinebreak]). *)
Definition is_linebreak (c : char) : bool :=
  (in_range 10%N 13%N c || in_range 28%N 30%N c || N.eqb c 133%N
   || N.eqb c 8232%N || N.eqb c 8233%N)%bool.

Fixpoint dropwhile (p : char -> bool) (s : str) : str :=
  match s with
  | [] => []
  | c :: t => if p c then dropwhile p t else s
  end.

(** [s.lstrip()], [s.rstrip()], [s.strip()] *)
Definition lstrip (s : str) : str := dropwhile isspace s.
Definition rstrip (s : str) : str := rev (dropwhile isspace (rev s)).
Definition strip (s : str) : str := rstrip (lstrip s).

(** [s.lstrip(BOM)], the script's BOM skip *)
Definition lstrip_bom (s : str) : str := dropwhile (N.eqb BOM) s.

(** [s.startswith(p)] *)
Fixpoint startswith (p s : str) : bool :=
  match p, s with
  | [], _ => true
  | x :: p', y :: s' => (N.eqb x y && startswith p' s')%bool
  | _ :: _, [] => false
  end.

(** [s.endswith(p)] *)
Definition endswith (p s : str) : bool := startswith (rev p) (rev s).

(** [s.find(p)]: index of the first occurrence, [None] for -1. *)
Fixpoint find (p s : str) : option nat :=
  if startswith p s then Some 0
  else match s with
       | [] => None
       | _ :: t => option_map S (find p t)
       end.

(** [p in s] *)
Definition contains (p s : str) : bool :=
  match find p s with Some _ => true | None => false end.

(** [s.count(c)] for a one-character [c] *)
Fixpoint count (c : char) (s : str) : nat :=
  match s with
  | [] => 0
  | x :: t => (if N.eqb x c then 1 else 0) + count c t
  end.

(** [s.replace("\r\n", "\n")] *)
Fixpoint replace_crlf (s : str) : str :=
  match s with
  | [] => []
  | c :: t =>
      match t with
      | d :: t' => if (N.eqb c CR && N.eqb d LF)%bool
                   then LF :: replace_crlf t'
                   else c :: replace_crlf t
      | [] => [c]
      end
  end.

(** [s.splitlines()] ([keepends=False]): a line ends at a line boundary,
    ["\r\n"] counts as one boundary, and no empty last line is produced
    after a final boundary. *)
Fixpoint splitlines (s : str) : list str :=
  match s with
  | [] => []
  | c :: t =>
      if is_linebreak c then
        [] :: match t with
              | d :: t' => if (N.eqb c CR && N.eqb d LF)%bool
                           then splitlines t' else splitlines t
              | [] => []
              end
      else match splitlines t with
           | [] => [[c]]
           | l :: ls => (c :: l) :: ls
           end
  end.

(** ["\n".join(ls)] *)
Fixpoint join_lf (ls : list str) : str :=
  match ls with
  | [] => []
  | [l] => l
  | l :: rest => l ++ LF :: join_lf rest
  end.

(** [c * n] for a one-character string *)
Definition times (c : char) (n : nat) : str := repeat c n.

End Py.

(** ** The fragment of Python's [re] used by the script

    A backtracking matcher in continuation-passing style.  Alternatives
    are explored in the order Python's engine explores them: a greedy
    star first tries one more iteration, a lazy star first tries to stop,
    [a|b] tries [a] first.  The first complete match found is the match
    [re] reports.  No pattern of the script has a star whose body can
    match the empty string, and none can match the empty string as a
    whole. *)

Module Re.

Inductive regex : Type :=
| Eps  : regex
| Cls  : (char -> bool) -> regex          (* one character of a class *)
| Seq  : regex -> regex -> regex
| Alt  : regex -> regex -> regex
| Star : bool -> regex -> regex.          (* [true]: r*   [false]: r*? *)

Definition Lit (c : char) : regex := Cls (N.eqb c).
Definition Plus (r : regex) : regex := Seq r (Star true r).
Definition Opt (r : regex) : regex := Alt r Eps.
Definition cat (rs : list regex) : regex := fold_right Seq Eps rs.
Definition lits (s : str) : regex := cat (map Lit s).

(** [.] with [re.DOTALL], [.] without it, and [\s] *)
Definition any_dotall : regex := Cls (fun _ => true).
Definition any_line : regex := Cls (fun c => negb (N.eqb c LF)).
Definition ws : regex := Cls Py.isspace.

Definition cont := str -> option str.

Fixpoint star_loop (body : str -> cont -> option str) (greedy : bool)
         (fuel : nat) (s : str) (k : cont) : option str :=
  match fuel with
  | 0 => None
  | S f =>
      let more (_ : unit) :=
        body s (fun s' => if Nat.ltb (length s') (length s)
                          then star_loop body greedy f s' k else None) in
      if greedy
      then match more tt with Some r => Some r | None => k s end
      else match k s with Some r => Some r | None => more tt end
  end.

(** [rmatch r s k]: match [r] at the start of [s], then continue with
    [k] on what is left; the result is the first success. *)
Fixpoint rmatch (r : regex) (s : str) (k : cont) : option str :=
  match r with
  | Eps => k s
  | Cls p => match s with
             | c :: t => if p c then k t else None
             | [] => None
             end
  | Seq a b => rmatch a s (fun s' => rmatch b s' k)
  | Alt a b => match rmatch a s k with
               | Some x => Some x
               | None => rmatch b s k
               end
  | Star g a => star_loop (rmatch a) g (S (length s)) s k
  end.

(** The text left after the match of [r] at the start of [s]. *)
Definition match_at (r : regex) (s : str) : option str := rmatch r s Some.

(** Length of the match of [r] at the start of [s]. *)
Definition match_len (r : regex) (s : str) : option nat :=
  option_map (fun rest => length s - length rest) (match_at r s).

(** [re.search(r, s)]: [(m.start(), m.end())] of the leftmost match. *)
Fixpoint search_from (r : regex) (i : nat) (s : str) : option (nat * nat) :=
  match match_len r s with
  | Some n => Some (i, i + n)
  | None => match s with
            | [] => None
            | _ :: t => search_from r (S i) t
            end
  end.

Definition search (r : regex) (s : str) : option (nat * nat) :=
  search_from r 0 s.

(** [re.sub(r, repl, s)] for a constant replacement: the leftmost
    non-overlapping matches are replaced, the rest is copied.  [skip] is
    the number of characters of the current match still to be dropped. *)
Fixpoint sub_go (r : regex) (repl : str) (skip : nat) (s : str) : str :=
  match skip with
  | S n => match s with
           | [] => []
           | _ :: t => sub_go r repl n t
           end
  | 0 =>
      match match_len r s with
      | Some (S n) => repl ++ match s with
                              | [] => []
                              | _ :: t => sub_go r repl n t
                              end
      | Some 0 => repl ++ match s with
                          | [] => []
                          | c :: t => c :: sub_go r repl 0 t
                          end
      | None => match s with
                | [] => []
                | c :: t => c :: sub_go r repl 0 t
                end
      end
  end.

Definition sub (r : regex) (repl : str) (s : str) : str := sub_go r repl 0 s.

(** Literal matching under [re.IGNORECASE] for an ASCII pattern
    character: the two ASCII cases, and the non-ASCII characters that
    fold to it (dotted and dotless i, long s, Kelvin sign). *)
Definition lower (c : char) : char :=
  if in_range 65%N 90%N c then (c + 32)%N else c.

Definition ci_eq (p c : char) : bool :=
  (N.eqb (lower p) (lower c)
   || (N.eqb (lower p) 105%N && (N.eqb c 304%N || N.eqb c 305%N))
   || (N.eqb (lower p) 115%N && N.eqb c 383%N)
   || (N.eqb (lower p) 107%N && N.eqb c 8490%N))%bool.

Definition lits_i (s : str) : regex := cat (map (fun p => Cls (ci_eq p)) s).

(** [\w] on [str] patterns: alphanumeric or underscore.  The ASCII part
    is fixed here; Unicode's alphanumeric table for the other code
    points is a parameter [uni]. *)
Definition is_word (uni : char -> bool) (c : char) : bool :=
  if N.ltb c 128%N
  then (in_range 48%N 57%N c || in_range 65%N 90%N c || in_range 97%N 122%N c
        || N.eqb c 95%N)%bool
  else uni c.

(** [re.escape(s)]: a backslash before each special character. *)
Definition is_special (c : char) : bool :=
  existsb (N.eqb c)
    (py "()[]{}?*+-|^$\.&~# " ++ [9%N; 10%N; 13%N; 11%N; 12%N]).

Fixpoint escape (s : str) : str :=
  match s with
  | [] => []
  | c :: t => if is_special c then BSL :: c :: escape t else c :: escape t
  end.

End Re.

(** ** The script *)

(** [fail(msg)] prints the message and exits; the functions below return
    the failure instead.  The section name only occurs in the messages
    and is not a parameter here. *)
Inductive error : Type :=
| StartMismatch                       (* start does not match expected pattern *)
| MissingOpenBrace                    (* missing '{' after the start literal *)
| AutoFixFailed (opens closes : nat)  (* brace auto-fix failed *)
| SurplusNotAtEOF (opens closes : nat)(* surplus closers not only at EOF *)
| BraceMismatch (opens closes : nat). (* set AUTO_FIX_BRACES=true ... *)

Inductive result (A : Type) : Type :=
| Ok (a : A)
| Fail (e : error).
Arguments Ok {A} a.
Arguments Fail {A} e.

(** Outcome of [compare]: [Mismatch] carries the two line lists the
    unified diff is printed from. *)
Inductive comparison : Type :=
| Match
| Mismatch (exp_lines got_lines : list str).

(** The patterns of the script. *)
Definition re_ws_run : Re.regex := Re.Plus Re.ws.                (* \s+ *)

Definition re_bs_ws : Re.regex :=                                (* (\\\s)+ *)
  Re.Plus (Re.Seq (Re.Lit BSL) Re.ws).

Definition re_span (d : char) : Re.regex :=                  (* d\\*.*?\\*d *)
  Re.cat [Re.Lit d; Re.Star true (Re.Lit BSL); Re.Star false Re.any_dotall;
          Re.Star true (Re.Lit BSL); Re.Lit d].

Definition re_razor_block : Re.regex := re_span (chr "@").    (* @\\*.*?\\*@ *)
Definition re_cs_block : Re.regex := re_span (chr "/").       (* /\\*.*?\\*/ *)

Definition re_cs_line : Re.regex :=                              (* //.* *)
  Re.cat [Re.Lit (chr "/"); Re.Lit (chr "/"); Re.Star true Re.any_line].

Definition re_if_open : Re.regex :=               (* @if\s*\([^\)]*\)\s*\{ *)
  Re.cat [Re.lits (py "@if"); Re.Star true Re.ws; Re.Lit (chr "(");
          Re.Star true (Re.Cls (fun c => negb (N.eqb c (chr ")"))));
          Re.Lit (chr ")"); Re.Star true Re.ws; Re.Lit LBRACE].

(** <!--\s*REGION:\s*\w+\.Start\s*-->  and the same with [End], both
    with [re.IGNORECASE] *)
Definition re_region (uni : char -> bool) (tag : string) : Re.regex :=
  Re.cat [Re.lits (py "<!--"); Re.Star true Re.ws; Re.lits_i (py "REGION:");
          Re.Star true Re.ws; Re.Plus (Re.Cls (Re.is_word uni));
          Re.lits_i (py "."); Re.lits_i (py tag); Re.Star true Re.ws;
          Re.lits (py "-->")].

Definition norm_ws (s : str) : str := Py.strip (Re.sub re_ws_run [SP] s).

Definition strip_region_wrappers (uni : char -> bool) (s : str) : str :=
  let s1 := Re.sub (re_region uni "Start") [] s in
  Re.sub (re_region uni "End") [] s1.

(** Compilation of the pattern text built by [find_ws_insensitive].
    The text comes from [re.escape] followed by the rewriting of
    escaped whitespace runs: every character special to [re] is
    escaped, so the text is a sequence of atoms (a plain character, an
    escaped character, the class [\s]), and the only unescaped special
    character is the [+] of the replacement text, which quantifies the
    atom before it. *)
Fixpoint compile (p : str) : Re.regex :=
  match p with
  | [] => Re.Eps
  | c :: t =>
      if N.eqb c BSL then
        match t with
        | [] => Re.Eps
        | d :: t' =>
            let atom := if N.eqb d (chr "s") then Re.ws else Re.Lit d in
            match t' with
            | e :: t'' => if N.eqb e (chr "+")
                          then Re.Seq (Re.Plus atom) (compile t'')
                          else Re.Seq atom (compile t')
            | [] => Re.Seq atom Re.Eps
            end
        end
      else
        match t with
        | e :: t' => if N.eqb e (chr "+")
                     then Re.Seq (Re.Plus (Re.Lit c)) (compile t')
                     else Re.Seq (Re.Lit c) (compile t)
        | [] => Re.Seq (Re.Lit c) Re.Eps
        end
  end.

Definition find_ws_insensitive (hay snippet : str) (start : nat)
  : option (nat * nat) :=
  let hay_n := Py.replace_crlf hay in
  let snip_n := Py.replace_crlf snippet in
  let esc := Re.escape snip_n in
  let pat := Re.sub re_bs_ws (py "\s+") esc in
  match Re.search (compile pat) (skipn start hay_n) with
  | Some (ms, me) => Some (start + ms, start + me)
  | None => None
  end.

Definition strip_razor_comments (s : str) : str :=
  let s1 := Re.sub re_razor_block [] s in
  let s2 := Re.sub re_cs_block [] s1 in
  Re.sub re_cs_line [] s2.

Definition is_code_line (ln : str) : bool :=
  let ls := Py.lstrip ln in
  (Py.startswith (py "@") ls || Py.startswith (py "{") ls
   || Py.startswith (py "}") ls || Py.contains (py "@if") ls
   || Py.contains (py "@foreach") ls || Py.contains (py "@switch") ls)%bool.

Definition brace_balance (block : str) : bool * nat * nat :=
  let lines := Py.splitlines block in
  let code_lines := filter is_code_line lines in
  let txt := strip_razor_comments (Py.join_lf code_lines) in
  let opens := Py.count LBRACE txt in
  let closes := Py.count RBRACE txt in
  (Nat.eqb opens closes, opens, closes).

(** One round of the comment-skipping loop of
    [ensure_starts_with_if_block] on the unread text [t = s[i:]]: an
    HTML comment, then a Razor comment, each followed by whitespace.
    The boolean is the loop's [advanced]. *)
Definition skip_comment (opener closer : str) (t : str) : str * bool :=
  if Py.startswith opener t then
    match Py.find closer t with
    | Some e => (Py.dropwhile Py.isspace (skipn (e + length closer) t), true)
    | None => (t, false)
    end
  else (t, false).

Definition skip_round (t : str) : str * bool :=
  let '(t1, a1) := skip_comment (py "<!--") (py "-->") t in
  let '(t2, a2) := skip_comment (py "@*") (py "*@") t1 in
  (t2, (a1 || a2)%bool).

Fixpoint skip_comments (fuel : nat) (t : str) : str :=
  match fuel with
  | 0 => t
  | S f => let '(t', advanced) := skip_round t in
           if advanced then skip_comments f t' else t'
  end.

(** The text [head] the opening-shape check looks at. *)
Definition block_head (block : str) : str :=
  let s := Py.lstrip_bom block in
  let t := Py.dropwhile Py.isspace s in
  skip_comments (S (length t)) t.

Definition ensure_starts_with_if_block (block start_literal : str)
  : result unit :=
  let head := block_head block in
  if negb (Py.startswith start_literal head) then Fail StartMismatch
  else match Re.search re_if_open head with
       | None => Fail MissingOpenBrace
       | Some _ => Ok tt
       end.

(** The trimming loop of [validate_and_maybe_fix]: [n] closers are still
    to be trimmed from the end of [t]; the result is the text left and
    the number trimmed. *)
Fixpoint trim_surplus (n : nat) (t : str) : str * nat :=
  match n with
  | 0 => (t, 0)
  | S n' =>
      if Py.endswith (py "}") t
      then let '(t', k) := trim_surplus n' (Py.rstrip (removelast t)) in
           (t', S k)
      else (t, 0)
  end.

(** [auto_fix] is the global [AUTO_FIX_BRACES]. *)
Definition validate_and_maybe_fix (auto_fix : bool)
           (expected start_literal : str) : result str :=
  match ensure_starts_with_if_block expected start_literal with
  | Fail e => Fail e
  | Ok _ =>
      let '(ok, opens, closes) := brace_balance expected in
      if ok then Ok expected else
      let delta := (Z.of_nat opens - Z.of_nat closes)%Z in
      if ((0 <? delta)%Z && auto_fix)%bool then
        let fixed := Py.rstrip expected
                     ++ (LF :: Py.times RBRACE (Z.to_nat delta)) ++ [LF] in
        let '(ok2, o2, c2) := brace_balance fixed in
        if ok2 then Ok fixed else Fail (AutoFixFailed o2 c2)
      else if (delta <? 0)%Z then
        let need := Z.to_nat (- delta) in
        let '(t, trimmed) := trim_surplus need (Py.rstrip expected) in
        if Nat.eqb trimmed need then
          let '(ok2, _, _) := brace_balance t in
          if ok2 then Ok t else Fail (SurplusNotAtEOF opens closes)
        else Fail (SurplusNotAtEOF opens closes)
      else Fail (BraceMismatch opens closes)
  end.

(** [_strip_leading_noise] works on the list of lines; [ls] below is
    [lines[i:]]. *)
Definition is_blank (l : str) : bool :=
  match Py.strip l with [] => true | _ => false end.

Fixpoint drop_blank (ls : list str) : list str :=
  match ls with
  | [] => []
  | l :: t => if is_blank l then drop_blank t else ls
  end.

(** The lines after the first line that contains [closer]. *)
Fixpoint after_closer (closer : str) (ls : list str) : option (list str) :=
  match ls with
  | [] => None
  | l :: t => if Py.contains closer l then Some t else after_closer closer t
  end.

Fixpoint noise_loop (fuel : nat) (ls : list str) : list str :=
  match fuel with
  | 0 => ls
  | S f =>
      match ls with
      | [] => []
      | l :: _ =>
          let line := Py.lstrip l in
          if Py.startswith (py "<!--") line then
            match after_closer (py "-->") ls with
            | Some rest => noise_loop f (drop_blank rest)
            | None => ls
            end
          else if Py.startswith (py "@*") line then
            match after_closer (py "*@") ls with
            | Some rest => noise_loop f (drop_blank rest)
            | None => ls
            end
          else ls
      end
  end.

Definition strip_lines (lines : list str) : list str :=
  noise_loop (length lines) (drop_blank lines).

Definition _strip_leading_noise (s : str) : str :=
  let lines := Py.splitlines (Py.lstrip_bom s) in
  Py.join_lf (strip_lines lines).

(** [compare]: [got_raw] is the text [read(split_file)] returns. *)
Definition compare (uni : char -> bool) (expected got_raw : str)
  : comparison :=
  let got_core := strip_region_wrappers uni got_raw in
  let exp_n := _strip_leading_noise expected in
  let got_n := _strip_leading_noise got_core in
  if str_eqb (norm_ws exp_n) (norm_ws got_n) then Match
  else Mismatch (Py.splitlines exp_n) (Py.splitlines got_n).

(** Helpers used to state the properties. *)

(** [a ++ "\n" ++ b] *)
Definition nl (a b : str) : str := a ++ LF :: b.

(** The verdict of [brace_balance]. *)
Definition balanced (block : str) : bool := fst (fst (brace_balance block)).

(** A tail made of closing tokens, each preceded by the whitespace
    [g] of [gaps], and followed by the whitespace [w]. *)
Definition trailing (gaps : list str) (w : str) : str :=
  flat_map (fun g => g ++ [RBRACE]) gaps ++ w.

Definition all_space (s : str) : bool := forallb Py.isspace s.

(** The text after the first occurrence of the character [d]. *)
Fixpoint after_first (d : char) (s : str) : option str :=
  match s with
  | [] => None
  | c :: t => if N.eqb d c then Some t else after_first d t
  end.

(** What [re.sub] with the pattern [re_span d] and an empty replacement
    computes, written as a scan: outside a span ([inside = false]) a
    [d] that has a later [d] opens a span, inside a span everything up
    to and including the next [d] is dropped. *)
Fixpoint drop_spans (d : char) (inside : bool) (s : str) : str :=
  match s with
  | [] => []
  | c :: t =>
      if inside then drop_spans d (negb (N.eqb d c)) t
      else if (N.eqb d c && existsb (N.eqb d) t)%bool
           then drop_spans d true t
           else c :: drop_spans d false t
  end.

(** The four section kinds and their start literals. *)
Inductive section_kind : Type := Student | Company | Professor | ResearchGroup.

Definition start_literal (k : section_kind) : str :=
  match k with
  | Student => py "@if (!isInitializedAsStudentUser)"
  | Company => py "@if (!isInitializedAsCompanyUser)"
  | Professor => py "@if (!isInitializedAsProfessorUser)"
  | ResearchGroup => py "@if (!isInitializedAsResearchGroupUser)"
  end.

(** Concrete texts used in the examples. *)
Definition ex_line_comment : str :=
  nl (py "@if (a)") (nl (py "{") (py "} // was: if (b) {")).

Definition ex_unanchored : str :=
  py "@if (!isInitializedAsStudentUser) <p>x</p> @if (y) { }".

Definition ex_crlf_hay : str := CR :: LF :: nl (py "@if (x)") (py "{").
Definition ex_anchor : str := nl (py "@if (x)") (py "{").

Definition ex_uncounted_closer : str :=
  nl (py "@if (a)") (nl (py "{") (nl (py "}") (nl (py "}") (py "<p> }")))).

Definition ex_surplus : str :=
  nl (py "@if (a)") (nl (py "{") (nl (py "}") (nl (py "}") (py " } ")))).

Definition ex_balanced : str := nl (py "@if (a)") (nl (py "{") (py "}")).

Definition ex_underclosed : str :=
  nl (py "@if (a)") (nl (py "{") (nl (py "{") (py "  "))).

(** A line free of line boundary characters. *)
Definition no_linebreak (l : str) : bool :=
  forallb (fun c => negb (Py.is_linebreak c)) l.

(** The line terminators the script's inputs end with. *)
Definition is_terminator (t : str) : Prop :=
  t = [LF] \/ t = [CR] \/ t = [CR; LF].

Definition ex_noisy_head : str :=
  nl [] (nl (py "<!-- note -->") (nl [] (nl (py "@if (a)") (py "{")))).

(** What a greedy and a lazy star over a character class compute, by
    recursion on the text. *)
Fixpoint greedy_cls (p : char -> bool) (k : Re.cont) (s : str) : option str :=
  match s with
  | [] => k []
  | c :: t =>
      if p c
      then match greedy_cls p k t with
           | Some r => Some r
           | None => k s
           end
      else k s
  end.

Fixpoint lazy_cls (p : char -> bool) (k : Re.cont) (s : str) : option str :=
  match k s with
  | Some r => Some r
  | None => match s with
            | [] => None
            | c :: t => if p c then lazy_cls p k t else None
            end
  end.
(** The continuation of the closing delimiter [d] of a span pattern. *)
Definition close_k (d : char) (s : str) : option str :=
  match s with
  | c :: r => if N.eqb d c then Some r else None
  | [] => None
  end.

(** In [z] the character [d] is never followed by another [d]. *)
Definition lone (d : char) (z : str) : Prop :=
  forall y, after_first d z = Some y -> existsb (N.eqb d) y = false.

(** The lines of [a ++ c :: y] when the lines of [a ++ [c]] are
    [init ++ [l ++ [c]]]: the first line of [y] continues the line of
    [c]. *)
Definition continue_line (l : str) (c : char) (ys : list str) : list str :=
  match ys with
  | [] => [l ++ [c]]
  | l0 :: ls => (l ++ c :: l0) :: ls
  end.
(** The separator ["\n".join] puts before a line appended to [ls]. *)
Definition sep (ls : list str) : str :=
  match ls with [] => [] | _ :: _ => [LF] end.

(** The text whose tokens [brace_balance] counts, before stripping. *)
Definition code_text (block : str) : str :=
  Py.join_lf (filter is_code_line (Py.splitlines block)).

Definition no_space (kw : str) : bool :=
  forallb (fun c => negb (Py.isspace c)) kw.

(** What [re.sub] with [\s+] and the replacement [" "] computes:
    [in_run] tells that the previous character was whitespace. *)
Fixpoint collapse (in_run : bool) (s : str) : str :=
  match s with
  | [] => []
  | c :: t =>
      if Py.isspace c
      then if in_run then collapse true t else SP :: collapse true t
      else c :: collapse false t
  end.

(** Lines [B] that hold one leading comment: the first line opens it
    and the last line is the first one that holds the closer. *)
Definition comment_block (opener closer : str) (B : list str) : Prop :=
  match B with
  | [] => False
  | c1 :: _ => Py.startswith opener (Py.lstrip c1) = true
  end
  /\ after_closer closer B = Some [].

(** Head noise: blank lines and comments that occupy whole lines. *)
Inductive noise_prefix : list str -> Prop :=
| noise_nil : noise_prefix []
| noise_blank (l : str) (P : list str) :
    is_blank l = true -> noise_prefix P -> noise_prefix (l :: P)
| noise_html (B P : list str) :
    comment_block (py "<!--") (py "-->") B -> noise_prefix P ->
    noise_prefix (B ++ P)
| noise_razor (B P : list str) :
    comment_block (py "@*") (py "*@") B -> noise_prefix P ->
    noise_prefix (B ++ P).

(** The text of the lines [P], each ended by a line feed. *)
Definition lines_text (P : list str) : str :=
  flat_map (fun l => l ++ [LF]) P.

(** [L'] is [L] with whitespace added after its last line: at the end
    of that line and as further lines. *)
Inductive tail_ext : list str -> list str -> Prop :=
| te_nil (Ls : list str) :
    Forall (fun l => all_space l = true) Ls -> tail_ext [] Ls
| te_last (l : str) (c : char) (l0 : str) (Ls : list str) :
    Py.isspace c = false -> all_space l0 = true ->
    Forall (fun l => all_space l = true) Ls ->
    tail_ext [l ++ [c]] (((l ++ [c]) ++ l0) :: Ls)
| te_cons (x : str) (L L' : list str) :
    tail_ext L L' -> L <> [] -> tail_ext (x :: L) (x :: L').

(** ASCII letters, digits and the underscore: word characters whatever
    the Unicode table says. *)
Definition ident_char (c : char) : bool :=
  (in_range 48%N 57%N c || in_range 65%N 90%N c || in_range 97%N 122%N c
   || N.eqb c 95%N)%bool.

(** The region marker [<!-- REGION: name.tag -->]. *)
Definition region_marker (name : str) (tag : string) : str :=
  py "<!--" ++ SP :: py "REGION:" ++ SP :: name
  ++ py "." ++ py tag ++ SP :: py "-->".

(** No nonempty end of [x], continued by [rest], begins with the HTML
    comment opener. *)
Definition opener_free (x rest : str) : Prop :=
  forall x1 x2, x = x1 ++ x2 -> x2 <> [] ->
                Py.startswith (py "<!--") (x2 ++ rest) = false.

(** A table for the non-ASCII word characters that holds none; the
    examples below are ASCII texts, on which the table is not read. *)
Definition no_unicode_words : char -> bool := fun _ => false.

Definition ex_expected : str := nl (py "@if (a)") (py "{ }").

(** [ex_expected] between the Student markers, after a blank line. *)
Definition ex_wrapped : str :=
  lines_text [[]] ++ region_marker (py "Student") "Start"
  ++ (LF :: ex_expected ++ [LF])
  ++ region_marker (py "Student") "End" ++ [LF].

(** [ex_expected] between the Student markers, with a leading comment
    on the line of the guard. *)
Definition ex_wrapped_comment : str :=
  nl (py "<!-- REGION: Student.Start -->")
     (nl (py "<!-- generated --> @if (a)")
         (nl (py "{ }") (nl (py "<!-- REGION: Student.End -->") []))).

(** ** The extractors *)

(** A text between double quotes. *)
Definition dq (s : str) : str := 34%N :: s ++ [34%N].

(** The start anchors: the guard, a line break and the opening token,
    and the same with the token indented by 32 spaces. *)
Definition anchor_primary (k : section_kind) : str :=
  start_literal k ++ LF :: py "{".

Definition anchor_fallback (k : section_kind) : str :=
  start_literal k ++ LF :: py "                                {".

(** The interior landmarks. *)
Definition student_button : str :=
  py "<button type=" ++ dq (py "button") ++ py " class="
  ++ dq (py "btn btn-secondary") ++ py " @onclick="
  ++ dq (py "CloseJobDetailsModal") ++ py ">".

Definition company_landmark : str :=
  py "@onclick="
  ++ dq (py "CloseModalResearchGroupDetailsOnEyeIconWhenSearchForResearchGroupsAsCompany").

Definition professor_landmark : str := py "<canvas id=" ++ dq (py "skillsChart").

Definition research_landmark : str :=
  py "@onclick=" ++ dq (py "ClosePatentsModal").

(** Pieces of the closing patterns, all compiled with [re.DOTALL]:
    '</div>\s*', '<br/>\s*' and '}\s*'. *)
Definition div_ws : list Re.regex := [Re.lits (py "</div>"); Re.Star true Re.ws].
Definition br_ws : list Re.regex := [Re.lits (py "<br/>"); Re.Star true Re.ws].
Definition rb_ws : list Re.regex := [Re.Lit RBRACE; Re.Star true Re.ws].

(** Student: r'</div>\s*</div>\s*</div>\s*</div>\s*}\s*}\s*' followed by
    the optional non-capturing group of '}' and '\s*'. *)
Definition re_student_closing : Re.regex :=
  Re.cat (div_ws ++ div_ws ++ div_ws ++ div_ws ++ rb_ws ++ rb_ws
          ++ [Re.Opt (Re.cat rb_ws)]).

(** Company and ResearchGroup:
    r'</div>\s*</div>\s*</div>\s*</div>\s*}' *)
Definition re_four_div_closing : Re.regex :=
  Re.cat (div_ws ++ div_ws ++ div_ws ++ div_ws ++ [Re.Lit RBRACE]).

(** [tail_a]: r'</div>\s*</div>\s*</div>\s*</div>\s*<br/>\s*<br/>\s*' *)
Definition re_tail_a : Re.regex :=
  Re.cat (div_ws ++ div_ws ++ div_ws ++ div_ws ++ br_ws ++ br_ws).

(** [tail_b]:
    r'</div>\s*</div>\s*}\s*</div>\s*</div>\s*</div>\s*<br/>\s*<br/>\s*' *)
Definition re_tail_b : Re.regex :=
  Re.cat (div_ws ++ div_ws ++ rb_ws ++ div_ws ++ div_ws ++ div_ws
          ++ br_ws ++ br_ws).

(** [tail_c]: r'</div>\s*</div>\s*</div>\s*<br/>\s*<br/>\s*}\s*' *)
Definition re_tail_c : Re.regex :=
  Re.cat (div_ws ++ div_ws ++ div_ws ++ br_ws ++ br_ws ++ rb_ws).

(** The failures of an extractor: its own three, and those of the
    validation it ends with. *)
Inductive extract_error : Type :=
| StartNotFound
| EndAnchorNotFound
| ClosingNotFound
| Invalid (e : error).

Inductive extraction : Type :=
| Extracted (block : str)
| ExtractFailed (e : extract_error).

(** [s[a:b]] *)
Definition slice (a b : nat) (s : str) : str := firstn (b - a) (skipn a s).

(** [s_start]: the primary anchor, then the fallback. *)
Definition find_start (k : section_kind) (monolith : str) : option nat :=
  match find_ws_insensitive monolith (anchor_primary k) 0 with
  | Some (s_start, _) => Some s_start
  | None =>
      match find_ws_insensitive monolith (anchor_fallback k) 0 with
      | Some (s_start, _) => Some s_start
      | None => None
      end
  end.

Definition validated (auto_fix : bool) (k : section_kind) (expected : str)
  : extraction :=
  match validate_and_maybe_fix auto_fix expected (start_literal k) with
  | Ok block => Extracted block
  | Fail e => ExtractFailed (Invalid e)
  end.

(** The common course of [extract_student], [extract_company] and
    [extract_research]: start anchor, landmark after it, one closing
    pattern after the landmark, validation of the slice. *)
Definition extract_one (auto_fix : bool) (k : section_kind)
           (landmark : str) (closing : Re.regex) (monolith : str)
  : extraction :=
  match find_start k monolith with
  | None => ExtractFailed StartNotFound
  | Some s_start =>
      match find_ws_insensitive (skipn s_start monolith) landmark 0 with
      | None => ExtractFailed EndAnchorNotFound
      | Some (_, btn_end) =>
          let btn_abs_end := s_start + btn_end in
          match Re.search closing (skipn btn_abs_end monolith) with
          | None => ExtractFailed ClosingNotFound
          | Some (_, m_end) =>
              let expected := slice s_start (btn_abs_end + m_end) monolith in
              validated auto_fix k expected
          end
      end
  end.

Definition extract_student (auto_fix : bool) (monolith : str) : extraction :=
  extract_one auto_fix Student student_button re_student_closing monolith.

Definition extract_company (auto_fix : bool) (monolith : str) : extraction :=
  extract_one auto_fix Company company_landmark re_four_div_closing monolith.

Definition extract_research (auto_fix : bool) (monolith : str) : extraction :=
  extract_one auto_fix ResearchGroup research_landmark re_four_div_closing
              monolith.

(** [tail_a.search(segment) or tail_b.search(segment) or
    tail_c.search(segment)] *)
Definition professor_tail (segment : str) : option (nat * nat) :=
  match Re.search re_tail_a segment with
  | Some m => Some m
  | None => match Re.search re_tail_b segment with
            | Some m => Some m
            | None => Re.search re_tail_c segment
            end
  end.

Definition extract_professor (auto_fix : bool) (monolith : str) : extraction :=
  match find_start Professor monolith with
  | None => ExtractFailed StartNotFound
  | Some s_start =>
      match find_ws_insensitive (skipn s_start monolith)
                                professor_landmark 0 with
      | None => ExtractFailed EndAnchorNotFound
      | Some (_, canv_end) =>
          let canv_abs_end := s_start + canv_end in
          match professor_tail (skipn canv_abs_end monolith) with
          | None => ExtractFailed ClosingNotFound
          | Some (_, m_end) =>
              let expected := slice s_start (canv_abs_end + m_end) monolith in
              validated auto_fix Professor expected
          end
      end
  end.

(** The role name inside the guard of a section. *)
Definition guard_name (k : section_kind) : str :=
  match k with
  | Student => py "Student"
  | Company => py "Company"
  | Professor => py "Professor"
  | ResearchGroup => py "ResearchGroup"
  end.

(** The condition of the guard, with its parentheses. *)
Definition guard_cond (k : section_kind) : str :=
  py "(!isInitializedAs" ++ guard_name k ++ py "User)".

(** The pattern the start anchors compile to: [@if], whitespace, the
    condition, whitespace, the opening token. *)
Definition anchor_regex (k : section_kind) : Re.regex :=
  Re.cat (map Re.Lit (py "@if") ++ Re.Plus Re.ws
          :: map Re.Lit (guard_cond k) ++ [Re.Plus Re.ws; Re.Lit LBRACE]).

(** The extractor of a section. *)
Definition extract (auto_fix : bool) (k : section_kind) (monolith : str)
  : extraction :=
  match k with
  | Student => extract_student auto_fix monolith
  | Company => extract_company auto_fix monolith
  | Professor => extract_professor auto_fix monolith
  | ResearchGroup => extract_research auto_fix monolith
  end.

(** A small monolith with a Company section between two other texts. *)
Definition ex_monolith : str :=
  nl (py "<header/>")
  (nl (py "@if (!isInitializedAsCompanyUser)")
  (nl (py "{")
  (nl (py "<div><div><div><div>")
  (nl (py "<a " ++ company_landmark ++ py ">x</a>")
  (nl (py "</div> </div>")
  (nl (py "</div></div>")
  (nl (py "}")
      (py "<footer/>")))))))).

(** The section of [ex_monolith]. *)
Definition ex_section : str :=
  nl (py "@if (!isInitializedAsCompanyUser)")
  (nl (py "{")
  (nl (py "<div><div><div><div>")
  (nl (py "<a " ++ company_landmark ++ py ">x</a>")
  (nl (py "</div> </div>")
  (nl (py "</div></div>")
      (py "}")))))).

(** [s'] is what is left of [s] after some prefix. *)
Definition suffix_of (s' s : str) : Prop := exists pre, s = pre ++ s'.

(** Occurrences of [x] in a list of lines. *)
Definition line_count (x : char) (ls : list str) : nat :=
  fold_right (fun l n => Py.count x l + n) 0 ls.

(** ** Texts that differ in their whitespace runs only *)

(** The text is empty or begins with a character that is not
    whitespace. *)
Definition starts_plain (s : str) : bool :=
  match s with
  | [] => true
  | c :: _ => negb (Py.isspace c)
  end.

(** [ws_variant s t]: [t] is [s] with each of its whitespace runs
    replaced by some non-empty run of whitespace. *)
Inductive ws_variant : str -> str -> Prop :=
| wv_nil : ws_variant [] []
| wv_char (c : char) (s t : str) :
    Py.isspace c = false -> ws_variant s t -> ws_variant (c :: s) (c :: t)
| wv_run (w w' s t : str) :
    w <> [] -> w' <> [] -> all_space w = true -> all_space w' = true ->
    starts_plain s = true -> ws_variant s t ->
    ws_variant (w ++ s) (w' ++ t).

(** Every whitespace character of the text is one of the six
    [re.escape] puts a backslash before (space, [\t], [\n], [\r],
    [\v], [\f]). *)
Definition ascii_ws_only (s : str) : bool :=
  forallb (fun c => implb (Py.isspace c) (Re.is_special c)) s.

(** The pattern [find_ws_insensitive] searches for: a literal for each
    character that is not whitespace and [\s+] for each whitespace
    run; [in_run] tells that the previous character was whitespace. *)
Fixpoint ws_pattern (in_run : bool) (s : str) : Re.regex :=
  match s with
  | [] => Re.Eps
  | c :: t =>
      if Py.isspace c
      then if in_run then ws_pattern true t
           else Re.Seq (Re.Plus Re.ws) (ws_pattern true t)
      else Re.Seq (Re.Lit c) (ws_pattern false t)
  end.

(** What the greedy star of [(\\\s)+] leaves: the text after its
    leading pairs of a backslash and a whitespace character. *)
Fixpoint strip_pairs (x : str) : str :=
  match x with
  | a :: t =>
      if N.eqb a BSL then
        match t with
        | b :: t' => if Py.isspace b then strip_pairs t' else x
        | [] => x
        end
      else x
  | [] => []
  end.

(** A guard written with two blanks and its opening token on an
    indented line of its own, after a line of markup. *)
Definition ex_spaced_hay : str :=
  nl (py "<p>") (nl (py "@if  (x)") (py "   {")).

(** ** Reading a file *)

(** Text mode with universal newlines, as [Path.read_text] opens a
    file: [\r\n] and a lone [\r] both become [\n]. *)
Fixpoint universal_newlines (s : str) : str :=
  match s with
  | [] => []
  | c :: t =>
      if N.eqb c CR
      then LF :: match t with
                 | d :: t' => if N.eqb d LF then universal_newlines t'
                              else universal_newlines t
                 | [] => []
                 end
      else c :: universal_newlines t
  end.

(** [read(p)] on an existing file whose bytes decode to [decoded]
    (undecodable bytes are dropped by [errors="ignore"]). *)
Definition read_text (decoded : str) : str := universal_newlines decoded.

(** The condition of a guard, between its parentheses. *)
Definition guard_test (k : section_kind) : str :=
  py "!isInitializedAs" ++ guard_name k ++ py "User".

(** ** Closing tokens at the end of a block *)

(** A character of a tail of closing tokens: whitespace or [}]. *)
Definition closer_or_space (c : char) : bool :=
  (Py.isspace c || N.eqb c RBRACE)%bool.

(** The last line of a text, as [splitlines] cuts it. *)
Definition last_line (t : str) : str := last (Py.splitlines t) [].

(** The separator ["\n".join] puts between two lists of lines. *)
Definition sep2 (A B : list str) : str :=
  match A, B with
  | [], _ => []
  | _, [] => []
  | _, _ => [LF]
  end.

(** A block with one closing token too many, whose last closing token
    follows markup on its line. *)
Definition ex_closer_after_markup : str :=
  nl (py "@if (a)") (nl (py "{") (nl (py "}") (nl (py "}") (py "</div> }")))).

(** Closing tokens that follow the text [R] on its last line and that
    [brace_balance] does not count: those on the first line of [Z] when
    the last line of [R] is not one of the lines [brace_balance] reads. *)
Definition uncounted (R Z : str) : nat :=
  match R with
  | [] => 0
  | _ :: _ => if is_code_line (last_line R) then 0
              else Py.count RBRACE (hd [] (Py.splitlines Z))
  end.

(** ** Region markers in any spelling *)

(** [s] matches the ASCII text [p] under [re.IGNORECASE], character by
    character. *)
Fixpoint ci_match (p s : str) : bool :=
  match p, s with
  | [], [] => true
  | a :: p', c :: s' => (Re.ci_eq a c && ci_match p' s')%bool
  | _, _ => false
  end.

(** The comment [<!--][w1][R][w2][name][.][T][w3][-->]. *)
Definition marker_text (w1 R w2 name T w3 : str) : str :=
  py "<!--" ++ w1 ++ R ++ w2 ++ name ++ py "." ++ T ++ w3 ++ py "-->".

(** A region marker of the tag [tag] ([Start] or [End]) in any spelling
    the pattern of [strip_region_wrappers] accepts: the word [REGION:]
    and the tag in any letter case, any whitespace (or none) after the
    comment opener, after the colon and before the comment closer, and
    a name made of word characters. *)
Inductive is_marker (uni : char -> bool) (tag : string) : str -> Prop :=
| is_marker_intro (w1 R w2 name T w3 : str) :
    all_space w1 = true -> ci_match (py "REGION:") R = true ->
    all_space w2 = true ->
    name <> [] -> forallb (Re.is_word uni) name = true ->
    ci_match (py tag) T = true -> all_space w3 = true ->
    is_marker uni tag (marker_text w1 R w2 name T w3).

(** One of the two patterns of [strip_region_wrappers] matches at the
    start of [s]; no pattern matches anywhere in [s]. *)
Definition marker_at (uni : char -> bool) (s : str) : bool :=
  match Re.match_at (re_region uni "Start") s,
        Re.match_at (re_region uni "End") s with
  | None, None => false
  | _, _ => true
  end.

Fixpoint marker_free (uni : char -> bool) (s : str) : bool :=
  (negb (marker_at uni s)
   && match s with
      | [] => true
      | _ :: t => marker_free uni t
      end)%bool.

(** [wrapped uni starts g s]: the text [g] is the text [s] with region
    markers put in, at any places and in any number: End markers, and
    Start markers when [starts] is set. *)
Inductive wrapped (uni : char -> bool) (starts : bool) : str -> str -> Prop :=
| wrapped_nil : wrapped uni starts [] []
| wrapped_char (c : char) (g s : str) :
    wrapped uni starts g s -> wrapped uni starts (c :: g) (c :: s)
| wrapped_start (m g s : str) :
    starts = true -> is_marker uni "Start" m ->
    wrapped uni starts g s -> wrapped uni starts (m ++ g) s
| wrapped_end (m g s : str) :
    is_marker uni "End" m ->
    wrapped uni starts g s -> wrapped uni starts (m ++ g) s.

(** The table of non-ASCII word characters holds no whitespace
    character, as is the case of Unicode's. *)
Definition no_space_words (uni : char -> bool) : Prop :=
  forall c, Py.isspace c = true -> uni c = false.

(** The characters of a tag: none matches [<] under [re.IGNORECASE]. *)
Definition tag_text (tag : string) : bool :=
  forallb (fun p => negb (N.eqb (Re.lower p) 60%N)) (py tag).

(** [ex_expected] after a comment line, between a Start and an End
    marker written in other letter cases and with other spacing. *)
Definition ex_start_marker : str :=
  marker_text [] (py "region:") [] (py "Student") (py "START") [].

Definition ex_end_marker : str :=
  marker_text [SP; SP] (py "Region:") [9%N] (py "Student") (py "end") [SP].

Definition ex_wrapped_spelled : str :=
  lines_text [py "<!-- generated -->"] ++ ex_start_marker
  ++ (LF :: ex_expected ++ [LF]) ++ ex_end_marker ++ [LF].

(** An expected text that holds a region marker of its own. *)
Definition ex_expected_marker : str :=
  nl (py "@if (a)") (nl (py "<!-- REGION: Student.Start -->") (py "{ }")).

(** * Supporting lemmas *)

(** ** Trailing whitespace and trailing closers *)

Lemma dropwhile_app_all :
  forall (p : char -> bool) (w s : str),
    forallb p w = true -> Py.dropwhile p (w ++ s) = Py.dropwhile p s.
Proof.
  induction w as [|c w IH]; intros s H; simpl in *; [reflexivity|].
  apply andb_prop in H as [Hc Hw]. rewrite Hc. now apply IH.
Qed.

Lemma forallb_rev :
  forall (p : char -> bool) (s : str), forallb p (rev s) = forallb p s.
Proof.
  induction s as [|c s IH]; simpl; [reflexivity|].
  rewrite forallb_app, IH. simpl. rewrite andb_true_r. apply andb_comm.
Qed.

Lemma rstrip_app_space :
  forall s w, all_space w = true -> Py.rstrip (s ++ w) = Py.rstrip s.
Proof.
  intros s w H. unfold Py.rstrip. rewrite rev_app_distr.
  rewrite dropwhile_app_all; [reflexivity|].
  unfold all_space in H. now rewrite forallb_rev.
Qed.

Lemma rstrip_snoc :
  forall s c, Py.isspace c = false -> Py.rstrip (s ++ [c]) = s ++ [c].
Proof.
  intros s c H. unfold Py.rstrip. rewrite rev_app_distr. simpl.
  rewrite H. simpl. now rewrite rev_involutive.
Qed.

Lemma endswith_closer_snoc :
  forall s, Py.endswith (py "}") (s ++ [RBRACE]) = true.
Proof.
  intros s. unfold Py.endswith. rewrite rev_app_distr. reflexivity.
Qed.

Lemma rbrace_not_space : Py.isspace RBRACE = false.
Proof. reflexivity. Qed.

Lemma trailing_snoc :
  forall gaps g w,
    trailing (gaps ++ [g]) w = trailing gaps (g ++ [RBRACE]) ++ w.
Proof.
  intros gaps g w. unfold trailing.
  rewrite flat_map_app. simpl. rewrite app_nil_r. now rewrite <- !app_assoc.
Qed.

(** Trimming the closers of a tail [trailing gaps w] from the end of
    [B ++ trailing gaps w] leaves [B] without its trailing whitespace;
    when more closers are asked for, trimming goes on in [B]. *)
Lemma trim_surplus_trailing :
  forall (gaps : list str) (B w : str) (n : nat),
    forallb all_space gaps = true -> all_space w = true ->
    trim_surplus (length gaps + n) (Py.rstrip (B ++ trailing gaps w))
    = let '(t, j) := trim_surplus n (Py.rstrip B) in (t, length gaps + j).
Proof.
  induction gaps as [|g gaps IH] using rev_ind; intros B w n Hg Hw.
  - unfold trailing. simpl. rewrite rstrip_app_space by assumption.
    now destruct (trim_surplus n (Py.rstrip B)).
  - rewrite forallb_app in Hg. apply andb_prop in Hg as [Hgs Hg1].
    simpl in Hg1. rewrite andb_true_r in Hg1.
    rewrite trailing_snoc. rewrite app_assoc, rstrip_app_space by assumption.
    unfold trailing at 1. rewrite !app_assoc.
    rewrite rstrip_snoc by apply rbrace_not_space.
    rewrite length_app. simpl length.
    replace (length gaps + 1 + n) with (S (length gaps + n)) by lia.
    cbn [trim_surplus]. rewrite endswith_closer_snoc, removelast_last.
    rewrite <- app_assoc.
    pose proof (IH B g n Hgs Hg1) as IH'. unfold trailing in IH'.
    rewrite IH'.
    destruct (trim_surplus n (Py.rstrip B)) as [t j].
    f_equal. lia.
Qed.

Lemma brace_balance_verdict :
  forall block ok o c, brace_balance block = (ok, o, c) -> ok = Nat.eqb o c.
Proof.
  intros block ok o c H. unfold brace_balance in H. now inversion H.
Qed.

(** With more closing than opening tokens, validation is the trimming
    branch, whatever the flag. *)
Lemma validate_surplus :
  forall (auto_fix : bool) (block lit : str) (ok : bool) (o c : nat),
    ensure_starts_with_if_block block lit = Ok tt ->
    brace_balance block = (ok, o, c) ->
    o < c ->
    validate_and_maybe_fix auto_fix block lit
    = let '(t, trimmed) := trim_surplus (c - o) (Py.rstrip block) in
      if Nat.eqb trimmed (c - o)
      then if balanced t then Ok t else Fail (SurplusNotAtEOF o c)
      else Fail (SurplusNotAtEOF o c).
Proof.
  intros auto_fix block lit ok o c Hshape Hbal Hlt.
  unfold validate_and_maybe_fix. rewrite Hshape, Hbal.
  rewrite (@brace_balance_verdict block ok o c Hbal).
  replace (Nat.eqb o c) with false by (symmetry; apply Nat.eqb_neq; lia).
  replace (0 <? Z.of_nat o - Z.of_nat c)%Z with false
    by (symmetry; apply Z.ltb_ge; lia).
  replace (Z.of_nat o - Z.of_nat c <? 0)%Z with true
    by (symmetry; apply Z.ltb_lt; lia).
  replace (Z.to_nat (- (Z.of_nat o - Z.of_nat c))) with (c - o) by lia.
  cbn [andb].
  destruct (trim_surplus (c - o) (Py.rstrip block)) as [t trimmed].
  destruct (Nat.eqb trimmed (c - o)); [|reflexivity].
  unfold balanced. now destruct (brace_balance t) as [[a b] d].
Qed.

(** With more opening than closing tokens and the flag off, validation
    fails with the mismatch error. *)
Lemma validate_deficit_no_flag :
  forall (block lit : str) (ok : bool) (o c : nat),
    ensure_starts_with_if_block block lit = Ok tt ->
    brace_balance block = (ok, o, c) ->
    c < o ->
    validate_and_maybe_fix false block lit = Fail (BraceMismatch o c).
Proof.
  intros block lit ok o c Hshape Hbal Hlt.
  unfold validate_and_maybe_fix. rewrite Hshape, Hbal.
  rewrite (@brace_balance_verdict block ok o c Hbal).
  replace (Nat.eqb o c) with false by (symmetry; apply Nat.eqb_neq; lia).
  rewrite andb_false_r.
  replace (Z.of_nat o - Z.of_nat c <? 0)%Z with false
    by (symmetry; apply Z.ltb_ge; lia).
  reflexivity.
Qed.

Lemma validate_trailing :
  forall (auto_fix : bool) (block lit B w : str) (gaps : list str)
         (ok : bool) (o c : nat),
    ensure_starts_with_if_block block lit = Ok tt ->
    brace_balance block = (ok, o, c) ->
    o < c ->
    block = B ++ trailing gaps w ->
    forallb all_space gaps = true -> all_space w = true ->
    length gaps = c - o ->
    validate_and_maybe_fix auto_fix block lit
    = if balanced (Py.rstrip B) then Ok (Py.rstrip B)
      else Fail (SurplusNotAtEOF o c).
Proof.
  intros auto_fix block lit B w gaps ok o c Hshape Hbal Hlt Hblock Hg Hw Hlen.
  rewrite (@validate_surplus auto_fix block lit ok o c Hshape Hbal Hlt).
  pose proof (@trim_surplus_trailing gaps B w 0 Hg Hw) as Ht.
  rewrite Nat.add_0_r, Hlen in Ht. subst block. rewrite Ht.
  cbn [trim_surplus]. rewrite Nat.add_0_r, Nat.eqb_refl. reflexivity.
Qed.

Lemma validate_too_few_closers :
  forall (auto_fix : bool) (block lit B w : str) (gaps : list str)
         (ok : bool) (o c : nat),
    ensure_starts_with_if_block block lit = Ok tt ->
    brace_balance block = (ok, o, c) ->
    o < c ->
    block = B ++ trailing gaps w ->
    forallb all_space gaps = true -> all_space w = true ->
    length gaps < c - o ->
    Py.endswith (py "}") (Py.rstrip B) = false ->
    validate_and_maybe_fix auto_fix block lit = Fail (SurplusNotAtEOF o c).
Proof.
  intros auto_fix block lit B w gaps ok o c Hshape Hbal Hlt Hblock Hg Hw
         Hlen Hend.
  rewrite (@validate_surplus auto_fix block lit ok o c Hshape Hbal Hlt).
  pose proof (@trim_surplus_trailing gaps B w (c - o - length gaps) Hg Hw)
    as Ht.
  replace (length gaps + (c - o - length gaps)) with (c - o) in Ht by lia.
  subst block. rewrite Ht.
  destruct (c - o - length gaps) as [|m] eqn:Hm; [lia|].
  cbn [trim_surplus]. rewrite Hend.
  replace (Nat.eqb (length gaps + 0) (c - o)) with false
    by (symmetry; apply Nat.eqb_neq; lia).
  reflexivity.
Qed.

Lemma dropwhile_decomp :
  forall (p : char -> bool) (s : str),
    exists w, forallb p w = true /\ s = w ++ Py.dropwhile p s.
Proof.
  induction s as [|c s [w [Hw Hs]]]; simpl.
  - now exists [].
  - destruct (p c) eqn:Hc.
    + exists (c :: w). simpl. rewrite Hc, Hw. split; [reflexivity|].
      now f_equal.
    + now exists [].
Qed.

Lemma rstrip_decomp :
  forall s, exists w, all_space w = true /\ s = Py.rstrip s ++ w.
Proof.
  intros s. destruct (dropwhile_decomp Py.isspace (rev s)) as [w [Hw Hs]].
  exists (rev w). split.
  - unfold all_space. now rewrite forallb_rev.
  - unfold Py.rstrip. rewrite <- rev_app_distr, <- Hs.
    now rewrite rev_involutive.
Qed.

Lemma endswith_closer_inv :
  forall t, Py.endswith (py "}") t = true -> exists t0, t = t0 ++ [RBRACE].
Proof.
  intros t H. unfold Py.endswith in H.
  change (rev (py "}")) with [RBRACE] in H.
  destruct (rev t) as [|x r] eqn:Hr; cbn [Py.startswith] in H;
    [discriminate|].
  rewrite andb_true_r in H. apply N.eqb_eq in H. subst x.
  exists (rev r). rewrite <- (rev_involutive t), Hr. reflexivity.
Qed.

(** Whatever [trim_surplus] removes is a tail of closing tokens and
    whitespace. *)
Lemma trim_surplus_decomp :
  forall (n : nat) (t t' : str) (j : nat),
    trim_surplus n t = (t', j) ->
    exists gaps, forallb all_space gaps = true /\ length gaps = j
                 /\ t = t' ++ trailing gaps [].
Proof.
  induction n as [|n IH]; intros t t' j H; simpl in H.
  - inversion H; subst. exists []. unfold trailing. simpl.
    now rewrite app_nil_r.
  - destruct (Py.endswith (py "}") t) eqn:He.
    + destruct (endswith_closer_inv t He) as [t0 Ht0]. subst t.
      rewrite removelast_last in H.
      destruct (trim_surplus n (Py.rstrip t0)) as [t1 k] eqn:Hrec.
      inversion H; subst.
      destruct (IH _ _ _ Hrec) as [gaps [Hg [Hlen Hdec]]].
      destruct (rstrip_decomp t0) as [w [Hw Hdw]].
      exists (gaps ++ [w]). repeat split.
      * rewrite forallb_app, Hg. simpl. now rewrite Hw.
      * rewrite length_app. simpl. lia.
      * rewrite trailing_snoc. rewrite app_nil_r.
        unfold trailing in *. rewrite app_nil_r in Hdec.
        rewrite Hdw at 1. rewrite Hdec. now rewrite <- !app_assoc.
    + inversion H; subst. exists []. unfold trailing. simpl.
      now rewrite app_nil_r.
Qed.

(** A block returned by the trimming branch is a prefix of the input;
    the removed tail holds closing tokens and whitespace only. *)
Lemma validate_surplus_prefix :
  forall (auto_fix : bool) (block lit r : str) (ok : bool) (o c : nat),
    ensure_starts_with_if_block block lit = Ok tt ->
    brace_balance block = (ok, o, c) ->
    o < c ->
    validate_and_maybe_fix auto_fix block lit = Ok r ->
    exists gaps w, forallb all_space gaps = true /\ all_space w = true
                   /\ length gaps = c - o /\ block = r ++ trailing gaps w
                   /\ balanced r = true.
Proof.
  intros auto_fix block lit r ok o c Hshape Hbal Hlt Hres.
  rewrite (@validate_surplus auto_fix block lit ok o c Hshape Hbal Hlt) in Hres.
  destruct (trim_surplus (c - o) (Py.rstrip block)) as [t j] eqn:Ht.
  destruct (Nat.eqb j (c - o)) eqn:Hj; [|discriminate].
  destruct (balanced t) eqn:Hb; [|discriminate].
  inversion Hres; subst r. apply Nat.eqb_eq in Hj.
  destruct (trim_surplus_decomp _ _ Ht) as [gaps [Hg [Hlen Hdec]]].
  destruct (rstrip_decomp block) as [w [Hw Hdw]].
  exists gaps, w. repeat split; try assumption; [lia|].
  rewrite Hdw at 1. rewrite Hdec. unfold trailing.
  now rewrite !app_nil_r, <- app_assoc.
Qed.

(** ** Lines: [splitlines] and [join_lf] *)

Lemma splitlines_cons_plain :
  forall c t, Py.is_linebreak c = false ->
    Py.splitlines (c :: t)
    = match Py.splitlines t with
      | [] => [[c]]
      | l :: ls => (c :: l) :: ls
      end.
Proof. intros c t H. cbn [Py.splitlines]. now rewrite H. Qed.

Lemma splitlines_cons_break :
  forall c t, Py.is_linebreak c = true ->
    Py.splitlines (c :: t)
    = [] :: match t with
            | d :: t' => if (N.eqb c CR && N.eqb d LF)%bool
                         then Py.splitlines t' else Py.splitlines t
            | [] => []
            end.
Proof. intros c t H. cbn [Py.splitlines]. now rewrite H. Qed.

(** Induction on texts that follows the recursion of [splitlines]:
    after a line boundary one or two characters are consumed. *)
Lemma str_ind2 :
  forall P : str -> Prop,
    P [] ->
    (forall c, P [] -> P [c]) ->
    (forall c d t, P t -> P (d :: t) -> P (c :: d :: t)) ->
    forall s, P s.
Proof.
  intros P H0 H1 H2 s.
  assert (H : P s /\ forall c, P (c :: s)); [|tauto].
  induction s as [|d t [IHt IHc]]; split; auto.
Qed.

Lemma splitlines_no_linebreak :
  forall s, Forall (fun l => no_linebreak l = true) (Py.splitlines s).
Proof.
  induction s as [|c _|c d t IHt IHd] using str_ind2.
  - constructor.
  - cbn [Py.splitlines].
    destruct (Py.is_linebreak c) eqn:Hc; repeat constructor.
    unfold no_linebreak. simpl. now rewrite Hc.
  - destruct (Py.is_linebreak c) eqn:Hc.
    + rewrite splitlines_cons_break by assumption.
      constructor; [reflexivity|].
      now destruct (N.eqb c CR && N.eqb d LF)%bool.
    + rewrite splitlines_cons_plain by assumption.
      destruct (Py.splitlines (d :: t)) as [|l ls]; repeat constructor.
      * unfold no_linebreak. simpl. now rewrite Hc.
      * inversion IHd; subst. unfold no_linebreak in *. simpl.
        now rewrite Hc.
      * now inversion IHd.
Qed.

Lemma splitlines_line_lf :
  forall l z, no_linebreak l = true ->
    Py.splitlines (l ++ LF :: z) = l :: Py.splitlines z.
Proof.
  induction l as [|c l IH]; intros z H.
  - simpl app. rewrite splitlines_cons_break by reflexivity.
    now destruct z.
  - unfold no_linebreak in H. simpl in H. apply andb_prop in H as [Hc Hl].
    apply negb_true_iff in Hc. simpl app.
    rewrite splitlines_cons_plain by assumption. now rewrite IH.
Qed.

Lemma splitlines_single :
  forall l, l <> [] -> no_linebreak l = true -> Py.splitlines l = [l].
Proof.
  induction l as [|c l IH]; intros Hne H; [congruence|].
  unfold no_linebreak in H. simpl in H. apply andb_prop in H as [Hc Hl].
  apply negb_true_iff in Hc.
  rewrite splitlines_cons_plain by assumption.
  destruct l as [|d l]; [reflexivity|].
  rewrite IH; [reflexivity|discriminate|assumption].
Qed.

(** A final line terminator does not open a new line. *)
Lemma splitlines_terminator :
  forall t, is_terminator t ->
  forall c s, Py.is_linebreak c = false ->
    Py.splitlines (s ++ c :: t) = Py.splitlines (s ++ [c]).
Proof.
  intros t Ht c s Hc.
  assert (Hbase : Py.splitlines (c :: t) = Py.splitlines [c]).
  { rewrite !splitlines_cons_plain by assumption.
    destruct Ht as [-> | [-> | ->]]; reflexivity. }
  revert s. apply str_ind2.
  - exact Hbase.
  - intros x _. simpl app. destruct (Py.is_linebreak x) eqn:Hx.
    + rewrite !(@splitlines_cons_break x _ Hx).
      assert (N.eqb c LF = false) as ->.
      { apply N.eqb_neq. intros ->. discriminate. }
      rewrite andb_false_r. now rewrite Hbase.
    + rewrite !(@splitlines_cons_plain x _ Hx). now rewrite Hbase.
  - intros x d s IHs IHd.
    simpl app in *. destruct (Py.is_linebreak x) eqn:Hx.
    + rewrite !(@splitlines_cons_break x _ Hx).
      destruct (N.eqb x CR && N.eqb d LF)%bool; [now rewrite IHs|].
      now rewrite IHd.
    + rewrite !(@splitlines_cons_plain x _ Hx). now rewrite IHd.
Qed.

Lemma endswith_char_app :
  forall c a z, z <> [] -> Py.endswith [c] (a ++ z) = Py.endswith [c] z.
Proof.
  intros c a z Hz. unfold Py.endswith. rewrite rev_app_distr.
  destruct (rev z) as [|x r] eqn:Hr.
  - apply (f_equal (@rev char)) in Hr. rewrite rev_involutive in Hr.
    simpl in Hr. congruence.
  - reflexivity.
Qed.

Lemma splitlines_join_lf :
  forall L, Forall (fun l => no_linebreak l = true) L ->
    L <> [[]] ->
    Py.endswith [LF] (Py.join_lf L) = false ->
    Py.splitlines (Py.join_lf L) = L.
Proof.
  induction L as [|l L IH]; intros Hall Hne Hend; [reflexivity|].
  inversion Hall as [|? ? Hl HL]; subst.
  destruct L as [|l2 L].
  - simpl. apply splitlines_single; [intros ->; now apply Hne | assumption].
  - change (Py.join_lf (l :: l2 :: L)) with (l ++ LF :: Py.join_lf (l2 :: L))
      in *.
    rewrite splitlines_line_lf by assumption.
    destruct (Py.join_lf (l2 :: L)) as [|x z] eqn:Hj.
    + exfalso. unfold Py.endswith in Hend. rewrite rev_app_distr in Hend.
      simpl in Hend. discriminate.
    + f_equal. apply IH; [assumption| |].
      * intros Heq. rewrite Heq in Hj. discriminate.
      * change (l ++ LF :: x :: z) with (l ++ [LF] ++ (x :: z)) in Hend.
        rewrite app_assoc, endswith_char_app in Hend by discriminate.
        exact Hend.
Qed.

(** ** The head-noise loop *)

Lemma drop_blank_idem : forall ls, drop_blank (drop_blank ls) = drop_blank ls.
Proof.
  induction ls as [|l ls IH]; [reflexivity|].
  cbn [drop_blank]. destruct (is_blank l) eqn:Hl; [exact IH|].
  cbn [drop_blank]. now rewrite Hl.
Qed.

Lemma drop_blank_suffix : forall ls, exists k, drop_blank ls = skipn k ls.
Proof.
  induction ls as [|l ls [k Hk]]; [now exists 0|].
  cbn [drop_blank]. destruct (is_blank l).
  - now exists (S k).
  - now exists 0.
Qed.

Lemma after_closer_suffix :
  forall closer ls rest, after_closer closer ls = Some rest ->
    length rest < length ls /\ exists k, rest = skipn k ls.
Proof.
  induction ls as [|l ls IH]; intros rest H; [discriminate|].
  cbn [after_closer] in H. destruct (Py.contains closer l).
  - inversion H; subst. split; [simpl; lia | now exists 1].
  - destruct (IH _ H) as [Hlen [k Hk]]. split; [simpl; lia | now exists (S k)].
Qed.

Lemma drop_blank_length : forall ls, length (drop_blank ls) <= length ls.
Proof.
  intros ls. destruct (drop_blank_suffix ls) as [k ->].
  rewrite length_skipn. lia.
Qed.

Lemma skipn_skipn_suffix :
  forall (A : Type) (j k : nat) (ls : list A), skipn j (skipn k ls) = skipn (k + j) ls.
Proof.
  intros A j k. induction k as [|k IH]; intros ls; [reflexivity|].
  destruct ls; [now rewrite !skipn_nil | apply IH].
Qed.

Lemma noise_loop_suffix :
  forall n ls, exists k, noise_loop n ls = skipn k ls.
Proof.
  induction n as [|n IH]; intros ls; [now exists 0|].
  cbn [noise_loop]. destruct ls as [|l t]; [now exists 0|].
  assert (Hstep : forall closer,
             exists k, match after_closer closer (l :: t) with
                       | Some rest => noise_loop n (drop_blank rest)
                       | None => l :: t
                       end = skipn k (l :: t)).
  { intros closer. destruct (after_closer closer (l :: t)) as [rest|] eqn:Ha;
      [|now exists 0].
    destruct (after_closer_suffix _ _ Ha) as [_ [k1 ->]].
    destruct (drop_blank_suffix (skipn k1 (l :: t))) as [k2 ->].
    destruct (IH (skipn k2 (skipn k1 (l :: t)))) as [k3 ->].
    exists (k1 + (k2 + k3)). now rewrite !skipn_skipn_suffix. }
  destruct (Py.startswith (py "<!--") (Py.lstrip l)); [apply Hstep|].
  destruct (Py.startswith (py "@*") (Py.lstrip l)); [apply Hstep|].
  now exists 0.
Qed.

(** The loop stops on a list it does not change any further. *)
Lemma noise_loop_settled :
  forall n ls, drop_blank ls = ls -> length ls <= n ->
    drop_blank (noise_loop n ls) = noise_loop n ls
    /\ forall m, noise_loop m (noise_loop n ls) = noise_loop n ls.
Proof.
  induction n as [|n IH]; intros ls Hd Hlen.
  - destruct ls; [|simpl in Hlen; lia].
    split; [reflexivity | now intros [|m]].
  - cbn [noise_loop]. destruct ls as [|l t]; [split; [reflexivity | now intros [|m]]|].
    assert (Hstep : forall closer,
               (forall m, noise_loop (S m) (l :: t)
                          = match after_closer closer (l :: t) with
                            | Some rest => noise_loop m (drop_blank rest)
                            | None => l :: t
                            end) ->
               let R := match after_closer closer (l :: t) with
                        | Some rest => noise_loop n (drop_blank rest)
                        | None => l :: t
                        end in
               drop_blank R = R /\ forall m, noise_loop m R = R).
    { intros closer Hm. destruct (after_closer closer (l :: t)) as [rest|] eqn:Ha.
      - destruct (after_closer_suffix _ _ Ha) as [Hl _]. simpl in Hl, Hlen.
        apply IH; [apply drop_blank_idem|].
        pose proof (drop_blank_length rest). lia.
      - split; [exact Hd|]. intros [|m]; [reflexivity | apply Hm]. }
    destruct (Py.startswith (py "<!--") (Py.lstrip l)) eqn:H1.
    + apply Hstep. intros m. cbn [noise_loop]. now rewrite H1.
    + destruct (Py.startswith (py "@*") (Py.lstrip l)) eqn:H2.
      * apply Hstep. intros m. cbn [noise_loop]. now rewrite H1, H2.
      * split; [exact Hd|]. intros [|m]; [reflexivity|].
        cbn [noise_loop]. now rewrite H1, H2.
Qed.

Lemma strip_lines_settled :
  forall ls, drop_blank (strip_lines ls) = strip_lines ls
             /\ strip_lines (strip_lines ls) = strip_lines ls.
Proof.
  intros ls. unfold strip_lines.
  destruct (@noise_loop_settled (length ls) (drop_blank ls))
    as [Hd Hm]; [apply drop_blank_idem | apply drop_blank_length |].
  split; [exact Hd|]. rewrite Hd. apply Hm.
Qed.

Lemma Forall_suffix :
  forall (A : Type) (P : A -> Prop) (k : nat) (ls : list A),
    Forall P ls -> Forall P (skipn k ls).
Proof.
  intros A P k. induction k as [|k IH]; intros ls H; [exact H|].
  destruct ls; [constructor|]. inversion H; subst. now apply IH.
Qed.

Lemma strip_lines_suffix : forall ls, exists k, strip_lines ls = skipn k ls.
Proof.
  intros ls. unfold strip_lines.
  destruct (drop_blank_suffix ls) as [k1 Hk1].
  destruct (noise_loop_suffix (length ls) (drop_blank ls)) as [k2 Hk2].
  exists (k1 + k2). now rewrite Hk2, Hk1, skipn_skipn_suffix.
Qed.

Lemma strip_lines_no_linebreak :
  forall s, Forall (fun l => no_linebreak l = true)
                   (strip_lines (Py.splitlines s)).
Proof.
  intros s. destruct (strip_lines_suffix (Py.splitlines s)) as [k ->].
  apply Forall_suffix, splitlines_no_linebreak.
Qed.

Lemma lstrip_bom_id :
  forall y, Py.startswith [BOM] y = false -> Py.lstrip_bom y = y.
Proof.
  intros [|c y] H; [reflexivity|].
  cbn [Py.startswith] in H. rewrite andb_true_r in H.
  unfold Py.lstrip_bom. cbn [Py.dropwhile]. now rewrite H.
Qed.

(** ** Lines kept and lines dropped by the normalization *)

Lemma in_join_lf :
  forall c L, In c (Py.join_lf L) -> c = LF \/ exists l, In l L /\ In c l.
Proof.
  induction L as [|l L IH]; intros H; [contradiction|].
  destruct L as [|l2 L].
  - right. exists l. split; [now left | exact H].
  - change (Py.join_lf (l :: l2 :: L)) with (l ++ LF :: Py.join_lf (l2 :: L))
      in H.
    apply in_app_or in H as [H | [H | H]].
    + right. exists l. split; [now left | exact H].
    + now left.
    + destruct (IH H) as [-> | [l' [Hl' Hc]]]; [now left|].
      right. exists l'. split; [now right | exact Hc].
Qed.

Lemma strip_leading_noise_linebreaks :
  forall s c, In c (_strip_leading_noise s) -> Py.is_linebreak c = true ->
              c = LF.
Proof.
  intros s c Hin Hc. unfold _strip_leading_noise in Hin.
  apply in_join_lf in Hin as [-> | [l [Hl Hcl]]]; [reflexivity|].
  pose proof (strip_lines_no_linebreak (Py.lstrip_bom s)) as Hall.
  rewrite Forall_forall in Hall. specialize (Hall l Hl).
  unfold no_linebreak in Hall. rewrite forallb_forall in Hall.
  specialize (Hall c Hcl). rewrite Hc in Hall. discriminate.
Qed.

Lemma strip_leading_noise_terminator :
  forall t, is_terminator t ->
  forall c s, Py.is_linebreak c = false ->
    _strip_leading_noise (s ++ c :: t) = _strip_leading_noise (s ++ [c]).
Proof.
  intros t Ht c s Hc. unfold _strip_leading_noise.
  induction s as [|x s IH].
  - simpl app. unfold Py.lstrip_bom. cbn [Py.dropwhile].
    destruct (N.eqb BOM c) eqn:Hb.
    + destruct Ht as [-> | [-> | ->]]; reflexivity.
    + pose proof (@splitlines_terminator t Ht c [] Hc) as H.
      simpl app in H. now rewrite H.
  - simpl app. unfold Py.lstrip_bom in *. cbn [Py.dropwhile].
    destruct (N.eqb BOM x); [exact IH|].
    pose proof (@splitlines_terminator t Ht c (x :: s) Hc) as H.
    simpl app in H. now rewrite H.
Qed.

Lemma startswith_app : forall p x, Py.startswith p (p ++ x) = true.
Proof.
  induction p as [|c p IH]; intros x; [reflexivity|].
  simpl app. cbn [Py.startswith]. now rewrite N.eqb_refl, IH.
Qed.

Lemma contains_app : forall p a b, Py.contains p (a ++ p ++ b) = true.
Proof.
  intros p a b. unfold Py.contains.
  assert (H : exists n, Py.find p (a ++ p ++ b) = Some n).
  { induction a as [|c a [n IH]].
    - exists 0. simpl app. destruct (p ++ b) eqn:E;
        cbn [Py.find]; rewrite <- E, startswith_app; reflexivity.
    - simpl app. cbn [Py.find].
      destruct (Py.startswith p (c :: a ++ p ++ b)); [now exists 0|].
      rewrite IH. now exists (S n). }
  destruct H as [n ->]. reflexivity.
Qed.

Lemma dropwhile_stop :
  forall p a c b, p c = false -> Py.dropwhile p (a ++ c :: b) <> [].
Proof.
  induction a as [|x a IH]; intros c b H; simpl.
  - now rewrite H.
  - destruct (p x); [now apply IH | discriminate].
Qed.

Lemma is_blank_nonspace :
  forall c x, Py.isspace c = false -> is_blank (c :: x) = false.
Proof.
  intros c x H. unfold is_blank, Py.strip, Py.lstrip.
  cbn [Py.dropwhile]. rewrite H. unfold Py.rstrip.
  destruct (Py.dropwhile Py.isspace (rev (c :: x))) as [|y r] eqn:E.
  - exfalso. simpl rev in E. revert E. now apply dropwhile_stop.
  - simpl rev. destruct (rev r ++ [y]) eqn:E2; [|reflexivity].
    apply app_eq_nil in E2 as [_ E2]. discriminate.
Qed.

Lemma no_linebreak_app :
  forall a b, no_linebreak (a ++ b) = (no_linebreak a && no_linebreak b)%bool.
Proof. intros a b. unfold no_linebreak. apply forallb_app. Qed.

Lemma noise_loop_html :
  forall l t n, Py.startswith (py "<!--") (Py.lstrip l) = true ->
    noise_loop (S n) (l :: t)
    = match after_closer (py "-->") (l :: t) with
      | Some rest => noise_loop n (drop_blank rest)
      | None => l :: t
      end.
Proof. intros l t n H. cbn [noise_loop]. now rewrite H. Qed.

Lemma noise_loop_razor :
  forall l t n, Py.startswith (py "@*") (Py.lstrip l) = true ->
    noise_loop (S n) (l :: t)
    = match after_closer (py "*@") (l :: t) with
      | Some rest => noise_loop n (drop_blank rest)
      | None => l :: t
      end.
Proof.
  intros l t n H. cbn [noise_loop]. rewrite H.
  destruct (Py.lstrip l) as [|c x]; [discriminate|].
  change (py "@*") with [64%N; 42%N] in H.
  change (py "<!--") with [60%N; 33%N; 45%N; 45%N].
  cbn [Py.startswith] in *. apply andb_prop in H as [H _].
  apply N.eqb_eq in H. subst c. reflexivity.
Qed.

(** A first line that opens and closes a comment is dropped whole. *)
Lemma comment_line_dropped :
  forall (o1 : char) (opener closer mid after rest : str),
    Py.isspace o1 = false -> N.eqb BOM o1 = false ->
    no_linebreak (o1 :: opener) = true -> no_linebreak closer = true ->
    (forall l t n, Py.startswith (o1 :: opener) (Py.lstrip l) = true ->
       noise_loop (S n) (l :: t)
       = match after_closer closer (l :: t) with
         | Some r => noise_loop n (drop_blank r)
         | None => l :: t
         end) ->
    no_linebreak (mid ++ after) = true ->
    _strip_leading_noise
      (((o1 :: opener) ++ mid ++ closer ++ after) ++ LF :: rest)
    = Py.join_lf (strip_lines (Py.splitlines rest)).
Proof.
  intros o1 opener closer mid after rest Hsp Hbom Ho Hc Hloop Hma.
  rewrite no_linebreak_app in Hma. apply andb_prop in Hma as [Hm Ha].
  unfold _strip_leading_noise.
  assert (Hline : no_linebreak ((o1 :: opener) ++ mid ++ closer ++ after)
                  = true).
  { rewrite !no_linebreak_app, Ho, Hm, Hc, Ha. reflexivity. }
  assert (Hshape : exists x, (o1 :: opener) ++ mid ++ closer ++ after
                             = o1 :: x) by (eexists; reflexivity).
  assert (Hopen : Py.startswith (o1 :: opener)
                    ((o1 :: opener) ++ mid ++ closer ++ after) = true)
    by apply startswith_app.
  assert (Hclose : Py.contains closer
                     ((o1 :: opener) ++ mid ++ closer ++ after) = true)
    by (rewrite app_assoc; apply contains_app).
  destruct Hshape as [x Hx]. rewrite Hx in *.
  unfold Py.lstrip_bom. simpl app. cbn [Py.dropwhile]. rewrite Hbom.
  change (o1 :: x ++ LF :: rest) with ((o1 :: x) ++ LF :: rest).
  rewrite (@splitlines_line_lf _ rest Hline).
  unfold strip_lines at 1. cbn [drop_blank].
  rewrite (@is_blank_nonspace o1 x Hsp). cbn [length].
  rewrite Hloop.
  - cbn [after_closer]. rewrite Hclose. reflexivity.
  - unfold Py.lstrip. cbn [Py.dropwhile]. rewrite Hsp. exact Hopen.
Qed.

(** ** The matcher on stars over a character class *)

Lemma rmatch_Seq :
  forall a b s k,
    Re.rmatch (Re.Seq a b) s k = Re.rmatch a s (fun s' => Re.rmatch b s' k).
Proof. reflexivity. Qed.

Lemma rmatch_Cls :
  forall p s k,
    Re.rmatch (Re.Cls p) s k
    = match s with
      | c :: t => if p c then k t else None
      | [] => None
      end.
Proof. reflexivity. Qed.

Lemma star_loop_greedy_cls :
  forall (p : char -> bool) (k : Re.cont) (fuel : nat) (s : str),
    length s < fuel ->
    Re.star_loop (Re.rmatch (Re.Cls p)) true fuel s k = greedy_cls p k s.
Proof.
  induction fuel as [|f IH]; intros s Hlen; [lia|].
  cbn [Re.star_loop Re.rmatch]. destruct s as [|c t]; [reflexivity|].
  cbn [greedy_cls]. destruct (p c); [|reflexivity].
  replace (Nat.ltb (length t) (length (c :: t))) with true
    by (symmetry; apply Nat.ltb_lt; simpl; lia).
  rewrite IH by (simpl in Hlen; lia). reflexivity.
Qed.

Lemma star_loop_lazy_cls :
  forall (p : char -> bool) (k : Re.cont) (fuel : nat) (s : str),
    length s < fuel ->
    Re.star_loop (Re.rmatch (Re.Cls p)) false fuel s k = lazy_cls p k s.
Proof.
  induction fuel as [|f IH]; intros s Hlen; [lia|].
  cbn [Re.star_loop Re.rmatch]. destruct s as [|c t].
  - cbn [lazy_cls]. now destruct (k []).
  - cbn [lazy_cls]. destruct (k (c :: t)); [reflexivity|].
    destruct (p c); [|reflexivity].
    replace (Nat.ltb (length t) (length (c :: t))) with true
      by (symmetry; apply Nat.ltb_lt; simpl; lia).
    apply IH. simpl in Hlen. lia.
Qed.

Lemma rmatch_star_greedy_cls :
  forall p s k, Re.rmatch (Re.Star true (Re.Cls p)) s k = greedy_cls p k s.
Proof.
  intros p s k. cbn [Re.rmatch]. apply star_loop_greedy_cls. lia.
Qed.

Lemma rmatch_star_lazy_cls :
  forall p s k, Re.rmatch (Re.Star false (Re.Cls p)) s k = lazy_cls p k s.
Proof.
  intros p s k. cbn [Re.rmatch]. apply star_loop_lazy_cls. lia.
Qed.

Lemma greedy_cls_ext :
  forall p k k' s, (forall x, k x = k' x) ->
                   greedy_cls p k s = greedy_cls p k' s.
Proof.
  intros p k k' s H. induction s as [|c t IH]; cbn [greedy_cls]; [apply H|].
  now rewrite IH, H.
Qed.

Lemma lazy_cls_ext :
  forall p k k' s, (forall x, k x = k' x) -> lazy_cls p k s = lazy_cls p k' s.
Proof.
  intros p k k' s H. induction s as [|c t IH]; cbn [lazy_cls]; rewrite H;
    [reflexivity|]. now rewrite IH.
Qed.

(** ** The span pattern *)

Section Span.

Variable d : char.
Hypothesis d_not_backslash : N.eqb d BSL = false.

Lemma greedy_backslashes_close :
  forall s, greedy_cls (N.eqb BSL) (close_k d) s
            = (close_k d) (Py.dropwhile (N.eqb BSL) s).
Proof.
  induction s as [|c t IH]; [reflexivity|].
  cbn [greedy_cls Py.dropwhile]. destruct (N.eqb BSL c) eqn:Hc; [|reflexivity].
  rewrite IH. apply N.eqb_eq in Hc. subst c.
  cbn [close_k]. rewrite d_not_backslash.
  now destruct ((close_k d) (Py.dropwhile (N.eqb BSL) t)).
Qed.

Lemma lazy_any_close :
  forall s, lazy_cls (fun _ => true)
              (fun x => (close_k d) (Py.dropwhile (N.eqb BSL) x)) s
            = after_first d s.
Proof.
  induction s as [|c t IH]; [reflexivity|].
  cbn [lazy_cls Py.dropwhile after_first].
  destruct (N.eqb BSL c) eqn:Hc.
  - apply N.eqb_eq in Hc. subst c. rewrite d_not_backslash.
    rewrite <- IH. destruct t as [|x t']; [reflexivity|].
    cbn [lazy_cls].
    now destruct ((close_k d) (Py.dropwhile (N.eqb BSL) (x :: t'))).
  - cbn [close_k]. destruct (N.eqb d c); [reflexivity | exact IH].
Qed.

Lemma greedy_backslashes_after_first :
  forall s, greedy_cls (N.eqb BSL) (after_first d) s = after_first d s.
Proof.
  induction s as [|c t IH]; [reflexivity|].
  cbn [greedy_cls]. destruct (N.eqb BSL c) eqn:Hc; [|reflexivity].
  rewrite IH. apply N.eqb_eq in Hc. subst c.
  cbn [after_first]. rewrite d_not_backslash.
  now destruct (after_first d t).
Qed.

(** The match of the span pattern at the start of a text: the text must
    begin with the delimiter, and the match ends at the next one. *)
Lemma match_at_span :
  forall s, Re.match_at (re_span d) s
            = match s with
              | c :: t => if N.eqb d c then after_first d t else None
              | [] => None
              end.
Proof.
  intros s. unfold Re.match_at, re_span, Re.cat, Re.Lit, Re.any_dotall.
  cbn [fold_right].
  rewrite rmatch_Seq, rmatch_Cls. destruct s as [|c t]; [reflexivity|].
  destruct (N.eqb d c); [|reflexivity].
  rewrite rmatch_Seq, rmatch_star_greedy_cls.
  rewrite <- greedy_backslashes_after_first.
  apply greedy_cls_ext. intros x.
  rewrite rmatch_Seq, rmatch_star_lazy_cls, <- lazy_any_close.
  apply lazy_cls_ext. intros y.
  rewrite rmatch_Seq, rmatch_star_greedy_cls, <- greedy_backslashes_close.
  apply greedy_cls_ext. intros z.
  rewrite rmatch_Seq, rmatch_Cls. destruct z as [|c' r]; [reflexivity|].
  cbn [close_k]. now destruct (N.eqb d c').
Qed.

Lemma after_first_split :
  forall t rest, after_first d t = Some rest ->
    exists pre, t = pre ++ d :: rest /\ existsb (N.eqb d) pre = false.
Proof.
  induction t as [|c t IH]; intros rest H; [discriminate|].
  cbn [after_first] in H. destruct (N.eqb d c) eqn:Hc.
  - inversion H; subst. apply N.eqb_eq in Hc. subst c. now exists [].
  - destruct (IH _ H) as [pre [-> Hpre]]. exists (c :: pre).
    split; [reflexivity|]. simpl. now rewrite Hc.
Qed.

Lemma after_first_none :
  forall t, after_first d t = None <-> existsb (N.eqb d) t = false.
Proof.
  induction t as [|c t IH]; [easy|].
  cbn [after_first existsb]. destruct (N.eqb d c); [easy | exact IH].
Qed.

Lemma match_len_span :
  forall c t,
    Re.match_len (re_span d) (c :: t)
    = if N.eqb d c
      then option_map (fun rest => S (length t - length rest))
                      (after_first d t)
      else None.
Proof.
  intros c t. unfold Re.match_len. rewrite match_at_span.
  destruct (N.eqb d c); [|reflexivity].
  destruct (after_first d t) as [rest|] eqn:Ha; [|reflexivity].
  destruct (after_first_split _ Ha) as [pre [-> _]].
  cbn [option_map]. f_equal. cbn [length]. rewrite !length_app.
  cbn [length]. lia.
Qed.

Lemma match_len_span_nil : Re.match_len (re_span d) [] = None.
Proof. unfold Re.match_len. now rewrite match_at_span. Qed.

Lemma sub_go_span_skip :
  forall repl n s,
    Re.sub_go (re_span d) repl n s
    = Re.sub_go (re_span d) repl 0 (skipn n s).
Proof.
  induction n as [|n IH]; intros s; [reflexivity|].
  destruct s as [|c t].
  - cbn [Re.sub_go skipn]. now rewrite match_len_span_nil.
  - cbn [Re.sub_go skipn]. apply IH.
Qed.

Lemma drop_spans_inside :
  forall t rest, after_first d t = Some rest ->
    drop_spans d true t = drop_spans d false rest.
Proof.
  induction t as [|c t IH]; intros rest H; [discriminate|].
  cbn [after_first] in H. cbn [drop_spans].
  destruct (N.eqb d c); [now inversion H | now apply IH].
Qed.

Lemma sub_span_drop_spans_bounded :
  forall n s, length s <= n ->
    Re.sub_go (re_span d) [] 0 s = drop_spans d false s.
Proof.
  induction n as [|n IH]; intros s Hlen.
  - destruct s; [|simpl in Hlen; lia].
    cbn [Re.sub_go]. now rewrite match_len_span_nil.
  - destruct s as [|c t].
    + cbn [Re.sub_go]. now rewrite match_len_span_nil.
    + cbn [Re.sub_go drop_spans]. rewrite match_len_span.
      simpl in Hlen.
      destruct (N.eqb d c); cbn [andb];
        [|now rewrite IH by lia].
      destruct (after_first d t) as [rest|] eqn:Ha.
      * cbn [option_map app].
        assert (Hex : existsb (N.eqb d) t = true).
        { destruct (existsb (N.eqb d) t) eqn:E; [reflexivity|].
          apply after_first_none in E. congruence. }
        rewrite Hex, sub_go_span_skip.
        destruct (after_first_split _ Ha) as [pre [Ht _]].
        assert (Hskip : skipn (length t - length rest) t = rest).
        { subst t. rewrite length_app. simpl.
          replace (length pre + S (length rest) - length rest)
            with (length (pre ++ [d])) by (rewrite length_app; simpl; lia).
          change (pre ++ d :: rest) with (pre ++ [d] ++ rest).
          rewrite app_assoc, skipn_app, Nat.sub_diag, skipn_all.
          reflexivity. }
        rewrite Hskip, (drop_spans_inside _ Ha). apply IH.
        subst t. rewrite length_app in Hlen. simpl in Hlen. lia.
      * cbn [option_map]. apply after_first_none in Ha. rewrite Ha.
        now rewrite IH by lia.
Qed.

(** [re.sub] with the span pattern is the delimiter scan. *)
Lemma sub_span_drop_spans :
  forall s, Re.sub (re_span d) [] s = drop_spans d false s.
Proof.
  intros s. apply (@sub_span_drop_spans_bounded (length s)). lia.
Qed.

Lemma drop_spans_no_delim :
  forall u, existsb (N.eqb d) u = false -> drop_spans d false u = u.
Proof.
  induction u as [|c u IH]; intros H; [reflexivity|].
  cbn [existsb] in H. apply orb_false_elim in H as [Hc Hu].
  cbn [drop_spans]. rewrite Hc. cbn [andb]. now rewrite IH.
Qed.

(** Text without the delimiter, appended to a text, is not touched by
    the scan and does not change what the scan does before it. *)
Lemma drop_spans_app :
  forall u, existsb (N.eqb d) u = false ->
  forall t,
    drop_spans d false (t ++ u) = drop_spans d false t ++ u
    /\ (existsb (N.eqb d) t = true ->
        drop_spans d true (t ++ u) = drop_spans d true t ++ u).
Proof.
  intros u Hu. induction t as [|c t [IH1 IH2]].
  - split; [now apply drop_spans_no_delim | discriminate].
  - simpl app. cbn [drop_spans existsb]. rewrite existsb_app, Hu, orb_false_r.
    split.
    + destruct (N.eqb d c); cbn [andb]; [|now rewrite IH1].
      destruct (existsb (N.eqb d) t) eqn:Ht; [now apply IH2|].
      now rewrite IH1.
    + destruct (N.eqb d c); cbn [negb orb]; [intros _; exact IH1 | exact IH2].
Qed.

(** After the scan a delimiter is never followed by another one. *)
Lemma drop_spans_lone : forall s b, lone d (drop_spans d b s).
Proof.
  induction s as [|c s IH]; intros b; [intros y Hy; destruct b; discriminate|].
  destruct b; cbn [drop_spans]; [apply IH|].
  destruct (N.eqb d c && existsb (N.eqb d) s)%bool eqn:E; [apply IH|].
  intros y Hy. cbn [after_first] in Hy. destruct (N.eqb d c) eqn:Hc.
  - inversion Hy; subst. cbn [andb] in E.
    now rewrite (drop_spans_no_delim _ E).
  - now apply (IH false).
Qed.

End Span.

(** ** What [strip_razor_comments] computes *)

Lemma match_at_cs_line_none :
  forall s, Py.startswith (py "//") s = false ->
            Re.match_at re_cs_line s = None.
Proof.
  intros s H. unfold Re.match_at, re_cs_line, Re.cat, Re.Lit.
  cbn [fold_right]. rewrite rmatch_Seq, rmatch_Cls.
  destruct s as [|c t]; [reflexivity|].
  change (py "//") with [47%N; 47%N] in H. cbn [Py.startswith] in H.
  change (chr "/") with 47%N.
  destruct (N.eqb 47 c); [|reflexivity].
  rewrite rmatch_Seq, rmatch_Cls. destruct t as [|c2 t]; [reflexivity|].
  cbn [andb] in H. destruct (N.eqb 47 c2); [discriminate | reflexivity].
Qed.

Lemma sub_cs_line_lone :
  forall z, lone (chr "/") z -> Re.sub re_cs_line [] z = z.
Proof.
  unfold Re.sub. induction z as [|c z IH]; intros Hl.
  - cbn [Re.sub_go]. unfold Re.match_len.
    now rewrite match_at_cs_line_none.
  - cbn [Re.sub_go]. unfold Re.match_len.
    rewrite match_at_cs_line_none; cbn [option_map].
    + rewrite IH; [reflexivity|].
      intros y Hy. unfold lone in Hl. cbn [after_first] in Hl.
      destruct (N.eqb (chr "/") c) eqn:Hc; [|now apply Hl].
      specialize (Hl z eq_refl). apply after_first_none in Hl. congruence.
    + change (py "//") with [chr "/"; chr "/"]. cbn [Py.startswith].
      destruct (N.eqb (chr "/") c) eqn:Hc; [|reflexivity].
      destruct z as [|c2 z]; [reflexivity|]. cbn [andb].
      rewrite andb_true_r.
      unfold lone in Hl. cbn [after_first] in Hl. rewrite Hc in Hl.
      specialize (Hl _ eq_refl). cbn [existsb] in Hl.
      now apply orb_false_elim in Hl as [Hl _].
Qed.

Lemma strip_razor_comments_scan :
  forall s, strip_razor_comments s
            = drop_spans (chr "/") false (drop_spans (chr "@") false s).
Proof.
  intros s. unfold strip_razor_comments, re_razor_block, re_cs_block.
  rewrite !sub_span_drop_spans by reflexivity.
  apply sub_cs_line_lone, drop_spans_lone.
Qed.

(** Text without [@] and [/], appended to the code text, is kept as it
    is and leaves the stripping of what precedes it unchanged. *)
Lemma strip_razor_comments_app :
  forall t u, existsb (N.eqb (chr "@")) u = false ->
              existsb (N.eqb (chr "/")) u = false ->
    strip_razor_comments (t ++ u) = strip_razor_comments t ++ u.
Proof.
  intros t u H1 H2. rewrite !strip_razor_comments_scan.
  rewrite (proj1 (@drop_spans_app (chr "@") u H1 t)).
  now rewrite (proj1 (@drop_spans_app (chr "/") u H2 _)).
Qed.

(** ** The last line of a text and what follows it *)

Lemma splitlines_last_line :
  forall c, Py.is_linebreak c = false ->
  forall a, exists init l,
    forall y, Py.splitlines (a ++ c :: y)
              = init ++ continue_line l c (Py.splitlines y).
Proof.
  intros c Hc. apply str_ind2.
  - exists [], []. intros y. simpl app.
    rewrite (@splitlines_cons_plain c y Hc).
    now destruct (Py.splitlines y).
  - intros x [init [l IH]]. simpl app in *.
    destruct (Py.is_linebreak x) eqn:Hx.
    + exists ([] :: init), l. intros y.
      rewrite (@splitlines_cons_break x _ Hx).
      assert (N.eqb c LF = false) as ->
          by (apply N.eqb_neq; intros ->; discriminate).
      rewrite andb_false_r, IH. reflexivity.
    + destruct init as [|h init'].
      * exists [], (x :: l). intros y.
        rewrite (@splitlines_cons_plain x _ Hx), IH.
        now destruct (Py.splitlines y).
      * exists ((x :: h) :: init'), l. intros y.
        rewrite (@splitlines_cons_plain x _ Hx), IH. reflexivity.
  - intros x e t [init1 [l1 IH1]] [init2 [l2 IH2]]. simpl app in *.
    destruct (Py.is_linebreak x) eqn:Hx.
    + destruct (N.eqb x CR && N.eqb e LF)%bool eqn:Hcrlf.
      * exists ([] :: init1), l1. intros y.
        rewrite (@splitlines_cons_break x _ Hx), Hcrlf, IH1. reflexivity.
      * exists ([] :: init2), l2. intros y.
        rewrite (@splitlines_cons_break x _ Hx), Hcrlf, IH2. reflexivity.
    + destruct init2 as [|h init2'].
      * exists [], (x :: l2). intros y.
        rewrite (@splitlines_cons_plain x _ Hx), IH2.
        now destruct (Py.splitlines y).
      * exists ((x :: h) :: init2'), l2. intros y.
        rewrite (@splitlines_cons_plain x _ Hx), IH2. reflexivity.
Qed.

Lemma splitlines_app_lf :
  forall a c z, Py.is_linebreak c = false ->
    Py.splitlines ((a ++ [c]) ++ LF :: z)
    = Py.splitlines (a ++ [c]) ++ Py.splitlines z.
Proof.
  intros a c z Hc. destruct (@splitlines_last_line c Hc a) as [init [l H]].
  rewrite <- app_assoc. simpl app. rewrite (H (LF :: z)), (H []).
  pose proof (@splitlines_line_lf [] z eq_refl) as E. simpl app in E.
  rewrite E. cbn [continue_line Py.splitlines]. now rewrite <- app_assoc.
Qed.

Lemma splitlines_in :
  forall s l c, In l (Py.splitlines s) -> In c l -> In c s.
Proof.
  apply (@str_ind2 (fun s => forall l c,
                        In l (Py.splitlines s) -> In c l -> In c s)).
  - intros l c H. contradiction.
  - intros x _ l c Hl Hcl. cbn [Py.splitlines] in Hl.
    destruct (Py.is_linebreak x); destruct Hl as [<- | []]; [contradiction|].
    exact Hcl.
  - intros x e t IH1 IH2 l c Hl Hcl.
    destruct (Py.is_linebreak x) eqn:Hx.
    + rewrite (@splitlines_cons_break x _ Hx) in Hl.
      destruct Hl as [<- | Hl]; [contradiction|].
      destruct (N.eqb x CR && N.eqb e LF)%bool.
      * right. right. now apply (IH1 l).
      * right. now apply (IH2 l).
    + rewrite (@splitlines_cons_plain x _ Hx) in Hl.
      destruct (Py.splitlines (e :: t)) as [|h tl] eqn:E.
      * destruct Hl as [<- | []]. destruct Hcl as [<- | []]. now left.
      * destruct Hl as [<- | Hl].
        -- destruct Hcl as [<- | Hcl]; [now left|].
           right. apply (IH2 h); [now left | exact Hcl].
        -- right. apply (IH2 l); [now right | exact Hcl].
Qed.

Lemma splitlines_all_space :
  forall W, all_space W = true ->
            Forall (fun l => all_space l = true) (Py.splitlines W).
Proof.
  intros W HW. apply Forall_forall. intros l Hl. unfold all_space in *.
  apply forallb_forall. intros c Hc. rewrite forallb_forall in HW.
  apply HW. now apply (@splitlines_in W l c).
Qed.

(** ** Whitespace after a line does not change its classification *)

Lemma dropwhile_all :
  forall p l, forallb p l = true -> Py.dropwhile p l = [].
Proof.
  induction l as [|c l IH]; intros H; [reflexivity|].
  simpl in H. apply andb_prop in H as [Hc Hl].
  cbn [Py.dropwhile]. rewrite Hc. now apply IH.
Qed.

Lemma all_space_not_code :
  forall l, all_space l = true -> is_code_line l = false.
Proof.
  intros l H. unfold is_code_line, Py.lstrip.
  now rewrite (@dropwhile_all Py.isspace l H).
Qed.

Lemma dropwhile_app_keep :
  forall p c w l, p c = false ->
    Py.dropwhile p ((l ++ [c]) ++ w) = Py.dropwhile p (l ++ [c]) ++ w.
Proof.
  intros p c w l Hc. induction l as [|x l IH]; simpl app; cbn [Py.dropwhile].
  - now rewrite Hc.
  - destruct (p x); [exact IH | reflexivity].
Qed.

Lemma startswith_space_false :
  forall k1 kw w, Py.isspace k1 = false -> all_space w = true ->
                  Py.startswith (k1 :: kw) w = false.
Proof.
  intros k1 kw [|x w] Hk Hw; [reflexivity|].
  cbn [Py.startswith]. unfold all_space in Hw. simpl in Hw.
  apply andb_prop in Hw as [Hx _].
  destruct (N.eqb k1 x) eqn:E; [|reflexivity].
  apply N.eqb_eq in E. subst x. congruence.
Qed.

Lemma startswith_app_space :
  forall kw, kw <> [] -> no_space kw = true ->
  forall w, all_space w = true ->
  forall q, Py.startswith kw (q ++ w) = Py.startswith kw q.
Proof.
  induction kw as [|k1 kw IH]; intros Hne Hkw w Hw q; [congruence|].
  unfold no_space in Hkw. simpl in Hkw. apply andb_prop in Hkw as [Hk Hkw].
  apply negb_true_iff in Hk.
  destruct q as [|y q].
  - simpl app. now rewrite startswith_space_false.
  - simpl app. cbn [Py.startswith]. destruct kw as [|k2 kw].
    + reflexivity.
    + rewrite (IH ltac:(discriminate) Hkw w Hw q). reflexivity.
Qed.

Lemma find_space_none :
  forall k1 kw w, Py.isspace k1 = false -> all_space w = true ->
                  Py.find (k1 :: kw) w = None.
Proof.
  intros k1 kw w Hk. induction w as [|x w IH]; intros Hw; [reflexivity|].
  cbn [Py.find]. rewrite startswith_space_false by assumption.
  unfold all_space in Hw. simpl in Hw. apply andb_prop in Hw as [_ Hw].
  now rewrite IH.
Qed.

Lemma find_app_space :
  forall kw, kw <> [] -> no_space kw = true ->
  forall w, all_space w = true ->
  forall q, Py.find kw (q ++ w) = Py.find kw q.
Proof.
  intros kw Hne Hkw w Hw. induction q as [|y q IH].
  - simpl app. destruct kw as [|k1 kw]; [congruence|].
    unfold no_space in Hkw. simpl in Hkw. apply andb_prop in Hkw as [Hk _].
    apply negb_true_iff in Hk. now rewrite find_space_none.
  - simpl app. cbn [Py.find].
    change (y :: q ++ w) with ((y :: q) ++ w).
    rewrite (@startswith_app_space kw Hne Hkw w Hw (y :: q)).
    simpl app. now rewrite IH.
Qed.

Lemma contains_app_space :
  forall kw, kw <> [] -> no_space kw = true ->
  forall w, all_space w = true ->
  forall q, Py.contains kw (q ++ w) = Py.contains kw q.
Proof.
  intros kw Hne Hkw w Hw q. unfold Py.contains.
  now rewrite (@find_app_space kw Hne Hkw w Hw q).
Qed.

Lemma is_code_line_app_space :
  forall l c w, Py.isspace c = false -> all_space w = true ->
    is_code_line ((l ++ [c]) ++ w) = is_code_line (l ++ [c]).
Proof.
  intros l c w Hc Hw. unfold is_code_line, Py.lstrip.
  rewrite (@dropwhile_app_keep Py.isspace c w l Hc).
  set (q := Py.dropwhile Py.isspace (l ++ [c])).
  assert (S1 : forall kw, kw <> [] -> no_space kw = true ->
                 Py.startswith kw (q ++ w) = Py.startswith kw q)
    by (intros; now apply startswith_app_space).
  assert (S2 : forall kw, kw <> [] -> no_space kw = true ->
                 Py.contains kw (q ++ w) = Py.contains kw q)
    by (intros; now apply contains_app_space).
  rewrite !S1 by first [discriminate | reflexivity].
  rewrite !S2 by first [discriminate | reflexivity].
  reflexivity.
Qed.

(** ** The code text of a block and of its repairs *)

Lemma linebreak_is_space :
  forall c, Py.is_linebreak c = true -> Py.isspace c = true.
Proof.
  intros c H. unfold Py.is_linebreak, Py.isspace, in_range in *.
  repeat rewrite ?orb_true_iff, ?andb_true_iff, ?N.leb_le, ?N.eqb_eq in *.
  lia.
Qed.

Lemma nonspace_not_linebreak :
  forall c, Py.isspace c = false -> Py.is_linebreak c = false.
Proof.
  intros c H. destruct (Py.is_linebreak c) eqn:E; [|reflexivity].
  apply linebreak_is_space in E. congruence.
Qed.

Lemma dropwhile_head :
  forall p s x r, Py.dropwhile p s = x :: r -> p x = false.
Proof.
  induction s as [|c s IH]; intros x r H; [discriminate|].
  cbn [Py.dropwhile] in H. destruct (p c) eqn:Hc; [now apply (IH x r)|].
  now inversion H; subst.
Qed.

Lemma rstrip_shape :
  forall s, Py.rstrip s = []
            \/ exists a c, Py.rstrip s = a ++ [c] /\ Py.isspace c = false.
Proof.
  intros s. unfold Py.rstrip.
  destruct (Py.dropwhile Py.isspace (rev s)) as [|x r] eqn:E; [now left|].
  right. exists (rev r), x. split; [reflexivity|].
  exact (dropwhile_head _ _ E).
Qed.

Lemma join_lf_snoc :
  forall X y, Py.join_lf (X ++ [y]) = Py.join_lf X ++ sep X ++ y.
Proof.
  induction X as [|x X IH]; intros y; [reflexivity|].
  destruct X as [|x2 X].
  - reflexivity.
  - change (Py.join_lf ((x :: x2 :: X) ++ [y]))
      with (x ++ LF :: Py.join_lf ((x2 :: X) ++ [y])).
    rewrite IH.
    change (Py.join_lf (x :: x2 :: X)) with (x ++ LF :: Py.join_lf (x2 :: X)).
    cbn [sep]. now rewrite <- !app_assoc.
Qed.

Lemma filter_all_space :
  forall L, Forall (fun l => all_space l = true) L ->
            filter is_code_line L = [].
Proof.
  induction L as [|l L IH]; intros H; [reflexivity|].
  inversion H; subst. cbn [filter].
  rewrite all_space_not_code by assumption. now apply IH.
Qed.

(** Trailing whitespace of a block adds at most whitespace to the end
    of its code text. *)
Lemma code_text_rstrip :
  forall block, exists w,
    all_space w = true
    /\ code_text block = code_text (Py.rstrip block) ++ w.
Proof.
  intros block. destruct (rstrip_decomp block) as [W [HW Hb]].
  destruct (rstrip_shape block) as [Hnil | [a [c [Hr Hc]]]].
  - exists []. split; [reflexivity|]. rewrite Hnil, app_nil_r.
    rewrite Hb, Hnil. simpl app. unfold code_text.
    now rewrite (filter_all_space (splitlines_all_space _ HW)).
  - rewrite Hr in *.
    destruct (@splitlines_last_line c (nonspace_not_linebreak _ Hc) a)
      as [init [l H]].
    unfold code_text. rewrite Hb. rewrite <- app_assoc. simpl app.
    rewrite (H W), (H []). cbn [Py.splitlines continue_line].
    pose proof (splitlines_all_space _ HW) as Hall.
    destruct (Py.splitlines W) as [|l0 ls]; cbn [continue_line].
    + exists []. split; [reflexivity | now rewrite app_nil_r].
    + inversion Hall as [|? ? Hl0 Hls]; subst.
      rewrite !filter_app. cbn [filter].
      rewrite (filter_all_space Hls).
      change (l ++ c :: l0) with (l ++ [c] ++ l0).
      rewrite (app_assoc l [c] l0).
      rewrite (@is_code_line_app_space l c l0 Hc Hl0).
      destruct (is_code_line (l ++ [c])).
      * exists l0. split; [assumption|].
        rewrite !join_lf_snoc. now rewrite <- !app_assoc.
      * exists []. split; [reflexivity | now rewrite !app_nil_r].
Qed.

Lemma no_linebreak_closers :
  forall k, no_linebreak (Py.times RBRACE k) = true.
Proof. induction k as [|k IH]; [reflexivity | exact IH]. Qed.

(** The code text of the block with [k >= 1] closing tokens appended on
    a line of their own. *)
Lemma code_text_appended :
  forall R k,
    (R = [] \/ exists a c, R = a ++ [c] /\ Py.isspace c = false) ->
    code_text (R ++ (LF :: Py.times RBRACE (S k)) ++ [LF])
    = code_text R
      ++ sep (filter is_code_line (Py.splitlines R))
      ++ Py.times RBRACE (S k).
Proof.
  intros R k HR. unfold code_text.
  assert (HK : Py.splitlines (Py.times RBRACE (S k) ++ [LF])
               = [Py.times RBRACE (S k)]).
  { now rewrite (@splitlines_line_lf _ [] (no_linebreak_closers (S k))). }
  assert (Hcode : is_code_line (Py.times RBRACE (S k)) = true)
    by reflexivity.
  destruct HR as [-> | [a [c [-> Hc]]]].
  - change ([] ++ (LF :: Py.times RBRACE (S k)) ++ [LF])
      with ([] ++ LF :: (Py.times RBRACE (S k) ++ [LF])).
    rewrite (@splitlines_line_lf [] _ eq_refl), HK.
    cbn [filter Py.splitlines sep]. rewrite Hcode. reflexivity.
  - change ((LF :: Py.times RBRACE (S k)) ++ [LF])
      with (LF :: (Py.times RBRACE (S k) ++ [LF])).
    rewrite (@splitlines_app_lf a c _ (nonspace_not_linebreak _ Hc)), HK.
    rewrite filter_app. cbn [filter]. rewrite Hcode.
    apply join_lf_snoc.
Qed.

Lemma count_app :
  forall x a b, Py.count x (a ++ b) = Py.count x a + Py.count x b.
Proof.
  intros x a b. induction a as [|c a IH]; [reflexivity|].
  simpl app. cbn [Py.count]. rewrite IH. lia.
Qed.

Lemma count_space :
  forall x w, Py.isspace x = false -> all_space w = true -> Py.count x w = 0.
Proof.
  intros x w Hx. induction w as [|c w IH]; intros Hw; [reflexivity|].
  unfold all_space in Hw. simpl in Hw. apply andb_prop in Hw as [Hc Hw].
  cbn [Py.count]. rewrite (IH Hw).
  destruct (N.eqb c x) eqn:E; [|reflexivity].
  apply N.eqb_eq in E. subst c. congruence.
Qed.

Lemma existsb_space :
  forall x w, Py.isspace x = false -> all_space w = true ->
              existsb (N.eqb x) w = false.
Proof.
  intros x w Hx. induction w as [|c w IH]; intros Hw; [reflexivity|].
  unfold all_space in Hw. simpl in Hw. apply andb_prop in Hw as [Hc Hw].
  cbn [existsb]. rewrite (IH Hw), orb_false_r.
  apply N.eqb_neq. intros ->. congruence.
Qed.

Lemma count_closers :
  forall k, Py.count RBRACE (Py.times RBRACE k) = k
            /\ Py.count LBRACE (Py.times RBRACE k) = 0.
Proof.
  induction k as [|k [IH1 IH2]]; [now split|].
  change (Py.times RBRACE (S k)) with (RBRACE :: Py.times RBRACE k).
  cbn [Py.count]. rewrite IH1, IH2. now split.
Qed.

Lemma existsb_closers :
  forall x k, N.eqb x RBRACE = false ->
              existsb (N.eqb x) (Py.times RBRACE k) = false.
Proof.
  intros x k Hx. induction k as [|k IH]; [reflexivity|].
  change (Py.times RBRACE (S k)) with (RBRACE :: Py.times RBRACE k).
  cbn [existsb]. now rewrite Hx, IH.
Qed.

Lemma brace_balance_code_text :
  forall block,
    brace_balance block
    = (Nat.eqb (Py.count LBRACE (strip_razor_comments (code_text block)))
               (Py.count RBRACE (strip_razor_comments (code_text block))),
       Py.count LBRACE (strip_razor_comments (code_text block)),
       Py.count RBRACE (strip_razor_comments (code_text block))).
Proof. reflexivity. Qed.

(** The counts of a block are those of the block without its trailing
    whitespace. *)
Lemma brace_balance_rstrip :
  forall block, brace_balance (Py.rstrip block) = brace_balance block.
Proof.
  intros block. rewrite !brace_balance_code_text.
  destruct (code_text_rstrip block) as [w [Hw ->]].
  rewrite strip_razor_comments_app
    by (apply existsb_space; [reflexivity | assumption]).
  rewrite !count_app, (@count_space LBRACE w eq_refl Hw),
    (@count_space RBRACE w eq_refl Hw), !Nat.add_0_r.
  reflexivity.
Qed.

(** Appending the missing closing tokens balances the block. *)
Lemma brace_balance_appended :
  forall block ok o c,
    brace_balance block = (ok, o, c) -> c < o ->
    brace_balance (Py.rstrip block
                   ++ (LF :: Py.times RBRACE (o - c)) ++ [LF])
    = (true, o, o).
Proof.
  intros block ok o c Hbal Hlt.
  rewrite <- brace_balance_rstrip in Hbal.
  destruct (o - c) as [|k] eqn:Hk; [lia|].
  rewrite brace_balance_code_text in *.
  rewrite code_text_appended by apply rstrip_shape.
  set (T := code_text (Py.rstrip block)) in *.
  set (S0 := sep (filter is_code_line (Py.splitlines (Py.rstrip block)))).
  assert (HS : S0 = [] \/ S0 = [LF])
    by (unfold S0, sep; destruct (filter _ _); auto).
  rewrite strip_razor_comments_app.
  - injection Hbal as Hok Ho Hc.
    rewrite !count_app, Ho, Hc.
    destruct (count_closers (S k)) as [Hc1 Hc2]. rewrite Hc1, Hc2.
    assert (HS1 : Py.count LBRACE S0 = 0 /\ Py.count RBRACE S0 = 0)
      by (destruct HS as [-> | ->]; now split).
    destruct HS1 as [-> ->].
    replace (o + (0 + 0)) with o by lia.
    replace (c + (0 + S k)) with o by lia.
    now rewrite Nat.eqb_refl.
  - rewrite existsb_app, existsb_closers by reflexivity.
    now destruct HS as [-> | ->].
  - rewrite existsb_app, existsb_closers by reflexivity.
    now destruct HS as [-> | ->].
Qed.

(** ** Whitespace collapsing *)

Lemma str_eqb_eq : forall a b, str_eqb a b = true <-> a = b.
Proof.
  induction a as [|x a IH]; intros [|y b]; cbn [str_eqb]; try easy.
  rewrite andb_true_iff, N.eqb_eq, IH. split.
  - now intros [-> ->].
  - intros H. now inversion H.
Qed.

Lemma greedy_cls_some :
  forall p s, greedy_cls p Some s = Some (Py.dropwhile p s).
Proof.
  induction s as [|c t IH]; [reflexivity|].
  cbn [greedy_cls Py.dropwhile]. destruct (p c); [|reflexivity].
  now rewrite IH.
Qed.

Lemma match_at_ws_run :
  forall s, Re.match_at re_ws_run s
            = match s with
              | c :: t => if Py.isspace c
                          then Some (Py.dropwhile Py.isspace t) else None
              | [] => None
              end.
Proof.
  intros s. unfold Re.match_at, re_ws_run, Re.Plus, Re.ws.
  rewrite rmatch_Seq, rmatch_Cls. destruct s as [|c t]; [reflexivity|].
  destruct (Py.isspace c); [|reflexivity].
  now rewrite rmatch_star_greedy_cls, greedy_cls_some.
Qed.

Lemma dropwhile_length :
  forall p s, length (Py.dropwhile p s) <= length s.
Proof.
  intros p s. destruct (dropwhile_decomp p s) as [w [_ Hs]].
  rewrite Hs at 2. rewrite length_app. lia.
Qed.

Lemma skipn_dropwhile :
  forall p s, skipn (length s - length (Py.dropwhile p s)) s
              = Py.dropwhile p s.
Proof.
  intros p s. destruct (dropwhile_decomp p s) as [w [_ Hs]].
  rewrite Hs at 1 3. rewrite length_app.
  replace (length w + length (Py.dropwhile p s)
           - length (Py.dropwhile p s)) with (length w) by lia.
  now rewrite skipn_app, Nat.sub_diag, skipn_all.
Qed.

Lemma sub_go_ws_skip :
  forall repl n s,
    Re.sub_go re_ws_run repl n s = Re.sub_go re_ws_run repl 0 (skipn n s).
Proof.
  induction n as [|n IH]; intros s; [reflexivity|].
  destruct s as [|c t]; cbn [Re.sub_go skipn]; [|apply IH].
  unfold Re.match_len. now rewrite match_at_ws_run.
Qed.

Lemma collapse_run :
  forall t, collapse true t = collapse false (Py.dropwhile Py.isspace t).
Proof.
  induction t as [|c t IH]; [reflexivity|].
  cbn [collapse Py.dropwhile]. destruct (Py.isspace c) eqn:Hc; [exact IH|].
  cbn [collapse]. now rewrite Hc.
Qed.

Lemma sub_ws_collapse_bounded :
  forall n s, length s <= n ->
    Re.sub_go re_ws_run [SP] 0 s = collapse false s.
Proof.
  induction n as [|n IH]; intros s Hlen.
  - destruct s; [|simpl in Hlen; lia]. cbn [Re.sub_go].
    unfold Re.match_len. now rewrite match_at_ws_run.
  - destruct s as [|c t].
    + cbn [Re.sub_go]. unfold Re.match_len. now rewrite match_at_ws_run.
    + cbn [Re.sub_go collapse]. unfold Re.match_len.
      rewrite match_at_ws_run. simpl in Hlen.
      destruct (Py.isspace c); cbn [option_map];
        [|now rewrite IH by lia].
      pose proof (dropwhile_length Py.isspace t) as Hd.
      replace (length (c :: t) - length (Py.dropwhile Py.isspace t))
        with (S (length t - length (Py.dropwhile Py.isspace t)))
        by (cbn [length]; lia).
      cbn [app]. rewrite sub_go_ws_skip, skipn_dropwhile, collapse_run.
      f_equal. apply IH. lia.
Qed.

Lemma norm_ws_collapse :
  forall s, norm_ws s = Py.strip (collapse false s).
Proof.
  intros s. unfold norm_ws, Re.sub.
  now rewrite (@sub_ws_collapse_bounded (length s) s (le_n _)).
Qed.

Lemma collapse_all_space :
  forall w b, all_space w = true -> all_space (collapse b w) = true.
Proof.
  induction w as [|c w IH]; intros b H; [reflexivity|].
  unfold all_space in H. simpl in H. apply andb_prop in H as [Hc Hw].
  cbn [collapse]. rewrite Hc.
  destruct b; [now apply IH|].
  unfold all_space. cbn [forallb]. change (Py.isspace SP) with true.
  now apply IH.
Qed.

Lemma rstrip_all_space : forall w, all_space w = true -> Py.rstrip w = [].
Proof.
  intros w H. unfold Py.rstrip.
  rewrite dropwhile_all; [reflexivity|]. now rewrite forallb_rev.
Qed.

Lemma rstrip_congr :
  forall p Y Y', Py.rstrip Y = Py.rstrip Y' ->
                 Py.rstrip (p ++ Y) = Py.rstrip (p ++ Y').
Proof.
  intros p Y Y' H.
  destruct (rstrip_decomp Y) as [w1 [Hw1 H1]].
  destruct (rstrip_decomp Y') as [w2 [Hw2 H2]].
  rewrite H1, H2, <- H, !app_assoc.
  rewrite (@rstrip_app_space _ w1 Hw1), (@rstrip_app_space _ w2 Hw2).
  reflexivity.
Qed.

Lemma rstrip_collapse_app :
  forall w, all_space w = true ->
  forall x b, Py.rstrip (collapse b (x ++ w)) = Py.rstrip (collapse b x).
Proof.
  intros w Hw. induction x as [|c x IH]; intros b.
  - simpl app. cbn [collapse].
    now rewrite !rstrip_all_space by (try reflexivity; now apply collapse_all_space).
  - simpl app. cbn [collapse]. destruct (Py.isspace c).
    + destruct b; [apply IH|].
      apply (@rstrip_congr [SP]), IH.
    + apply (@rstrip_congr [c]), IH.
Qed.

Lemma lstrip_app_space :
  forall Z w, all_space w = true ->
    Py.rstrip (Py.lstrip (Z ++ w)) = Py.rstrip (Py.lstrip Z).
Proof.
  intros Z w Hw. unfold Py.lstrip. induction Z as [|c Z IH].
  - simpl app. rewrite (@dropwhile_all Py.isspace w Hw). reflexivity.
  - simpl app. cbn [Py.dropwhile]. destruct (Py.isspace c); [exact IH|].
    change (c :: Z ++ w) with ((c :: Z) ++ w).
    now apply rstrip_app_space.
Qed.

Lemma strip_congr :
  forall Y Y', Py.rstrip Y = Py.rstrip Y' -> Py.strip Y = Py.strip Y'.
Proof.
  intros Y Y' H. unfold Py.strip.
  destruct (rstrip_decomp Y) as [w1 [Hw1 H1]].
  destruct (rstrip_decomp Y') as [w2 [Hw2 H2]].
  rewrite H1, H2, <- H.
  now rewrite !lstrip_app_space by assumption.
Qed.

(** Whitespace at the end of a text does not change its normal form. *)
Lemma norm_ws_app_space :
  forall x w, all_space w = true -> norm_ws (x ++ w) = norm_ws x.
Proof.
  intros x w Hw. rewrite !norm_ws_collapse.
  apply strip_congr. now apply rstrip_collapse_app.
Qed.

(** ** Head noise in front of a text *)

Lemma noise_loop_fuel :
  forall n m ls, length ls <= n -> length ls <= m ->
                 noise_loop n ls = noise_loop m ls.
Proof.
  induction n as [|n IH]; intros m ls Hn Hm.
  - destruct ls; [now destruct m | simpl in Hn; lia].
  - destruct m as [|m]; [destruct ls; [reflexivity | simpl in Hm; lia]|].
    cbn [noise_loop]. destruct ls as [|l t]; [reflexivity|].
    assert (Hstep : forall closer,
               match after_closer closer (l :: t) with
               | Some rest => noise_loop n (drop_blank rest)
               | None => l :: t
               end
               = match after_closer closer (l :: t) with
                 | Some rest => noise_loop m (drop_blank rest)
                 | None => l :: t
                 end).
    { intros closer.
      destruct (after_closer closer (l :: t)) as [rest|] eqn:Ha;
        [|reflexivity].
      destruct (after_closer_suffix _ _ Ha) as [Hl _].
      pose proof (drop_blank_length rest). simpl in Hl, Hn, Hm.
      apply IH; lia. }
    now rewrite !Hstep.
Qed.

Lemma opener_not_blank :
  forall o1 op l, Py.startswith (o1 :: op) (Py.lstrip l) = true ->
                  is_blank l = false.
Proof.
  intros o1 op l H. unfold is_blank, Py.strip.
  unfold Py.lstrip in *.
  destruct (Py.dropwhile Py.isspace l) as [|x q] eqn:E; [discriminate|].
  pose proof (dropwhile_head _ _ E) as Hx.
  pose proof (@is_blank_nonspace x q Hx) as Hb.
  unfold is_blank, Py.strip, Py.lstrip in Hb.
  cbn [Py.dropwhile] in Hb. now rewrite Hx in Hb.
Qed.

Lemma after_closer_app :
  forall closer B r X, after_closer closer B = Some r ->
                       after_closer closer (B ++ X) = Some (r ++ X).
Proof.
  induction B as [|l B IH]; intros r X H; [discriminate|].
  simpl app. cbn [after_closer] in *.
  destruct (Py.contains closer l); [now inversion H | now apply IH].
Qed.

Lemma noise_prefix_dropped :
  forall P, noise_prefix P ->
  forall L n m, length (P ++ L) <= n -> length L <= m ->
    noise_loop n (drop_blank (P ++ L)) = noise_loop m (drop_blank L).
Proof.
  induction 1 as [|l P Hl HP IH|B P [Hopen Hclose] HP IH
                  |B P [Hopen Hclose] HP IH]; intros L n m Hn Hm.
  - simpl app in *. pose proof (drop_blank_length L).
    apply noise_loop_fuel; lia.
  - simpl app in *. cbn [drop_blank]. rewrite Hl.
    apply IH; [simpl in Hn; lia | assumption].
  - destruct B as [|c1 B']; [contradiction|].
    rewrite <- app_assoc in *. simpl app in *. cbn [drop_blank].
    rewrite (opener_not_blank _ _ _ Hopen).
    destruct n as [|n]; [simpl in Hn; lia|].
    rewrite (noise_loop_html _ _ _ Hopen).
    change (c1 :: B' ++ P ++ L) with ((c1 :: B') ++ P ++ L).
    rewrite (after_closer_app _ _ (P ++ L) Hclose). simpl app.
    apply IH; [|assumption].
    simpl in Hn. rewrite length_app in Hn. lia.
  - destruct B as [|c1 B']; [contradiction|].
    rewrite <- app_assoc in *. simpl app in *. cbn [drop_blank].
    rewrite (opener_not_blank _ _ _ Hopen).
    destruct n as [|n]; [simpl in Hn; lia|].
    rewrite (noise_loop_razor _ _ _ Hopen).
    change (c1 :: B' ++ P ++ L) with ((c1 :: B') ++ P ++ L).
    rewrite (after_closer_app _ _ (P ++ L) Hclose). simpl app.
    apply IH; [|assumption].
    simpl in Hn. rewrite length_app in Hn. lia.
Qed.

Lemma strip_lines_noise_prefix :
  forall P L, noise_prefix P -> strip_lines (P ++ L) = strip_lines L.
Proof.
  intros P L HP. unfold strip_lines.
  now apply noise_prefix_dropped.
Qed.

Lemma splitlines_lines_text :
  forall P x, Forall (fun l => no_linebreak l = true) P ->
    Py.splitlines (lines_text P ++ x) = P ++ Py.splitlines x.
Proof.
  induction P as [|l P IH]; intros x H; [reflexivity|].
  inversion H; subst. unfold lines_text in *. cbn [flat_map].
  rewrite <- !app_assoc. simpl app.
  rewrite splitlines_line_lf by assumption. now rewrite IH.
Qed.

(** ** Whitespace after a text *)

Lemma all_space_blank : forall l, all_space l = true -> is_blank l = true.
Proof.
  intros l H. unfold is_blank, Py.strip, Py.lstrip.
  now rewrite (@dropwhile_all Py.isspace l H).
Qed.

Lemma drop_blank_all_space :
  forall Ls, Forall (fun l => all_space l = true) Ls -> drop_blank Ls = [].
Proof.
  induction Ls as [|l Ls IH]; intros H; [reflexivity|].
  inversion H; subst. cbn [drop_blank].
  rewrite all_space_blank by assumption. now apply IH.
Qed.

Lemma is_blank_app_space :
  forall l c w, Py.isspace c = false ->
    is_blank ((l ++ [c]) ++ w) = false /\ is_blank (l ++ [c]) = false.
Proof.
  assert (H : forall s c, Py.isspace c = false -> In c s ->
                          is_blank s = false).
  { intros s c Hc Hin. destruct (is_blank s) eqn:E; [|reflexivity].
    exfalso. unfold is_blank, Py.strip in E.
    destruct (Py.rstrip (Py.lstrip s)) eqn:Er; [|discriminate].
    destruct (rstrip_decomp (Py.lstrip s)) as [w1 [Hw1 H1]].
    rewrite Er in H1. simpl app in H1.
    destruct (dropwhile_decomp Py.isspace s) as [w0 [Hw0 H0]].
    fold (Py.lstrip s) in H0. rewrite H1 in H0.
    rewrite H0 in Hin. apply in_app_or in Hin.
    unfold all_space in Hw1. rewrite forallb_forall in Hw0, Hw1.
    destruct Hin as [Hin | Hin]; [apply Hw0 in Hin | apply Hw1 in Hin];
      congruence. }
  intros l c w Hc. split; apply (H _ c Hc); rewrite ?in_app_iff; simpl; auto.
Qed.

Lemma tail_ext_build :
  forall init l c l0 Ls,
    Py.isspace c = false -> all_space l0 = true ->
    Forall (fun l => all_space l = true) Ls ->
    tail_ext (init ++ [l ++ [c]]) (init ++ ((l ++ [c]) ++ l0) :: Ls).
Proof.
  induction init as [|x init IH]; intros l c l0 Ls Hc Hl0 HLs.
  - now apply te_last.
  - simpl app. apply te_cons; [now apply IH|].
    now destruct init.
Qed.

Lemma tail_ext_drop_blank :
  forall L L', tail_ext L L' -> tail_ext (drop_blank L) (drop_blank L').
Proof.
  induction 1 as [Ls HLs | l c l0 Ls Hc Hl0 HLs | x L L' H IH Hne].
  - rewrite (drop_blank_all_space HLs). apply te_nil. constructor.
  - cbn [drop_blank].
    destruct (@is_blank_app_space l c l0 Hc) as [-> ->].
    now apply te_last.
  - cbn [drop_blank]. destruct (is_blank x); [exact IH|].
    now apply te_cons.
Qed.

Lemma contains_all_space :
  forall k1 kw l, Py.isspace k1 = false -> all_space l = true ->
                  Py.contains (k1 :: kw) l = false.
Proof.
  intros k1 kw l Hk Hl. unfold Py.contains.
  now rewrite find_space_none.
Qed.

Lemma after_closer_all_space :
  forall k1 kw Ls, Py.isspace k1 = false ->
    Forall (fun l => all_space l = true) Ls ->
    after_closer (k1 :: kw) Ls = None.
Proof.
  intros k1 kw Ls Hk. induction Ls as [|l Ls IH]; intros H; [reflexivity|].
  inversion H; subst. cbn [after_closer].
  rewrite contains_all_space by assumption. now apply IH.
Qed.

Lemma tail_ext_after_closer :
  forall k1 kw, no_space (k1 :: kw) = true ->
  forall L L', tail_ext L L' ->
    (after_closer (k1 :: kw) L = None /\ after_closer (k1 :: kw) L' = None)
    \/ exists r r', after_closer (k1 :: kw) L = Some r
                    /\ after_closer (k1 :: kw) L' = Some r'
                    /\ tail_ext r r'.
Proof.
  intros k1 kw Hkw.
  assert (Hk1 : Py.isspace k1 = false).
  { unfold no_space in Hkw. simpl in Hkw. apply andb_prop in Hkw as [H _].
    now apply negb_true_iff in H. }
  induction 1 as [Ls HLs | l c l0 Ls Hc Hl0 HLs | x L L' H IH Hne].
  - left. split; [reflexivity | now apply after_closer_all_space].
  - cbn [after_closer].
    rewrite (@contains_app_space (k1 :: kw) ltac:(discriminate) Hkw l0 Hl0).
    destruct (Py.contains (k1 :: kw) (l ++ [c])).
    + right. exists [], Ls. repeat split. now apply te_nil.
    + left. split; [reflexivity | now apply after_closer_all_space].
  - cbn [after_closer]. destruct (Py.contains (k1 :: kw) x).
    + right. now exists L, L'.
    + exact IH.
Qed.

Lemma noise_loop_all_space :
  forall m Ls, Forall (fun l => all_space l = true) Ls ->
               noise_loop m Ls = Ls.
Proof.
  intros [|m] Ls H; [reflexivity|]. cbn [noise_loop].
  destruct Ls as [|l t]; [reflexivity|]. inversion H; subst.
  unfold Py.lstrip. now rewrite (@dropwhile_all Py.isspace l) by assumption.
Qed.

Lemma tail_ext_head :
  forall x L0 L', tail_ext (x :: L0) L' ->
    exists x' t', L' = x' :: t'
      /\ forall kw, kw <> [] -> no_space kw = true ->
           Py.startswith kw (Py.lstrip x') = Py.startswith kw (Py.lstrip x).
Proof.
  intros x L0 L' H. inversion H as [|l c l0 Ls Hc Hl0 HLs|y L1 L1' H1 Hne];
    subst.
  - exists ((l ++ [c]) ++ l0), Ls. split; [reflexivity|].
    intros kw Hne Hkw. unfold Py.lstrip.
    rewrite (@dropwhile_app_keep Py.isspace c l0 l Hc).
    now apply startswith_app_space.
  - exists x, L1'. now split.
Qed.

Lemma tail_ext_noise_loop :
  forall n L L' m, tail_ext L L' -> length L <= n -> length L' <= m ->
    tail_ext (noise_loop n L) (noise_loop m L').
Proof.
  induction n as [|n IH]; intros L L' m H Hn Hm.
  - destruct L; [|simpl in Hn; lia]. inversion H as [Ls HLs| |]; subst.
    rewrite (@noise_loop_all_space m L' HLs). exact H.
  - destruct L as [|x L0].
    + inversion H as [Ls HLs| |]; subst.
      rewrite (@noise_loop_all_space m L' HLs). exact H.
    + destruct (tail_ext_head H) as [x' [t' [-> Hhead]]].
      destruct m as [|m]; [simpl in Hm; lia|].
      cbn [noise_loop].
      rewrite !Hhead by first [discriminate | reflexivity].
      assert (Hstep : forall k1 kw, no_space (k1 :: kw) = true ->
                 tail_ext
                   match after_closer (k1 :: kw) (x :: L0) with
                   | Some rest => noise_loop n (drop_blank rest)
                   | None => x :: L0
                   end
                   match after_closer (k1 :: kw) (x' :: t') with
                   | Some rest => noise_loop m (drop_blank rest)
                   | None => x' :: t'
                   end).
      { intros k1 kw Hkw.
        destruct (@tail_ext_after_closer k1 kw Hkw _ _ H)
          as [[-> ->] | [r [r' [Hr [Hr' Ht]]]]]; [exact H|].
        rewrite Hr, Hr'.
        destruct (after_closer_suffix _ _ Hr) as [Hl1 _].
        destruct (after_closer_suffix _ _ Hr') as [Hl2 _].
        pose proof (drop_blank_length r). pose proof (drop_blank_length r').
        simpl in Hl1, Hl2, Hn, Hm.
        apply IH; [now apply tail_ext_drop_blank | lia | lia]. }
      destruct (Py.startswith (py "<!--") (Py.lstrip x));
        [now apply (Hstep 45%N (py "->"))|].
      destruct (Py.startswith (py "@*") (Py.lstrip x));
        [now apply (Hstep 42%N (py "@")) | exact H].
Qed.

Lemma join_lf_cons :
  forall x L, L <> [] -> Py.join_lf (x :: L) = x ++ LF :: Py.join_lf L.
Proof. intros x [|y L] H; [congruence | reflexivity]. Qed.

Lemma join_all_space :
  forall Ls, Forall (fun l => all_space l = true) Ls ->
             all_space (Py.join_lf Ls) = true.
Proof.
  induction Ls as [|l Ls IH]; intros H; [reflexivity|].
  inversion H; subst. destruct Ls as [|l2 Ls]; [assumption|].
  rewrite join_lf_cons by discriminate. unfold all_space in *.
  rewrite forallb_app. cbn [forallb]. change (Py.isspace LF) with true.
  rewrite H2. now apply IH.
Qed.

Lemma tail_ext_join :
  forall L L', tail_ext L L' ->
    exists w, all_space w = true /\ Py.join_lf L' = Py.join_lf L ++ w.
Proof.
  induction 1 as [Ls HLs | l c l0 Ls Hc Hl0 HLs | x L L' H IH Hne].
  - exists (Py.join_lf Ls). split; [now apply join_all_space | reflexivity].
  - destruct Ls as [|l2 Ls].
    + exists l0. now split.
    + exists (l0 ++ LF :: Py.join_lf (l2 :: Ls)). split.
      * unfold all_space in *. rewrite forallb_app. cbn [forallb].
        change (Py.isspace LF) with true. rewrite Hl0.
        now apply join_all_space.
      * rewrite join_lf_cons by discriminate. cbn [Py.join_lf].
        now rewrite <- !app_assoc.
  - destruct IH as [w [Hw Hj]]. exists w. split; [assumption|].
    assert (Hne' : L' <> []) by (inversion H; subst; congruence).
    rewrite !join_lf_cons by assumption. rewrite Hj.
    now rewrite <- app_assoc.
Qed.

Lemma tail_ext_strip_lines :
  forall L L', tail_ext L L' -> tail_ext (strip_lines L) (strip_lines L').
Proof.
  intros L L' H. unfold strip_lines.
  apply tail_ext_noise_loop; [now apply tail_ext_drop_blank | |];
    apply drop_blank_length.
Qed.

Lemma dropwhile_app_nonempty :
  forall p s w, Py.dropwhile p s <> [] ->
                Py.dropwhile p (s ++ w) = Py.dropwhile p s ++ w.
Proof.
  induction s as [|x s IH]; intros w H; [now elim H|].
  simpl app. cbn [Py.dropwhile] in *.
  destruct (p x); [now apply IH | reflexivity].
Qed.

Lemma dropwhile_snoc_shape :
  forall p a c, Py.dropwhile p (a ++ [c]) = []
                \/ exists a', Py.dropwhile p (a ++ [c]) = a' ++ [c].
Proof.
  induction a as [|x a IH]; intros c; simpl app; cbn [Py.dropwhile].
  - destruct (p c); [now left | right; now exists []].
  - destruct (p x); [apply IH | right; now exists (x :: a)].
Qed.

Lemma lstrip_bom_all_space :
  forall w, all_space w = true -> Py.lstrip_bom w = w.
Proof.
  intros [|c w] H; [reflexivity|].
  unfold all_space in H. simpl in H. apply andb_prop in H as [Hc _].
  unfold Py.lstrip_bom. cbn [Py.dropwhile].
  destruct (N.eqb BOM c) eqn:E; [|reflexivity].
  apply N.eqb_eq in E. subst c. discriminate.
Qed.

Lemma strip_lines_all_space :
  forall Ls, Forall (fun l => all_space l = true) Ls -> strip_lines Ls = [].
Proof.
  intros Ls H. unfold strip_lines. rewrite (drop_blank_all_space H).
  now destruct (length Ls).
Qed.

(** Whitespace after a text reaches the normalization as whitespace at
    its end, if at all. *)
Lemma strip_leading_noise_app_space :
  forall e w, all_space w = true ->
    exists w', all_space w' = true
      /\ _strip_leading_noise (Py.rstrip e ++ w)
         = _strip_leading_noise (Py.rstrip e) ++ w'.
Proof.
  intros e w Hw. unfold _strip_leading_noise.
  assert (Hblank : Py.join_lf (strip_lines (Py.splitlines w)) = []).
  { now rewrite (strip_lines_all_space (splitlines_all_space _ Hw)). }
  destruct (rstrip_shape e) as [-> | [a [c [-> Hc]]]].
  - exists []. split; [reflexivity|]. simpl app.
    now rewrite (lstrip_bom_all_space _ Hw), Hblank.
  - unfold Py.lstrip_bom.
    destruct (dropwhile_snoc_shape (N.eqb BOM) a c) as [Hnil | [a' Ha']].
    + exists []. split; [reflexivity|]. rewrite Hnil, app_nil_r.
      destruct (dropwhile_decomp (N.eqb BOM) (a ++ [c])) as [b [Hb Hs]].
      rewrite Hnil, app_nil_r in Hs. rewrite Hs.
      rewrite (dropwhile_app_all _ b w Hb).
      fold (Py.lstrip_bom w).
      rewrite (lstrip_bom_all_space _ Hw), Hblank. reflexivity.
    + rewrite dropwhile_app_nonempty
        by (rewrite Ha'; now destruct a').
      rewrite Ha'.
      destruct (@splitlines_last_line c (nonspace_not_linebreak _ Hc) a')
        as [init [l H]].
      rewrite <- app_assoc. simpl app. rewrite (H w), (H []).
      cbn [Py.splitlines continue_line].
      pose proof (splitlines_all_space _ Hw) as Hall.
      destruct (Py.splitlines w) as [|l0 Ls]; cbn [continue_line].
      * exists []. split; [reflexivity | now rewrite app_nil_r].
      * inversion Hall as [|? ? Hl0 HLs]; subst.
        change (l ++ c :: l0) with (l ++ [c] ++ l0).
        rewrite (app_assoc l [c] l0).
        apply tail_ext_join, tail_ext_strip_lines.
        now apply tail_ext_build.
Qed.

(** The normal form of a text does not depend on whitespace at its
    end. *)
Lemma norm_strip_app_space :
  forall e w, all_space w = true ->
    norm_ws (_strip_leading_noise (e ++ w))
    = norm_ws (_strip_leading_noise e).
Proof.
  intros e w Hw.
  destruct (rstrip_decomp e) as [w1 [Hw1 He]].
  assert (Hw2 : all_space (w1 ++ w) = true)
    by (unfold all_space in *; now rewrite forallb_app, Hw1, Hw).
  destruct (@strip_leading_noise_app_space e (w1 ++ w) Hw2)
    as [u2 [Hu2 H2]].
  destruct (@strip_leading_noise_app_space e w1 Hw1) as [u1 [Hu1 H1]].
  rewrite He at 1. rewrite <- app_assoc, H2.
  rewrite He at 2. rewrite H1.
  now rewrite !norm_ws_app_space by assumption.
Qed.

(** ** Comparison with a wrapped candidate *)

Lemma blank_head_space :
  forall c l, is_blank (c :: l) = true -> Py.isspace c = true.
Proof.
  intros c l H. destruct (Py.isspace c) eqn:E; [reflexivity|].
  now rewrite (@is_blank_nonspace c l E) in H.
Qed.

Lemma noise_line_no_bom :
  forall l y,
    (is_blank l = true
     \/ exists o1 op, Py.startswith (o1 :: op) (Py.lstrip l) = true
                      /\ N.eqb BOM o1 = false) ->
    Py.startswith [BOM] (l ++ LF :: y) = false.
Proof.
  intros [|c l] y H; [reflexivity|].
  simpl app. cbn [Py.startswith]. rewrite andb_true_r.
  destruct (Py.isspace c) eqn:Hc.
  - apply N.eqb_neq. intros <-. discriminate.
  - destruct H as [H | [o1 [op [H Ho]]]].
    + apply blank_head_space in H. congruence.
    + unfold Py.lstrip in H. cbn [Py.dropwhile Py.startswith] in H.
      rewrite Hc in H. cbn [Py.startswith] in H.
      apply andb_prop in H as [H _]. apply N.eqb_eq in H. now subst c.
Qed.

Lemma noise_prefix_no_bom :
  forall P, noise_prefix P -> P <> [] ->
  forall y, Py.startswith [BOM] (lines_text P ++ y) = false.
Proof.
  intros P HP Hne y.
  destruct HP as [|l P Hl HP|B P [Hopen _] HP|B P [Hopen _] HP];
    [congruence| | |].
  - unfold lines_text. cbn [flat_map]. rewrite <- !app_assoc. simpl app.
    apply noise_line_no_bom. now left.
  - destruct B as [|c1 B]; [contradiction|].
    unfold lines_text. simpl app. cbn [flat_map].
    rewrite <- !app_assoc. simpl app.
    apply noise_line_no_bom. right. now exists 60%N, (py "!--").
  - destruct B as [|c1 B]; [contradiction|].
    unfold lines_text. simpl app. cbn [flat_map].
    rewrite <- !app_assoc. simpl app.
    apply noise_line_no_bom. right. now exists 64%N, (py "*").
Qed.

(** Head noise in front of a text that does not begin with a
    byte-order mark is removed by the normalization. *)
Lemma strip_leading_noise_prefix :
  forall P x, noise_prefix P ->
    Forall (fun l => no_linebreak l = true) P ->
    (P = [] \/ Py.startswith [BOM] x = false) ->
    _strip_leading_noise (lines_text P ++ x) = _strip_leading_noise x.
Proof.
  intros P x HP Hnl Hbom.
  destruct P as [|l P']; [reflexivity|].
  destruct Hbom as [Hbom | Hbom]; [discriminate|].
  unfold _strip_leading_noise.
  rewrite (lstrip_bom_id _ (noise_prefix_no_bom HP ltac:(discriminate) x)).
  rewrite (lstrip_bom_id _ Hbom).
  rewrite splitlines_lines_text by assumption.
  now rewrite strip_lines_noise_prefix.
Qed.

Lemma compare_noise_wrapped :
  forall (uni : char -> bool) (e g : str) (P : list str) (post : str),
    strip_region_wrappers uni g = lines_text P ++ e ++ post ->
    noise_prefix P ->
    Forall (fun l => no_linebreak l = true) P ->
    all_space post = true ->
    (P = [] \/ Py.startswith [BOM] e = false) ->
    compare uni e g = Match.
Proof.
  intros uni e g P post Hg HP Hnl Hpost Hbom.
  unfold compare. rewrite Hg.
  rewrite strip_leading_noise_prefix; try assumption.
  - rewrite norm_strip_app_space by assumption.
    now rewrite (proj2 (str_eqb_eq _ _) eq_refl).
  - destruct Hbom as [-> | Hbom]; [now left | right].
    destruct e as [|c e]; [|exact Hbom].
    simpl app. destruct post as [|p post]; [reflexivity|].
    unfold all_space in Hpost. simpl in Hpost.
    apply andb_prop in Hpost as [Hp _].
    cbn [Py.startswith]. rewrite andb_true_r.
    apply N.eqb_neq. intros <-. discriminate.
Qed.

(** ** Region markers *)

Lemma rmatch_cat_cons :
  forall r rs s k,
    Re.rmatch (Re.cat (r :: rs)) s k
    = Re.rmatch r s (fun s' => Re.rmatch (Re.cat rs) s' k).
Proof. reflexivity. Qed.

Lemma rmatch_cat_nil : forall s k, Re.rmatch (Re.cat []) s k = k s.
Proof. reflexivity. Qed.

Lemma rmatch_lits_app :
  forall p s k, Re.rmatch (Re.lits p) (p ++ s) k = k s.
Proof.
  induction p as [|c p IH]; intros s k; [reflexivity|].
  unfold Re.lits in *. cbn [map]. rewrite rmatch_cat_cons.
  unfold Re.Lit at 1. rewrite rmatch_Cls. simpl app. cbv beta iota.
  rewrite N.eqb_refl. apply IH.
Qed.

Lemma ci_eq_refl : forall c, Re.ci_eq c c = true.
Proof. intros c. unfold Re.ci_eq. now rewrite N.eqb_refl. Qed.

Lemma rmatch_lits_i_app :
  forall p s k, Re.rmatch (Re.lits_i p) (p ++ s) k = k s.
Proof.
  induction p as [|c p IH]; intros s k; [reflexivity|].
  unfold Re.lits_i in *. cbn [map]. rewrite rmatch_cat_cons.
  rewrite rmatch_Cls. simpl app. cbv beta iota.
  rewrite ci_eq_refl. apply IH.
Qed.

Lemma rmatch_lits_fail :
  forall p s k, Py.startswith p s = false -> Re.rmatch (Re.lits p) s k = None.
Proof.
  induction p as [|c p IH]; intros s k H; [discriminate|].
  unfold Re.lits in *. cbn [map]. rewrite rmatch_cat_cons.
  unfold Re.Lit at 1. rewrite rmatch_Cls.
  destruct s as [|x s]; [reflexivity|]. cbn [Py.startswith] in H.
  destruct (N.eqb c x); [|reflexivity]. now apply IH.
Qed.

Lemma rmatch_lits_i_head :
  forall c p x s k, Re.ci_eq c x = false ->
                    Re.rmatch (Re.lits_i (c :: p)) (x :: s) k = None.
Proof.
  intros c p x s k H. unfold Re.lits_i. cbn [map].
  rewrite rmatch_cat_cons, rmatch_Cls. now rewrite H.
Qed.

Lemma greedy_cls_stop :
  forall p k c t, p c = false -> greedy_cls p k (c :: t) = k (c :: t).
Proof. intros p k c t H. cbn [greedy_cls]. now rewrite H. Qed.

Lemma greedy_cls_step :
  forall p k c t, p c = true ->
    greedy_cls p k (c :: t)
    = match greedy_cls p k t with
      | Some r => Some r
      | None => k (c :: t)
      end.
Proof. intros p k c t H. cbn [greedy_cls]. now rewrite H. Qed.

(** A greedy star that runs over [run] and succeeds from [rest] on. *)
Lemma greedy_cls_run_ok :
  forall p k run rest r,
    forallb p run = true ->
    greedy_cls p k rest = Some r ->
    greedy_cls p k (run ++ rest) = Some r.
Proof.
  intros p k run rest r H Hrest. induction run as [|c run IH]; simpl app;
    [exact Hrest|].
  simpl in H. apply andb_prop in H as [Hc Hr].
  now rewrite (@greedy_cls_step p k c _ Hc), (IH Hr).
Qed.

Lemma greedy_cls_run_fail :
  forall p k run rest,
    forallb p run = true ->
    greedy_cls p k rest = None ->
    (forall c t, p c = true -> k (c :: t) = None) ->
    greedy_cls p k (run ++ rest) = None.
Proof.
  intros p k run rest H Hrest Hk. induction run as [|c run IH]; simpl app;
    [exact Hrest|].
  simpl in H. apply andb_prop in H as [Hc Hr].
  rewrite (@greedy_cls_step p k c _ Hc), (IH Hr). now apply Hk.
Qed.

Lemma rmatch_plus_cls :
  forall p s k,
    Re.rmatch (Re.Plus (Re.Cls p)) s k
    = match s with
      | c :: t => if p c then greedy_cls p k t else None
      | [] => None
      end.
Proof.
  intros p s k. unfold Re.Plus. rewrite rmatch_Seq, rmatch_Cls.
  destruct s as [|c t]; [reflexivity|]. destruct (p c); [|reflexivity].
  apply rmatch_star_greedy_cls.
Qed.

Lemma region_marker_app :
  forall name tag rest,
    region_marker name tag ++ rest
    = py "<!--" ++ SP :: py "REGION:" ++ SP :: name
      ++ py "." ++ py tag ++ SP :: py "-->" ++ rest.
Proof.
  intros name tag rest. unfold region_marker.
  repeat (rewrite <- ?app_assoc, <- ?app_comm_cons). reflexivity.
Qed.

Lemma ident_char_word :
  forall uni c, ident_char c = true -> Re.is_word uni c = true.
Proof.
  intros uni c H. unfold Re.is_word.
  replace (N.ltb c 128) with true; [exact H|].
  symmetry. apply N.ltb_lt. unfold ident_char, in_range in H.
  repeat rewrite ?orb_true_iff, ?andb_true_iff, ?N.leb_le, ?N.eqb_eq in H.
  lia.
Qed.

Lemma ident_char_not_space :
  forall c, ident_char c = true -> Py.isspace c = false.
Proof.
  intros c H. destruct (Py.isspace c) eqn:E; [|reflexivity]. exfalso.
  unfold ident_char, Py.isspace, in_range in *.
  repeat rewrite ?orb_true_iff, ?andb_true_iff, ?N.leb_le, ?N.eqb_eq in *.
  lia.
Qed.

Lemma ident_chars_word :
  forall uni name, forallb ident_char name = true ->
                   forallb (Re.is_word uni) name = true.
Proof.
  intros uni name H. rewrite forallb_forall in *. intros c Hc.
  now apply ident_char_word, H.
Qed.

(** The end of the region pattern on the end of a marker. *)
Lemma region_tail_match :
  forall tag rest,
    Re.rmatch (Re.cat [Re.lits_i (py "."); Re.lits_i (py tag);
                       Re.Star true Re.ws; Re.lits (py "-->")])
              (py "." ++ py tag ++ SP :: py "-->" ++ rest) Some
    = Some rest.
Proof.
  intros tag rest.
  rewrite rmatch_cat_cons, rmatch_lits_i_app.
  rewrite rmatch_cat_cons, rmatch_lits_i_app.
  rewrite rmatch_cat_cons. unfold Re.ws. rewrite rmatch_star_greedy_cls.
  rewrite (@greedy_cls_step Py.isspace _ SP _ eq_refl).
  change (py "-->" ++ rest) with (45%N :: (py "->" ++ rest)) at 1.
  rewrite (@greedy_cls_stop Py.isspace _ 45%N _ eq_refl).
  change (45%N :: (py "->" ++ rest)) with (py "-->" ++ rest).
  rewrite rmatch_cat_cons, rmatch_lits_app. reflexivity.
Qed.

(** The region pattern matches a marker of its tag, and exactly it. *)
Lemma region_marker_match :
  forall uni tag name rest,
    name <> [] -> forallb ident_char name = true ->
    Re.match_at (re_region uni tag) (region_marker name tag ++ rest)
    = Some rest.
Proof.
  intros uni tag name rest Hne Hname.
  unfold Re.match_at, re_region. rewrite region_marker_app.
  rewrite rmatch_cat_cons, rmatch_lits_app.
  rewrite rmatch_cat_cons. unfold Re.ws at 1.
  rewrite rmatch_star_greedy_cls.
  rewrite (@greedy_cls_step Py.isspace _ SP _ eq_refl).
  change (py "REGION:" ++ SP :: name ++ py "." ++ py tag
          ++ SP :: py "-->" ++ rest)
    with (82%N :: (py "EGION:" ++ SP :: name ++ py "." ++ py tag
                   ++ SP :: py "-->" ++ rest)) at 1.
  rewrite (@greedy_cls_stop Py.isspace _ 82%N _ eq_refl).
  change (82%N :: (py "EGION:" ++ SP :: name ++ py "." ++ py tag
                   ++ SP :: py "-->" ++ rest))
    with (py "REGION:" ++ SP :: name ++ py "." ++ py tag
          ++ SP :: py "-->" ++ rest).
  rewrite rmatch_cat_cons, rmatch_lits_i_app.
  rewrite rmatch_cat_cons. unfold Re.ws at 1.
  rewrite rmatch_star_greedy_cls.
  rewrite (@greedy_cls_step Py.isspace _ SP _ eq_refl).
  destruct name as [|n1 name]; [congruence|].
  simpl in Hname. apply andb_prop in Hname as [Hn1 Hname].
  simpl app.
  rewrite (@greedy_cls_stop Py.isspace _ n1 _ (ident_char_not_space _ Hn1)).
  rewrite rmatch_cat_cons, rmatch_plus_cls.
  rewrite (ident_char_word uni _ Hn1).
  rewrite (@greedy_cls_run_ok (Re.is_word uni) _ name _ rest
             (ident_chars_word uni _ Hname)); [reflexivity|].
  rewrite (@greedy_cls_stop (Re.is_word uni) _ 46%N _ eq_refl).
  exact (region_tail_match tag rest).
Qed.

Lemma word_not_dot :
  forall uni c, Re.is_word uni c = true -> Re.ci_eq 46%N c = false.
Proof.
  intros uni c H. destruct (Re.ci_eq 46%N c) eqn:E; [|reflexivity].
  exfalso. unfold Re.ci_eq in E. change (Re.lower 46%N) with 46%N in E.
  change (N.eqb 46%N 105%N) with false in E.
  change (N.eqb 46%N 115%N) with false in E.
  change (N.eqb 46%N 107%N) with false in E.
  cbn [andb] in E. rewrite !orb_false_r in E.
  apply N.eqb_eq in E. unfold Re.lower in E.
  destruct (in_range 65%N 90%N c) eqn:R.
  - unfold in_range in R. rewrite andb_true_iff, !N.leb_le in R. lia.
  - subst c. discriminate.
Qed.

(** The pattern of the Start marker does not match an End marker. *)
Lemma region_start_not_end :
  forall uni name rest,
    name <> [] -> forallb ident_char name = true ->
    Re.match_at (re_region uni "Start") (region_marker name "End" ++ rest)
    = None.
Proof.
  intros uni name rest Hne Hname.
  unfold Re.match_at, re_region. rewrite region_marker_app.
  set (Z := SP :: py "-->" ++ rest).
  set (K5 := fun s' : str =>
               Re.rmatch (Re.cat [Re.lits_i (py "."); Re.lits_i (py "Start");
                                  Re.Star true Re.ws; Re.lits (py "-->")])
                         s' Some).
  assert (HK5 : forall c t, Re.is_word uni c = true -> K5 (c :: t) = None).
  { intros c t Hc. unfold K5. rewrite rmatch_cat_cons.
    apply rmatch_lits_i_head. now apply word_not_dot with (uni := uni). }
  assert (Htail : K5 (py "." ++ py "End" ++ Z) = None).
  { unfold K5. rewrite rmatch_cat_cons, rmatch_lits_i_app.
    rewrite rmatch_cat_cons. now apply rmatch_lits_i_head. }
  rewrite rmatch_cat_cons, rmatch_lits_app.
  rewrite rmatch_cat_cons. unfold Re.ws at 1.
  rewrite rmatch_star_greedy_cls.
  rewrite (@greedy_cls_step Py.isspace _ SP _ eq_refl).
  set (X := SP :: name ++ py "." ++ py "End" ++ Z).
  assert (HX : Re.rmatch
                 (Re.cat [Re.Star true Re.ws;
                          Re.Plus (Re.Cls (Re.is_word uni));
                          Re.lits_i (py "."); Re.lits_i (py "Start");
                          Re.Star true Re.ws; Re.lits (py "-->")]) X Some
               = None).
  { unfold X. rewrite rmatch_cat_cons. unfold Re.ws at 1.
    rewrite rmatch_star_greedy_cls.
    rewrite (@greedy_cls_step Py.isspace _ SP _ eq_refl).
    destruct name as [|n1 name]; [congruence|].
    simpl in Hname. apply andb_prop in Hname as [Hn1 Hnm].
    change ((n1 :: name) ++ py "." ++ py "End" ++ Z)
      with (n1 :: (name ++ py "." ++ py "End" ++ Z)) in *.
    rewrite (@greedy_cls_stop Py.isspace _ n1 _
               (ident_char_not_space _ Hn1)).
    rewrite !rmatch_cat_cons, !rmatch_plus_cls.
    rewrite (ident_char_word uni _ Hn1).
    change (Re.is_word uni SP) with false. cbv beta iota.
    assert (Hrun' : greedy_cls (Re.is_word uni) K5
                      (name ++ py "." ++ py "End" ++ Z) = None).
    { apply greedy_cls_run_fail;
        [now apply ident_chars_word | | exact HK5].
      change (py "." ++ py "End" ++ Z) with (46%N :: (py "End" ++ Z)).
      rewrite (@greedy_cls_stop (Re.is_word uni) K5 46%N _ eq_refl).
      exact Htail. }
    fold K5. now rewrite Hrun'. }
  change (py "REGION:" ++ X) with (82%N :: (py "EGION:" ++ X)) at 1.
  rewrite (@greedy_cls_stop Py.isspace _ 82%N _ eq_refl).
  change (82%N :: (py "EGION:" ++ X)) with (py "REGION:" ++ X).
  rewrite rmatch_cat_cons, rmatch_lits_i_app, HX.
  rewrite rmatch_cat_cons. now apply rmatch_lits_i_head.
Qed.

Lemma region_needs_opener :
  forall uni tag s, Py.startswith (py "<!--") s = false ->
                    Re.match_len (re_region uni tag) s = None.
Proof.
  intros uni tag s H. unfold Re.match_len, Re.match_at, re_region.
  now rewrite rmatch_cat_cons, rmatch_lits_fail.
Qed.

Lemma sub_go_region_skip :
  forall uni tag repl n s,
    Re.sub_go (re_region uni tag) repl n s
    = Re.sub_go (re_region uni tag) repl 0 (skipn n s).
Proof.
  induction n as [|n IH]; intros s; [reflexivity|].
  destruct s as [|c t]; cbn [Re.sub_go skipn]; [|apply IH].
  now rewrite region_needs_opener.
Qed.

(** Text without comment openers is copied by the marker removal. *)
Lemma sub_region_opener_free :
  forall uni tag x rest, opener_free x rest ->
    Re.sub_go (re_region uni tag) [] 0 (x ++ rest)
    = x ++ Re.sub_go (re_region uni tag) [] 0 rest.
Proof.
  induction x as [|c x IH]; intros rest H; [reflexivity|].
  simpl app. cbn [Re.sub_go].
  rewrite region_needs_opener
    by (apply (H [] (c :: x)); [reflexivity | discriminate]).
  f_equal. apply IH. intros x1 x2 Hx Hne.
  apply (H (c :: x1) x2); [now rewrite Hx | assumption].
Qed.

(** A marker of the pattern's tag is removed. *)
Lemma sub_region_marker :
  forall uni tag name rest,
    name <> [] -> forallb ident_char name = true ->
    Re.sub_go (re_region uni tag) [] 0 (region_marker name tag ++ rest)
    = Re.sub_go (re_region uni tag) [] 0 rest.
Proof.
  intros uni tag name rest Hne Hname.
  assert (Hlen : Re.match_len (re_region uni tag)
                   (region_marker name tag ++ rest)
                 = Some (length (region_marker name tag))).
  { unfold Re.match_len. rewrite region_marker_match by assumption.
    cbn [option_map]. f_equal. rewrite length_app. lia. }
  destruct (region_marker name tag) as [|m M] eqn:EM;
    [unfold region_marker in EM; discriminate|].
  simpl app in *. cbn [Re.sub_go]. rewrite Hlen. cbn [length app].
  rewrite sub_go_region_skip.
  now rewrite skipn_app, Nat.sub_diag, skipn_all.
Qed.

Lemma find_suffix_none :
  forall p x1 x2, Py.find p (x1 ++ x2) = None -> Py.find p x2 = None.
Proof.
  induction x1 as [|c x1 IH]; intros x2 H; [exact H|].
  simpl app in H. cbn [Py.find] in H.
  destruct (Py.startswith p (c :: x1 ++ x2)); [discriminate|].
  destruct (Py.find p (x1 ++ x2)) eqn:E; [discriminate|]. now apply IH.
Qed.

Lemma startswith_app_mono :
  forall p a b, Py.startswith p a = true -> Py.startswith p (a ++ b) = true.
Proof.
  induction p as [|c p IH]; intros a b H; [reflexivity|].
  destruct a as [|x a]; [discriminate|]. simpl app.
  cbn [Py.startswith] in *. apply andb_prop in H as [-> H].
  now rewrite IH.
Qed.

Lemma find_prefix_none :
  forall p a b, Py.find p (a ++ b) = None -> Py.find p a = None.
Proof.
  induction a as [|c a IH]; intros b H.
  - destruct p as [|k p]; [|reflexivity].
    destruct b; discriminate.
  - simpl app in H. cbn [Py.find] in *.
    destruct (Py.startswith p (c :: a)) eqn:E.
    + change (c :: a ++ b) with ((c :: a) ++ b) in H.
      now rewrite (startswith_app_mono _ _ b E) in H.
    + destruct (Py.startswith p (c :: a ++ b)); [discriminate|].
      destruct (Py.find p (a ++ b)) eqn:E2; [discriminate|].
      now rewrite (IH b E2).
Qed.

Lemma find_none_startswith :
  forall p s, Py.find p s = None -> Py.startswith p s = false.
Proof.
  intros p s H. destruct s as [|c s]; cbn [Py.find] in H;
    destruct (Py.startswith p _); congruence.
Qed.

Lemma startswith_opener_app :
  forall x rest, x <> [] -> (rest = [] \/ exists t, rest = 60%N :: t) ->
    Py.startswith (py "<!--") x = false ->
    Py.startswith (py "<!--") (x ++ rest) = false.
Proof.
  intros x rest Hne Hrest H. change (py "<!--") with [60; 33; 45; 45]%N in *.
  destruct x as [|a [|b [|c [|d x]]]]; [congruence| | | |];
    simpl app; cbn [Py.startswith] in *.
  - destruct Hrest as [-> | [t ->]]; cbn [Py.startswith];
      [now rewrite andb_false_r|].
    change (N.eqb 33 60) with false. cbn [andb]. now rewrite andb_false_r.
  - destruct Hrest as [-> | [t ->]]; cbn [Py.startswith];
      [now rewrite !andb_false_r|].
    change (N.eqb 45 60) with false. cbn [andb]. now rewrite !andb_false_r.
  - destruct Hrest as [-> | [t ->]]; cbn [Py.startswith];
      [now rewrite !andb_false_r|].
    change (N.eqb 45 60) with false. cbn [andb]. now rewrite !andb_false_r.
  - exact H.
Qed.

Lemma opener_free_contains :
  forall x rest, Py.contains (py "<!--") x = false ->
    (rest = [] \/ exists t, rest = 60%N :: t) -> opener_free x rest.
Proof.
  intros x rest Hx Hrest x1 x2 Hsplit Hne.
  apply startswith_opener_app; [assumption | assumption |].
  apply find_none_startswith. apply (find_suffix_none _ x1).
  rewrite <- Hsplit. unfold Py.contains in Hx.
  now destruct (Py.find (py "<!--") x).
Qed.

Lemma opener_free_no_lt :
  forall x rest, (forall c, In c x -> c <> 60%N) -> opener_free x rest.
Proof.
  intros x rest H x1 x2 Hsplit Hne. destruct x2 as [|a x2]; [congruence|].
  simpl app. change (py "<!--") with [60; 33; 45; 45]%N.
  cbn [Py.startswith].
  destruct (N.eqb 60 a) eqn:E; [|reflexivity].
  apply N.eqb_eq in E. exfalso. apply (H a); [|now symmetry].
  rewrite Hsplit. apply in_or_app. right. now left.
Qed.

Lemma ident_char_not_lt : forall c, ident_char c = true -> c <> 60%N.
Proof. intros c H ->. discriminate. Qed.

Lemma end_marker_shape :
  forall name, forallb ident_char name = true ->
    exists M, region_marker name "End" = 60%N :: M
              /\ forall c, In c M -> c <> 60%N.
Proof.
  intros name H. eexists. split; [reflexivity|].
  intros c Hc. rewrite forallb_forall in H.
  repeat (apply in_app_or in Hc as [Hc | Hc] || destruct Hc as [<- | Hc]);
    try discriminate; try contradiction.
  now apply ident_char_not_lt, H.
Qed.

Lemma sub_region_nil :
  forall uni tag, Re.sub_go (re_region uni tag) [] 0 [] = [].
Proof.
  intros uni tag. cbn [Re.sub_go]. now rewrite region_needs_opener.
Qed.

Lemma sub_region_plain :
  forall uni tag post, Py.contains (py "<!--") post = false ->
    Re.sub_go (re_region uni tag) [] 0 post = post.
Proof.
  intros uni tag post H.
  rewrite <- (app_nil_r post) at 1.
  rewrite sub_region_opener_free
    by (apply opener_free_contains; [assumption | now left]).
  now rewrite sub_region_nil, app_nil_r.
Qed.

(** The Start pattern copies an End marker. *)
Lemma sub_region_start_end_marker :
  forall uni name post,
    name <> [] -> forallb ident_char name = true ->
    Py.contains (py "<!--") post = false ->
    Re.sub_go (re_region uni "Start") [] 0 (region_marker name "End" ++ post)
    = region_marker name "End" ++ post.
Proof.
  intros uni name post Hne Hname Hpost.
  pose proof (region_start_not_end uni post Hne Hname) as Hno.
  destruct (end_marker_shape name Hname) as [M [EM HM]].
  rewrite EM in *. simpl app in *. cbn [Re.sub_go].
  unfold Re.match_len. rewrite Hno. cbn [option_map]. f_equal.
  rewrite sub_region_opener_free by now apply opener_free_no_lt.
  now rewrite sub_region_plain.
Qed.

(** A candidate that wraps a text between a Start and an End marker:
    both markers are removed, nothing else is. *)
Lemma strip_region_wrappers_pair :
  forall uni name pre body post,
    name <> [] -> forallb ident_char name = true ->
    Py.contains (py "<!--") (pre ++ body) = false ->
    Py.contains (py "<!--") post = false ->
    strip_region_wrappers uni
      (pre ++ region_marker name "Start" ++ body
       ++ region_marker name "End" ++ post)
    = pre ++ body ++ post.
Proof.
  intros uni name pre body post Hne Hname Hpb Hpost.
  assert (Hfind : Py.find (py "<!--") (pre ++ body) = None).
  { unfold Py.contains in Hpb.
    now destruct (Py.find (py "<!--") (pre ++ body)). }
  assert (Hpre : Py.contains (py "<!--") pre = false).
  { unfold Py.contains. now rewrite (find_prefix_none _ _ _ Hfind). }
  assert (Hbody : Py.contains (py "<!--") body = false).
  { unfold Py.contains. now rewrite (find_suffix_none _ _ _ Hfind). }
  assert (Hlt : forall tag rest,
             exists t, region_marker name tag ++ rest = 60%N :: t)
    by (intros; eexists; reflexivity).
  unfold strip_region_wrappers, Re.sub.
  rewrite (@sub_region_opener_free uni "Start" pre
             (region_marker name "Start" ++ body
              ++ region_marker name "End" ++ post))
    by (apply opener_free_contains; [assumption | right; apply Hlt]).
  rewrite (@sub_region_marker uni "Start" name _ Hne Hname).
  rewrite (@sub_region_opener_free uni "Start" body
             (region_marker name "End" ++ post))
    by (apply opener_free_contains; [assumption | right; apply Hlt]).
  rewrite (@sub_region_start_end_marker uni name post Hne Hname Hpost).
  rewrite (app_assoc pre body).
  rewrite (@sub_region_opener_free uni "End" (pre ++ body)
             (region_marker name "End" ++ post))
    by (apply opener_free_contains; [assumption | right; apply Hlt]).
  rewrite (@sub_region_marker uni "End" name _ Hne Hname).
  rewrite (@sub_region_plain uni "End" post Hpost).
  now rewrite <- app_assoc.
Qed.

(** ** Splitting and joining *)

Lemma splitlines_nonempty :
  forall t, t <> [] -> Py.splitlines t <> [].
Proof.
  intros [|c t] H; [congruence|]. cbn [Py.splitlines].
  destruct (Py.is_linebreak c); [discriminate|].
  now destruct (Py.splitlines t).
Qed.

Lemma join_lf_head :
  forall c l ls, Py.join_lf ((c :: l) :: ls) = c :: Py.join_lf (l :: ls).
Proof. intros c l [|l2 ls]; reflexivity. Qed.

(** Splitting a text whose line breaks are line feeds and joining the
    lines again gives the text back, without its final line feed. *)
Lemma join_splitlines_lf :
  forall t, (forall c, In c t -> Py.is_linebreak c = true -> c = LF) ->
            Py.join_lf (Py.splitlines (t ++ [LF])) = t.
Proof.
  induction t as [|c t IH]; intros H; [reflexivity|].
  assert (Ht : forall x, In x t -> Py.is_linebreak x = true -> x = LF)
    by (intros x Hx; apply H; now right).
  simpl app. destruct (Py.is_linebreak c) eqn:Hc.
  - rewrite (H c (or_introl eq_refl) Hc) in *.
    pose proof (@splitlines_line_lf [] (t ++ [LF]) eq_refl) as E.
    simpl app in E. rewrite E.
    rewrite join_lf_cons by (apply splitlines_nonempty; now destruct t).
    simpl app. now rewrite IH.
  - rewrite (@splitlines_cons_plain c _ Hc).
    destruct (Py.splitlines (t ++ [LF])) as [|l ls] eqn:E.
    + exfalso. revert E. apply splitlines_nonempty. now destruct t.
    + rewrite join_lf_head. f_equal. now apply IH.
Qed.

(** A text that begins with neither noise nor a comment opener and
    whose line breaks are line feeds: the normalization of the text
    followed by a line feed is the text. *)
Lemma strip_leading_noise_plain :
  forall c t,
    Py.isspace c = false -> N.eqb BOM c = false ->
    N.eqb 60%N c = false -> N.eqb 64%N c = false ->
    (forall x, In x (c :: t) -> Py.is_linebreak x = true -> x = LF) ->
    _strip_leading_noise ((c :: t) ++ [LF]) = c :: t.
Proof.
  intros c t Hsp Hbom Hlt Hat Hlf.
  pose proof (join_splitlines_lf (c :: t) Hlf) as Hjoin.
  unfold _strip_leading_noise, Py.lstrip_bom. simpl app in *.
  cbn [Py.dropwhile]. rewrite Hbom.
  rewrite (@splitlines_cons_plain c _ (nonspace_not_linebreak _ Hsp)) in *.
  assert (Hkeep : forall l ls, strip_lines ((c :: l) :: ls) = (c :: l) :: ls).
  { intros l ls. unfold strip_lines. cbn [drop_blank].
    rewrite (@is_blank_nonspace c l Hsp). cbn [length noise_loop].
    unfold Py.lstrip. cbn [Py.dropwhile]. rewrite Hsp.
    change (py "<!--") with [60; 33; 45; 45]%N.
    change (py "@*") with [64; 42]%N. cbn [Py.startswith].
    now rewrite Hlt, Hat. }
  destruct (Py.splitlines (t ++ [LF])) as [|l ls]; now rewrite Hkeep.
Qed.

(** ** The comment-skipping loop of the shape check *)

Lemma skip_comment_shorter :
  forall o1 opener k1 closer t t',
    skip_comment (o1 :: opener) (k1 :: closer) t = (t', true) ->
    length t' < length t.
Proof.
  intros o1 opener k1 closer t t' H. unfold skip_comment in H.
  destruct (Py.startswith (o1 :: opener) t) eqn:Hs; [|discriminate].
  destruct (Py.find (k1 :: closer) t) as [e|]; [|discriminate].
  injection H as <-.
  destruct t as [|c t]; [discriminate|].
  pose proof (dropwhile_length Py.isspace
                (skipn (e + length (k1 :: closer)) (c :: t))) as Hd.
  pose proof (length_skipn (e + length (k1 :: closer)) (c :: t)) as Hk.
  simpl length in *. lia.
Qed.

Lemma skip_comment_unchanged :
  forall opener closer t t',
    skip_comment opener closer t = (t', false) -> t' = t.
Proof.
  intros opener closer t t' H. unfold skip_comment in H.
  destruct (Py.startswith opener t); [|now inversion H].
  destruct (Py.find closer t); now inversion H.
Qed.

Lemma skip_round_shorter :
  forall t t', skip_round t = (t', true) -> length t' < length t.
Proof.
  intros t t' H. unfold skip_round in H.
  destruct (skip_comment (py "<!--") (py "-->") t) as [t1 a1] eqn:E1.
  destruct (skip_comment (py "@*") (py "*@") t1) as [t2 a2] eqn:E2.
  injection H as <- Ha.
  assert (H1 : length t1 <= length t).
  { destruct a1.
    - apply Nat.lt_le_incl.
      exact (@skip_comment_shorter 60%N (py "!--") 45%N (py "->") t t1 E1).
    - now rewrite (skip_comment_unchanged _ _ _ E1). }
  destruct a2.
  - pose proof (@skip_comment_shorter 64%N (py "*") 42%N (py "@") t1 t2 E2).
    lia.
  - rewrite (skip_comment_unchanged _ _ _ E2).
    destruct a1; [|discriminate].
    exact (@skip_comment_shorter 60%N (py "!--") 45%N (py "->") t t1 E1).
Qed.

(** The loop ends before its fuel does: any fuel above the length of
    the text gives the same result. *)
Lemma skip_comments_fuel :
  forall n m t, length t < n -> length t < m ->
                skip_comments n t = skip_comments m t.
Proof.
  induction n as [|n IH]; intros m t Hn Hm; [lia|].
  destruct m as [|m]; [lia|]. cbn [skip_comments].
  destruct (skip_round t) as [t' adv] eqn:E.
  destruct adv; [|reflexivity].
  pose proof (skip_round_shorter _ E). apply IH; lia.
Qed.

(** ** Fuel of the star loop *)

Lemma star_loop_ext :
  forall (body : str -> Re.cont -> option str) (g : bool),
    (forall s k k', (forall x, k x = k' x) -> body s k = body s k') ->
    forall n s k k', (forall x, k x = k' x) ->
      Re.star_loop body g n s k = Re.star_loop body g n s k'.
Proof.
  intros body g Hbody. induction n as [|n IH]; intros s k k' Hk;
    [reflexivity|].
  cbn [Re.star_loop].
  assert (Hmore :
            body s (fun s' => if Nat.ltb (length s') (length s)
                              then Re.star_loop body g n s' k else None)
            = body s (fun s' => if Nat.ltb (length s') (length s)
                                then Re.star_loop body g n s' k' else None)).
  { apply Hbody. intros x. destruct (Nat.ltb _ _); [now apply IH|reflexivity]. }
  rewrite Hmore, (Hk s). reflexivity.
Qed.

Lemma rmatch_ext :
  forall r s k k', (forall x, k x = k' x) ->
                   Re.rmatch r s k = Re.rmatch r s k'.
Proof.
  induction r as [|p|a IHa b IHb|a IHa b IHb|g a IHa]; intros s k k' Hk;
    cbn [Re.rmatch].
  - apply Hk.
  - destruct s as [|c t]; [reflexivity|]. destruct (p c); [apply Hk|reflexivity].
  - apply IHa. intros x. now apply IHb.
  - now rewrite (IHa s k k' Hk), (IHb s k k' Hk).
  - apply star_loop_ext; [|exact Hk]. intros s0 k0 k0'. apply IHa.
Qed.

(** The star loop ends before its fuel does: a star never iterates
    more often than the text has characters. *)
Lemma star_loop_fuel :
  forall (a : Re.regex) (g : bool) n m s k,
    length s < n -> length s < m ->
    Re.star_loop (Re.rmatch a) g n s k = Re.star_loop (Re.rmatch a) g m s k.
Proof.
  intros a g. induction n as [|n IH]; intros m s k Hn Hm; [lia|].
  destruct m as [|m]; [lia|]. cbn [Re.star_loop].
  assert (Hmore :
            Re.rmatch a s
              (fun s' => if Nat.ltb (length s') (length s)
                         then Re.star_loop (Re.rmatch a) g n s' k else None)
            = Re.rmatch a s
                (fun s' => if Nat.ltb (length s') (length s)
                           then Re.star_loop (Re.rmatch a) g m s' k
                           else None)).
  { apply rmatch_ext. intros x.
    destruct (Nat.ltb (length x) (length s)) eqn:E; [|reflexivity].
    apply Nat.ltb_lt in E. apply IH; lia. }
  now rewrite Hmore.
Qed.

(** * Properties of the script *)

(** ** C1: what [strip_razor_comments] strips *)

(** C1. In the three-line block [ex_line_comment] the last line is
    [} // was: if (b) {]: its opening token stands inside a C# line
    comment, yet [brace_balance] counts it and reports two opening
    tokens against one closing token.  The pattern meant for C# block
    comments removes the two slashes first, so the line-comment pattern
    finds nothing to strip. *)
Theorem brace_balance_counts_line_comment :
  strip_razor_comments (py "} // was: if (b) {") = py "}  was: if (b) {"
  /\ brace_balance ex_line_comment = (false, 2, 1).
Proof. split; vm_compute; reflexivity. Qed.

(** ** The opening-shape check on a text given directly *)

(** [ex_unanchored] is not a block that an extractor cuts: it begins
    with the Student start literal followed by markup, not by an
    opening token.  A later, unrelated guard [@if (y) {] satisfies the
    unanchored search, so on this text the shape check passes and
    validation returns the text. *)
Remark ensure_accepts_later_guard :
  ex_unanchored = start_literal Student ++ py " <p>x</p> @if (y) { }"
  /\ ensure_starts_with_if_block ex_unanchored (start_literal Student) = Ok tt
  /\ validate_and_maybe_fix false ex_unanchored (start_literal Student)
     = Ok ex_unanchored.
Proof. repeat split; vm_compute; reflexivity. Qed.

(** A block whose head does not begin with the start literal fails,
    whatever the flag and whatever its balance. *)
Lemma validate_start_mismatch :
  forall (auto_fix : bool) (block lit : str),
    Py.startswith lit (block_head block) = false ->
    validate_and_maybe_fix auto_fix block lit = Fail StartMismatch.
Proof.
  intros auto_fix block lit H.
  unfold validate_and_maybe_fix, ensure_starts_with_if_block.
  now rewrite H.
Qed.

(** The shape check never depends on the flag: a failed check is the
    result of validation. *)
Lemma validate_shape_failure :
  forall (auto_fix : bool) (block lit : str) (e : error),
    ensure_starts_with_if_block block lit = Fail e ->
    validate_and_maybe_fix auto_fix block lit = Fail e.
Proof.
  intros auto_fix block lit e H. unfold validate_and_maybe_fix.
  now rewrite H.
Qed.

(** ** [find_ws_insensitive] on a haystack with CRLF pairs *)

(** [read] returns no such haystack.  [ex_crlf_hay] is a CRLF line
    break followed by the anchor text, which therefore occupies offsets
    2 to 11 of it.  The function answers (1, 10): offsets into the
    haystack after its CRLF pairs were rewritten to LF. *)
Remark find_ws_insensitive_crlf_offsets :
  find_ws_insensitive ex_crlf_hay ex_anchor 0 = Some (1, 10)
  /\ firstn (10 - 1) (skipn 1 ex_crlf_hay) = LF :: nl (py "@if (x)") []
  /\ firstn (11 - 2) (skipn 2 ex_crlf_hay) = ex_anchor.
Proof. repeat split; vm_compute; reflexivity. Qed.

(** The search reports the leftmost position at which the pattern
    matches, and on a haystack without carriage returns the offsets are
    offsets into the haystack itself. *)
Lemma search_from_leftmost :
  forall r s i a b,
    Re.search_from r i s = Some (a, b) ->
    i <= a
    /\ Re.match_len r (skipn (a - i) s) = Some (b - a)
    /\ forall j, j < a - i -> Re.match_len r (skipn j s) = None.
Proof.
  intros r s. induction s as [|c s IH]; intros i a b H;
    cbn [Re.search_from] in H.
  - destruct (Re.match_len r []) as [n|] eqn:E; [|discriminate].
    inversion H; subst. rewrite Nat.sub_diag. cbn [skipn].
    repeat split; [lia | rewrite E; f_equal; lia | intros j Hj; lia].
  - destruct (Re.match_len r (c :: s)) as [n|] eqn:E.
    + inversion H; subst. rewrite Nat.sub_diag. cbn [skipn].
      repeat split; [lia | rewrite E; f_equal; lia | intros j Hj; lia].
    + destruct (IH _ _ _ H) as [Hle [Hm Hbefore]].
      replace (a - i) with (S (a - S i)) by lia. cbn [skipn].
      repeat split; [lia | exact Hm |].
      intros [|j] Hj; [exact E | cbn [skipn]; apply Hbefore; lia].
Qed.

Lemma replace_crlf_no_cr :
  forall hay, existsb (N.eqb CR) hay = false -> Py.replace_crlf hay = hay.
Proof.
  induction hay as [|c hay IH]; intros H; [reflexivity|].
  cbn [existsb] in H. apply orb_false_elim in H as [Hc Hh].
  cbn [Py.replace_crlf]. destruct hay as [|d hay]; [reflexivity|].
  rewrite N.eqb_sym, Hc. cbn [andb]. now rewrite (IH Hh).
Qed.

Lemma find_ws_insensitive_no_cr :
  forall hay snippet start a b,
    existsb (N.eqb CR) hay = false ->
    find_ws_insensitive hay snippet start = Some (a, b) ->
    let pat := compile (Re.sub re_bs_ws (py "\s+")
                          (Re.escape (Py.replace_crlf snippet))) in
    start <= a
    /\ Re.match_len pat (skipn a hay) = Some (b - a)
    /\ forall j, start <= j < a -> Re.match_len pat (skipn j hay) = None.
Proof.
  intros hay snippet start a b Hcr H. cbv zeta.
  unfold find_ws_insensitive in H. cbv zeta in H.
  rewrite (replace_crlf_no_cr _ Hcr) in H.
  remember (compile (Re.sub re_bs_ws (py "\s+")
                       (Re.escape (Py.replace_crlf snippet)))) as pat.
  match type of H with
  | context [Re.search ?p ?x] =>
      destruct (Re.search p x) as [[ms me]|] eqn:E; [|discriminate H]
  end.
  injection H as <- <-. unfold Re.search in E.
  destruct (search_from_leftmost _ _ _ E) as [_ [Hm Hbefore]].
  rewrite Nat.sub_0_r, skipn_skipn in Hm.
  repeat split; [lia | | ].
  - replace (start + me - (start + ms)) with (me - ms) by lia.
    replace (start + ms) with (ms + start) by lia. exact Hm.
  - intros j [Hj1 Hj2].
    specialize (Hbefore (j - start) ltac:(lia)).
    rewrite skipn_skipn in Hbefore.
    replace (j - start + start) with j in Hbefore by lia. exact Hbefore.
Qed.

(** ** The comparison of a wrapped text *)

Lemma noise_prefix_app :
  forall P Q, noise_prefix P -> noise_prefix Q -> noise_prefix (P ++ Q).
Proof.
  induction 1 as [|l P Hl HP IH|B P HB HP IH|B P HB HP IH]; intros HQ.
  - exact HQ.
  - simpl app. apply noise_blank; auto.
  - rewrite <- app_assoc. apply noise_html; auto.
  - rewrite <- app_assoc. apply noise_razor; auto.
Qed.

Lemma compare_match_iff :
  forall uni e g,
    compare uni e g = Match
    <-> norm_ws (_strip_leading_noise e)
        = norm_ws (_strip_leading_noise (strip_region_wrappers uni g)).
Proof.
  intros uni e g. unfold compare.
  destruct (str_eqb _ _) eqn:E.
  - split; [intros _; now apply str_eqb_eq | reflexivity].
  - split; [discriminate|]. intros H. apply str_eqb_eq in H. congruence.
Qed.

Lemma compare_region_wrapped :
  forall uni name e P post,
    name <> [] -> forallb ident_char name = true ->
    noise_prefix P -> Forall (fun l => no_linebreak l = true) P ->
    all_space post = true ->
    Py.startswith [BOM] e = false ->
    Py.contains (py "<!--") (lines_text P ++ LF :: e ++ [LF]) = false ->
    compare uni e
      (lines_text P ++ region_marker name "Start" ++ (LF :: e ++ [LF])
       ++ region_marker name "End" ++ post)
    = Match.
Proof.
  intros uni name e P post Hne Hname HP Hnl Hpost Hbom Hfree.
  apply (@compare_noise_wrapped uni e _ (P ++ [[]]) (LF :: post)).
  - rewrite strip_region_wrappers_pair; try assumption.
    + unfold lines_text. rewrite flat_map_app. cbn [flat_map app].
      now rewrite <- !app_assoc.
    + now apply (@contains_all_space 60%N (py "!--")).
  - apply noise_prefix_app; [assumption|].
    apply noise_blank; [reflexivity | constructor].
  - apply Forall_app. split; [assumption | now repeat constructor].
  - unfold all_space in *. cbn [forallb]. now rewrite Hpost.
  - now right.
Qed.

(** ** C5: appending missing closing tokens *)

(** With more opening than closing tokens and the flag on, validation
    is the appending branch: the repaired block is returned if the
    re-check reports balance, and the run fails otherwise. *)
Lemma validate_deficit_flag :
  forall (block lit : str) (ok : bool) (o c : nat),
    ensure_starts_with_if_block block lit = Ok tt ->
    brace_balance block = (ok, o, c) ->
    c < o ->
    validate_and_maybe_fix true block lit
    = let fixed := Py.rstrip block
                   ++ (LF :: Py.times RBRACE (o - c)) ++ [LF] in
      let '(ok2, o2, c2) := brace_balance fixed in
      if ok2 then Ok fixed else Fail (AutoFixFailed o2 c2).
Proof.
  intros block lit ok o c Hshape Hbal Hlt.
  unfold validate_and_maybe_fix. rewrite Hshape, Hbal.
  rewrite (@brace_balance_verdict block ok o c Hbal).
  replace (Nat.eqb o c) with false by (symmetry; apply Nat.eqb_neq; lia).
  replace (0 <? Z.of_nat o - Z.of_nat c)%Z with true
    by (symmetry; apply Z.ltb_lt; lia).
  replace (Z.to_nat (Z.of_nat o - Z.of_nat c)) with (o - c) by lia.
  reflexivity.
Qed.

(** C5. For every block that passes the shape check and whose
    [brace_balance] reports [k = o - c > 0] more opening than closing
    tokens, validation with auto-repair permitted returns the block
    without its trailing whitespace, followed by a line feed, exactly
    [k] closing tokens and a line feed; [brace_balance] reports that
    result balanced, with [o] opening and [o] closing tokens.  The
    re-check that guards the return therefore always succeeds. *)
Theorem append_repair_balances :
  forall (block lit : str) (ok : bool) (o c : nat),
    ensure_starts_with_if_block block lit = Ok tt ->
    brace_balance block = (ok, o, c) ->
    c < o ->
    validate_and_maybe_fix true block lit
    = Ok (Py.rstrip block ++ (LF :: Py.times RBRACE (o - c)) ++ [LF])
    /\ brace_balance
         (Py.rstrip block ++ (LF :: Py.times RBRACE (o - c)) ++ [LF])
       = (true, o, o).
Proof.
  intros block lit ok o c Hshape Hbal Hlt.
  pose proof (@brace_balance_appended block ok o c Hbal Hlt) as Hfix.
  split; [|exact Hfix].
  rewrite (@validate_deficit_flag block lit ok o c Hshape Hbal Hlt).
  cbv zeta. now rewrite Hfix.
Qed.

Lemma append_repair_balances_witness :
  validate_and_maybe_fix true ex_underclosed (py "@if (a)")
  = Ok (nl (py "@if (a)") (nl (py "{") (nl (py "{") (nl (py "}}") [])))).
Proof.
  apply (@append_repair_balances ex_underclosed (py "@if (a)") false 2 0);
    [vm_compute; reflexivity | vm_compute; reflexivity | lia].
Defined.

(** Validation never returns a block that [brace_balance] reports
    unbalanced. *)
Lemma validate_result_balanced :
  forall (auto_fix : bool) (block lit r : str),
    validate_and_maybe_fix auto_fix block lit = Ok r -> balanced r = true.
Proof.
  intros auto_fix block lit r H. unfold validate_and_maybe_fix in H.
  destruct (ensure_starts_with_if_block block lit); [|discriminate].
  destruct (brace_balance block) as [[ok o] c] eqn:Hbal.
  destruct ok.
  - inversion H; subst. unfold balanced. now rewrite Hbal.
  - destruct ((0 <? Z.of_nat o - Z.of_nat c)%Z && auto_fix)%bool.
    + match type of H with
      | context [brace_balance ?x] =>
          destruct (brace_balance x) as [[ok2 o2] c2] eqn:Hb2
      end.
      destruct ok2; [|discriminate]. injection H as <-.
      apply (f_equal (fun x => fst (fst x))) in Hb2. exact Hb2.
    + destruct (Z.of_nat o - Z.of_nat c <? 0)%Z; [|discriminate].
      destruct (trim_surplus _ _) as [t j].
      destruct (Nat.eqb j _); [|discriminate].
      destruct (brace_balance t) as [[ok2 o2] c2] eqn:Hb2.
      destruct ok2; [|discriminate]. inversion H; subst.
      unfold balanced. now rewrite Hb2.
Qed.

(** ** C7: a balanced block is returned unchanged *)

(** C7. For every block that passes the opening-shape check and whose
    [brace_balance] reports equal open and close counts,
    [validate_and_maybe_fix] returns exactly the block it was given,
    whatever the auto-repair flag is. *)
Theorem validate_balanced_unchanged :
  forall (auto_fix : bool) (block lit : str) (ok : bool) (opens closes : nat),
    ensure_starts_with_if_block block lit = Ok tt ->
    brace_balance block = (ok, opens, closes) ->
    opens = closes ->
    validate_and_maybe_fix auto_fix block lit = Ok block.
Proof.
  intros auto_fix block lit ok opens closes Hshape Hbal Heq.
  unfold validate_and_maybe_fix. rewrite Hshape, Hbal.
  assert (Hok : ok = true).
  { unfold brace_balance in Hbal. inversion Hbal; subst.
    apply Nat.eqb_eq. congruence. }
  now rewrite Hok.
Qed.

Lemma validate_balanced_unchanged_witness :
  validate_and_maybe_fix false ex_balanced (py "@if (a)") = Ok ex_balanced.
Proof.
  apply (@validate_balanced_unchanged false ex_balanced (py "@if (a)") true 1 1);
    vm_compute; reflexivity.
Defined.

(** ** C8: a second head-noise pass *)

(** C8. For every text [x] whose normalization
    [_strip_leading_noise x] neither begins with a byte-order mark nor
    ends with a line feed, a second pass changes nothing:
    [_strip_leading_noise (_strip_leading_noise x) = _strip_leading_noise x]. *)
Theorem strip_leading_noise_idempotent :
  forall x,
    Py.startswith [BOM] (_strip_leading_noise x) = false ->
    Py.endswith [LF] (_strip_leading_noise x) = false ->
    _strip_leading_noise (_strip_leading_noise x) = _strip_leading_noise x.
Proof.
  intros x Hbom Hend.
  unfold _strip_leading_noise at 1. rewrite (lstrip_bom_id _ Hbom).
  unfold _strip_leading_noise in *.
  set (L := strip_lines (Py.splitlines (Py.lstrip_bom x))) in *.
  destruct (strip_lines_settled (Py.splitlines (Py.lstrip_bom x)))
    as [Hd Hs]. fold L in Hd, Hs.
  rewrite splitlines_join_lf; [now rewrite Hs | | | exact Hend].
  - apply strip_lines_no_linebreak.
  - intros Heq. rewrite Heq in Hd. discriminate.
Qed.

Lemma strip_leading_noise_idempotent_witness :
  _strip_leading_noise (_strip_leading_noise ex_noisy_head)
  = _strip_leading_noise ex_noisy_head.
Proof.
  apply strip_leading_noise_idempotent; vm_compute; reflexivity.
Defined.

(** A text that ends with two line feeds loses one of them at each of
    the first two passes. *)
Lemma strip_leading_noise_not_idempotent :
  _strip_leading_noise (py "a" ++ [LF; LF]) = py "a" ++ [LF]
  /\ _strip_leading_noise (_strip_leading_noise (py "a" ++ [LF; LF])) = py "a"
  /\ _strip_leading_noise (_strip_leading_noise (py "a" ++ [LF; LF]))
     <> _strip_leading_noise (py "a" ++ [LF; LF]).
Proof. repeat split; vm_compute; try reflexivity. discriminate. Qed.

(** A byte-order mark that follows a blank line survives the first pass
    and is removed by the second. *)
Lemma strip_leading_noise_late_bom :
  _strip_leading_noise (LF :: BOM :: py "abc") = BOM :: py "abc"
  /\ _strip_leading_noise (_strip_leading_noise (LF :: BOM :: py "abc"))
     = py "abc".
Proof. split; vm_compute; reflexivity. Qed.

(** ** C10: line granularity of the head-noise normalization *)

(** C10. The head-noise normalization works on whole lines.  (1) Its
    result is the list of lines of the text (after the byte-order-mark
    skip), without some leading lines, joined with line feeds.  (2) So
    the only line boundary character left in the result is the line
    feed: CR and CRLF breaks have become LF.  (3) A final line
    terminator of the text is not part of the result.  (4) When a
    leading comment is closed on its first line, that line is dropped
    whole: the text [after] the closer on that line does not reach the
    result, which is the normalization continued on the lines below.
    (5) A text with no head noise whose line breaks are line feeds,
    followed by a final line feed, is normalized to the text itself.
    (6) In general the lines of a head made of blank lines and of
    comments are dropped whole, the last line of each comment being
    the first line that holds its closer, with whatever follows the
    closer on that line. *)
Theorem strip_leading_noise_line_granular :
  (forall s, exists k,
      _strip_leading_noise s
      = Py.join_lf (skipn k (Py.splitlines (Py.lstrip_bom s))))
  /\ (forall s c,
         In c (_strip_leading_noise s) -> Py.is_linebreak c = true -> c = LF)
  /\ (forall s c t,
         Py.is_linebreak c = false -> is_terminator t ->
         _strip_leading_noise (s ++ c :: t) = _strip_leading_noise (s ++ [c]))
  /\ (forall mid after rest,
         no_linebreak (mid ++ after) = true ->
         _strip_leading_noise
           ((py "<!--" ++ mid ++ py "-->" ++ after) ++ LF :: rest)
         = Py.join_lf (strip_lines (Py.splitlines rest))
         /\ _strip_leading_noise
              ((py "@*" ++ mid ++ py "*@" ++ after) ++ LF :: rest)
            = Py.join_lf (strip_lines (Py.splitlines rest)))
  /\ (forall c t,
         Py.isspace c = false -> N.eqb BOM c = false ->
         N.eqb 60%N c = false -> N.eqb 64%N c = false ->
         (forall x, In x (c :: t) -> Py.is_linebreak x = true -> x = LF) ->
         _strip_leading_noise ((c :: t) ++ [LF]) = c :: t)
  /\ (forall P x,
         noise_prefix P -> Forall (fun l => no_linebreak l = true) P ->
         (P = [] \/ Py.startswith [BOM] x = false) ->
         _strip_leading_noise (lines_text P ++ x) = _strip_leading_noise x).
Proof.
  split; [|split; [|split; [|split; [|split;
    [apply strip_leading_noise_plain | apply strip_leading_noise_prefix]]]]].
  - intros s. unfold _strip_leading_noise.
    destruct (strip_lines_suffix (Py.splitlines (Py.lstrip_bom s)))
      as [k ->]. now exists k.
  - apply strip_leading_noise_linebreaks.
  - intros s c t Hc Ht. now apply strip_leading_noise_terminator.
  - intros mid after rest Hma. split.
    + apply (@comment_line_dropped 60%N (py "!--") (py "-->"));
        try reflexivity; try assumption.
      intros l t n. apply noise_loop_html.
    + apply (@comment_line_dropped 64%N (py "*") (py "*@"));
        try reflexivity; try assumption.
      intros l t n. apply noise_loop_razor.
Qed.

Lemma strip_leading_noise_line_granular_witness :
  _strip_leading_noise (nl (py "<!-- c --> @if (a)") (py "{")) = py "{".
Proof.
  destruct strip_leading_noise_line_granular as [_ [_ [_ [H _]]]].
  destruct (H (py " c ") (py " @if (a)") (py "{") eq_refl) as [H1 _].
  exact H1.
Defined.

(** * Further properties of the script *)

(** ** Comment stripping: what is left of the delimiters *)

Lemma count_zero_iff :
  forall d z, existsb (N.eqb d) z = false <-> Py.count d z = 0.
Proof.
  intros d z. induction z as [|c t IH]; simpl.
  - split; reflexivity.
  - rewrite (N.eqb_sym c d). destruct (N.eqb d c); simpl.
    + split; discriminate.
    + exact IH.
Qed.

Lemma lone_count : forall d z, lone d z -> Py.count d z <= 1.
Proof.
  intros d z. induction z as [|c t IH]; intros H.
  - simpl. lia.
  - simpl. unfold lone in H. simpl in H.
    rewrite (N.eqb_sym c d). destruct (N.eqb d c) eqn:E.
    + specialize (H t eq_refl).
      apply (proj1 (count_zero_iff d t)) in H. lia.
    + simpl. apply IH. exact H.
Qed.

Lemma drop_spans_count_le :
  forall d x z b, Py.count x (drop_spans d b z) <= Py.count x z.
Proof.
  intros d x z. induction z as [|c t IH]; intros b; simpl.
  - lia.
  - destruct b.
    + specialize (IH (negb (N.eqb d c))). lia.
    + destruct (N.eqb d c && existsb (N.eqb d) t)%bool.
      * specialize (IH true). lia.
      * simpl. specialize (IH false). lia.
Qed.

(** ** Validation with the repair flag off *)

Lemma brace_balance_app_space :
  forall block w, all_space w = true ->
    brace_balance (block ++ w) = brace_balance block.
Proof.
  intros block w Hw.
  rewrite <- (brace_balance_rstrip (block ++ w)).
  rewrite (@rstrip_app_space block w Hw).
  apply brace_balance_rstrip.
Qed.

Lemma validate_no_flag_prefix :
  forall (block lit r : str),
    validate_and_maybe_fix false block lit = Ok r ->
    exists gaps w, forallb all_space gaps = true /\ all_space w = true
                   /\ block = r ++ trailing gaps w.
Proof.
  intros block lit r H.
  destruct (ensure_starts_with_if_block block lit) as [[]|e] eqn:He.
  2:{ rewrite (@validate_shape_failure false block lit e He) in H.
      discriminate. }
  destruct (brace_balance block) as [[ok o] c] eqn:Hb.
  pose proof (@brace_balance_verdict block ok o c Hb) as Hok.
  destruct (Nat.lt_trichotomy o c) as [Hlt|[Heq|Hgt]].
  - destruct (@validate_surplus_prefix false block lit r ok o c He Hb Hlt H)
      as (gaps & w & Hg & Hw & _ & Hblock & _).
    exists gaps, w. auto.
  - subst c. rewrite Nat.eqb_refl in Hok. subst ok.
    unfold validate_and_maybe_fix in H. rewrite He, Hb in H.
    injection H as <-. exists [], []. simpl. rewrite app_nil_r. auto.
  - rewrite (@validate_deficit_no_flag block lit ok o c He Hb Hgt) in H.
    discriminate.
Qed.

(** ** Comment stripping *)

(** X1. The third pass of [strip_razor_comments] (the [//] line
    comments) never removes anything: the result is the result of the
    two block passes. *)
Theorem strip_razor_comments_line_pass_idle :
  forall s,
    strip_razor_comments s
    = Re.sub re_cs_block [] (Re.sub re_razor_block [] s).
Proof.
  intros s. unfold strip_razor_comments. cbv zeta.
  apply sub_cs_line_lone.
  unfold re_cs_block. rewrite (@sub_span_drop_spans (chr "/") eq_refl).
  apply (@drop_spans_lone (chr "/")).
Qed.

(** X2. The text [strip_razor_comments] returns holds at most one [@]
    and at most one [/]. *)
Theorem strip_razor_comments_delimiters_left :
  forall s,
    Py.count (chr "@") (strip_razor_comments s) <= 1
    /\ Py.count (chr "/") (strip_razor_comments s) <= 1.
Proof.
  intros s. rewrite strip_razor_comments_scan. split.
  - eapply Nat.le_trans; [apply drop_spans_count_le|].
    apply lone_count. apply (@drop_spans_lone (chr "@")).
  - apply lone_count. apply (@drop_spans_lone (chr "/")).
Qed.

(** ** Token counting *)

(** X3. Whitespace after a block does not change what [brace_balance]
    reports for it. *)
Theorem brace_balance_ignores_trailing_space :
  forall block w, all_space w = true ->
    brace_balance (block ++ w) = brace_balance block.
Proof.
  intros block w Hw. apply brace_balance_app_space. exact Hw.
Qed.

Lemma brace_balance_ignores_trailing_space_witness :
  all_space (py "  ") = true
  /\ brace_balance (ex_balanced ++ py "  ") = brace_balance ex_balanced.
Proof.
  split; [reflexivity|].
  apply (@brace_balance_ignores_trailing_space ex_balanced (py "  ")).
  reflexivity.
Defined.

(** ** Validation *)

(** X4. Whatever the repair flag, a block that
    [validate_and_maybe_fix] returns is one [brace_balance] reports as
    balanced. *)
Theorem validate_returns_balanced :
  forall (auto_fix : bool) (block lit r : str),
    validate_and_maybe_fix auto_fix block lit = Ok r -> balanced r = true.
Proof.
  intros auto_fix block lit r H.
  exact (@validate_result_balanced auto_fix block lit r H).
Qed.

Lemma validate_returns_balanced_witness :
  validate_and_maybe_fix true ex_underclosed (py "@if (a)")
  = Ok (nl (py "@if (a)") (nl (py "{") (nl (py "{") (nl (py "}}") []))))
  /\ balanced (nl (py "@if (a)") (nl (py "{") (nl (py "{") (nl (py "}}") []))))
     = true.
Proof.
  split; [vm_compute; reflexivity|].
  apply (@validate_returns_balanced true ex_underclosed (py "@if (a)")).
  vm_compute. reflexivity.
Defined.

(** X5. With the repair flag off, [validate_and_maybe_fix] never adds
    or changes a character: what it returns is the start of its input,
    and what it leaves out is closing tokens and whitespace. *)
Theorem validate_no_flag_only_trims :
  forall (block lit r : str),
    validate_and_maybe_fix false block lit = Ok r ->
    exists gaps w, forallb all_space gaps = true /\ all_space w = true
                   /\ block = r ++ trailing gaps w.
Proof.
  intros block lit r H. exact (@validate_no_flag_prefix block lit r H).
Qed.

Lemma validate_no_flag_only_trims_witness :
  validate_and_maybe_fix false ex_surplus (py "@if (a)") = Ok ex_balanced
  /\ exists gaps w, forallb all_space gaps = true /\ all_space w = true
                    /\ ex_surplus = ex_balanced ++ trailing gaps w.
Proof.
  split; [vm_compute; reflexivity|].
  apply (@validate_no_flag_only_trims ex_surplus (py "@if (a)") ex_balanced).
  vm_compute. reflexivity.
Defined.

(** ** Whitespace normalisation: runs, ends, idempotence *)

Lemma collapse_space_prefix :
  forall w b, all_space w = true ->
    collapse true (w ++ b) = collapse true b.
Proof.
  induction w as [|c w IH]; intros b Hw.
  - reflexivity.
  - simpl in Hw. apply andb_true_iff in Hw as [Hc Hw].
    simpl. rewrite Hc. apply IH. exact Hw.
Qed.

Lemma collapse_space_run :
  forall w b r, w <> [] -> all_space w = true ->
    collapse r (w ++ b) = (if r then [] else [SP]) ++ collapse true b.
Proof.
  intros [|c w] b r Hne Hw; [congruence|].
  simpl in Hw. apply andb_true_iff in Hw as [Hc Hw].
  simpl. rewrite Hc. rewrite (@collapse_space_prefix w b Hw).
  destruct r; reflexivity.
Qed.

Lemma collapse_inner_run :
  forall a b w w' r, w <> [] -> w' <> [] ->
    all_space w = true -> all_space w' = true ->
    collapse r (a ++ w ++ b) = collapse r (a ++ w' ++ b).
Proof.
  induction a as [|c a IH]; intros b w w' r Hn Hn' Hw Hw'.
  - simpl. rewrite (@collapse_space_run w b r Hn Hw).
    rewrite (@collapse_space_run w' b r Hn' Hw'). reflexivity.
  - simpl. destruct (Py.isspace c).
    + destruct r; rewrite (IH b w w' true Hn Hn' Hw Hw'); reflexivity.
    + rewrite (IH b w w' false Hn Hn' Hw Hw'). reflexivity.
Qed.

Lemma lstrip_collapse :
  forall x b, Py.lstrip (collapse b x)
              = collapse false (Py.dropwhile Py.isspace x).
Proof.
  unfold Py.lstrip. induction x as [|c t IH]; intros b.
  - reflexivity.
  - simpl. destruct (Py.isspace c) eqn:Hc.
    + destruct b; simpl.
      * apply IH.
      * change (Py.isspace SP) with true. cbv iota. apply IH.
    + simpl. rewrite Hc. reflexivity.
Qed.

Lemma norm_ws_lstrip :
  forall x, norm_ws x = Py.rstrip (collapse false (Py.lstrip x)).
Proof.
  intros x. rewrite norm_ws_collapse. unfold Py.strip.
  rewrite lstrip_collapse. reflexivity.
Qed.

Lemma norm_ws_space_app :
  forall w x, all_space w = true -> norm_ws (w ++ x) = norm_ws x.
Proof.
  intros w x Hw. rewrite !norm_ws_lstrip. unfold Py.lstrip.
  rewrite (@dropwhile_app_all Py.isspace w x Hw). reflexivity.
Qed.

Lemma collapse_collapse :
  forall s,
    (forall b, collapse false (collapse b s) = collapse b s)
    /\ collapse true (collapse true s) = collapse true s.
Proof.
  induction s as [|c t [IH1 IH2]].
  - split; [intros b|]; reflexivity.
  - split.
    + intros b. simpl. destruct (Py.isspace c) eqn:Hc.
      * destruct b.
        -- apply IH1.
        -- simpl. change (Py.isspace SP) with true. cbv iota.
           rewrite IH2. reflexivity.
      * simpl. rewrite Hc. rewrite IH1. reflexivity.
    + simpl. destruct (Py.isspace c) eqn:Hc.
      * apply IH2.
      * simpl. rewrite Hc. rewrite IH1. reflexivity.
Qed.

Lemma strip_decomp :
  forall s, exists w1 w2, all_space w1 = true /\ all_space w2 = true
                          /\ s = w1 ++ Py.strip s ++ w2.
Proof.
  intros s. unfold Py.strip, Py.lstrip.
  destruct (@dropwhile_decomp Py.isspace s) as (w1 & Hw1 & Hs).
  destruct (rstrip_decomp (Py.dropwhile Py.isspace s)) as (w2 & Hw2 & Hr).
  exists w1, w2. repeat split; try assumption.
  rewrite <- Hr. exact Hs.
Qed.

Lemma norm_ws_idem : forall s, norm_ws (norm_ws s) = norm_ws s.
Proof.
  intros s. rewrite (norm_ws_collapse s).
  destruct (strip_decomp (collapse false s)) as (w1 & w2 & H1 & H2 & Hc).
  set (z := Py.strip (collapse false s)) in *.
  transitivity (norm_ws (collapse false s)).
  - rewrite Hc.
    rewrite (@norm_ws_space_app w1 (z ++ w2) H1).
    rewrite (@norm_ws_app_space z w2 H2). reflexivity.
  - rewrite (norm_ws_collapse (collapse false s)).
    rewrite (proj1 (collapse_collapse s) false). reflexivity.
Qed.

(** ** Whitespace normalisation *)

(** X6. [norm_ws] is idempotent. *)
Theorem norm_ws_idempotent : forall s, norm_ws (norm_ws s) = norm_ws s.
Proof.
  intros s. apply norm_ws_idem.
Qed.

(** X7. [norm_ws] does not tell one run of whitespace inside a text
    from another: only that there is one. *)
Theorem norm_ws_inner_whitespace :
  forall a b w w',
    w <> [] -> w' <> [] -> all_space w = true -> all_space w' = true ->
    norm_ws (a ++ w ++ b) = norm_ws (a ++ w' ++ b).
Proof.
  intros a b w w' Hn Hn' Hw Hw'. rewrite !norm_ws_collapse.
  rewrite (@collapse_inner_run a b w w' false Hn Hn' Hw Hw').
  reflexivity.
Qed.

Lemma norm_ws_inner_whitespace_witness :
  (py " " <> [] /\ [HT; LF] <> [] /\ all_space (py " ") = true
   /\ all_space [HT; LF] = true)
  /\ norm_ws (py "@if (a)" ++ py " " ++ py "{")
     = norm_ws (py "@if (a)" ++ [HT; LF] ++ py "{").
Proof.
  split; [repeat split; discriminate|].
  apply (@norm_ws_inner_whitespace (py "@if (a)") (py "{") (py " ")
                                   [HT; LF]);
    [discriminate | discriminate | reflexivity | reflexivity].
Defined.

(** X8. [norm_ws] ignores whitespace before and after a text. *)
Theorem norm_ws_outer_whitespace :
  forall w1 x w2, all_space w1 = true -> all_space w2 = true ->
    norm_ws (w1 ++ x ++ w2) = norm_ws x.
Proof.
  intros w1 x w2 H1 H2.
  rewrite (@norm_ws_space_app w1 (x ++ w2) H1).
  apply norm_ws_app_space. exact H2.
Qed.

Lemma norm_ws_outer_whitespace_witness :
  (all_space [LF; SP] = true /\ all_space [CR; LF] = true)
  /\ norm_ws ([LF; SP] ++ py "a b" ++ [CR; LF]) = norm_ws (py "a b").
Proof.
  split; [split; reflexivity|].
  apply (@norm_ws_outer_whitespace [LF; SP] (py "a b") [CR; LF]);
    reflexivity.
Defined.

(** ** Lines around a line feed *)

Lemma splitlines_plain_step :
  forall c x z, Py.is_linebreak c = false ->
    Py.splitlines (x ++ LF :: z)
    = Py.splitlines (x ++ [LF]) ++ Py.splitlines z ->
    Py.splitlines ((c :: x) ++ LF :: z)
    = Py.splitlines ((c :: x) ++ [LF]) ++ Py.splitlines z.
Proof.
  intros c x z Hc H. rewrite <- !app_comm_cons.
  rewrite !(@splitlines_cons_plain c _ Hc). rewrite H.
  destruct (Py.splitlines (x ++ [LF])) as [|l ls] eqn:E.
  - exfalso. apply (@splitlines_nonempty (x ++ [LF])); [|exact E].
    destruct x; discriminate.
  - reflexivity.
Qed.

Lemma splitlines_lf_app :
  forall a z, Py.splitlines (a ++ LF :: z)
              = Py.splitlines (a ++ [LF]) ++ Py.splitlines z.
Proof.
  intros a z. revert a. apply str_ind2.
  - destruct z; reflexivity.
  - intros c H. destruct (Py.is_linebreak c) eqn:Hc.
    + change ([c] ++ LF :: z) with (c :: LF :: z).
      change ([c] ++ [LF]) with [c; LF].
      rewrite !(@splitlines_cons_break c _ Hc).
      destruct (N.eqb c CR && N.eqb LF LF)%bool.
      * reflexivity.
      * cbn [app] in H. rewrite H. reflexivity.
    + apply (@splitlines_plain_step c [] z Hc). exact H.
  - intros c d t Ht Hdt. destruct (Py.is_linebreak c) eqn:Hc.
    + rewrite <- !app_comm_cons.
      rewrite !(@splitlines_cons_break c _ Hc).
      destruct (N.eqb c CR && N.eqb d LF)%bool.
      * rewrite Ht. reflexivity.
      * rewrite !app_comm_cons. rewrite Hdt. reflexivity.
    + apply (@splitlines_plain_step c (d :: t) z Hc). exact Hdt.
Qed.

Lemma code_text_skips_line :
  forall a l b, is_code_line l = false -> no_linebreak l = true ->
    code_text (a ++ LF :: l ++ LF :: b) = code_text (a ++ LF :: b).
Proof.
  intros a l b Hl Hn. unfold code_text.
  rewrite (splitlines_lf_app a (l ++ LF :: b)).
  rewrite (@splitlines_line_lf l b Hn).
  rewrite (splitlines_lf_app a b).
  rewrite !filter_app. simpl. rewrite Hl. reflexivity.
Qed.

(** ** The first line left by the head-noise loop *)

Lemma drop_blank_fixed_head :
  forall l t, drop_blank (l :: t) = l :: t -> is_blank l = false.
Proof.
  intros l t H. simpl in H. destruct (is_blank l); [|reflexivity].
  pose proof (drop_blank_length t) as Hlen. rewrite H in Hlen.
  simpl in Hlen. lia.
Qed.

Lemma is_blank_nonempty : forall l, is_blank l = false -> l <> [].
Proof.
  intros l H E. subst l. discriminate.
Qed.

(** X9. A line that is not a code line does not change what
    [brace_balance] reports, whatever it holds. *)
Theorem brace_balance_skips_other_lines :
  forall a l b, is_code_line l = false -> no_linebreak l = true ->
    brace_balance (a ++ LF :: l ++ LF :: b) = brace_balance (a ++ LF :: b).
Proof.
  intros a l b Hl Hn. rewrite !brace_balance_code_text.
  rewrite (@code_text_skips_line a l b Hl Hn). reflexivity.
Qed.

Lemma brace_balance_skips_other_lines_witness :
  (is_code_line (py "<p> } } </p>") = false
   /\ no_linebreak (py "<p> } } </p>") = true)
  /\ brace_balance (py "@if (a)" ++ LF :: py "<p> } } </p>" ++ LF :: py "{ }")
     = brace_balance (py "@if (a)" ++ LF :: py "{ }").
Proof.
  split; [split; reflexivity|].
  apply (@brace_balance_skips_other_lines (py "@if (a)") (py "<p> } } </p>")
                                          (py "{ }"));
    reflexivity.
Defined.

(** ** Head noise *)

(** X10. The text [_strip_leading_noise] returns never begins with a
    blank line: it is empty, or its first line holds a character that
    is not whitespace. *)
Theorem strip_leading_noise_first_line :
  forall s,
    match Py.splitlines (_strip_leading_noise s) with
    | [] => _strip_leading_noise s = []
    | l :: _ => is_blank l = false
    end.
Proof.
  intros s. unfold _strip_leading_noise. cbv zeta.
  pose proof (strip_lines_no_linebreak (Py.lstrip_bom s)) as Hnl.
  pose proof (strip_lines_settled (Py.splitlines (Py.lstrip_bom s)))
    as [Hdb _].
  destruct (strip_lines (Py.splitlines (Py.lstrip_bom s))) as [|l t].
  - reflexivity.
  - pose proof (@drop_blank_fixed_head l t Hdb) as Hb.
    inversion Hnl as [|? ? Hl _]; subst.
    destruct t as [|l2 t2].
    + simpl.
      rewrite (@splitlines_single l (@is_blank_nonempty l Hb) Hl).
      exact Hb.
    + change (Py.join_lf (l :: l2 :: t2))
        with (l ++ LF :: Py.join_lf (l2 :: t2)).
      rewrite (@splitlines_line_lf l _ Hl). exact Hb.
Qed.

(** ** Bounds of a search *)

Lemma match_len_bound :
  forall r s n, Re.match_len r s = Some n -> n <= length s.
Proof.
  intros r s n H. unfold Re.match_len in H.
  destruct (Re.match_at r s); simpl in H; [|discriminate].
  injection H as <-. lia.
Qed.

Lemma search_from_bounds :
  forall r s i a b,
    Re.search_from r i s = Some (a, b) ->
    i <= a /\ a <= b /\ b <= i + length s.
Proof.
  intros r s. induction s as [|c t IH]; intros i a b H; simpl in H.
  - destruct (Re.match_len r []) as [n|] eqn:E; [|discriminate].
    injection H as <- <-. apply match_len_bound in E. simpl in *. lia.
  - destruct (Re.match_len r (c :: t)) as [n|] eqn:E.
    + injection H as <- <-. apply match_len_bound in E. simpl in *. lia.
    + apply IH in H. simpl. lia.
Qed.

Lemma replace_crlf_length :
  forall s, length (Py.replace_crlf s) <= length s.
Proof.
  apply str_ind2.
  - simpl. lia.
  - intros c _. simpl. lia.
  - intros c d t Ht Hdt.
    change (Py.replace_crlf (c :: d :: t))
      with (if (N.eqb c CR && N.eqb d LF)%bool
            then LF :: Py.replace_crlf t
            else c :: Py.replace_crlf (d :: t)).
    destruct (N.eqb c CR && N.eqb d LF)%bool; simpl length in *; lia.
Qed.

(** ** Region markers *)

(** X11. [strip_region_wrappers] removes a Start marker and an End
    marker of a region, and nothing else, from a text that holds no
    other HTML comment opener. *)
Theorem strip_region_wrappers_removes_pair :
  forall uni name pre body post,
    name <> [] -> forallb ident_char name = true ->
    Py.contains (py "<!--") (pre ++ body) = false ->
    Py.contains (py "<!--") post = false ->
    strip_region_wrappers uni
      (pre ++ region_marker name "Start" ++ body
       ++ region_marker name "End" ++ post)
    = pre ++ body ++ post.
Proof.
  intros uni name pre body post Hn Hi H1 H2.
  exact (@strip_region_wrappers_pair uni name pre body post Hn Hi H1 H2).
Qed.

Lemma strip_region_wrappers_removes_pair_witness :
  (py "Student" <> [] /\ forallb ident_char (py "Student") = true
   /\ Py.contains (py "<!--") ([LF] ++ py "@if (a) { }") = false
   /\ Py.contains (py "<!--") [LF] = false)
  /\ strip_region_wrappers no_unicode_words
       ([LF] ++ region_marker (py "Student") "Start" ++ py "@if (a) { }"
        ++ region_marker (py "Student") "End" ++ [LF])
     = [LF] ++ py "@if (a) { }" ++ [LF].
Proof.
  split; [repeat split; try reflexivity; discriminate|].
  apply (@strip_region_wrappers_removes_pair no_unicode_words (py "Student")
           [LF] (py "@if (a) { }") [LF]);
    [discriminate | reflexivity | reflexivity | reflexivity].
Defined.

(** X12. [strip_region_wrappers] returns a text that holds no HTML
    comment opener as it is. *)
Theorem strip_region_wrappers_plain :
  forall uni s, Py.contains (py "<!--") s = false ->
    strip_region_wrappers uni s = s.
Proof.
  intros uni s H. unfold strip_region_wrappers, Re.sub. cbv zeta.
  rewrite (@sub_region_plain uni "Start" s H).
  apply sub_region_plain. exact H.
Qed.

Lemma strip_region_wrappers_plain_witness :
  Py.contains (py "<!--") ex_expected = false
  /\ strip_region_wrappers no_unicode_words ex_expected = ex_expected.
Proof.
  split; [reflexivity|].
  apply (@strip_region_wrappers_plain no_unicode_words ex_expected).
  reflexivity.
Defined.

(** ** Comparison *)

(** X14. Whitespace after the expected text does not change whether
    [compare] reports a match. *)
Theorem compare_expected_trailing_space :
  forall uni e g w, all_space w = true ->
    (compare uni (e ++ w) g = Match <-> compare uni e g = Match).
Proof.
  intros uni e g w Hw. rewrite !compare_match_iff.
  rewrite (@norm_strip_app_space e w Hw). reflexivity.
Qed.

Lemma compare_expected_trailing_space_witness :
  all_space [LF; LF] = true
  /\ (compare no_unicode_words (ex_expected ++ [LF; LF]) ex_wrapped = Match
      <-> compare no_unicode_words ex_expected ex_wrapped = Match).
Proof.
  split; [reflexivity|].
  apply (@compare_expected_trailing_space no_unicode_words ex_expected
           ex_wrapped [LF; LF]).
  reflexivity.
Defined.

(** ** Whitespace-insensitive search *)

(** X15. The offsets [find_ws_insensitive] returns are ordered, not
    before [start], and, when [start] lies inside the text, not after
    the end of the text. *)
Theorem find_ws_insensitive_bounds :
  forall hay snippet start a b,
    find_ws_insensitive hay snippet start = Some (a, b) ->
    start <= a /\ a <= b /\ (start <= length hay -> b <= length hay).
Proof.
  intros hay snippet start a b H. unfold find_ws_insensitive in H.
  cbv zeta in H.
  match type of H with
  | context [Re.search ?p ?x] =>
      destruct (Re.search p x) as [[ms me]|] eqn:E; [|discriminate]
  end.
  injection H as <- <-. unfold Re.search in E.
  apply search_from_bounds in E. destruct E as (_ & Hab & Hb).
  rewrite length_skipn in Hb.
  pose proof (replace_crlf_length hay) as Hl.
  repeat split; lia.
Qed.

Lemma find_ws_insensitive_bounds_witness :
  find_ws_insensitive ex_crlf_hay ex_anchor 0 = Some (1, 10)
  /\ (0 <= 1 /\ 1 <= 10 /\ (0 <= length ex_crlf_hay -> 10 <= length ex_crlf_hay)).
Proof.
  split; [reflexivity|].
  apply (@find_ws_insensitive_bounds ex_crlf_hay ex_anchor 0 1 10).
  reflexivity.
Defined.

(** ** The start anchors *)

Lemma anchor_primary_compiled :
  forall k,
    compile (Re.sub re_bs_ws (py "\s+")
               (Re.escape (Py.replace_crlf (anchor_primary k))))
    = anchor_regex k.
Proof.
  intros k. destruct k; vm_compute; reflexivity.
Qed.

Lemma anchor_fallback_compiled :
  forall k,
    compile (Re.sub re_bs_ws (py "\s+")
               (Re.escape (Py.replace_crlf (anchor_fallback k))))
    = anchor_regex k.
Proof.
  intros k. destruct k; vm_compute; reflexivity.
Qed.

Lemma find_anchor_primary :
  forall k hay start,
    find_ws_insensitive hay (anchor_primary k) start
    = match Re.search (anchor_regex k) (skipn start (Py.replace_crlf hay)) with
      | Some (ms, me) => Some (start + ms, start + me)
      | None => None
      end.
Proof.
  intros k hay start. unfold find_ws_insensitive. cbv zeta.
  rewrite anchor_primary_compiled. reflexivity.
Qed.

Lemma find_anchor_fallback :
  forall k hay start,
    find_ws_insensitive hay (anchor_fallback k) start
    = find_ws_insensitive hay (anchor_primary k) start.
Proof.
  intros k hay start. rewrite find_anchor_primary.
  unfold find_ws_insensitive. cbv zeta.
  rewrite anchor_fallback_compiled. reflexivity.
Qed.

Lemma find_start_primary :
  forall k monolith,
    find_start k monolith
    = option_map fst (find_ws_insensitive monolith (anchor_primary k) 0).
Proof.
  intros k monolith. unfold find_start.
  rewrite find_anchor_fallback.
  destruct (find_ws_insensitive monolith (anchor_primary k) 0) as [[a b]|];
    reflexivity.
Qed.

Lemma validated_not_start :
  forall af k x, validated af k x <> ExtractFailed StartNotFound.
Proof.
  intros af k x. unfold validated.
  destruct (validate_and_maybe_fix af x (start_literal k)); discriminate.
Qed.

Lemma extract_one_start :
  forall af k landmark closing monolith,
    extract_one af k landmark closing monolith = ExtractFailed StartNotFound
    <-> find_start k monolith = None.
Proof.
  intros af k landmark closing monolith. unfold extract_one.
  destruct (find_start k monolith) as [s|]; [|split; reflexivity].
  split; [|discriminate]. intros H. exfalso. revert H.
  destruct (find_ws_insensitive (skipn s monolith) landmark 0) as [[a b]|];
    [|discriminate].
  destruct (Re.search closing (skipn (s + b) monolith)) as [[ms me]|];
    [|discriminate].
  apply validated_not_start.
Qed.

Lemma extract_professor_start :
  forall af monolith,
    extract_professor af monolith = ExtractFailed StartNotFound
    <-> find_start Professor monolith = None.
Proof.
  intros af monolith. unfold extract_professor.
  destruct (find_start Professor monolith) as [s|]; [|split; reflexivity].
  split; [|discriminate]. intros H. exfalso. revert H.
  destruct (find_ws_insensitive (skipn s monolith) professor_landmark 0)
    as [[a b]|]; [|discriminate].
  destruct (professor_tail (skipn (s + b) monolith)) as [[ms me]|];
    [|discriminate].
  apply validated_not_start.
Qed.

Lemma extract_start :
  forall af k monolith,
    extract af k monolith = ExtractFailed StartNotFound
    <-> find_start k monolith = None.
Proof.
  intros af k monolith. destruct k; simpl.
  - apply extract_one_start.
  - apply extract_one_start.
  - apply extract_professor_start.
  - apply extract_one_start.
Qed.

(** ** The extractors *)

(** X16. The second start anchor of an extractor never finds what the
    first did not: both compile to the same pattern, so an extractor
    reports that the start is not found exactly when the search for
    its first anchor fails. *)
Theorem extract_fallback_anchor_idle :
  forall auto_fix k monolith,
    (forall start,
        find_ws_insensitive monolith (anchor_fallback k) start
        = find_ws_insensitive monolith (anchor_primary k) start)
    /\ (extract auto_fix k monolith = ExtractFailed StartNotFound
        <-> find_ws_insensitive monolith (anchor_primary k) 0 = None).
Proof.
  intros auto_fix k monolith. split.
  - intros start. apply find_anchor_fallback.
  - rewrite extract_start. rewrite find_start_primary.
    destruct (find_ws_insensitive monolith (anchor_primary k) 0)
      as [[a b]|]; simpl; split; intros H; try discriminate; reflexivity.
Qed.

(** ** What an extractor validates *)

Lemma validated_inv :
  forall af k x r,
    validated af k x = Extracted r ->
    validate_and_maybe_fix af x (start_literal k) = Ok r.
Proof.
  intros af k x r H. unfold validated in H.
  destruct (validate_and_maybe_fix af x (start_literal k));
    [injection H as <-; reflexivity | discriminate].
Qed.

Lemma extract_one_inv :
  forall af k landmark closing monolith r,
    extract_one af k landmark closing monolith = Extracted r ->
    exists s e, validate_and_maybe_fix af (slice s e monolith)
                                       (start_literal k) = Ok r.
Proof.
  intros af k landmark closing monolith r H. unfold extract_one in H.
  destruct (find_start k monolith) as [s|]; [|discriminate].
  destruct (find_ws_insensitive (skipn s monolith) landmark 0) as [[a b]|];
    [|discriminate].
  destruct (Re.search closing (skipn (s + b) monolith)) as [[ms me]|];
    [|discriminate].
  exists s, (s + b + me). apply validated_inv. exact H.
Qed.

Lemma extract_professor_inv :
  forall af monolith r,
    extract_professor af monolith = Extracted r ->
    exists s e, validate_and_maybe_fix af (slice s e monolith)
                                       (start_literal Professor) = Ok r.
Proof.
  intros af monolith r H. unfold extract_professor in H.
  destruct (find_start Professor monolith) as [s|]; [|discriminate].
  destruct (find_ws_insensitive (skipn s monolith) professor_landmark 0)
    as [[a b]|]; [|discriminate].
  destruct (professor_tail (skipn (s + b) monolith)) as [[ms me]|];
    [|discriminate].
  exists s, (s + b + me). apply validated_inv. exact H.
Qed.

Lemma extract_inv :
  forall af k monolith r,
    extract af k monolith = Extracted r ->
    exists s e, validate_and_maybe_fix af (slice s e monolith)
                                       (start_literal k) = Ok r.
Proof.
  intros af k monolith r H. destruct k; simpl in H.
  - exact (extract_one_inv _ _ _ _ _ H).
  - exact (extract_one_inv _ _ _ _ _ H).
  - exact (extract_professor_inv _ _ H).
  - exact (extract_one_inv _ _ _ _ _ H).
Qed.

Lemma slice_inside :
  forall s e (m : str), exists pre post, m = pre ++ slice s e m ++ post.
Proof.
  intros s e m. unfold slice.
  exists (firstn s m), (skipn (e - s) (skipn s m)).
  rewrite (firstn_skipn (e - s) (skipn s m)).
  symmetry. apply firstn_skipn.
Qed.

(** X17. A block an extractor returns is one [brace_balance] reports
    as balanced, whatever the repair flag. *)
Theorem extract_returns_balanced :
  forall auto_fix k monolith r,
    extract auto_fix k monolith = Extracted r -> balanced r = true.
Proof.
  intros auto_fix k monolith r H.
  destruct (extract_inv _ _ _ H) as (s & e & Hv).
  exact (@validate_result_balanced auto_fix _ _ r Hv).
Qed.

Lemma extract_returns_balanced_witness :
  extract false Company ex_monolith = Extracted ex_section
  /\ balanced ex_section = true.
Proof.
  split; [vm_compute; reflexivity|].
  apply (@extract_returns_balanced false Company ex_monolith ex_section).
  vm_compute. reflexivity.
Defined.

(** X18. With the repair flag off, the block an extractor returns is a
    contiguous piece of the monolith, character for character. *)
Theorem extract_no_flag_piece_of_monolith :
  forall k monolith r,
    extract false k monolith = Extracted r ->
    exists pre post, monolith = pre ++ r ++ post.
Proof.
  intros k monolith r H.
  destruct (extract_inv _ _ _ H) as (s & e & Hv).
  destruct (@validate_no_flag_prefix _ _ r Hv) as (gaps & w & _ & _ & Hx).
  destruct (slice_inside s e monolith) as (pre & post & Hm).
  exists pre, (trailing gaps w ++ post).
  rewrite Hm at 1. rewrite Hx. rewrite <- !app_assoc. reflexivity.
Qed.

Lemma extract_no_flag_piece_of_monolith_witness :
  extract false Company ex_monolith = Extracted ex_section
  /\ exists pre post, ex_monolith = pre ++ ex_section ++ post.
Proof.
  split; [vm_compute; reflexivity|].
  apply (@extract_no_flag_piece_of_monolith Company ex_monolith ex_section).
  vm_compute. reflexivity.
Defined.

(** ** Matching a guard *)

Lemma rmatch_cat_lits :
  forall p rs s k,
    Re.rmatch (Re.cat (map Re.Lit p ++ rs)) (p ++ s) k
    = Re.rmatch (Re.cat rs) s k.
Proof.
  induction p as [|c p IH]; intros rs s k.
  - reflexivity.
  - change (Re.cat (map Re.Lit (c :: p) ++ rs))
      with (Re.Seq (Re.Lit c) (Re.cat (map Re.Lit p ++ rs))).
    rewrite rmatch_Seq. unfold Re.Lit at 1. rewrite rmatch_Cls.
    simpl app. cbv beta iota. rewrite N.eqb_refl. apply IH.
Qed.

Lemma greedy_cls_stop_at :
  forall p k c t, p c = false -> greedy_cls p k (c :: t) = k (c :: t).
Proof.
  intros p k c t H. simpl. rewrite H. reflexivity.
Qed.

Lemma rmatch_plus_ws_run :
  forall w s k r, w <> [] -> all_space w = true ->
    greedy_cls Py.isspace k s = Some r ->
    Re.rmatch (Re.Plus Re.ws) (w ++ s) k = Some r.
Proof.
  intros [|c w] s k r Hn Hw Hk; [congruence|].
  simpl in Hw. apply andb_true_iff in Hw as [Hc Hw].
  unfold Re.Plus. rewrite rmatch_Seq. unfold Re.ws at 1.
  rewrite rmatch_Cls. simpl app. cbv beta iota. rewrite Hc.
  unfold Re.ws. rewrite rmatch_star_greedy_cls.
  apply greedy_cls_run_ok; assumption.
Qed.

Lemma guard_cond_head :
  forall k, exists t, guard_cond k = 40%N :: t.
Proof.
  intros k. unfold guard_cond. eexists. reflexivity.
Qed.

Lemma anchor_regex_match :
  forall k w1 w2 b,
    w1 <> [] -> w2 <> [] -> all_space w1 = true -> all_space w2 = true ->
    Re.match_at (anchor_regex k)
      (py "@if" ++ w1 ++ guard_cond k ++ w2 ++ LBRACE :: b) = Some b.
Proof.
  intros k w1 w2 b Hn1 Hn2 Hw1 Hw2.
  unfold Re.match_at, anchor_regex.
  rewrite rmatch_cat_lits. rewrite rmatch_cat_cons.
  apply rmatch_plus_ws_run; [assumption | assumption |].
  destruct (guard_cond_head k) as (t & Ht).
  rewrite Ht at 1. rewrite <- app_comm_cons.
  rewrite greedy_cls_stop_at by reflexivity.
  rewrite app_comm_cons. rewrite <- Ht.
  rewrite rmatch_cat_lits. rewrite rmatch_cat_cons.
  apply rmatch_plus_ws_run; [assumption | assumption |].
  rewrite greedy_cls_stop_at by reflexivity.
  reflexivity.
Qed.

Lemma search_from_finds :
  forall r s n i m,
    Re.match_len r (skipn n s) = Some m -> n <= length s ->
    exists a b, Re.search_from r i s = Some (a, b) /\ a <= i + n.
Proof.
  intros r s. induction s as [|c t IH]; intros n i m H Hn.
  - simpl in Hn. assert (n = 0) by lia. subst n. simpl in H.
    simpl. rewrite H. eexists _, _. split; [reflexivity|lia].
  - simpl. destruct (Re.match_len r (c :: t)) as [m0|] eqn:E.
    + eexists _, _. split; [reflexivity|lia].
    + destruct n as [|n].
      * simpl in H. rewrite H in E. discriminate.
      * simpl in H, Hn.
        destruct (IH n (S i) m H ltac:(lia)) as (a & b & Hs & Ha).
        exists a, b. split; [exact Hs|lia].
Qed.

(** ** Normalised line ends of a concatenation *)

Lemma replace_crlf_app :
  forall y : str, Py.startswith [LF] y = false ->
  forall x : str, Py.replace_crlf (x ++ y)
            = Py.replace_crlf x ++ Py.replace_crlf y.
Proof.
  intros y Hy. apply str_ind2.
  - reflexivity.
  - intros c _. change ([c] ++ y) with (c :: y).
    destruct y as [|d y'].
    + reflexivity.
    + change (Py.replace_crlf (c :: d :: y'))
        with (if (N.eqb c CR && N.eqb d LF)%bool
              then LF :: Py.replace_crlf y'
              else c :: Py.replace_crlf (d :: y')).
      change (Py.startswith [LF] (d :: y')) with (N.eqb LF d && true)%bool
        in Hy.
      rewrite andb_true_r in Hy.
      rewrite (N.eqb_sym d LF), Hy, andb_false_r. reflexivity.
  - intros c d t Ht Hdt.
    change ((c :: d :: t) ++ y) with (c :: d :: (t ++ y)).
    change (Py.replace_crlf (c :: d :: (t ++ y)))
      with (if (N.eqb c CR && N.eqb d LF)%bool
            then LF :: Py.replace_crlf (t ++ y)
            else c :: Py.replace_crlf ((d :: t) ++ y)).
    change (Py.replace_crlf (c :: d :: t))
      with (if (N.eqb c CR && N.eqb d LF)%bool
            then LF :: Py.replace_crlf t
            else c :: Py.replace_crlf (d :: t)).
    destruct (N.eqb c CR && N.eqb d LF)%bool.
    + rewrite Ht. reflexivity.
    + rewrite Hdt. reflexivity.
Qed.

Lemma replace_crlf_app_plain :
  forall (c : char) (y : str), N.eqb c CR = false ->
  forall x : str, Py.replace_crlf ((x ++ [c]) ++ y)
            = Py.replace_crlf (x ++ [c]) ++ Py.replace_crlf y.
Proof.
  intros c y Hc. apply str_ind2.
  - change (([] ++ [c]) ++ y) with (c :: y). destruct y as [|d y'].
    + reflexivity.
    + change (Py.replace_crlf (c :: d :: y'))
        with (if (N.eqb c CR && N.eqb d LF)%bool
              then LF :: Py.replace_crlf y'
              else c :: Py.replace_crlf (d :: y')).
      rewrite Hc. reflexivity.
  - intros c0 H0. change (([c0] ++ [c]) ++ y) with (c0 :: c :: y).
    change ([c0] ++ [c]) with [c0; c].
    change (Py.replace_crlf (c0 :: c :: y))
      with (if (N.eqb c0 CR && N.eqb c LF)%bool
            then LF :: Py.replace_crlf y
            else c0 :: Py.replace_crlf (([] ++ [c]) ++ y)).
    change (Py.replace_crlf [c0; c])
      with (if (N.eqb c0 CR && N.eqb c LF)%bool
            then LF :: Py.replace_crlf []
            else c0 :: Py.replace_crlf ([] ++ [c])).
    destruct (N.eqb c0 CR && N.eqb c LF)%bool.
    + reflexivity.
    + cbn [app] in H0 |- *. rewrite H0. reflexivity.
  - intros c0 d t Ht Hdt.
    change (((c0 :: d :: t) ++ [c]) ++ y)
      with (c0 :: d :: ((t ++ [c]) ++ y)).
    change ((c0 :: d :: t) ++ [c]) with (c0 :: d :: (t ++ [c])).
    change (Py.replace_crlf (c0 :: d :: ((t ++ [c]) ++ y)))
      with (if (N.eqb c0 CR && N.eqb d LF)%bool
            then LF :: Py.replace_crlf ((t ++ [c]) ++ y)
            else c0 :: Py.replace_crlf (((d :: t) ++ [c]) ++ y)).
    change (Py.replace_crlf (c0 :: d :: (t ++ [c])))
      with (if (N.eqb c0 CR && N.eqb d LF)%bool
            then LF :: Py.replace_crlf (t ++ [c])
            else c0 :: Py.replace_crlf ((d :: t) ++ [c])).
    destruct (N.eqb c0 CR && N.eqb d LF)%bool.
    + rewrite Ht. reflexivity.
    + rewrite Hdt. reflexivity.
Qed.

Lemma replace_crlf_all_space :
  forall w, all_space w = true -> all_space (Py.replace_crlf w) = true.
Proof.
  apply (@str_ind2 (fun w => all_space w = true
                             -> all_space (Py.replace_crlf w) = true)).
  - intros _. reflexivity.
  - intros c H0 H. exact H.
  - intros c d t Ht Hdt H.
    change (Py.replace_crlf (c :: d :: t))
      with (if (N.eqb c CR && N.eqb d LF)%bool
            then LF :: Py.replace_crlf t
            else c :: Py.replace_crlf (d :: t)).
    simpl in H. apply andb_true_iff in H as [Hc H].
    pose proof H as Hd. apply andb_true_iff in Hd as [Hd Htt].
    destruct (N.eqb c CR && N.eqb d LF)%bool.
    + simpl. apply Ht. exact Htt.
    + simpl. rewrite Hc. apply Hdt. simpl. exact H.
Qed.

Lemma replace_crlf_nonempty :
  forall w, w <> [] -> Py.replace_crlf w <> [].
Proof.
  intros [|c [|d t]] H; [congruence | discriminate |].
  change (Py.replace_crlf (c :: d :: t))
    with (if (N.eqb c CR && N.eqb d LF)%bool
          then LF :: Py.replace_crlf t
          else c :: Py.replace_crlf (d :: t)).
  destruct (N.eqb c CR && N.eqb d LF)%bool; discriminate.
Qed.

Lemma guard_cond_no_cr :
  forall k, existsb (N.eqb CR) (guard_cond k) = false.
Proof.
  intros k. destruct k; reflexivity.
Qed.

Lemma guard_cond_last :
  forall k, exists g, guard_cond k = g ++ [41%N].
Proof.
  intros k. unfold guard_cond.
  exists (py "(!isInitializedAs" ++ guard_name k ++ py "User").
  rewrite <- !app_assoc. reflexivity.
Qed.

Lemma replace_crlf_guard :
  forall (a w1 : str) k (w2 b : str),
    Py.replace_crlf (a ++ py "@if" ++ w1 ++ guard_cond k ++ w2 ++ LBRACE :: b)
    = Py.replace_crlf a ++ py "@if" ++ Py.replace_crlf w1 ++ guard_cond k
      ++ Py.replace_crlf w2 ++ LBRACE :: Py.replace_crlf b.
Proof.
  intros a w1 k w2 b.
  assert (Hb : Py.replace_crlf (LBRACE :: b) = LBRACE :: Py.replace_crlf b).
  { destruct b as [|d b']; reflexivity. }
  destruct (guard_cond_head k) as (t & Ht).
  destruct (guard_cond_last k) as (g & Hg).
  etransitivity.
  { apply (@replace_crlf_app
             (py "@if" ++ w1 ++ guard_cond k ++ w2 ++ LBRACE :: b)
             eq_refl a). }
  apply (f_equal2 (@app char)); [reflexivity|].
  etransitivity.
  { apply (@replace_crlf_app_plain 102%N
             (w1 ++ guard_cond k ++ w2 ++ LBRACE :: b) eq_refl (py "@i")). }
  apply (f_equal2 (@app char)); [reflexivity|].
  etransitivity.
  { apply (@replace_crlf_app (guard_cond k ++ w2 ++ LBRACE :: b)).
    rewrite Ht. reflexivity. }
  apply (f_equal2 (@app char)); [reflexivity|].
  assert (Hgw : Py.replace_crlf (guard_cond k ++ w2 ++ LBRACE :: b)
                = Py.replace_crlf (guard_cond k)
                  ++ Py.replace_crlf (w2 ++ LBRACE :: b)).
  { rewrite Hg. rewrite <- app_assoc.
    etransitivity; [|apply (@replace_crlf_app_plain 41%N (w2 ++ LBRACE :: b)
                              eq_refl g)].
    rewrite <- app_assoc. reflexivity. }
  rewrite Hgw.
  rewrite (@replace_crlf_no_cr (guard_cond k) (guard_cond_no_cr k)).
  apply (f_equal2 (@app char)); [reflexivity|].
  etransitivity.
  { apply (@replace_crlf_app (LBRACE :: b) eq_refl w2). }
  rewrite Hb. reflexivity.
Qed.

(** ** The head of a block *)

Lemma isspace_not_bom : forall c, Py.isspace c = true -> N.eqb BOM c = false.
Proof.
  intros c H. destruct (N.eqb BOM c) eqn:E; [|reflexivity].
  apply N.eqb_eq in E. subst c. discriminate.
Qed.

Lemma lstrip_bom_space :
  forall (boms w x : str),
    forallb (N.eqb BOM) boms = true -> all_space w = true ->
    Py.startswith [BOM] x = false ->
    Py.lstrip_bom (boms ++ w ++ x) = w ++ x.
Proof.
  intros boms w x Hb Hw Hx. unfold Py.lstrip_bom.
  rewrite (@dropwhile_app_all (N.eqb BOM) boms (w ++ x) Hb).
  destruct w as [|c w].
  - apply lstrip_bom_id. exact Hx.
  - simpl in Hw. apply andb_true_iff in Hw as [Hc _].
    cbn [Py.dropwhile app]. rewrite (isspace_not_bom c Hc). reflexivity.
Qed.

Lemma skip_comments_guard :
  forall n t, skip_comments n (64%N :: 105%N :: t) = 64%N :: 105%N :: t.
Proof.
  intros [|n] t; reflexivity.
Qed.

Lemma block_head_guard :
  forall (boms w t : str),
    forallb (N.eqb BOM) boms = true -> all_space w = true ->
    block_head (boms ++ w ++ 64%N :: 105%N :: t) = 64%N :: 105%N :: t.
Proof.
  intros boms w t Hb Hw. unfold block_head. cbv zeta.
  rewrite (@lstrip_bom_space boms w (64%N :: 105%N :: t) Hb Hw eq_refl).
  rewrite (@dropwhile_app_all Py.isspace w (64%N :: 105%N :: t) Hw).
  change (Py.dropwhile Py.isspace (64%N :: 105%N :: t))
    with (64%N :: 105%N :: t).
  apply skip_comments_guard.
Qed.

Lemma block_head_blank :
  forall (boms w : str),
    forallb (N.eqb BOM) boms = true -> all_space w = true ->
    block_head (boms ++ w) = [].
Proof.
  intros boms w Hb Hw. unfold block_head. cbv zeta.
  rewrite <- (app_nil_r w).
  rewrite (@lstrip_bom_space boms w [] Hb Hw eq_refl).
  rewrite app_nil_r. rewrite (@dropwhile_all Py.isspace w Hw).
  reflexivity.
Qed.

Lemma search_hit :
  forall r s n, Re.match_len r s = Some n -> Re.search r s = Some (0, n).
Proof.
  intros r s n H. unfold Re.search. destruct s; simpl; rewrite H; reflexivity.
Qed.

Lemma if_open_match :
  forall (cond w rest : str),
    existsb (N.eqb (chr ")")) cond = false -> all_space w = true ->
    Re.match_at re_if_open
      (py "@if (" ++ cond ++ py ")" ++ w ++ LBRACE :: rest) = Some rest.
Proof.
  intros cond w rest Hc Hw. unfold Re.match_at, re_if_open.
  rewrite rmatch_cat_cons.
  change (py "@if (" ++ cond ++ py ")" ++ w ++ LBRACE :: rest)
    with (py "@if" ++ [SP] ++ 40%N :: cond ++ 41%N :: w ++ LBRACE :: rest).
  rewrite rmatch_lits_app. rewrite rmatch_cat_cons.
  unfold Re.ws at 1. rewrite rmatch_star_greedy_cls.
  apply greedy_cls_run_ok; [reflexivity|].
  rewrite greedy_cls_stop_at by reflexivity.
  rewrite rmatch_cat_cons. unfold Re.Lit at 1. rewrite rmatch_Cls.
  change (chr "(" =? 40)%N with true. cbv iota.
  rewrite rmatch_cat_cons. rewrite rmatch_star_greedy_cls.
  apply greedy_cls_run_ok.
  { clear -Hc. induction cond as [|c t IH]; [reflexivity|].
    cbn [existsb] in Hc. apply orb_false_iff in Hc as [Hc Ht].
    cbn [forallb]. rewrite (N.eqb_sym c (chr ")")), Hc.
    cbn [negb andb]. apply IH. exact Ht. }
  rewrite greedy_cls_stop_at by reflexivity.
  rewrite rmatch_cat_cons. unfold Re.Lit at 1. rewrite rmatch_Cls.
  change (chr ")" =? 41)%N with true. cbv iota.
  rewrite rmatch_cat_cons. unfold Re.ws. rewrite rmatch_star_greedy_cls.
  apply greedy_cls_run_ok; [exact Hw|].
  rewrite greedy_cls_stop_at by reflexivity.
  reflexivity.
Qed.

(** X19. An extractor finds its start at or before a guard that is
    written with any whitespace between [@if], the condition and the
    opening token, also when the monolith has CRLF line ends. *)
Theorem find_start_finds_guard :
  forall k (a w1 w2 b : str),
    w1 <> [] -> w2 <> [] -> all_space w1 = true -> all_space w2 = true ->
    exists i,
      find_start k (a ++ py "@if" ++ w1 ++ guard_cond k ++ w2 ++ LBRACE :: b)
      = Some i
      /\ i <= length a.
Proof.
  intros k a w1 w2 b Hn1 Hn2 Hw1 Hw2.
  rewrite find_start_primary, find_anchor_primary.
  rewrite replace_crlf_guard. unfold Re.search. cbn [skipn].
  set (a' := Py.replace_crlf a).
  set (T := py "@if" ++ Py.replace_crlf w1 ++ guard_cond k
            ++ Py.replace_crlf w2 ++ LBRACE :: Py.replace_crlf b).
  assert (Hm : Re.match_len (anchor_regex k) (skipn (length a') (a' ++ T))
               = Some (length T - length (Py.replace_crlf b))).
  { rewrite skipn_app, Nat.sub_diag, skipn_all. simpl.
    unfold Re.match_len, T.
    rewrite (@anchor_regex_match k _ _ (Py.replace_crlf b)
               (replace_crlf_nonempty Hn1) (replace_crlf_nonempty Hn2)
               (replace_crlf_all_space w1 Hw1)
               (replace_crlf_all_space w2 Hw2)).
    reflexivity. }
  destruct (@search_from_finds (anchor_regex k) (a' ++ T) (length a') 0 _ Hm)
    as (i & j & Hs & Hi).
  { rewrite length_app. lia. }
  rewrite Hs. exists i. split; [reflexivity|].
  pose proof (replace_crlf_length a). unfold a' in Hi. simpl in *. lia.
Qed.

Lemma find_start_finds_guard_witness :
  ([LF; HT] <> [] /\ [CR; LF] <> [] /\ all_space [LF; HT] = true
   /\ all_space [CR; LF] = true)
  /\ exists i,
      find_start Student
        (py "<p/>" ++ py "@if" ++ [LF; HT] ++ guard_cond Student
         ++ [CR; LF] ++ LBRACE :: py " }")
      = Some i
      /\ i <= length (py "<p/>").
Proof.
  split; [repeat split; discriminate|].
  apply (@find_start_finds_guard Student (py "<p/>") [LF; HT] [CR; LF]
                                 (py " }"));
    [discriminate | discriminate | reflexivity | reflexivity].
Defined.

(** ** The opening shape *)

(** X20. [ensure_starts_with_if_block] accepts a block that, after
    byte-order marks and whitespace, consists of the start literal (a
    guard whose condition holds no closing parenthesis), optional
    whitespace and the opening token. *)
Theorem ensure_accepts_guard_and_brace :
  forall (boms sp cond w rest : str),
    forallb (N.eqb BOM) boms = true -> all_space sp = true ->
    existsb (N.eqb (chr ")")) cond = false -> all_space w = true ->
    ensure_starts_with_if_block
      (boms ++ sp ++ (py "@if (" ++ cond ++ py ")") ++ w ++ LBRACE :: rest)
      (py "@if (" ++ cond ++ py ")")
    = Ok tt.
Proof.
  intros boms sp cond w rest Hb Hs Hc Hw.
  unfold ensure_starts_with_if_block. cbv zeta.
  change ((py "@if (" ++ cond ++ py ")") ++ w ++ LBRACE :: rest)
    with (64%N :: 105%N
          :: (py "f (" ++ cond ++ py ")") ++ w ++ LBRACE :: rest).
  rewrite (@block_head_guard boms sp _ Hb Hs).
  change (64%N :: 105%N
          :: (py "f (" ++ cond ++ py ")") ++ w ++ LBRACE :: rest)
    with ((py "@if (" ++ cond ++ py ")") ++ w ++ LBRACE :: rest).
  rewrite startswith_app. cbn [negb].
  rewrite <- !app_assoc.
  rewrite (@search_hit re_if_open _
             (length (py "@if (" ++ cond ++ py ")" ++ w ++ LBRACE :: rest)
              - length rest)).
  - reflexivity.
  - unfold Re.match_len. rewrite (@if_open_match cond w rest Hc Hw).
    reflexivity.
Qed.

Lemma ensure_accepts_guard_and_brace_witness :
  (forallb (N.eqb BOM) [BOM] = true /\ all_space [LF] = true
   /\ existsb (N.eqb (chr ")")) (py "!isInitializedAsStudentUser") = false
   /\ all_space [CR; LF] = true)
  /\ ensure_starts_with_if_block
       ([BOM] ++ [LF]
        ++ (py "@if (" ++ py "!isInitializedAsStudentUser" ++ py ")")
        ++ [CR; LF] ++ LBRACE :: py " }")
       (py "@if (" ++ py "!isInitializedAsStudentUser" ++ py ")")
     = Ok tt.
Proof.
  split; [repeat split; reflexivity|].
  apply (@ensure_accepts_guard_and_brace [BOM] [LF]
           (py "!isInitializedAsStudentUser") [CR; LF] (py " }"));
    reflexivity.
Defined.

(** X21. A block of byte-order marks and whitespace only is rejected
    with a start mismatch, whatever the repair flag. *)
Theorem validate_rejects_blank_block :
  forall (auto_fix : bool) (boms w lit : str),
    forallb (N.eqb BOM) boms = true -> all_space w = true -> lit <> [] ->
    validate_and_maybe_fix auto_fix (boms ++ w) lit = Fail StartMismatch.
Proof.
  intros auto_fix boms w lit Hb Hw Hl.
  apply validate_start_mismatch.
  rewrite (@block_head_blank boms w Hb Hw).
  destruct lit; [congruence | reflexivity].
Qed.

Lemma validate_rejects_blank_block_witness :
  (forallb (N.eqb BOM) [BOM] = true /\ all_space [LF; SP] = true
   /\ start_literal Student <> [])
  /\ validate_and_maybe_fix true ([BOM] ++ [LF; SP]) (start_literal Student)
     = Fail StartMismatch.
Proof.
  split; [repeat split; try reflexivity; discriminate|].
  apply (@validate_rejects_blank_block true [BOM] [LF; SP]
                                       (start_literal Student));
    [reflexivity | reflexivity | discriminate].
Defined.

(** ** Whitespace-insensitive search: the empty snippet *)

(** X22. An empty snippet is found at [start] itself, also when
    [start] lies past the end of the text. *)
Theorem find_ws_insensitive_empty_snippet :
  forall hay start, find_ws_insensitive hay [] start = Some (start, start).
Proof.
  intros hay start. unfold find_ws_insensitive. cbv zeta.
  change (compile (Re.sub re_bs_ws (py "\s+")
                     (Re.escape (Py.replace_crlf []))))
    with Re.Eps.
  rewrite (@search_hit Re.Eps _ 0).
  - rewrite Nat.add_0_r. reflexivity.
  - unfold Re.match_len, Re.match_at. simpl. rewrite Nat.sub_diag.
    reflexivity.
Qed.

(** ** The first span of a delimiter *)

Lemma drop_spans_prefix :
  forall (d : char) (a z : str), existsb (N.eqb d) a = false ->
    drop_spans d false (a ++ z) = a ++ drop_spans d false z.
Proof.
  intros d a z Ha. induction a as [|c t IH].
  - reflexivity.
  - cbn [existsb] in Ha. apply orb_false_iff in Ha as [Hc Ht].
    cbn [app drop_spans]. rewrite Hc. cbn [andb]. rewrite (IH Ht).
    reflexivity.
Qed.

Lemma drop_spans_close :
  forall (d : char) (m z : str), existsb (N.eqb d) m = false ->
    drop_spans d true (m ++ d :: z) = drop_spans d false z.
Proof.
  intros d m z Hm. induction m as [|c t IH].
  - cbn [app drop_spans]. rewrite N.eqb_refl. reflexivity.
  - cbn [existsb] in Hm. apply orb_false_iff in Hm as [Hc Ht].
    cbn [app drop_spans]. rewrite Hc. cbn [negb]. apply IH. exact Ht.
Qed.

Lemma drop_spans_first_span :
  forall (d : char) (a m z : str),
    existsb (N.eqb d) a = false -> existsb (N.eqb d) m = false ->
    drop_spans d false (a ++ d :: m ++ d :: z) = a ++ drop_spans d false z.
Proof.
  intros d a m z Ha Hm.
  rewrite (@drop_spans_prefix d a (d :: m ++ d :: z) Ha).
  f_equal. cbn [drop_spans]. rewrite N.eqb_refl.
  assert (He : existsb (N.eqb d) (m ++ d :: z) = true).
  { rewrite existsb_app. cbn [existsb]. rewrite N.eqb_refl.
    rewrite orb_true_r. reflexivity. }
  rewrite He. cbn [andb]. apply drop_spans_close. exact Hm.
Qed.

(** ** The closer of a leading comment *)

Lemma find_closer_first :
  forall (u rest : str), existsb (N.eqb 62%N) u = false ->
    Py.find (py "-->") (u ++ py "-->" ++ rest) = Some (length u).
Proof.
  intros u rest. induction u as [|c t IH]; intros Hu.
  - reflexivity.
  - cbn [existsb] in Hu. apply orb_false_iff in Hu as [Hc Ht].
    assert (Hs : Py.startswith (py "-->") ((c :: t) ++ py "-->" ++ rest)
                 = false).
    { destruct t as [|d [|e t']].
      - cbn [app Py.startswith]. change (py "-->") with [45%N; 45%N; 62%N].
        cbn [Py.startswith]. change (N.eqb 62 45) with false.
        rewrite !andb_false_r. reflexivity.
      - change (py "-->") with [45%N; 45%N; 62%N].
        cbn [app Py.startswith]. change (N.eqb 62 45) with false.
        rewrite !andb_false_r. reflexivity.
      - change (py "-->") with [45%N; 45%N; 62%N].
        cbn [app Py.startswith].
        cbn [existsb] in Ht. apply orb_false_iff in Ht as [_ Ht].
        apply orb_false_iff in Ht as [He _]. rewrite He.
        rewrite !andb_false_r. reflexivity. }
    change (Py.find (py "-->") ((c :: t) ++ py "-->" ++ rest))
      with (if Py.startswith (py "-->") ((c :: t) ++ py "-->" ++ rest)
            then Some 0
            else option_map S (Py.find (py "-->") (t ++ py "-->" ++ rest))).
    rewrite Hs. rewrite (IH Ht). reflexivity.
Qed.

Lemma skip_comments_S :
  forall f t,
    skip_comments (S f) t
    = let '(t', advanced) := skip_round t in
      if advanced then skip_comments f t' else t'.
Proof.
  reflexivity.
Qed.

Lemma skip_comment_started :
  forall opener closer t t',
    skip_comment opener closer t = (t', true) ->
    Py.startswith opener t = true.
Proof.
  intros opener closer t t' H. unfold skip_comment in H.
  destruct (Py.startswith opener t); [reflexivity|discriminate].
Qed.

Lemma skip_after_html :
  forall y n, length y < n ->
    skip_comments n (fst (skip_comment (py "@*") (py "*@") y))
    = skip_comments (S (length y)) y.
Proof.
  intros y n Hn.
  destruct (skip_comment (py "<!--") (py "-->") y) as [y1 a1] eqn:E1.
  destruct a1.
  - pose proof (@skip_comment_started _ _ _ _ E1) as Hs.
    assert (Hr : skip_comment (py "@*") (py "*@") y = (y, false)).
    { unfold skip_comment. destruct y as [|c t]; [discriminate|].
      change (py "<!--") with [60%N; 33%N; 45%N; 45%N] in Hs.
      cbn [Py.startswith] in Hs. apply andb_true_iff in Hs as [Hc _].
      apply N.eqb_eq in Hc. subst c. reflexivity. }
    rewrite Hr. cbn [fst]. apply skip_comments_fuel; lia.
  - pose proof (@skip_comment_unchanged _ _ _ _ E1) as Hy1. subst y1.
    rewrite (skip_comments_S (length y) y). unfold skip_round. rewrite E1.
    destruct (skip_comment (py "@*") (py "*@") y) as [y2 a2] eqn:E2.
    cbn [fst orb]. destruct a2.
    + pose proof (@skip_comment_shorter 64%N (py "*") 42%N (py "@")
                    y y2 E2) as Hlt.
      apply skip_comments_fuel; lia.
    + pose proof (@skip_comment_unchanged _ _ _ _ E2) as Hy2. subst y2.
      destruct n as [|n]; [lia|].
      rewrite (skip_comments_S n y). unfold skip_round.
      rewrite E1, E2. reflexivity.
Qed.

Lemma block_head_after_comment :
  forall (boms sp c w x : str),
    forallb (N.eqb BOM) boms = true -> all_space sp = true ->
    existsb (N.eqb 62%N) c = false -> all_space w = true ->
    Py.startswith [BOM] x = false ->
    block_head (boms ++ sp ++ (py "<!--" ++ c ++ py "-->") ++ w ++ x)
    = block_head x.
Proof.
  intros boms sp c w x Hb Hsp Hc Hw Hx.
  set (t := (py "<!--" ++ c ++ py "-->") ++ w ++ x).
  set (y := Py.dropwhile Py.isspace x).
  assert (Ht : t = 60%N :: (py "!--" ++ c ++ py "-->") ++ w ++ x)
    by reflexivity.
  assert (Hf : Py.find (py "-->") t = Some (length (py "<!--" ++ c))).
  { unfold t. rewrite <- !app_assoc.
    rewrite (app_assoc (py "<!--") c).
    apply (@find_closer_first (py "<!--" ++ c) (w ++ x)).
    rewrite existsb_app. apply orb_false_iff.
    split; [reflexivity | exact Hc]. }
  assert (Hsk : skipn (length (py "<!--" ++ c) + length (py "-->")) t
                = w ++ x).
  { unfold t. rewrite <- (length_app (py "<!--" ++ c) (py "-->")).
    rewrite <- (app_assoc (py "<!--") c (py "-->")).
    rewrite skipn_app, Nat.sub_diag, skipn_all. reflexivity. }
  assert (Hh : skip_comment (py "<!--") (py "-->") t = (y, true)).
  { unfold skip_comment.
    assert (Hst : Py.startswith (py "<!--") t = true).
    { unfold t. rewrite <- !app_assoc. apply startswith_app. }
    rewrite Hst, Hf, Hsk.
    rewrite (@dropwhile_app_all Py.isspace w x Hw). reflexivity. }
  assert (Hlen : length y < length t).
  { pose proof (dropwhile_length Py.isspace x) as Hd. fold y in Hd.
    unfold t. rewrite !length_app. simpl length. lia. }
  unfold block_head. cbv zeta.
  rewrite (@lstrip_bom_space boms sp t Hb Hsp).
  2:{ rewrite Ht. reflexivity. }
  rewrite (@dropwhile_app_all Py.isspace sp t Hsp).
  assert (Hd : Py.dropwhile Py.isspace t = t).
  { rewrite Ht. reflexivity. }
  rewrite Hd. rewrite (skip_comments_S (length t) t). unfold skip_round.
  rewrite Hh.
  rewrite (@lstrip_bom_id x Hx). fold y.
  rewrite <- (@skip_after_html y (length t) Hlen).
  destruct (skip_comment (py "@*") (py "*@") y) as [y2 a2].
  reflexivity.
Qed.

(** X23. What lies from an [@] up to and including the next [@], and
    from a [/] up to and including the next [/], is deleted by
    [strip_razor_comments], whatever it holds. *)
Theorem strip_razor_comments_deletes_spans :
  forall (a m z : str),
    existsb (N.eqb (chr "@")) a = false ->
    existsb (N.eqb (chr "@")) m = false ->
    strip_razor_comments (a ++ chr "@" :: m ++ chr "@" :: z)
    = strip_razor_comments (a ++ z)
    /\ (existsb (N.eqb (chr "/")) a = false ->
        existsb (N.eqb (chr "/")) m = false ->
        strip_razor_comments (a ++ chr "/" :: m ++ chr "/" :: z)
        = strip_razor_comments (a ++ z)).
Proof.
  intros a m z Ha Hm. rewrite !strip_razor_comments_scan. split.
  - rewrite (@drop_spans_first_span (chr "@") a m z Ha Hm).
    rewrite (@drop_spans_prefix (chr "@") a z Ha). reflexivity.
  - intros Ha' Hm'.
    assert (Hp : existsb (N.eqb (chr "@")) (a ++ chr "/" :: m ++ [chr "/"])
                 = false).
    { rewrite existsb_app. apply orb_false_iff. split; [exact Ha|].
      cbn [existsb]. apply orb_false_iff. split; [reflexivity|].
      rewrite existsb_app. apply orb_false_iff.
      split; [exact Hm | reflexivity]. }
    replace (a ++ chr "/" :: m ++ chr "/" :: z)
      with ((a ++ chr "/" :: m ++ [chr "/"]) ++ z).
    2:{ rewrite <- app_assoc. cbn [app]. rewrite <- app_assoc. reflexivity. }
    rewrite (@drop_spans_prefix (chr "@") _ z Hp).
    rewrite (@drop_spans_prefix (chr "@") a z Ha).
    rewrite <- app_assoc. cbn [app]. rewrite <- app_assoc. cbn [app].
    rewrite (@drop_spans_first_span (chr "/") a m _ Ha' Hm').
    rewrite (@drop_spans_prefix (chr "/") a _ Ha'). reflexivity.
Qed.

Lemma strip_razor_comments_deletes_spans_witness :
  (existsb (N.eqb (chr "@")) (py "<p>") = false
   /\ existsb (N.eqb (chr "@")) (py "if (a) { ") = false)
  /\ strip_razor_comments
       (py "<p>" ++ chr "@" :: py "if (a) { " ++ chr "@" :: py "x }")
     = strip_razor_comments (py "<p>" ++ py "x }").
Proof.
  split; [split; reflexivity|].
  apply (@strip_razor_comments_deletes_spans (py "<p>") (py "if (a) { ")
                                             (py "x }"));
    reflexivity.
Defined.

(** X24. An HTML comment before a block that does not itself begin
    with a byte-order mark, with the whitespace around the comment,
    does not change the verdict of [ensure_starts_with_if_block]. *)
Theorem ensure_skips_leading_comment :
  forall (boms sp c w x lit : str),
    forallb (N.eqb BOM) boms = true -> all_space sp = true ->
    existsb (N.eqb 62%N) c = false -> all_space w = true ->
    Py.startswith [BOM] x = false ->
    ensure_starts_with_if_block
      (boms ++ sp ++ (py "<!--" ++ c ++ py "-->") ++ w ++ x) lit
    = ensure_starts_with_if_block x lit.
Proof.
  intros boms sp c w x lit Hb Hsp Hc Hw Hx.
  unfold ensure_starts_with_if_block. cbv zeta.
  rewrite (@block_head_after_comment boms sp c w x Hb Hsp Hc Hw Hx).
  reflexivity.
Qed.

Lemma ensure_skips_leading_comment_witness :
  (forallb (N.eqb BOM) [BOM] = true /\ all_space [LF] = true
   /\ existsb (N.eqb 62%N) (py " Student section ") = false
   /\ all_space [CR; LF] = true
   /\ Py.startswith [BOM] ex_balanced = false)
  /\ ensure_starts_with_if_block
       ([BOM] ++ [LF] ++ (py "<!--" ++ py " Student section " ++ py "-->")
        ++ [CR; LF] ++ ex_balanced) (py "@if (a)")
     = ensure_starts_with_if_block ex_balanced (py "@if (a)").
Proof.
  split; [repeat split; reflexivity|].
  apply (@ensure_skips_leading_comment [BOM] [LF] (py " Student section ")
           [CR; LF] ex_balanced (py "@if (a)"));
    reflexivity.
Defined.

(** A byte-order mark is skipped at the very start of a block only:
    after a comment it stays, and the start literal is not found. *)
Remark ensure_bom_after_comment :
  ensure_starts_with_if_block (BOM :: ex_balanced) (py "@if (a)") = Ok tt
  /\ ensure_starts_with_if_block
       (nl (py "<!-- c -->") (BOM :: ex_balanced)) (py "@if (a)")
     = Fail StartMismatch.
Proof. split; vm_compute; reflexivity. Qed.

(** ** What a match consumes *)

Lemma suffix_of_refl : forall s, suffix_of s s.
Proof.
  intros s. exists []. reflexivity.
Qed.

Lemma suffix_of_trans :
  forall a b c, suffix_of a b -> suffix_of b c -> suffix_of a c.
Proof.
  intros a b c [p Hp] [q Hq]. exists (q ++ p). subst.
  rewrite app_assoc. reflexivity.
Qed.

Lemma suffix_of_cons : forall (c : char) t, suffix_of t (c :: t).
Proof.
  intros c t. exists [c]. reflexivity.
Qed.

Lemma star_loop_sound :
  forall body : str -> Re.cont -> option str,
    (forall s k x, body s k = Some x ->
                   exists s', suffix_of s' s /\ k s' = Some x) ->
    forall g fuel s k x,
      Re.star_loop body g fuel s k = Some x ->
      exists s', suffix_of s' s /\ k s' = Some x.
Proof.
  intros body Hbody g fuel. induction fuel as [|f IH]; intros s k x H.
  - discriminate.
  - cbn [Re.star_loop] in H.
    assert (Hmore :
              forall r,
                body s (fun s' => if Nat.ltb (length s') (length s)
                                  then Re.star_loop body g f s' k else None)
                = Some r ->
                exists s', suffix_of s' s /\ k s' = Some r).
    { intros r Hr. apply Hbody in Hr. destruct Hr as (s1 & Hs1 & Hk).
      destruct (Nat.ltb (length s1) (length s)); [|discriminate].
      apply IH in Hk. destruct Hk as (s2 & Hs2 & Hk2).
      exists s2. split; [|exact Hk2].
      eapply suffix_of_trans; eassumption. }
    destruct g.
    + destruct (body s _) as [r|] eqn:E.
      * injection H as <-. apply Hmore. reflexivity.
      * exists s. split; [apply suffix_of_refl | exact H].
    + destruct (k s) as [r|] eqn:E.
      * injection H as <-. exists s. split; [apply suffix_of_refl | exact E].
      * apply Hmore. exact H.
Qed.

Lemma rmatch_sound :
  forall r s k x,
    Re.rmatch r s k = Some x ->
    exists s', suffix_of s' s /\ k s' = Some x.
Proof.
  induction r as [|p|a IHa b IHb|a IHa b IHb|g a IHa]; intros s k x H.
  - exists s. split; [apply suffix_of_refl | exact H].
  - cbn [Re.rmatch] in H. destruct s as [|c t]; [discriminate|].
    destruct (p c); [|discriminate].
    exists t. split; [apply suffix_of_cons | exact H].
  - cbn [Re.rmatch] in H. apply IHa in H. destruct H as (s1 & Hs1 & H).
    apply IHb in H. destruct H as (s2 & Hs2 & H).
    exists s2. split; [|exact H]. eapply suffix_of_trans; eassumption.
  - cbn [Re.rmatch] in H. destruct (Re.rmatch a s k) as [y|] eqn:E.
    + injection H as <-. apply IHa. exact E.
    + apply IHb. exact H.
  - cbn [Re.rmatch] in H.
    apply (@star_loop_sound (Re.rmatch a) IHa g _ s k x H).
Qed.

Lemma rmatch_cat_app :
  forall rs rs' s k,
    Re.rmatch (Re.cat (rs ++ rs')) s k
    = Re.rmatch (Re.cat rs) s (fun s' => Re.rmatch (Re.cat rs') s' k).
Proof.
  induction rs as [|r rs IH]; intros rs' s k.
  - reflexivity.
  - cbn [app]. rewrite !rmatch_cat_cons.
    apply rmatch_ext. intros y. apply IH.
Qed.

Lemma match_ends_with :
  forall rs (c : char) s x,
    Re.match_at (Re.cat (rs ++ [Re.Lit c])) s = Some x ->
    suffix_of (c :: x) s.
Proof.
  intros rs c s x H. unfold Re.match_at in H.
  rewrite rmatch_cat_app in H. apply rmatch_sound in H.
  destruct H as (s1 & Hs1 & H).
  rewrite rmatch_cat_cons in H. unfold Re.Lit in H. rewrite rmatch_Cls in H.
  destruct s1 as [|d t]; [discriminate|].
  destruct (N.eqb c d) eqn:E; [|discriminate].
  apply N.eqb_eq in E. subst d. cbn [Re.cat fold_right Re.rmatch] in H.
  injection H as <-. exact Hs1.
Qed.

Lemma suffix_of_existsb :
  forall (p : char -> bool) s' s,
    suffix_of s' s -> existsb p s = false -> existsb p s' = false.
Proof.
  intros p s' s [pre ->] H. rewrite existsb_app in H.
  apply orb_false_iff in H. exact (proj2 H).
Qed.

Lemma if_open_needs_brace :
  forall s, existsb (N.eqb LBRACE) s = false ->
            Re.search re_if_open s = None.
Proof.
  assert (Hm : forall s, existsb (N.eqb LBRACE) s = false ->
                         Re.match_len re_if_open s = None).
  { intros s Hs. unfold Re.match_len.
    destruct (Re.match_at re_if_open s) as [x|] eqn:E; [|reflexivity].
    exfalso.
    change re_if_open
      with (Re.cat ([Re.lits (py "@if"); Re.Star true Re.ws;
                     Re.Lit (chr "(");
                     Re.Star true (Re.Cls (fun c => negb (N.eqb c (chr ")"))));
                     Re.Lit (chr ")"); Re.Star true Re.ws]
                    ++ [Re.Lit LBRACE])) in E.
    apply match_ends_with in E.
    pose proof (@suffix_of_existsb (N.eqb LBRACE) _ _ E Hs) as Hx.
    cbn [existsb] in Hx. rewrite N.eqb_refl in Hx. discriminate. }
  intros s. unfold Re.search. generalize 0.
  induction s as [|c t IH]; intros i Hs.
  - cbn [Re.search_from]. rewrite (Hm [] Hs). reflexivity.
  - cbn [Re.search_from]. rewrite (Hm (c :: t) Hs).
    apply IH. cbn [existsb] in Hs. apply orb_false_iff in Hs.
    exact (proj2 Hs).
Qed.

(** ** The head of a block is an end of the block *)

Lemma dropwhile_suffix : forall p s, suffix_of (Py.dropwhile p s) s.
Proof.
  intros p s. destruct (@dropwhile_decomp p s) as (w & _ & Hs).
  exists w. exact Hs.
Qed.

Lemma skipn_suffix : forall n (s : str), suffix_of (skipn n s) s.
Proof.
  intros n s. exists (firstn n s). symmetry. apply firstn_skipn.
Qed.

Lemma skip_comment_suffix :
  forall opener closer t, suffix_of (fst (skip_comment opener closer t)) t.
Proof.
  intros opener closer t. unfold skip_comment.
  destruct (Py.startswith opener t); [|apply suffix_of_refl].
  destruct (Py.find closer t) as [e|]; [|apply suffix_of_refl].
  cbn [fst]. eapply suffix_of_trans; [apply dropwhile_suffix|].
  apply skipn_suffix.
Qed.

Lemma skip_round_suffix : forall t, suffix_of (fst (skip_round t)) t.
Proof.
  intros t. unfold skip_round.
  pose proof (skip_comment_suffix (py "<!--") (py "-->") t) as H1.
  destruct (skip_comment (py "<!--") (py "-->") t) as [t1 a1].
  pose proof (skip_comment_suffix (py "@*") (py "*@") t1) as H2.
  destruct (skip_comment (py "@*") (py "*@") t1) as [t2 a2].
  cbn [fst] in *. eapply suffix_of_trans; eassumption.
Qed.

Lemma skip_comments_suffix : forall n t, suffix_of (skip_comments n t) t.
Proof.
  induction n as [|n IH]; intros t.
  - apply suffix_of_refl.
  - rewrite skip_comments_S.
    pose proof (skip_round_suffix t) as H.
    destruct (skip_round t) as [t' adv]. cbn [fst] in H.
    destruct adv; [|exact H].
    eapply suffix_of_trans; [apply IH | exact H].
Qed.

Lemma block_head_suffix : forall block, suffix_of (block_head block) block.
Proof.
  intros block. unfold block_head. cbv zeta.
  eapply suffix_of_trans; [apply skip_comments_suffix|].
  eapply suffix_of_trans; [apply dropwhile_suffix|].
  apply dropwhile_suffix.
Qed.

(** ** Tokens of the lines of a text *)

Lemma count_join_lf :
  forall x ls, N.eqb LF x = false ->
               Py.count x (Py.join_lf ls) = line_count x ls.
Proof.
  intros x ls Hx. induction ls as [|l [|l2 t] IH].
  - reflexivity.
  - unfold line_count. simpl. lia.
  - change (Py.join_lf (l :: l2 :: t))
      with (l ++ LF :: Py.join_lf (l2 :: t)).
    rewrite count_app. cbn [Py.count]. rewrite Hx. rewrite IH.
    unfold line_count. cbn [fold_right]. lia.
Qed.

Lemma line_count_filter :
  forall x (f : str -> bool) ls,
    line_count x (filter f ls) <= line_count x ls.
Proof.
  intros x f ls. induction ls as [|l t IH].
  - simpl. lia.
  - unfold line_count in *. cbn [filter].
    destruct (f l); cbn [fold_right] in *; lia.
Qed.

Lemma line_count_splitlines :
  forall x s, line_count x (Py.splitlines s) <= Py.count x s.
Proof.
  intros x. apply (@str_ind2 (fun s => line_count x (Py.splitlines s)
                                       <= Py.count x s)).
  - simpl. lia.
  - intros c _. destruct (Py.is_linebreak c) eqn:Hc.
    + rewrite (@splitlines_cons_break c [] Hc).
      unfold line_count. cbn [fold_right Py.count]. lia.
    + rewrite (@splitlines_cons_plain c [] Hc).
      unfold line_count. cbn [Py.splitlines fold_right Py.count]. lia.
  - intros c d t Ht Hdt. destruct (Py.is_linebreak c) eqn:Hc.
    + rewrite (@splitlines_cons_break c (d :: t) Hc).
      unfold line_count in *.
      destruct (N.eqb c CR && N.eqb d LF)%bool;
        cbn [fold_right Py.count] in *; lia.
    + rewrite (@splitlines_cons_plain c (d :: t) Hc).
      unfold line_count in *.
      destruct (Py.splitlines (d :: t)) as [|l ls];
        cbn [fold_right Py.count] in *; lia.
Qed.

Lemma strip_razor_comments_count_le :
  forall x s, Py.count x (strip_razor_comments s) <= Py.count x s.
Proof.
  intros x s. rewrite strip_razor_comments_scan.
  eapply Nat.le_trans; apply drop_spans_count_le.
Qed.

Lemma code_count_le :
  forall x block, N.eqb LF x = false ->
    Py.count x (strip_razor_comments (code_text block)) <= Py.count x block.
Proof.
  intros x block Hx.
  eapply Nat.le_trans; [apply strip_razor_comments_count_le|].
  unfold code_text. rewrite (@count_join_lf x _ Hx).
  eapply Nat.le_trans; [apply line_count_filter|].
  apply line_count_splitlines.
Qed.

(** X25. [brace_balance] never reports more opening or closing tokens
    than the block holds. *)
Theorem brace_balance_counts_bounded :
  forall block ok o c,
    brace_balance block = (ok, o, c) ->
    o <= Py.count LBRACE block /\ c <= Py.count RBRACE block.
Proof.
  intros block ok o c H. rewrite brace_balance_code_text in H.
  injection H as _ <- <-. split; apply code_count_le; reflexivity.
Qed.

Lemma brace_balance_counts_bounded_witness :
  brace_balance ex_surplus = (false, 1, 3)
  /\ (1 <= Py.count LBRACE ex_surplus /\ 3 <= Py.count RBRACE ex_surplus).
Proof.
  split; [vm_compute; reflexivity|].
  apply (@brace_balance_counts_bounded ex_surplus false 1 3).
  vm_compute. reflexivity.
Defined.

(** X26. With the repair flag off, a block that passes the shape check
    and holds more opening than closing tokens is rejected with a brace
    mismatch that carries the two counts. *)
Theorem validate_no_flag_deficit_rejected :
  forall (block lit : str) (ok : bool) (o c : nat),
    ensure_starts_with_if_block block lit = Ok tt ->
    brace_balance block = (ok, o, c) ->
    c < o ->
    validate_and_maybe_fix false block lit = Fail (BraceMismatch o c).
Proof.
  intros block lit ok o c He Hb Hlt.
  exact (@validate_deficit_no_flag block lit ok o c He Hb Hlt).
Qed.

Lemma validate_no_flag_deficit_rejected_witness :
  (ensure_starts_with_if_block ex_underclosed (py "@if (a)") = Ok tt
   /\ brace_balance ex_underclosed = (false, 2, 0) /\ 0 < 2)
  /\ validate_and_maybe_fix false ex_underclosed (py "@if (a)")
     = Fail (BraceMismatch 2 0).
Proof.
  split; [repeat split; try (vm_compute; reflexivity); lia|].
  apply (@validate_no_flag_deficit_rejected ex_underclosed (py "@if (a)")
           false 2 0);
    [vm_compute; reflexivity | vm_compute; reflexivity | lia].
Defined.

(** X27. A block that holds no opening token is never accepted by
    [ensure_starts_with_if_block]: it fails with a start mismatch, or,
    when its head starts with the literal, with a missing opening
    token. *)
Theorem ensure_rejects_block_without_brace :
  forall (block lit : str),
    existsb (N.eqb LBRACE) block = false ->
    ensure_starts_with_if_block block lit
    = if Py.startswith lit (block_head block)
      then Fail MissingOpenBrace else Fail StartMismatch.
Proof.
  intros block lit H. unfold ensure_starts_with_if_block. cbv zeta.
  destruct (Py.startswith lit (block_head block)); cbn [negb];
    [|reflexivity].
  rewrite if_open_needs_brace; [reflexivity|].
  exact (@suffix_of_existsb (N.eqb LBRACE) _ _ (block_head_suffix block) H).
Qed.

Lemma ensure_rejects_block_without_brace_witness :
  existsb (N.eqb LBRACE) (py "@if (a) <p>x</p>") = false
  /\ ensure_starts_with_if_block (py "@if (a) <p>x</p>") (py "@if (a)")
     = (if Py.startswith (py "@if (a)") (block_head (py "@if (a) <p>x</p>"))
        then Fail MissingOpenBrace else Fail StartMismatch).
Proof.
  split; [reflexivity|].
  apply (@ensure_rejects_block_without_brace (py "@if (a) <p>x</p>")
                                             (py "@if (a)")).
  reflexivity.
Defined.

(** * The whitespace-insensitive search *)

(** ** Unfolding a star; what a match is made of *)

Lemma rmatch_star_unfold :
  forall (a : Re.regex) (s : str) (k : Re.cont),
    Re.rmatch (Re.Star true a) s k
    = match Re.rmatch a s
              (fun s' => if Nat.ltb (length s') (length s)
                         then Re.rmatch (Re.Star true a) s' k else None) with
      | Some r => Some r
      | None => k s
      end.
Proof.
  intros a s k. cbn [Re.rmatch Re.star_loop].
  assert (E : Re.rmatch a s
                (fun s' => if Nat.ltb (length s') (length s)
                           then Re.star_loop (Re.rmatch a) true (length s) s' k
                           else None)
              = Re.rmatch a s
                  (fun s' => if Nat.ltb (length s') (length s)
                             then Re.star_loop (Re.rmatch a) true
                                               (S (length s')) s' k
                             else None)).
  { apply rmatch_ext. intros x.
    destruct (Nat.ltb (length x) (length s)) eqn:Hlt; [|reflexivity].
    apply Nat.ltb_lt in Hlt. apply star_loop_fuel; lia. }
  rewrite E. reflexivity.
Qed.

Lemma greedy_cls_inv :
  forall p k s y,
    greedy_cls p k s = Some y ->
    exists run s', s = run ++ s' /\ forallb p run = true /\ k s' = Some y.
Proof.
  intros p k s. induction s as [|c t IH]; intros y H.
  - exists [], []. auto.
  - cbn [greedy_cls] in H. destruct (p c) eqn:Hc.
    + destruct (greedy_cls p k t) as [r|] eqn:E.
      * injection H as <-. destruct (IH r eq_refl) as (run & s' & -> & Hr & Hk).
        exists (c :: run), s'. repeat split; [|exact Hk].
        cbn [forallb]. rewrite Hc. exact Hr.
      * exists [], (c :: t). auto.
    + exists [], (c :: t). auto.
Qed.

Lemma greedy_cls_total :
  forall p k s y, k s = Some y -> exists r, greedy_cls p k s = Some r.
Proof.
  intros p k s y H. destruct s as [|c t]; cbn [greedy_cls].
  - eauto.
  - destruct (p c); [|eauto].
    destruct (greedy_cls p k t); eauto.
Qed.

Lemma greedy_cls_run_some :
  forall p k run s y,
    forallb p run = true -> k s = Some y ->
    exists r, greedy_cls p k (run ++ s) = Some r.
Proof.
  intros p k run s y Hr Hk.
  destruct (@greedy_cls_total p k s y Hk) as (r & E).
  exists r. apply greedy_cls_run_ok; assumption.
Qed.

Lemma rmatch_plus_ws_inv :
  forall s k y,
    Re.rmatch (Re.Plus Re.ws) s k = Some y ->
    exists w s', w <> [] /\ all_space w = true /\ s = w ++ s'
                 /\ k s' = Some y.
Proof.
  intros s k y H. unfold Re.ws in H. rewrite rmatch_plus_cls in H.
  destruct s as [|c t]; [discriminate|].
  destruct (Py.isspace c) eqn:Hc; [|discriminate].
  apply greedy_cls_inv in H. destruct H as (run & s' & -> & Hr & Hk).
  exists (c :: run), s'. repeat split; [discriminate | | exact Hk].
  unfold all_space. cbn [forallb]. rewrite Hc. exact Hr.
Qed.

Lemma rmatch_plus_ws_some :
  forall w s k y,
    w <> [] -> all_space w = true -> k s = Some y ->
    exists r, Re.rmatch (Re.Plus Re.ws) (w ++ s) k = Some r.
Proof.
  intros [|c w] s k y Hn Hw Hk; [congruence|].
  unfold all_space in Hw. cbn [forallb] in Hw.
  apply andb_true_iff in Hw as [Hc Hw].
  unfold Re.ws. rewrite rmatch_plus_cls. cbn [app]. rewrite Hc.
  apply (@greedy_cls_run_some Py.isspace k w s y Hw Hk).
Qed.

Lemma rmatch_lit_inv :
  forall (c : char) r s k y,
    Re.rmatch (Re.Seq (Re.Lit c) r) s k = Some y ->
    exists s', s = c :: s' /\ Re.rmatch r s' k = Some y.
Proof.
  intros c r s k y H. rewrite rmatch_Seq in H. unfold Re.Lit in H.
  rewrite rmatch_Cls in H. destruct s as [|d t]; [discriminate|].
  destruct (N.eqb c d) eqn:E; [|discriminate].
  apply N.eqb_eq in E. subst d. exists t. auto.
Qed.

Lemma rmatch_lit_ok :
  forall (c : char) r s k,
    Re.rmatch (Re.Seq (Re.Lit c) r) (c :: s) k = Re.rmatch r s k.
Proof.
  intros c r s k. rewrite rmatch_Seq. unfold Re.Lit.
  rewrite rmatch_Cls. rewrite N.eqb_refl. reflexivity.
Qed.

(** ** Induction on a text by its whitespace runs *)

Lemma starts_plain_dropwhile :
  forall s, starts_plain (Py.dropwhile Py.isspace s) = true.
Proof.
  intros s. destruct (Py.dropwhile Py.isspace s) as [|c t] eqn:E.
  - reflexivity.
  - cbn [starts_plain]. rewrite (@dropwhile_head Py.isspace s c t E).
    reflexivity.
Qed.

Lemma run_ind :
  forall P : str -> Prop,
    P [] ->
    (forall c s, Py.isspace c = false -> P s -> P (c :: s)) ->
    (forall w s, w <> [] -> all_space w = true -> starts_plain s = true ->
                 P s -> P (w ++ s)) ->
    forall s, P s.
Proof.
  intros P Hnil Hchar Hrun.
  assert (H : forall n s, length s <= n -> P s).
  { induction n as [|n IH]; intros s Hs.
    - destruct s; [exact Hnil | simpl in Hs; lia].
    - destruct s as [|c t]; [exact Hnil|].
      destruct (Py.isspace c) eqn:Hc.
      + destruct (@dropwhile_decomp Py.isspace t) as (w & Hw & Ht).
        pose proof (dropwhile_length Py.isspace t) as Hl.
        assert (E : c :: t = (c :: w) ++ Py.dropwhile Py.isspace t).
        { cbn [app]. rewrite <- Ht. reflexivity. }
        rewrite E. apply Hrun.
        * discriminate.
        * unfold all_space. cbn [forallb]. rewrite Hc. exact Hw.
        * apply starts_plain_dropwhile.
        * apply IH. simpl in Hs. lia.
      + apply Hchar; [exact Hc|]. apply IH. simpl in Hs. lia. }
  intros s. apply (H (length s)). lia.
Qed.

(** ** The pattern of a snippet *)

Lemma ws_pattern_plain :
  forall (c : char) s, Py.isspace c = false ->
    ws_pattern false (c :: s) = Re.Seq (Re.Lit c) (ws_pattern false s).
Proof.
  intros c s H. cbn [ws_pattern]. rewrite H. reflexivity.
Qed.

Lemma ws_pattern_in_run :
  forall w s, all_space w = true -> starts_plain s = true ->
    ws_pattern true (w ++ s) = ws_pattern false s.
Proof.
  induction w as [|c w IH]; intros s Hw Hs.
  - cbn [app]. destruct s as [|d t]; [reflexivity|].
    cbn [starts_plain] in Hs. apply negb_true_iff in Hs.
    cbn [ws_pattern]. rewrite Hs. reflexivity.
  - unfold all_space in Hw. cbn [forallb] in Hw.
    apply andb_true_iff in Hw as [Hc Hw].
    cbn [app ws_pattern]. rewrite Hc. apply IH; assumption.
Qed.

Lemma ws_pattern_run :
  forall w s, w <> [] -> all_space w = true -> starts_plain s = true ->
    ws_pattern false (w ++ s)
    = Re.Seq (Re.Plus Re.ws) (ws_pattern false s).
Proof.
  intros [|c w] s Hn Hw Hs; [congruence|].
  unfold all_space in Hw. cbn [forallb] in Hw.
  apply andb_true_iff in Hw as [Hc Hw].
  cbn [app ws_pattern]. rewrite Hc.
  rewrite (@ws_pattern_in_run w s Hw Hs). reflexivity.
Qed.

(** ** The rewriting of escaped whitespace *)

Lemma strip_pairs_star :
  forall n x, length x <= n ->
    Re.rmatch (Re.Star true (Re.Seq (Re.Lit BSL) Re.ws)) x Some
    = Some (strip_pairs x).
Proof.
  induction n as [|n IH]; intros x Hx.
  - destruct x; [|simpl in Hx; lia].
    rewrite rmatch_star_unfold. reflexivity.
  - rewrite rmatch_star_unfold. rewrite rmatch_Seq.
    unfold Re.Lit at 1. rewrite rmatch_Cls.
    destruct x as [|a t]; [reflexivity|].
    cbn [strip_pairs]. rewrite (N.eqb_sym BSL a).
    destruct (N.eqb a BSL); [|reflexivity].
    unfold Re.ws at 1. rewrite rmatch_Cls.
    destruct t as [|b t']; [reflexivity|].
    destruct (Py.isspace b); [|reflexivity].
    assert (Hl : Nat.ltb (length t') (length (a :: b :: t')) = true).
    { apply Nat.ltb_lt. simpl. lia. }
    rewrite Hl. rewrite IH; [reflexivity|]. simpl in Hx. lia.
Qed.

Lemma match_at_bs_ws :
  forall x, Re.match_at re_bs_ws x
            = match x with
              | a :: b :: t =>
                  if (N.eqb a BSL && Py.isspace b)%bool
                  then Some (strip_pairs t) else None
              | _ => None
              end.
Proof.
  intros x. unfold Re.match_at, re_bs_ws, Re.Plus.
  rewrite rmatch_Seq. rewrite rmatch_Seq.
  unfold Re.Lit at 1. rewrite rmatch_Cls.
  destruct x as [|a t]; [reflexivity|].
  rewrite (N.eqb_sym BSL a). destruct (N.eqb a BSL).
  - unfold Re.ws at 1. rewrite rmatch_Cls.
    destruct t as [|b t']; [reflexivity|].
    cbn [andb]. destruct (Py.isspace b); [|reflexivity].
    apply (@strip_pairs_star (length t') t'). lia.
  - destruct t; reflexivity.
Qed.

Lemma sub_go_skip :
  forall r repl (pre s : str),
    Re.sub_go r repl (length pre) (pre ++ s) = Re.sub_go r repl 0 s.
Proof.
  intros r repl pre s. induction pre as [|c pre IH].
  - reflexivity.
  - cbn [length app Re.sub_go]. exact IH.
Qed.

Lemma sub_go_none :
  forall r repl (c : char) t,
    Re.match_at r (c :: t) = None ->
    Re.sub_go r repl 0 (c :: t) = c :: Re.sub_go r repl 0 t.
Proof.
  intros r repl c t H. cbn [Re.sub_go]. unfold Re.match_len.
  rewrite H. reflexivity.
Qed.

Lemma sub_go_hit :
  forall r repl (m s : str),
    m <> [] -> Re.match_at r (m ++ s) = Some s ->
    Re.sub_go r repl 0 (m ++ s) = repl ++ Re.sub_go r repl 0 s.
Proof.
  intros r repl [|c m] s Hn H; [congruence|].
  cbn [app] in *. cbn [Re.sub_go]. unfold Re.match_len. rewrite H.
  cbn [option_map].
  replace (length (c :: m ++ s) - length s) with (S (length m))
    by (cbn [length]; rewrite length_app; lia).
  rewrite sub_go_skip. reflexivity.
Qed.

Lemma escape_app :
  forall a b, Re.escape (a ++ b) = Re.escape a ++ Re.escape b.
Proof.
  induction a as [|c a IH]; intros b; [reflexivity|].
  cbn [app Re.escape]. destruct (Re.is_special c); rewrite IH; reflexivity.
Qed.

Lemma special_not_backslash :
  forall c, Re.is_special c = false -> N.eqb c BSL = false.
Proof.
  intros c H. destruct (N.eqb c BSL) eqn:E; [|reflexivity].
  apply N.eqb_eq in E. subst c. discriminate.
Qed.

Lemma strip_pairs_plain :
  forall s, starts_plain s = true ->
            strip_pairs (Re.escape s) = Re.escape s.
Proof.
  intros [|d t] Hs; [reflexivity|].
  cbn [starts_plain] in Hs. apply negb_true_iff in Hs.
  cbn [Re.escape]. destruct (Re.is_special d) eqn:Hd.
  - cbn [strip_pairs]. rewrite N.eqb_refl. rewrite Hs. reflexivity.
  - cbn [strip_pairs]. rewrite (special_not_backslash d Hd). reflexivity.
Qed.

Lemma strip_pairs_run :
  forall w s, all_space w = true -> ascii_ws_only w = true ->
    starts_plain s = true ->
    strip_pairs (Re.escape (w ++ s)) = Re.escape s.
Proof.
  induction w as [|c w IH]; intros s Hw Ha Hs.
  - apply strip_pairs_plain. exact Hs.
  - unfold all_space in Hw. cbn [forallb] in Hw.
    apply andb_true_iff in Hw as [Hc Hw].
    unfold ascii_ws_only in Ha. cbn [forallb] in Ha.
    apply andb_true_iff in Ha as [Hsp Ha]. rewrite Hc in Hsp.
    cbn [implb] in Hsp.
    cbn [app Re.escape]. rewrite Hsp. cbn [strip_pairs].
    rewrite N.eqb_refl. rewrite Hc. apply IH; assumption.
Qed.

Lemma escape_head_not_space :
  forall t, ascii_ws_only t = true ->
    match Re.escape t with
    | b :: _ => Py.isspace b = false
    | [] => True
    end.
Proof.
  intros [|d t] Ha; [exact I|].
  unfold ascii_ws_only in Ha. cbn [forallb] in Ha.
  apply andb_true_iff in Ha as [Hd _].
  cbn [Re.escape]. destruct (Re.is_special d) eqn:E.
  - reflexivity.
  - destruct (Py.isspace d); [discriminate | reflexivity].
Qed.

Lemma sub_escape_plain :
  forall (c : char) t,
    Py.isspace c = false -> ascii_ws_only t = true ->
    Re.sub_go re_bs_ws (py "\s+") 0 (Re.escape (c :: t))
    = (if Re.is_special c then [BSL; c] else [c])
      ++ Re.sub_go re_bs_ws (py "\s+") 0 (Re.escape t).
Proof.
  intros c t Hc Ha. cbn [Re.escape].
  pose proof (escape_head_not_space t Ha) as Hh.
  assert (Hhalf : Re.match_at re_bs_ws (c :: Re.escape t) = None).
  { rewrite match_at_bs_ws. destruct (Re.escape t) as [|b t']; [reflexivity|].
    rewrite Hh. rewrite andb_false_r. reflexivity. }
  destruct (Re.is_special c) eqn:Hs.
  - rewrite sub_go_none.
    + rewrite (@sub_go_none re_bs_ws (py "\s+") c (Re.escape t) Hhalf).
      reflexivity.
    + rewrite match_at_bs_ws. rewrite Hc. rewrite andb_false_r. reflexivity.
  - rewrite (@sub_go_none re_bs_ws (py "\s+") c (Re.escape t) Hhalf).
    reflexivity.
Qed.

Lemma escape_run_nonempty :
  forall w, w <> [] -> Re.escape w <> [].
Proof.
  intros [|c w] H; [congruence|]. cbn [Re.escape].
  destruct (Re.is_special c); discriminate.
Qed.

Lemma sub_escape_run :
  forall w s, w <> [] -> all_space w = true -> ascii_ws_only w = true ->
    starts_plain s = true ->
    Re.sub_go re_bs_ws (py "\s+") 0 (Re.escape (w ++ s))
    = py "\s+" ++ Re.sub_go re_bs_ws (py "\s+") 0 (Re.escape s).
Proof.
  intros w s Hn Hw Ha Hs. rewrite escape_app.
  apply sub_go_hit; [apply escape_run_nonempty; exact Hn|].
  rewrite <- escape_app. rewrite match_at_bs_ws.
  destruct w as [|c w]; [congruence|].
  unfold all_space in Hw. cbn [forallb] in Hw.
  apply andb_true_iff in Hw as [Hc Hw].
  unfold ascii_ws_only in Ha. cbn [forallb] in Ha.
  apply andb_true_iff in Ha as [Hsp Ha]. rewrite Hc in Hsp.
  cbn [implb] in Hsp.
  cbn [app Re.escape]. rewrite Hsp. rewrite N.eqb_refl, Hc. cbn [andb].
  rewrite (@strip_pairs_run w s Hw Ha Hs). reflexivity.
Qed.

Lemma ascii_ws_only_app :
  forall a b, ascii_ws_only (a ++ b) = true ->
              ascii_ws_only a = true /\ ascii_ws_only b = true.
Proof.
  intros a b H. unfold ascii_ws_only in *. rewrite forallb_app in H.
  apply andb_true_iff in H. exact H.
Qed.

Lemma ascii_ws_only_cons :
  forall (c : char) t, ascii_ws_only (c :: t) = true ->
                       ascii_ws_only t = true.
Proof.
  intros c t H. unfold ascii_ws_only in *. cbn [forallb] in H.
  apply andb_true_iff in H. exact (proj2 H).
Qed.

Lemma sub_escape_head :
  forall s, ascii_ws_only s = true ->
    Py.startswith (py "+")
      (Re.sub_go re_bs_ws (py "\s+") 0 (Re.escape s)) = false.
Proof.
  intros s. revert s.
  apply (@run_ind (fun s => ascii_ws_only s = true ->
                    Py.startswith (py "+")
                      (Re.sub_go re_bs_ws (py "\s+") 0 (Re.escape s))
                    = false)).
  - intros _. reflexivity.
  - intros c s Hc _ Ha.
    rewrite (@sub_escape_plain c s Hc (@ascii_ws_only_cons c s Ha)).
    destruct (Re.is_special c) eqn:Hs; [reflexivity|].
    cbn [app]. change (py "+") with [43%N]. cbn [Py.startswith].
    destruct (N.eqb 43 c) eqn:E; [|reflexivity].
    apply N.eqb_eq in E. subst c. discriminate.
  - intros w s Hn Hw Hs _ Ha.
    destruct (@ascii_ws_only_app w s Ha) as [Ha1 _].
    rewrite (@sub_escape_run w s Hn Hw Ha1 Hs). reflexivity.
Qed.

Lemma compile_atom :
  forall (c : char) X,
    N.eqb c BSL = false -> Py.startswith (py "+") X = false ->
    compile (c :: X) = Re.Seq (Re.Lit c) (compile X).
Proof.
  intros c X Hc HX. cbn [compile]. rewrite Hc.
  destruct X as [|e X']; [reflexivity|].
  change (py "+") with [43%N] in HX. cbn [Py.startswith] in HX.
  rewrite andb_true_r in HX. rewrite (N.eqb_sym e (chr "+")).
  change (chr "+") with 43%N. rewrite HX. reflexivity.
Qed.

Lemma compile_escaped :
  forall (c : char) X,
    Re.is_special c = true -> Py.startswith (py "+") X = false ->
    compile (BSL :: c :: X) = Re.Seq (Re.Lit c) (compile X).
Proof.
  intros c X Hc HX. cbn [compile]. rewrite N.eqb_refl.
  assert (Hs : N.eqb c (chr "s") = false).
  { destruct (N.eqb c (chr "s")) eqn:E; [|reflexivity].
    apply N.eqb_eq in E. subst c. discriminate. }
  rewrite Hs. cbv zeta.
  destruct X as [|e X']; [reflexivity|].
  change (py "+") with [43%N] in HX. cbn [Py.startswith] in HX.
  rewrite andb_true_r in HX. rewrite (N.eqb_sym e (chr "+")).
  change (chr "+") with 43%N. rewrite HX. reflexivity.
Qed.

Lemma compile_ws_run :
  forall X, compile (py "\s+" ++ X) = Re.Seq (Re.Plus Re.ws) (compile X).
Proof.
  intros X. reflexivity.
Qed.

Lemma compile_snippet :
  forall s, ascii_ws_only s = true ->
    compile (Re.sub re_bs_ws (py "\s+") (Re.escape s)) = ws_pattern false s.
Proof.
  unfold Re.sub.
  apply (@run_ind (fun s => ascii_ws_only s = true ->
                    compile (Re.sub_go re_bs_ws (py "\s+") 0 (Re.escape s))
                    = ws_pattern false s)).
  - intros _. reflexivity.
  - intros c s Hc IH Ha.
    pose proof (@ascii_ws_only_cons c s Ha) as Ha'.
    rewrite (@sub_escape_plain c s Hc Ha').
    rewrite (@ws_pattern_plain c s Hc). rewrite <- (IH Ha').
    destruct (Re.is_special c) eqn:Hs.
    + apply compile_escaped; [exact Hs | apply sub_escape_head; exact Ha'].
    + apply compile_atom;
        [apply special_not_backslash; exact Hs
        | apply sub_escape_head; exact Ha'].
  - intros w s Hn Hw Hs IH Ha.
    destruct (@ascii_ws_only_app w s Ha) as [Ha1 Ha2].
    rewrite (@sub_escape_run w s Hn Hw Ha1 Hs).
    rewrite compile_ws_run. rewrite (IH Ha2).
    rewrite (@ws_pattern_run w s Hn Hw Hs). reflexivity.
Qed.

(** ** What the pattern of a snippet matches *)

Lemma ws_pattern_sound :
  forall s x k y,
    Re.rmatch (ws_pattern false s) x k = Some y ->
    exists text x', x = text ++ x' /\ ws_variant s text /\ k x' = Some y.
Proof.
  intros s. revert s.
  apply (@run_ind (fun s => forall x k y,
                    Re.rmatch (ws_pattern false s) x k = Some y ->
                    exists text x', x = text ++ x' /\ ws_variant s text
                                    /\ k x' = Some y)).
  - intros x k y H. exists [], x. repeat split; [constructor | exact H].
  - intros c s Hc IH x k y H. rewrite (@ws_pattern_plain c s Hc) in H.
    apply rmatch_lit_inv in H. destruct H as (x1 & -> & H).
    destruct (IH _ _ _ H) as (text & x' & -> & Hv & Hk).
    exists (c :: text), x'. repeat split; [|exact Hk].
    apply wv_char; assumption.
  - intros w s Hn Hw Hs IH x k y H.
    rewrite (@ws_pattern_run w s Hn Hw Hs) in H. rewrite rmatch_Seq in H.
    apply rmatch_plus_ws_inv in H.
    destruct H as (w' & x1 & Hn' & Hw' & -> & H).
    destruct (IH _ _ _ H) as (text & x' & -> & Hv & Hk).
    exists (w' ++ text), x'. repeat split; [|  | exact Hk].
    + rewrite app_assoc. reflexivity.
    + apply wv_run; assumption.
Qed.

Lemma ws_pattern_complete :
  forall s text, ws_variant s text ->
  forall rest k y, k rest = Some y ->
    exists r, Re.rmatch (ws_pattern false s) (text ++ rest) k = Some r.
Proof.
  induction 1 as [|c s t Hc Hv IH|w w' s t Hn Hn' Hw Hw' Hs Hv IH];
    intros rest k y Hk.
  - exists y. exact Hk.
  - rewrite (@ws_pattern_plain c s Hc). cbn [app]. rewrite rmatch_lit_ok.
    apply (IH rest k y Hk).
  - rewrite (@ws_pattern_run w s Hn Hw Hs). rewrite rmatch_Seq.
    rewrite <- app_assoc.
    destruct (IH rest k y Hk) as (r & Hr).
    apply (@rmatch_plus_ws_some w' (t ++ rest) _ r Hn' Hw' Hr).
Qed.

Lemma ws_pattern_crlf :
  forall s b, ws_pattern b (Py.replace_crlf s) = ws_pattern b s.
Proof.
  apply (@str_ind2 (fun s => forall b,
                      ws_pattern b (Py.replace_crlf s) = ws_pattern b s)).
  - reflexivity.
  - reflexivity.
  - intros c d t Ht Hdt b.
    change (Py.replace_crlf (c :: d :: t))
      with (if (N.eqb c CR && N.eqb d LF)%bool
            then LF :: Py.replace_crlf t
            else c :: Py.replace_crlf (d :: t)).
    destruct (N.eqb c CR && N.eqb d LF)%bool eqn:E.
    + apply andb_true_iff in E as [Ec Ed].
      apply N.eqb_eq in Ec. apply N.eqb_eq in Ed. subst c d.
      cbn [ws_pattern]. change (Py.isspace LF) with true.
      change (Py.isspace CR) with true. cbv iota.
      rewrite (Ht true). destruct b; reflexivity.
    + cbn [ws_pattern]. rewrite !Hdt. reflexivity.
Qed.

Lemma ascii_ws_only_crlf :
  forall s, ascii_ws_only s = true ->
            ascii_ws_only (Py.replace_crlf s) = true.
Proof.
  apply (@str_ind2 (fun s => ascii_ws_only s = true ->
                             ascii_ws_only (Py.replace_crlf s) = true)).
  - intros _. reflexivity.
  - intros c _ H. exact H.
  - intros c d t Ht Hdt H.
    change (Py.replace_crlf (c :: d :: t))
      with (if (N.eqb c CR && N.eqb d LF)%bool
            then LF :: Py.replace_crlf t
            else c :: Py.replace_crlf (d :: t)).
    unfold ascii_ws_only in *. cbn [forallb] in H.
    apply andb_true_iff in H as [Hc H].
    pose proof H as H'. apply andb_true_iff in H' as [Hd H'].
    destruct (N.eqb c CR && N.eqb d LF)%bool.
    + cbn [forallb]. rewrite (Ht H'). reflexivity.
    + cbn [forallb]. rewrite Hc. apply Hdt. cbn [forallb]. exact H.
Qed.

Lemma snippet_pattern :
  forall snippet, ascii_ws_only snippet = true ->
    compile (Re.sub re_bs_ws (py "\s+")
               (Re.escape (Py.replace_crlf snippet)))
    = ws_pattern false snippet.
Proof.
  intros snippet H.
  rewrite (@compile_snippet (Py.replace_crlf snippet)
             (@ascii_ws_only_crlf snippet H)).
  apply ws_pattern_crlf.
Qed.

Lemma search_from_none :
  forall r s i, Re.search_from r i s = None ->
                forall j, Re.match_len r (skipn j s) = None.
Proof.
  intros r s. induction s as [|c t IH]; intros i H j;
    cbn [Re.search_from] in H.
  - destruct (Re.match_len r []) eqn:E; [discriminate|].
    destruct j; exact E.
  - destruct (Re.match_len r (c :: t)) eqn:E; [discriminate|].
    destruct j as [|j]; [exact E|]. cbn [skipn]. apply (IH (S i) H).
Qed.

Lemma find_ws_insensitive_ordered :
  forall hay snippet start a b,
    find_ws_insensitive hay snippet start = Some (a, b) ->
    start <= a /\ a <= b.
Proof.
  intros hay snippet start a b H. unfold find_ws_insensitive in H.
  cbv zeta in H.
  match type of H with
  | context [Re.search ?p ?x] =>
      destruct (Re.search p x) as [[ms me]|] eqn:E; [|discriminate]
  end.
  injection H as <- <-. unfold Re.search in E.
  apply search_from_bounds in E. lia.
Qed.

Lemma find_ws_insensitive_none :
  forall hay snippet start,
    existsb (N.eqb CR) hay = false ->
    find_ws_insensitive hay snippet start = None ->
    forall j, start <= j ->
      Re.match_len (compile (Re.sub re_bs_ws (py "\s+")
                               (Re.escape (Py.replace_crlf snippet))))
                   (skipn j hay) = None.
Proof.
  intros hay snippet start Hcr H j Hj. unfold find_ws_insensitive in H.
  cbv zeta in H. rewrite (replace_crlf_no_cr _ Hcr) in H.
  match type of H with
  | context [Re.search ?p ?x] =>
      destruct (Re.search p x) as [[ms me]|] eqn:E; [discriminate|]
  end.
  unfold Re.search in E.
  pose proof (@search_from_none _ _ _ E (j - start)) as Hn.
  rewrite skipn_skipn in Hn.
  replace (j - start + start) with j in Hn by lia. exact Hn.
Qed.

Lemma match_len_variant :
  forall snippet x n,
    Re.match_len (ws_pattern false snippet) x = Some n ->
    ws_variant snippet (firstn n x).
Proof.
  intros snippet x n H. unfold Re.match_len, Re.match_at in H.
  destruct (Re.rmatch (ws_pattern false snippet) x Some) as [y|] eqn:E;
    [|discriminate].
  cbn [option_map] in H. injection H as <-.
  apply ws_pattern_sound in E. destruct E as (text & x' & -> & Hv & Hk).
  injection Hk as <-. rewrite length_app.
  replace (length text + length x' - length x') with (length text) by lia.
  rewrite firstn_app, Nat.sub_diag, firstn_all. cbn [firstn].
  rewrite app_nil_r. exact Hv.
Qed.

Lemma variant_matches :
  forall snippet text rest,
    ws_variant snippet text ->
    Re.match_len (ws_pattern false snippet) (text ++ rest) <> None.
Proof.
  intros snippet text rest Hv Hnone. unfold Re.match_len, Re.match_at in Hnone.
  destruct (@ws_pattern_complete snippet text Hv rest Some rest eq_refl)
    as (r & Hr).
  match type of Hnone with
  | context [Re.rmatch ?p ?x ?k] =>
      assert (E : Re.rmatch p x k = Some r) by exact Hr;
      rewrite E in Hnone
  end.
  discriminate.
Qed.

(** * The blocks the extractors cut *)

(** ** The text [read] returns *)

Lemma read_text_no_cr :
  forall decoded, existsb (N.eqb CR) (read_text decoded) = false.
Proof.
  unfold read_text.
  apply (@str_ind2 (fun s => existsb (N.eqb CR) (universal_newlines s)
                             = false)).
  - reflexivity.
  - intros c _. cbn [universal_newlines].
    destruct (N.eqb c CR) eqn:E; [reflexivity|].
    cbn [existsb]. rewrite (N.eqb_sym CR c), E. reflexivity.
  - intros c d t Ht Hdt.
    change (universal_newlines (c :: d :: t))
      with (if N.eqb c CR
            then LF :: (if N.eqb d LF then universal_newlines t
                        else universal_newlines (d :: t))
            else c :: universal_newlines (d :: t)).
    destruct (N.eqb c CR) eqn:E.
    + cbn [existsb]. change (N.eqb CR LF) with false. cbn [orb].
      destruct (N.eqb d LF); assumption.
    + cbn [existsb]. rewrite (N.eqb_sym CR c), E. exact Hdt.
Qed.

(** ** The text at a start anchor *)

Lemma rmatch_cat_lits_inv :
  forall p rs s k y,
    Re.rmatch (Re.cat (map Re.Lit p ++ rs)) s k = Some y ->
    exists s', s = p ++ s' /\ Re.rmatch (Re.cat rs) s' k = Some y.
Proof.
  induction p as [|c p IH]; intros rs s k y H.
  - exists s. auto.
  - change (Re.cat (map Re.Lit (c :: p) ++ rs))
      with (Re.Seq (Re.Lit c) (Re.cat (map Re.Lit p ++ rs))) in H.
    apply rmatch_lit_inv in H. destruct H as (s1 & -> & H).
    destruct (IH _ _ _ _ H) as (s' & -> & H'). exists s'. auto.
Qed.

Lemma anchor_regex_inv :
  forall k M y,
    Re.match_at (anchor_regex k) M = Some y ->
    exists w1 w2,
      w1 <> [] /\ w2 <> [] /\ all_space w1 = true /\ all_space w2 = true
      /\ M = py "@if" ++ w1 ++ guard_cond k ++ w2 ++ LBRACE :: y.
Proof.
  intros k M y H. unfold Re.match_at, anchor_regex in H.
  apply rmatch_cat_lits_inv in H. destruct H as (s1 & -> & H).
  rewrite rmatch_cat_cons in H. apply rmatch_plus_ws_inv in H.
  destruct H as (w1 & s2 & Hn1 & Hw1 & -> & H).
  apply rmatch_cat_lits_inv in H. destruct H as (s3 & -> & H).
  rewrite rmatch_cat_cons in H. apply rmatch_plus_ws_inv in H.
  destruct H as (w2 & s4 & Hn2 & Hw2 & -> & H).
  change (Re.cat [Re.Lit LBRACE]) with (Re.Seq (Re.Lit LBRACE) Re.Eps) in H.
  apply rmatch_lit_inv in H. destruct H as (s5 & -> & H).
  cbn [Re.rmatch] in H. injection H as <-.
  exists w1, w2. repeat split; assumption.
Qed.

Lemma start_literal_guard :
  forall k, start_literal k = py "@if (" ++ guard_test k ++ py ")"
            /\ guard_cond k = 40%N :: guard_test k ++ py ")"
            /\ existsb (N.eqb (chr ")")) (guard_test k) = false
            /\ existsb (N.eqb LBRACE) (start_literal k) = false.
Proof.
  intros k. destruct k; repeat split; reflexivity.
Qed.

Lemma find_start_anchor :
  forall k monolith s,
    existsb (N.eqb CR) monolith = false ->
    find_start k monolith = Some s ->
    exists w1 w2 rest,
      w1 <> [] /\ w2 <> [] /\ all_space w1 = true /\ all_space w2 = true
      /\ skipn s monolith
         = py "@if" ++ w1 ++ guard_cond k ++ w2 ++ LBRACE :: rest.
Proof.
  intros k monolith s Hcr H. rewrite find_start_primary in H.
  destruct (find_ws_insensitive monolith (anchor_primary k) 0)
    as [[a b]|] eqn:E; [|discriminate].
  cbn [option_map fst] in H. injection H as <-.
  destruct (@find_ws_insensitive_no_cr monolith (anchor_primary k) 0 a b
              Hcr E) as (_ & Hm & _).
  rewrite anchor_primary_compiled in Hm. unfold Re.match_len in Hm.
  destruct (Re.match_at (anchor_regex k) (skipn a monolith)) as [y|] eqn:Ey;
    [|discriminate].
  destruct (@anchor_regex_inv k _ y Ey) as (w1 & w2 & H1 & H2 & H3 & H4 & HM).
  exists w1, w2, y. repeat split; assumption.
Qed.

(** ** The opening shape of a text cut at a start anchor *)

Lemma startswith_split :
  forall p s, Py.startswith p s = true -> exists s', s = p ++ s'.
Proof.
  induction p as [|c p IH]; intros s H.
  - exists s. reflexivity.
  - destruct s as [|d s]; [discriminate|].
    cbn [Py.startswith] in H. apply andb_true_iff in H as [Hc H].
    apply N.eqb_eq in Hc. subst d.
    destruct (IH s H) as (s' & ->). exists s'. reflexivity.
Qed.

Lemma block_head_cut :
  forall (t : str) n,
    block_head (firstn n (64%N :: 105%N :: t))
    = firstn n (64%N :: 105%N :: t).
Proof.
  intros t [|[|n]].
  - reflexivity.
  - reflexivity.
  - cbn [firstn].
    apply (@block_head_guard [] [] (firstn n t) eq_refl eq_refl).
Qed.

Lemma ensure_literal_brace :
  forall (cond w rest : str),
    existsb (N.eqb (chr ")")) cond = false -> all_space w = true ->
    ensure_starts_with_if_block
      ((py "@if (" ++ cond ++ py ")") ++ w ++ LBRACE :: rest)
      (py "@if (" ++ cond ++ py ")")
    = Ok tt.
Proof.
  intros cond w rest Hc Hw.
  unfold ensure_starts_with_if_block. cbv zeta.
  assert (Hh : block_head ((py "@if (" ++ cond ++ py ")")
                           ++ w ++ LBRACE :: rest)
               = (py "@if (" ++ cond ++ py ")") ++ w ++ LBRACE :: rest).
  { apply (@block_head_guard [] []
             ((py "f (" ++ cond ++ py ")") ++ w ++ LBRACE :: rest)
             eq_refl eq_refl). }
  rewrite Hh. rewrite startswith_app. cbn [negb].
  rewrite <- !app_assoc.
  rewrite (@search_hit re_if_open _
             (length (py "@if (" ++ cond ++ py ")" ++ w ++ LBRACE :: rest)
              - length rest)).
  - reflexivity.
  - unfold Re.match_len. rewrite (@if_open_match cond w rest Hc Hw).
    reflexivity.
Qed.

Lemma all_space_firstn :
  forall n w, all_space w = true -> all_space (firstn n w) = true.
Proof.
  induction n as [|n IH]; intros [|c w] H; try reflexivity.
  unfold all_space in *. cbn [firstn forallb] in *.
  apply andb_true_iff in H as [Hc H]. rewrite Hc. apply IH. exact H.
Qed.

Lemma app_snoc_cons :
  forall (a : str) (c : char) (l : str), (a ++ [c]) ++ l = a ++ c :: l.
Proof.
  intros a c l. rewrite <- app_assoc. reflexivity.
Qed.

Lemma prefix_of_run :
  forall (b l w : str) (x c : char),
    b ++ x :: l = w ++ [c] -> all_space w = true -> all_space b = true.
Proof.
  intros b l w x c E Hw. apply app_eq_app in E.
  destruct E as (l2 & [[E1 E2]|[E1 E2]]).
  - destruct l2 as [|y l2].
    + rewrite app_nil_r in E1. subst b. exact Hw.
    + exfalso. cbn [app] in E2. injection E2 as _ E2.
      destruct l2; discriminate.
  - subst w. unfold all_space in *. rewrite forallb_app in Hw.
    apply andb_true_iff in Hw. exact (proj1 Hw).
Qed.

Lemma cut_shape :
  forall k (w1 w2 rest : str) n,
    w1 <> [] -> w2 <> [] -> all_space w1 = true -> all_space w2 = true ->
    ensure_starts_with_if_block
      (firstn n (py "@if" ++ w1 ++ guard_cond k ++ w2 ++ LBRACE :: rest))
      (start_literal k) = Ok tt
    <-> exists w rest',
          w <> [] /\ all_space w = true
          /\ firstn n (py "@if" ++ w1 ++ guard_cond k ++ w2
                        ++ LBRACE :: rest)
             = start_literal k ++ w ++ LBRACE :: rest'.
Proof.
  intros k w1 w2 rest n Hn1 Hn2 Hw1 Hw2.
  destruct (start_literal_guard k) as (Hlit & Hcond & Hpar & Hnob).
  remember (py "@if" ++ w1 ++ guard_cond k ++ w2 ++ LBRACE :: rest) as M
    eqn:HM.
  remember (firstn n M) as B eqn:HBdef.
  split.
  - intros He.
    assert (Hhead : block_head B = B).
    { rewrite HBdef, HM. apply block_head_cut. }
    unfold ensure_starts_with_if_block in He. cbv zeta in He.
    rewrite Hhead in He.
    destruct (Py.startswith (start_literal k) B) eqn:Hs;
      [|discriminate].
    cbn [negb] in He.
    destruct (Re.search re_if_open B) as [m|] eqn:Hm; [|discriminate].
    destruct (@startswith_split _ _ Hs) as (B' & HB).
    assert (E0 : M = start_literal k ++ B' ++ skipn n M).
    { rewrite app_assoc. rewrite <- HB. rewrite HBdef.
      symmetry. apply firstn_skipn. }
    rewrite HM in E0 at 1. rewrite Hlit, Hcond in E0.
    assert (E1 : w1 ++ (40%N :: guard_test k ++ py ")")
                 ++ w2 ++ LBRACE :: rest
                 = SP :: (40%N :: guard_test k ++ py ")")
                   ++ B' ++ skipn n M).
    { apply (app_inv_head (py "@if")).
      etransitivity; [exact E0|].
      rewrite <- !app_assoc. cbn [app]. rewrite <- !app_assoc.
      reflexivity. }
    destruct w1 as [|c1 [|d1 w1']]; [congruence| |].
    2:{ exfalso. cbn [app] in E1. injection E1 as _ Ed _.
        unfold all_space in Hw1. cbn [forallb] in Hw1.
        apply andb_true_iff in Hw1 as [_ Hw1].
        apply andb_true_iff in Hw1 as [Hd _].
        rewrite Ed in Hd. discriminate. }
    cbn [app] in E1. injection E1 as _ E1.
    apply app_inv_head in E1.
    change (w2 ++ LBRACE :: rest) with (w2 ++ [LBRACE] ++ rest) in E1.
    rewrite app_assoc in E1. symmetry in E1.
    apply app_eq_app in E1. destruct E1 as (l & [[E1 E2]|[E1 E2]]).
    + exists w2, l. repeat split; [assumption | assumption |].
      rewrite HB, E1. apply (f_equal (app (start_literal k))).
      apply app_snoc_cons.
    + destruct l as [|x l].
      * rewrite app_nil_r in E1. exists w2, [].
        repeat split; [assumption | assumption |].
        rewrite HB, <- E1. apply (f_equal (app (start_literal k))).
        reflexivity.
      * exfalso.
        pose proof (@prefix_of_run B' l w2 x LBRACE (eq_sym E1) Hw2) as Hb.
        assert (Hno : existsb (N.eqb LBRACE) B = false).
        { rewrite HB, existsb_app. apply orb_false_iff. split; [exact Hnob|].
          apply (@existsb_space LBRACE B' eq_refl Hb). }
        rewrite (if_open_needs_brace B Hno) in Hm. discriminate.
  - intros (w & rest' & Hn & Hw & HB). rewrite HB, Hlit.
    apply ensure_literal_brace; assumption.
Qed.

(** ** The block an extractor validates *)

Lemma extract_one_cases :
  forall af k landmark closing monolith,
    (extract_one af k landmark closing monolith = ExtractFailed StartNotFound
     \/ extract_one af k landmark closing monolith
        = ExtractFailed EndAnchorNotFound
     \/ extract_one af k landmark closing monolith
        = ExtractFailed ClosingNotFound)
    \/ exists s e,
         find_start k monolith = Some s
         /\ extract_one af k landmark closing monolith
            = validated af k (slice s e monolith).
Proof.
  intros af k landmark closing monolith. unfold extract_one.
  destruct (find_start k monolith) as [s|]; [|left; left; reflexivity].
  destruct (find_ws_insensitive (skipn s monolith) landmark 0) as [[a b]|];
    [|left; right; left; reflexivity].
  destruct (Re.search closing (skipn (s + b) monolith)) as [[ms me]|];
    [|left; right; right; reflexivity].
  right. exists s, (s + b + me). split; reflexivity.
Qed.

Lemma extract_professor_cases :
  forall af monolith,
    (extract_professor af monolith = ExtractFailed StartNotFound
     \/ extract_professor af monolith = ExtractFailed EndAnchorNotFound
     \/ extract_professor af monolith = ExtractFailed ClosingNotFound)
    \/ exists s e,
         find_start Professor monolith = Some s
         /\ extract_professor af monolith
            = validated af Professor (slice s e monolith).
Proof.
  intros af monolith. unfold extract_professor.
  destruct (find_start Professor monolith) as [s|];
    [|left; left; reflexivity].
  destruct (find_ws_insensitive (skipn s monolith) professor_landmark 0)
    as [[a b]|]; [|left; right; left; reflexivity].
  destruct (professor_tail (skipn (s + b) monolith)) as [[ms me]|];
    [|left; right; right; reflexivity].
  right. exists s, (s + b + me). split; reflexivity.
Qed.

Lemma extract_cases :
  forall af k monolith,
    (extract af k monolith = ExtractFailed StartNotFound
     \/ extract af k monolith = ExtractFailed EndAnchorNotFound
     \/ extract af k monolith = ExtractFailed ClosingNotFound)
    \/ exists s e,
         find_start k monolith = Some s
         /\ extract af k monolith = validated af k (slice s e monolith).
Proof.
  intros af k monolith. destruct k; cbn [extract].
  - apply extract_one_cases.
  - apply extract_one_cases.
  - apply extract_professor_cases.
  - apply extract_one_cases.
Qed.

Lemma extracted_shape :
  forall k monolith s e,
    existsb (N.eqb CR) monolith = false ->
    find_start k monolith = Some s ->
    ensure_starts_with_if_block (slice s e monolith) (start_literal k)
    = Ok tt
    <-> exists w rest,
          w <> [] /\ all_space w = true
          /\ slice s e monolith = start_literal k ++ w ++ LBRACE :: rest.
Proof.
  intros k monolith s e Hcr Hs.
  destruct (@find_start_anchor k monolith s Hcr Hs)
    as (w1 & w2 & rest & H1 & H2 & H3 & H4 & HM).
  assert (E : slice s e monolith
              = firstn (e - s) (py "@if" ++ w1 ++ guard_cond k ++ w2
                                ++ LBRACE :: rest)).
  { unfold slice. apply f_equal. exact HM. }
  rewrite E. apply cut_shape; assumption.
Qed.

Lemma validated_extracted :
  forall af k B r,
    validated af k B = Extracted r ->
    ensure_starts_with_if_block B (start_literal k) = Ok tt.
Proof.
  intros af k B r H. unfold validated in H.
  destruct (ensure_starts_with_if_block B (start_literal k)) as [[]|e] eqn:E;
    [reflexivity|].
  rewrite (@validate_shape_failure af B (start_literal k) e E) in H.
  discriminate.
Qed.

(** ** C2: the opening shape of an extracted block *)

(** C2. On the text [read] returns, an extractor either fails before it
    cuts a block, or cuts a block [B = monolith[s:e]] at the start it
    found and validates it.  That block passes the shape check exactly
    when it begins with the section's guard literal followed by
    whitespace and the opening token; so a block is returned only in
    that case, and a failure of the shape check is the result of
    validation whatever the repair flag, before any balance is
    looked at. *)
Theorem extracted_block_shape_checked :
  forall (auto_fix : bool) (k : section_kind) (decoded : str),
    let monolith := read_text decoded in
    (extract auto_fix k monolith = ExtractFailed StartNotFound
     \/ extract auto_fix k monolith = ExtractFailed EndAnchorNotFound
     \/ extract auto_fix k monolith = ExtractFailed ClosingNotFound)
    \/ exists s e,
         let B := slice s e monolith in
         find_start k monolith = Some s
         /\ extract auto_fix k monolith = validated auto_fix k B
         /\ (ensure_starts_with_if_block B (start_literal k) = Ok tt
             <-> exists w rest,
                   w <> [] /\ all_space w = true
                   /\ B = start_literal k ++ w ++ LBRACE :: rest)
         /\ (forall r,
                extract auto_fix k monolith = Extracted r ->
                exists w rest,
                  w <> [] /\ all_space w = true
                  /\ B = start_literal k ++ w ++ LBRACE :: rest)
         /\ (forall err af,
                ensure_starts_with_if_block B (start_literal k) = Fail err ->
                validate_and_maybe_fix af B (start_literal k) = Fail err).
Proof.
  intros auto_fix k decoded monolith.
  destruct (extract_cases auto_fix k monolith) as [H|(s & e & Hs & He)];
    [left; exact H|].
  right. exists s, e. cbv zeta.
  pose proof (@extracted_shape k monolith s e (read_text_no_cr decoded) Hs)
    as Hshape.
  repeat split.
  - exact Hs.
  - exact He.
  - apply Hshape.
  - apply Hshape.
  - intros r Hr. apply Hshape. rewrite He in Hr.
    apply (@validated_extracted auto_fix k _ r Hr).
  - intros err af Herr. apply validate_shape_failure. exact Herr.
Qed.

(** * Closing tokens at the end of a block *)

(** ** Keywords and characters that cannot be part of them *)

Section Outside.

Variable p : char -> bool.

Lemma startswith_out_false :
  forall (k1 : char) (kw w : str), p k1 = false -> forallb p w = true ->
    Py.startswith (k1 :: kw) w = false.
Proof.
  intros k1 kw [|x w] Hk Hw; [reflexivity|].
  cbn [Py.startswith]. cbn [forallb] in Hw.
  apply andb_true_iff in Hw as [Hx _].
  destruct (N.eqb k1 x) eqn:E; [|reflexivity].
  apply N.eqb_eq in E. subst x. congruence.
Qed.

Lemma startswith_app_out :
  forall kw : str, kw <> [] -> forallb (fun c => negb (p c)) kw = true ->
  forall w : str, forallb p w = true ->
  forall q : str, Py.startswith kw (q ++ w) = Py.startswith kw q.
Proof.
  induction kw as [|k1 kw IH]; intros Hne Hkw w Hw q; [congruence|].
  cbn [forallb] in Hkw. apply andb_true_iff in Hkw as [Hk Hkw].
  apply negb_true_iff in Hk.
  destruct q as [|y q].
  - cbn [app]. rewrite (@startswith_out_false k1 kw w Hk Hw). reflexivity.
  - cbn [app Py.startswith]. destruct kw as [|k2 kw].
    + reflexivity.
    + rewrite (IH ltac:(discriminate) Hkw w Hw q). reflexivity.
Qed.

Lemma find_out_none :
  forall (k1 : char) (kw w : str), p k1 = false -> forallb p w = true ->
    Py.find (k1 :: kw) w = None.
Proof.
  intros k1 kw w Hk. induction w as [|x w IH]; intros Hw; [reflexivity|].
  cbn [Py.find]. rewrite (@startswith_out_false k1 kw (x :: w) Hk Hw).
  cbn [forallb] in Hw. apply andb_true_iff in Hw as [_ Hw].
  rewrite (IH Hw). reflexivity.
Qed.

Lemma find_app_out :
  forall kw : str, kw <> [] -> forallb (fun c => negb (p c)) kw = true ->
  forall w : str, forallb p w = true ->
  forall q : str, Py.find kw (q ++ w) = Py.find kw q.
Proof.
  intros kw Hne Hkw w Hw. induction q as [|y q IH].
  - cbn [app]. destruct kw as [|k1 kw]; [congruence|].
    cbn [forallb] in Hkw. apply andb_true_iff in Hkw as [Hk _].
    apply negb_true_iff in Hk.
    rewrite (@find_out_none k1 kw w Hk Hw). reflexivity.
  - cbn [app Py.find].
    change (y :: q ++ w) with ((y :: q) ++ w).
    rewrite (@startswith_app_out kw Hne Hkw w Hw (y :: q)).
    cbn [app]. rewrite IH. reflexivity.
Qed.

Lemma contains_app_out :
  forall kw : str, kw <> [] -> forallb (fun c => negb (p c)) kw = true ->
  forall w : str, forallb p w = true ->
  forall q : str, Py.contains kw (q ++ w) = Py.contains kw q.
Proof.
  intros kw Hne Hkw w Hw q. unfold Py.contains.
  rewrite (@find_app_out kw Hne Hkw w Hw q). reflexivity.
Qed.

End Outside.

Lemma is_code_line_app_tail :
  forall (l : str) (c : char) (z : str),
    Py.isspace c = false -> forallb closer_or_space z = true ->
    is_code_line ((l ++ [c]) ++ z) = is_code_line (l ++ [c]).
Proof.
  intros l c z Hc Hz. unfold is_code_line, Py.lstrip.
  rewrite (@dropwhile_app_keep Py.isspace c z l Hc).
  destruct (Py.dropwhile Py.isspace (l ++ [c])) as [|y q] eqn:E.
  - exfalso. apply (@dropwhile_stop Py.isspace l c [] Hc). exact E.
  - assert (S2 : forall kw : str, kw <> [] ->
                   forallb (fun x => negb (closer_or_space x)) kw = true ->
                   Py.contains kw ((y :: q) ++ z) = Py.contains kw (y :: q)).
    { intros kw H1 H2.
      apply (@contains_app_out closer_or_space kw H1 H2 z Hz). }
    rewrite !S2 by first [discriminate | reflexivity].
    reflexivity.
Qed.

(** ** Lines made of closing tokens and whitespace *)

Lemma is_code_line_space_head :
  forall (c : char) t, Py.isspace c = true ->
                       is_code_line (c :: t) = is_code_line t.
Proof.
  intros c t H. unfold is_code_line, Py.lstrip. cbn [Py.dropwhile].
  rewrite H. reflexivity.
Qed.

Lemma tail_line_count :
  forall l, forallb closer_or_space l = true -> is_code_line l = false ->
            Py.count RBRACE l = 0.
Proof.
  induction l as [|c t IH]; intros Hl Hn; [reflexivity|].
  cbn [forallb] in Hl. apply andb_true_iff in Hl as [Hc Ht].
  destruct (Py.isspace c) eqn:Hs.
  - rewrite (@is_code_line_space_head c t Hs) in Hn.
    cbn [Py.count]. rewrite (IH Ht Hn).
    destruct (N.eqb c RBRACE) eqn:E; [|reflexivity].
    apply N.eqb_eq in E. subst c. discriminate.
  - exfalso. unfold closer_or_space in Hc. rewrite Hs in Hc.
    cbn [orb] in Hc. apply N.eqb_eq in Hc. subst c. discriminate.
Qed.

Lemma line_count_filter_tail :
  forall ls, Forall (fun l => forallb closer_or_space l = true) ls ->
    line_count RBRACE (filter is_code_line ls) = line_count RBRACE ls.
Proof.
  induction 1 as [|l ls Hl Hls IH]; [reflexivity|].
  cbn [filter]. destruct (is_code_line l) eqn:E.
  - unfold line_count in *. cbn [fold_right]. rewrite IH. reflexivity.
  - unfold line_count in *. cbn [fold_right]. rewrite IH.
    rewrite (@tail_line_count l Hl E). reflexivity.
Qed.

Lemma line_count_splitlines_eq :
  forall x s, Py.is_linebreak x = false ->
              line_count x (Py.splitlines s) = Py.count x s.
Proof.
  intros x s Hx. revert s.
  assert (Hb : forall c, Py.is_linebreak c = true -> N.eqb c x = false).
  { intros c Hc. destruct (N.eqb c x) eqn:E; [|reflexivity].
    apply N.eqb_eq in E. subst c. congruence. }
  apply (@str_ind2 (fun s => line_count x (Py.splitlines s) = Py.count x s)).
  - reflexivity.
  - intros c _. destruct (Py.is_linebreak c) eqn:Hc.
    + rewrite (@splitlines_cons_break c [] Hc).
      unfold line_count. cbn [fold_right Py.count]. rewrite (Hb c Hc).
      reflexivity.
    + rewrite (@splitlines_cons_plain c [] Hc).
      unfold line_count. cbn [Py.splitlines fold_right Py.count]. lia.
  - intros c d t Ht Hdt. destruct (Py.is_linebreak c) eqn:Hc.
    + rewrite (@splitlines_cons_break c (d :: t) Hc).
      unfold line_count in *.
      destruct (N.eqb c CR && N.eqb d LF)%bool eqn:E.
      * apply andb_true_iff in E as [_ Ed]. apply N.eqb_eq in Ed. subst d.
        cbn [fold_right Py.count] in *. rewrite (Hb c Hc).
        rewrite (Hb LF eq_refl). rewrite Ht. reflexivity.
      * cbn [fold_right] in *. rewrite Hdt.
        cbn [Py.count]. rewrite (Hb c Hc). reflexivity.
    + rewrite (@splitlines_cons_plain c (d :: t) Hc).
      unfold line_count in *.
      destruct (Py.splitlines (d :: t)) as [|l ls];
        cbn [fold_right Py.count] in *; lia.
Qed.

Lemma join_lf_app :
  forall A B, Py.join_lf (A ++ B) = Py.join_lf A ++ sep2 A B ++ Py.join_lf B.
Proof.
  induction A as [|a [|a2 A] IH]; intros B.
  - reflexivity.
  - destruct B as [|b B].
    + cbn [app sep2 Py.join_lf]. rewrite app_nil_r. reflexivity.
    + reflexivity.
  - change ((a :: a2 :: A) ++ B) with (a :: (a2 :: A) ++ B).
    change (Py.join_lf (a :: (a2 :: A) ++ B))
      with (a ++ LF :: Py.join_lf ((a2 :: A) ++ B)).
    rewrite IH.
    change (Py.join_lf (a :: a2 :: A))
      with (a ++ LF :: Py.join_lf (a2 :: A)).
    rewrite <- app_assoc. cbn [app].
    destruct B; reflexivity.
Qed.

Lemma tail_join :
  forall ls, Forall (fun l => forallb closer_or_space l = true) ls ->
             forallb closer_or_space (Py.join_lf ls) = true.
Proof.
  induction 1 as [|l [|l2 ls] Hl Hls IH]; [reflexivity | exact Hl |].
  change (Py.join_lf (l :: l2 :: ls))
    with (l ++ LF :: Py.join_lf (l2 :: ls)).
  rewrite forallb_app. rewrite Hl. cbn [forallb andb].
  rewrite IH. reflexivity.
Qed.

Lemma tail_lines :
  forall Z, forallb closer_or_space Z = true ->
    Forall (fun l => forallb closer_or_space l = true) (Py.splitlines Z).
Proof.
  intros Z HZ. apply Forall_forall. intros l Hl.
  apply forallb_forall. intros c Hc. rewrite forallb_forall in HZ.
  apply HZ. apply (@splitlines_in Z l c Hl Hc).
Qed.

Lemma tail_no_delimiter :
  forall x Z, closer_or_space x = false ->
              forallb closer_or_space Z = true ->
              existsb (N.eqb x) Z = false /\ Py.count x Z = 0.
Proof.
  intros x Z Hx. induction Z as [|c t IH]; intros HZ; [split; reflexivity|].
  cbn [forallb] in HZ. apply andb_true_iff in HZ as [Hc Ht].
  destruct (IH Ht) as [I1 I2].
  assert (E : N.eqb x c = false).
  { destruct (N.eqb x c) eqn:E; [|reflexivity].
    apply N.eqb_eq in E. subst c. congruence. }
  split.
  - cbn [existsb]. rewrite E, I1. reflexivity.
  - cbn [Py.count]. rewrite (N.eqb_sym c x), E, I2. reflexivity.
Qed.

(** ** The code text of a block followed by closing tokens *)

Lemma sep2_tail :
  forall A B, forallb closer_or_space (sep2 A B) = true
              /\ Py.count RBRACE (sep2 A B) = 0.
Proof.
  intros [|a A] [|b B]; split; reflexivity.
Qed.

Lemma Forall_filter_keep :
  forall (P : str -> Prop) (f : str -> bool) ls,
    Forall P ls -> Forall P (filter f ls).
Proof.
  intros P f ls H. induction H as [|l ls Hl Hls IH]; [constructor|].
  cbn [filter]. destruct (f l); [constructor; assumption | exact IH].
Qed.

Lemma space_tail :
  forall w, all_space w = true -> forallb closer_or_space w = true.
Proof.
  intros w H. unfold all_space in H. rewrite forallb_forall in *.
  intros c Hc. unfold closer_or_space. rewrite (H c Hc). reflexivity.
Qed.

Lemma uncounted_snoc :
  forall (a : str) (c : char) (Z : str),
    uncounted (a ++ [c]) Z
    = if is_code_line (last_line (a ++ [c])) then 0
      else Py.count RBRACE (hd [] (Py.splitlines Z)).
Proof. intros a c Z. destruct a; reflexivity. Qed.

Lemma code_text_tail :
  forall (R Z : str),
    (R = [] \/ exists a c, R = a ++ [c] /\ Py.isspace c = false) ->
    forallb closer_or_space Z = true ->
    exists Z', forallb closer_or_space Z' = true
               /\ Py.count RBRACE Z' + uncounted R Z = Py.count RBRACE Z
               /\ code_text (R ++ Z) = code_text R ++ Z'.
Proof.
  intros R Z HR HZ.
  pose proof (tail_lines Z HZ) as Hlines.
  destruct Z as [|z0 Z0].
  { exists []. rewrite !app_nil_r. split; [|split]; try reflexivity.
    unfold uncounted. destruct R; [reflexivity|].
    destruct (is_code_line _); reflexivity. }
  assert (HZne : z0 :: Z0 <> []) by discriminate.
  set (Z := z0 :: Z0) in *.
  assert (Hrb : Py.is_linebreak RBRACE = false) by reflexivity.
  assert (Hlf : N.eqb LF RBRACE = false) by reflexivity.
  destruct HR as [-> | (a & c & -> & Hc)].
  - exists (Py.join_lf (filter is_code_line (Py.splitlines Z))).
    split; [|split].
    + apply tail_join. apply Forall_filter_keep. exact Hlines.
    + rewrite (@count_join_lf RBRACE _ Hlf).
      rewrite (line_count_filter_tail Hlines).
      cbn [uncounted]. rewrite Nat.add_0_r.
      apply line_count_splitlines_eq. exact Hrb.
    + reflexivity.
  - destruct (@splitlines_last_line c (nonspace_not_linebreak c Hc) a)
      as (init & l & Hsplit).
    assert (HR : Py.splitlines (a ++ [c]) = init ++ [l ++ [c]]).
    { rewrite (Hsplit []). reflexivity. }
    assert (HRZ : Py.splitlines ((a ++ [c]) ++ Z)
                  = init ++ continue_line l c (Py.splitlines Z)).
    { rewrite <- app_assoc. apply Hsplit. }
    assert (Hlast : last_line (a ++ [c]) = l ++ [c]).
    { unfold last_line. rewrite HR. apply last_last. }
    rewrite uncounted_snoc. rewrite Hlast.
    destruct (Py.splitlines Z) as [|l0 ls] eqn:EZ.
    { exfalso. apply (@splitlines_nonempty Z HZne). exact EZ. }
    inversion Hlines as [|? ? Hl0 Hls]; subst.
    cbn [continue_line] in HRZ. cbn [hd].
    assert (Hline : l ++ c :: l0 = (l ++ [c]) ++ l0)
      by (rewrite <- app_assoc; reflexivity).
    rewrite Hline in HRZ.
    pose proof (@is_code_line_app_tail l c l0 Hc Hl0) as Hcode.
    unfold code_text. rewrite HRZ, HR. rewrite !filter_app.
    cbn [filter]. rewrite Hcode.
    set (X := filter is_code_line init).
    set (Y := filter is_code_line ls).
    assert (HY : forallb closer_or_space (Py.join_lf Y) = true).
    { apply tail_join. apply Forall_filter_keep. exact Hls. }
    assert (HYc : Py.count RBRACE (Py.join_lf Y) = line_count RBRACE ls).
    { rewrite (@count_join_lf RBRACE _ Hlf).
      apply line_count_filter_tail. exact Hls. }
    assert (HZc : Py.count RBRACE Z
                  = Py.count RBRACE l0 + line_count RBRACE ls).
    { rewrite <- (@line_count_splitlines_eq RBRACE Z Hrb). rewrite EZ.
      reflexivity. }
    destruct (is_code_line (l ++ [c])) eqn:EL.
    + destruct (sep2_tail (X ++ [(l ++ [c]) ++ l0]) Y) as [S1 S2].
      exists (l0 ++ sep2 (X ++ [(l ++ [c]) ++ l0]) Y ++ Py.join_lf Y).
      split; [|split].
      * rewrite !forallb_app. rewrite Hl0, S1, HY. reflexivity.
      * rewrite !count_app. rewrite S2, HYc, HZc. lia.
      * change (X ++ ((l ++ [c]) ++ l0) :: Y)
          with (X ++ ([(l ++ [c]) ++ l0] ++ Y)).
        rewrite (app_assoc X). rewrite join_lf_app.
        rewrite !join_lf_snoc. rewrite <- !app_assoc. reflexivity.
    + destruct (sep2_tail X Y) as [S1 S2].
      exists (sep2 X Y ++ Py.join_lf Y).
      split; [|split].
      * rewrite forallb_app. rewrite S1, HY. reflexivity.
      * rewrite count_app. rewrite S2, HYc, HZc. lia.
      * cbn [app]. rewrite app_nil_r. apply join_lf_app.
Qed.

Lemma brace_balance_tail :
  forall (R Z : str) (ok : bool) (o c : nat),
    (R = [] \/ exists a x, R = a ++ [x] /\ Py.isspace x = false) ->
    forallb closer_or_space Z = true ->
    brace_balance R = (ok, o, c) ->
    exists n, n + uncounted R Z = Py.count RBRACE Z
              /\ brace_balance (R ++ Z) = (Nat.eqb o (c + n), o, c + n).
Proof.
  intros R Z ok o c HR HZ Hb.
  destruct (@code_text_tail R Z HR HZ) as (Z' & Hcl & Hcnt & Hct).
  exists (Py.count RBRACE Z'). split; [exact Hcnt|].
  rewrite brace_balance_code_text in Hb. injection Hb as _ Ho Hc.
  rewrite brace_balance_code_text.
  destruct (@tail_no_delimiter (chr "@") Z' eq_refl Hcl) as [Hat _].
  destruct (@tail_no_delimiter (chr "/") Z' eq_refl Hcl) as [Hsl _].
  destruct (@tail_no_delimiter LBRACE Z' eq_refl Hcl) as [_ Hop].
  assert (E : strip_razor_comments (code_text (R ++ Z))
              = strip_razor_comments (code_text R) ++ Z').
  { rewrite Hct. exact (@strip_razor_comments_app (code_text R) Z' Hat Hsl). }
  rewrite E. rewrite !count_app. rewrite Hop, Ho, Hc.
  rewrite Nat.add_0_r. reflexivity.
Qed.

(** ** Trailing closers that are counted *)

Lemma trailing_tail :
  forall gaps w, forallb all_space gaps = true -> all_space w = true ->
    forallb closer_or_space (trailing gaps w) = true
    /\ Py.count RBRACE (trailing gaps w) = length gaps.
Proof.
  intros gaps w Hg Hw. unfold trailing.
  induction gaps as [|g gaps IH].
  - cbn [flat_map app length]. split; [apply space_tail; exact Hw|].
    apply (@count_space RBRACE w eq_refl Hw).
  - cbn [forallb] in Hg. apply andb_true_iff in Hg as [Hg1 Hg].
    destruct (IH Hg) as [I1 I2].
    cbn [flat_map length]. rewrite <- !app_assoc. split.
    + rewrite forallb_app. rewrite (space_tail g Hg1).
      cbn [app forallb]. rewrite I1. reflexivity.
    + rewrite count_app. rewrite (@count_space RBRACE g eq_refl Hg1).
      cbn [app Py.count]. rewrite I2. reflexivity.
Qed.

Lemma existsb_first :
  forall (p : char -> bool) (G : str),
    existsb p G = true ->
    exists u c v, G = u ++ c :: v
                  /\ forallb (fun x => negb (p x)) u = true /\ p c = true.
Proof.
  intros p G. induction G as [|x G IH]; intros H; [discriminate|].
  cbn [existsb] in H. destruct (p x) eqn:Hx.
  - exists [], x, G. auto.
  - cbn [orb] in H. destruct (IH H) as (u & c & v & -> & Hu & Hc).
    exists (x :: u), c, v. split; [reflexivity|]. split; [|exact Hc].
    cbn [forallb]. rewrite Hx. exact Hu.
Qed.

Lemma existsb_none_forallb :
  forall (p : char -> bool) (G : str),
    existsb p G = false -> forallb (fun x => negb (p x)) G = true.
Proof.
  intros p G. induction G as [|x G IH]; intros H; [reflexivity|].
  cbn [existsb] in H. apply orb_false_iff in H as [Hx H].
  cbn [forallb]. rewrite Hx. apply IH. exact H.
Qed.

Lemma splitlines_first_line :
  forall (u : str) (lb : char) (V : str),
    no_linebreak u = true -> Py.is_linebreak lb = true ->
    exists ls, Py.splitlines (u ++ lb :: V) = u :: ls.
Proof.
  induction u as [|x u IH]; intros lb V Hu Hlb.
  - cbn [app]. rewrite (@splitlines_cons_break lb V Hlb). eauto.
  - unfold no_linebreak in Hu. cbn [forallb] in Hu.
    apply andb_true_iff in Hu as [Hx Hu]. apply negb_true_iff in Hx.
    cbn [app]. rewrite (@splitlines_cons_plain x _ Hx).
    destruct (IH lb V Hu Hlb) as (ls & ->). eauto.
Qed.


Lemma existsb_last :
  forall (p : char -> bool) (G : str),
    existsb p G = true ->
    exists u c v, G = u ++ c :: v
                  /\ p c = true /\ forallb (fun x => negb (p x)) v = true.
Proof.
  intros p G. induction G as [|x G IH]; intros H; [discriminate|].
  destruct (existsb p G) eqn:EG.
  - destruct (IH eq_refl) as (u & c & v & -> & Hc & Hv).
    exists (x :: u), c, v. auto.
  - cbn [existsb] in H. rewrite EG in H. rewrite orb_false_r in H.
    exists [], x, G. split; [reflexivity|]. split; [exact H|].
    apply existsb_none_forallb. exact EG.
Qed.

Lemma splitlines_after_break :
  forall (n : nat) (X : str) (lb : char) (Y : str),
    length X <= n ->
    Py.is_linebreak lb = true -> Y <> [] -> no_linebreak Y = true ->
    exists i0 init, Py.splitlines (X ++ lb :: Y) = (i0 :: init) ++ [Y].
Proof.
  assert (Hbase : forall lb Y, Py.is_linebreak lb = true -> Y <> [] ->
            no_linebreak Y = true ->
            Py.splitlines (lb :: Y) = [[]; Y]).
  { intros lb Y Hlb HY Hnl.
    rewrite (@splitlines_cons_break lb Y Hlb).
    destruct Y as [|d Y']; [congruence|].
    pose proof Hnl as Hd. unfold no_linebreak in Hd. cbn [forallb] in Hd.
    apply andb_true_iff in Hd as [Hd _]. apply negb_true_iff in Hd.
    assert (Hne : N.eqb d LF = false).
    { destruct (N.eqb d LF) eqn:E; [|reflexivity].
      apply N.eqb_eq in E. subst d. discriminate. }
    rewrite Hne, andb_false_r.
    rewrite (@splitlines_single (d :: Y') HY Hnl). reflexivity. }
  induction n as [|n IH]; intros X lb Y Hlen Hlb HY Hnl.
  - destruct X; [|cbn [length] in Hlen; lia].
    cbn [app]. rewrite (Hbase lb Y Hlb HY Hnl). exists [], []. reflexivity.
  - destruct X as [|x X].
    + cbn [app]. rewrite (Hbase lb Y Hlb HY Hnl). exists [], []. reflexivity.
    + cbn [length] in Hlen. cbn [app].
      destruct (Py.is_linebreak x) eqn:Hx.
      * rewrite (@splitlines_cons_break x _ Hx).
        destruct X as [|d X'].
        -- cbn [app]. destruct (N.eqb x CR && N.eqb lb LF)%bool.
           ++ rewrite (@splitlines_single Y HY Hnl). exists [], [].
              reflexivity.
           ++ rewrite (Hbase lb Y Hlb HY Hnl). exists [], [[]].
              reflexivity.
        -- cbn [app]. cbn [length] in Hlen.
           destruct (N.eqb x CR && N.eqb d LF)%bool.
           ++ destruct (IH X' lb Y ltac:(lia) Hlb HY Hnl)
                as (i0 & init & ->).
              exists [], (i0 :: init). reflexivity.
           ++ destruct (IH (d :: X') lb Y ltac:(cbn [length]; lia)
                          Hlb HY Hnl) as (i0 & init & E).
              cbn [app] in E. rewrite E.
              exists [], (i0 :: init). reflexivity.
      * rewrite (@splitlines_cons_plain x _ Hx).
        destruct (IH X lb Y ltac:(lia) Hlb HY Hnl) as (i0 & init & ->).
        exists (x :: i0), init. reflexivity.
Qed.

Lemma is_code_line_space_closer :
  forall v, all_space v = true -> is_code_line (v ++ [RBRACE]) = true.
Proof.
  induction v as [|x v IH]; intros H; [reflexivity|].
  unfold all_space in H. cbn [forallb] in H.
  apply andb_true_iff in H as [Hx Hv].
  cbn [app]. rewrite (@is_code_line_space_head x _ Hx). apply IH. exact Hv.
Qed.

(** A closing token on a line of its own is on a line that
    [brace_balance] reads. *)
Lemma closer_own_line :
  forall (X G : str),
    all_space G = true -> existsb Py.is_linebreak G = true ->
    is_code_line (last_line (X ++ G ++ [RBRACE])) = true.
Proof.
  intros X G HG HE.
  destruct (@existsb_last Py.is_linebreak G HE) as (u & lb & v & -> & Hlb & Hv).
  assert (Hvs : all_space v = true).
  { unfold all_space in *. rewrite forallb_app in HG.
    apply andb_true_iff in HG as [_ HG]. cbn [forallb] in HG.
    apply andb_true_iff in HG. exact (proj2 HG). }
  assert (E : X ++ (u ++ lb :: v) ++ [RBRACE]
              = (X ++ u) ++ lb :: (v ++ [RBRACE])).
  { rewrite <- !app_assoc. reflexivity. }
  rewrite E. unfold last_line.
  destruct (@splitlines_after_break (length (X ++ u)) (X ++ u) lb
              (v ++ [RBRACE]) (le_n _) Hlb) as (i0 & init & ->).
  - destruct v; discriminate.
  - rewrite no_linebreak_app. unfold no_linebreak at 1. rewrite Hv.
    reflexivity.
  - rewrite last_last. apply is_code_line_space_closer. exact Hvs.
Qed.

Lemma closer_after_space_line :
  forall G, all_space G = true ->
            is_code_line (last_line (G ++ [RBRACE])) = true.
Proof.
  intros G HG. destruct (existsb Py.is_linebreak G) eqn:E.
  - apply (@closer_own_line [] G HG E).
  - unfold last_line. rewrite (@splitlines_single (G ++ [RBRACE])).
    + cbn [last]. apply is_code_line_space_closer. exact HG.
    + destruct G; discriminate.
    + rewrite no_linebreak_app. unfold no_linebreak at 1.
      rewrite (@existsb_none_forallb Py.is_linebreak G E). reflexivity.
Qed.

Lemma hd_splitlines_app :
  forall (P Z : str), no_linebreak P = true ->
    hd [] (Py.splitlines (P ++ Z)) = P ++ hd [] (Py.splitlines Z).
Proof.
  induction P as [|x P IH]; intros Z H; [reflexivity|].
  unfold no_linebreak in H. cbn [forallb] in H.
  apply andb_true_iff in H as [Hx HP]. apply negb_true_iff in Hx.
  cbn [app]. rewrite (@splitlines_cons_plain x _ Hx).
  rewrite <- (IH Z HP). destruct (Py.splitlines (P ++ Z)); reflexivity.
Qed.

(** Whether the first of the trailing closing tokens is counted by
    [brace_balance], read off the line it stands on. *)
Lemma uncounted_first_closer :
  forall (R wB g1 Z2 : str),
    (R = [] \/ exists a x, R = a ++ [x] /\ Py.isspace x = false) ->
    all_space wB = true -> all_space g1 = true ->
    (is_code_line (last_line ((R ++ wB) ++ g1 ++ [RBRACE])) = true ->
     uncounted R (wB ++ (g1 ++ [RBRACE]) ++ Z2) = 0)
    /\ (is_code_line (last_line ((R ++ wB) ++ g1 ++ [RBRACE])) = false ->
        1 <= uncounted R (wB ++ (g1 ++ [RBRACE]) ++ Z2)).
Proof.
  intros R wB g1 Z2 HR HwB Hg1.
  assert (HG : all_space (wB ++ g1) = true).
  { unfold all_space in *. rewrite forallb_app, HwB, Hg1. reflexivity. }
  destruct HR as [-> | (a & x & -> & Hx)].
  { split; [reflexivity|]. intros Hf. exfalso.
    cbn [app] in Hf. rewrite app_assoc in Hf.
    rewrite (@closer_after_space_line _ HG) in Hf. discriminate. }
  rewrite uncounted_snoc.
  destruct (existsb Py.is_linebreak (wB ++ g1)) eqn:E.
  - assert (Hown : is_code_line
                     (last_line (((a ++ [x]) ++ wB) ++ g1 ++ [RBRACE]))
                   = true).
    { assert (E1 : ((a ++ [x]) ++ wB) ++ g1 ++ [RBRACE]
                   = (a ++ [x]) ++ (wB ++ g1) ++ [RBRACE]).
      { rewrite <- !app_assoc. reflexivity. }
      rewrite E1. apply (@closer_own_line (a ++ [x]) (wB ++ g1) HG E). }
    split; [|intros Hf; rewrite Hown in Hf; discriminate].
    intros _. destruct (is_code_line (last_line (a ++ [x]))); [reflexivity|].
    destruct (@existsb_first Py.is_linebreak _ E)
      as (u & lb & v & HGs & Hu & Hlb).
    assert (Hus : all_space u = true).
    { rewrite HGs in HG. unfold all_space in *. rewrite forallb_app in HG.
      apply andb_true_iff in HG. exact (proj1 HG). }
    assert (EZ : wB ++ (g1 ++ [RBRACE]) ++ Z2
                 = u ++ lb :: (v ++ RBRACE :: Z2)).
    { rewrite <- app_assoc. rewrite app_assoc. rewrite HGs.
      rewrite <- app_assoc. reflexivity. }
    rewrite EZ.
    destruct (@splitlines_first_line u lb (v ++ RBRACE :: Z2) Hu Hlb)
      as (ls & ->).
    cbn [hd]. apply (@count_space RBRACE u eq_refl Hus).
  - pose proof (@existsb_none_forallb Py.is_linebreak _ E) as Hnl.
    destruct (@splitlines_last_line x (nonspace_not_linebreak x Hx) a)
      as (init & l & Hsplit).
    assert (HR : last_line (a ++ [x]) = l ++ [x]).
    { unfold last_line. rewrite (Hsplit []). apply last_last. }
    assert (HT : last_line (((a ++ [x]) ++ wB) ++ g1 ++ [RBRACE])
                 = (l ++ [x]) ++ (wB ++ g1) ++ [RBRACE]).
    { unfold last_line.
      assert (E1 : ((a ++ [x]) ++ wB) ++ g1 ++ [RBRACE]
                   = a ++ x :: ((wB ++ g1) ++ [RBRACE])).
      { rewrite <- !app_assoc. reflexivity. }
      rewrite E1. rewrite Hsplit.
      rewrite (@splitlines_single ((wB ++ g1) ++ [RBRACE])).
      - cbn [continue_line]. rewrite last_last.
        rewrite <- !app_assoc. reflexivity.
      - destruct (wB ++ g1); discriminate.
      - rewrite no_linebreak_app. unfold no_linebreak at 1. rewrite Hnl.
        reflexivity. }
    assert (Hsame : is_code_line
                      (last_line (((a ++ [x]) ++ wB) ++ g1 ++ [RBRACE]))
                    = is_code_line (last_line (a ++ [x]))).
    { rewrite HT, HR. apply is_code_line_app_tail; [exact Hx|].
      rewrite forallb_app. rewrite (space_tail _ HG). reflexivity. }
    rewrite Hsame. split; intros Hc; rewrite Hc; [reflexivity|].
    assert (EZ : wB ++ (g1 ++ [RBRACE]) ++ Z2
                 = ((wB ++ g1) ++ [RBRACE]) ++ Z2).
    { rewrite <- !app_assoc. reflexivity. }
    rewrite EZ. rewrite hd_splitlines_app.
    + rewrite !count_app. cbn [Py.count]. rewrite N.eqb_refl. lia.
    + rewrite no_linebreak_app. unfold no_linebreak at 1. rewrite Hnl.
      reflexivity.
Qed.

(** The counts of the text left after trimming, from the counts of the
    block and the line of the first trailing closing token. *)
Lemma trimmed_balance :
  forall (block B g1 w : str) (gaps : list str) (ok : bool) (o c : nat),
    brace_balance block = (ok, o, c) ->
    o < c ->
    block = B ++ trailing (g1 :: gaps) w ->
    forallb all_space (g1 :: gaps) = true -> all_space w = true ->
    length (g1 :: gaps) = c - o ->
    balanced (Py.rstrip B)
    = is_code_line (last_line (B ++ g1 ++ [RBRACE])).
Proof.
  intros block B g1 w gaps ok o c Hbal Hlt Hblock Hgaps Hw Hlen.
  destruct (rstrip_decomp B) as (wB & HwB & HB).
  pose proof Hgaps as Hg. cbn [forallb] in Hg.
  apply andb_true_iff in Hg as [Hg1 Hg].
  destruct (@trailing_tail (g1 :: gaps) w Hgaps Hw) as [T1 T2].
  set (Z2 := flat_map (fun g => g ++ [RBRACE]) gaps ++ w).
  assert (ET : trailing (g1 :: gaps) w = (g1 ++ [RBRACE]) ++ Z2).
  { unfold trailing, Z2. cbn [flat_map]. rewrite <- !app_assoc.
    reflexivity. }
  assert (EB : block = Py.rstrip B ++ wB ++ (g1 ++ [RBRACE]) ++ Z2).
  { rewrite Hblock. rewrite HB at 1. rewrite ET.
    rewrite <- !app_assoc. reflexivity. }
  assert (HZ : forallb closer_or_space (wB ++ (g1 ++ [RBRACE]) ++ Z2)
               = true).
  { rewrite forallb_app. rewrite (space_tail wB HwB).
    rewrite <- ET. rewrite T1. reflexivity. }
  assert (HZc : Py.count RBRACE (wB ++ (g1 ++ [RBRACE]) ++ Z2) = c - o).
  { rewrite count_app. rewrite (@count_space RBRACE wB eq_refl HwB).
    rewrite <- ET. rewrite T2. exact Hlen. }
  destruct (@uncounted_first_closer (Py.rstrip B) wB g1 Z2
              (rstrip_shape B) HwB Hg1) as [U1 U2].
  rewrite <- HB in U1, U2.
  destruct (brace_balance (Py.rstrip B)) as [[okR oR] cR] eqn:ER.
  destruct (@brace_balance_tail (Py.rstrip B) _ okR oR cR
              (rstrip_shape B) HZ ER) as (n & Hn & Htail).
  rewrite <- EB in Htail. rewrite Hbal in Htail.
  rewrite HZc in Hn. injection Htail as _ Ho Hc.
  unfold balanced. rewrite ER. cbn [fst].
  rewrite (@brace_balance_verdict (Py.rstrip B) okR oR cR ER).
  destruct (is_code_line (last_line (B ++ g1 ++ [RBRACE]))).
  - specialize (U1 eq_refl). apply Nat.eqb_eq. lia.
  - specialize (U2 eq_refl). apply Nat.eqb_neq. lia.
Qed.

Lemma validate_trailing_counted :
  forall (auto_fix : bool) (block lit B g1 w : str) (gaps : list str)
         (ok : bool) (o c : nat),
    ensure_starts_with_if_block block lit = Ok tt ->
    brace_balance block = (ok, o, c) ->
    o < c ->
    block = B ++ trailing (g1 :: gaps) w ->
    forallb all_space (g1 :: gaps) = true -> all_space w = true ->
    length (g1 :: gaps) = c - o ->
    (existsb Py.is_linebreak g1 = true
     \/ is_code_line (last_line (B ++ g1 ++ [RBRACE])) = true) ->
    validate_and_maybe_fix auto_fix block lit = Ok (Py.rstrip B)
    /\ balanced (Py.rstrip B) = true.
Proof.
  intros auto_fix block lit B g1 w gaps ok o c Hshape Hbal Hlt Hblock
         Hgaps Hw Hlen Hline.
  assert (Hcode : is_code_line (last_line (B ++ g1 ++ [RBRACE])) = true).
  { destruct Hline as [Hown | Hc]; [|exact Hc].
    apply closer_own_line; [|exact Hown].
    cbn [forallb] in Hgaps. apply andb_true_iff in Hgaps. exact (proj1 Hgaps). }
  pose proof (@trimmed_balance block B g1 w gaps ok o c Hbal Hlt Hblock
                Hgaps Hw Hlen) as Hb.
  rewrite Hcode in Hb. split; [|exact Hb].
  rewrite (@validate_trailing auto_fix block lit B w (g1 :: gaps) ok o c
             Hshape Hbal Hlt Hblock Hgaps Hw Hlen).
  rewrite Hb. reflexivity.
Qed.

Lemma validate_trailing_uncounted :
  forall (auto_fix : bool) (block lit B g1 w : str) (gaps : list str)
         (ok : bool) (o c : nat),
    ensure_starts_with_if_block block lit = Ok tt ->
    brace_balance block = (ok, o, c) ->
    o < c ->
    block = B ++ trailing (g1 :: gaps) w ->
    forallb all_space (g1 :: gaps) = true -> all_space w = true ->
    length (g1 :: gaps) = c - o ->
    is_code_line (last_line (B ++ g1 ++ [RBRACE])) = false ->
    validate_and_maybe_fix auto_fix block lit = Fail (SurplusNotAtEOF o c).
Proof.
  intros auto_fix block lit B g1 w gaps ok o c Hshape Hbal Hlt Hblock
         Hgaps Hw Hlen Hcode.
  pose proof (@trimmed_balance block B g1 w gaps ok o c Hbal Hlt Hblock
                Hgaps Hw Hlen) as Hb.
  rewrite Hcode in Hb.
  rewrite (@validate_trailing auto_fix block lit B w (g1 :: gaps) ok o c
             Hshape Hbal Hlt Hblock Hgaps Hw Hlen).
  rewrite Hb. reflexivity.
Qed.

Lemma validate_deficit_flag_differs :
  forall (block lit : str) (ok : bool) (o c : nat),
    ensure_starts_with_if_block block lit = Ok tt ->
    brace_balance block = (ok, o, c) ->
    c < o ->
    validate_and_maybe_fix true block lit <> Fail (BraceMismatch o c).
Proof.
  intros block lit ok o c Hshape Hbal Hlt.
  unfold validate_and_maybe_fix. rewrite Hshape, Hbal.
  rewrite (@brace_balance_verdict block ok o c Hbal).
  replace (Nat.eqb o c) with false by (symmetry; apply Nat.eqb_neq; lia).
  replace (0 <? Z.of_nat o - Z.of_nat c)%Z with true
    by (symmetry; apply Z.ltb_lt; lia).
  cbn [andb].
  match goal with
  | |- context [brace_balance ?x] =>
      destruct (brace_balance x) as [[ok2 o2] c2]
  end.
  destruct ok2; discriminate.
Qed.

(** ** C6: trimming surplus closing tokens *)

(** C6. For every block that passes the shape check and whose
    [brace_balance] reports [c - o = k > 0] more closing than opening
    tokens.  (1) If the block ends with [k] closing tokens, each
    optionally preceded by whitespace, and optional final whitespace,
    and the first of these tokens stands on a line of its own or, more
    generally, on a line that [brace_balance] reads, repair removes
    exactly that tail and the result balances.  (2) If the first of
    these tokens stands on a line that [brace_balance] does not read,
    repair fails.  (The line is taken up to the token: what follows the
    token on its line is closing tokens and whitespace, which do not
    change whether the line is read.)  (3) If fewer than [k] closing tokens sit at the end,
    repair fails.  (4) A returned block is a balanced prefix of the
    input, and the removed tail holds [k] closing tokens and whitespace
    only. *)
Theorem trim_surplus_repair :
  forall (auto_fix : bool) (block lit : str) (ok : bool) (o c : nat),
    ensure_starts_with_if_block block lit = Ok tt ->
    brace_balance block = (ok, o, c) ->
    o < c ->
    (forall B g1 gaps w,
        block = B ++ trailing (g1 :: gaps) w ->
        forallb all_space (g1 :: gaps) = true -> all_space w = true ->
        length (g1 :: gaps) = c - o ->
        (existsb Py.is_linebreak g1 = true
         \/ is_code_line (last_line (B ++ g1 ++ [RBRACE])) = true) ->
        validate_and_maybe_fix auto_fix block lit = Ok (Py.rstrip B)
        /\ balanced (Py.rstrip B) = true)
    /\ (forall B g1 gaps w,
           block = B ++ trailing (g1 :: gaps) w ->
           forallb all_space (g1 :: gaps) = true -> all_space w = true ->
           length (g1 :: gaps) = c - o ->
           is_code_line (last_line (B ++ g1 ++ [RBRACE])) = false ->
           validate_and_maybe_fix auto_fix block lit
           = Fail (SurplusNotAtEOF o c))
    /\ (forall B gaps w,
           block = B ++ trailing gaps w ->
           forallb all_space gaps = true -> all_space w = true ->
           length gaps < c - o ->
           Py.endswith (py "}") (Py.rstrip B) = false ->
           validate_and_maybe_fix auto_fix block lit
           = Fail (SurplusNotAtEOF o c))
    /\ (forall r,
           validate_and_maybe_fix auto_fix block lit = Ok r ->
           exists gaps w,
             forallb all_space gaps = true /\ all_space w = true
             /\ length gaps = c - o /\ block = r ++ trailing gaps w
             /\ balanced r = true).
Proof.
  intros auto_fix block lit ok o c Hshape Hbal Hlt.
  split; [|split; [|split]].
  - intros B g1 gaps w. now apply validate_trailing_counted with (ok := ok).
  - intros B g1 gaps w. now apply validate_trailing_uncounted with (ok := ok).
  - intros B gaps w. now apply validate_too_few_closers with (ok := ok).
  - intros r. now apply validate_surplus_prefix with (ok := ok).
Qed.

Lemma trim_surplus_repair_witness :
  validate_and_maybe_fix true ex_surplus (py "@if (a)") = Ok ex_balanced
  /\ balanced ex_balanced = true.
Proof.
  destruct (@trim_surplus_repair true ex_surplus (py "@if (a)") false 1 3)
    as [H _]; [vm_compute; reflexivity | vm_compute; reflexivity | lia |].
  apply (H ex_balanced [LF] [[LF; SP]] [SP]);
    try (vm_compute; reflexivity).
  left. vm_compute. reflexivity.
Defined.

(** [ex_uncounted_closer] has one closing token more than opening
    tokens and ends with exactly one closing token after whitespace.
    That token stands on a markup line, which [brace_balance] does not
    read, so the re-check after trimming still reports imbalance and
    validation fails. *)
Lemma trim_uncounted_closer_fails :
  brace_balance ex_uncounted_closer = (false, 1, 2)
  /\ ex_uncounted_closer
     = nl (py "@if (a)") (nl (py "{") (nl (py "}") (nl (py "}") (py "<p>"))))
       ++ trailing [[SP]] []
  /\ validate_and_maybe_fix true ex_uncounted_closer (py "@if (a)")
     = Fail (SurplusNotAtEOF 1 2)
  /\ validate_and_maybe_fix false ex_uncounted_closer (py "@if (a)")
     = Fail (SurplusNotAtEOF 1 2).
Proof. repeat split; vm_compute; reflexivity. Qed.

(** ** C9: trimming is not gated by the flag *)

(** C9. For every block that passes the shape check.  (1) When closing
    tokens exceed opening tokens, validation with the flag off equals
    validation with the flag on.  (2) When the [c - o] surplus closing
    tokens sit at the end of the block and the first of them stands on a
    line of its own or on a line that [brace_balance] reads, the trimmed
    block is returned with the flag off; (3) when it stands on a line
    that [brace_balance] does not read, validation fails with the flag
    off as with the flag on.  (4) When opening tokens exceed closing
    tokens, validation with the flag off fails with the mismatch error,
    which validation with the flag on never reports. *)
Theorem surplus_trim_ignores_flag :
  forall (block lit : str) (ok : bool) (o c : nat),
    ensure_starts_with_if_block block lit = Ok tt ->
    brace_balance block = (ok, o, c) ->
    (o < c ->
     validate_and_maybe_fix false block lit
     = validate_and_maybe_fix true block lit
     /\ (forall B g1 gaps w,
            block = B ++ trailing (g1 :: gaps) w ->
            forallb all_space (g1 :: gaps) = true -> all_space w = true ->
            length (g1 :: gaps) = c - o ->
            (existsb Py.is_linebreak g1 = true
             \/ is_code_line (last_line (B ++ g1 ++ [RBRACE])) = true) ->
            validate_and_maybe_fix false block lit = Ok (Py.rstrip B))
     /\ (forall B g1 gaps w,
            block = B ++ trailing (g1 :: gaps) w ->
            forallb all_space (g1 :: gaps) = true -> all_space w = true ->
            length (g1 :: gaps) = c - o ->
            is_code_line (last_line (B ++ g1 ++ [RBRACE])) = false ->
            validate_and_maybe_fix false block lit
            = Fail (SurplusNotAtEOF o c)))
    /\ (c < o ->
        validate_and_maybe_fix false block lit = Fail (BraceMismatch o c)
        /\ validate_and_maybe_fix true block lit <> Fail (BraceMismatch o c)).
Proof.
  intros block lit ok o c Hshape Hbal. split; intros Hlt.
  - split; [|split].
    + now rewrite !(@validate_surplus _ block lit ok o c Hshape Hbal Hlt).
    + intros B g1 gaps w Hblock Hg Hw Hlen Hline.
      exact (proj1 (@validate_trailing_counted false block lit B g1 w gaps
                      ok o c Hshape Hbal Hlt Hblock Hg Hw Hlen Hline)).
    + intros B g1 gaps w. now apply validate_trailing_uncounted with (ok := ok).
  - split.
    + now apply validate_deficit_no_flag with (ok := ok).
    + now apply validate_deficit_flag_differs with (ok := ok).
Qed.

Lemma surplus_trim_ignores_flag_witness :
  validate_and_maybe_fix false ex_surplus (py "@if (a)") = Ok ex_balanced.
Proof.
  destruct (@surplus_trim_ignores_flag ex_surplus (py "@if (a)") false 1 3)
    as [H _]; [vm_compute; reflexivity | vm_compute; reflexivity |].
  destruct H as (_ & H & _); [lia|].
  apply (H ex_balanced [LF] [[LF; SP]] [SP]);
    try (vm_compute; reflexivity).
  left. vm_compute. reflexivity.
Defined.

(** [ex_closer_after_markup] passes the shape check, has one closing
    token more than opening tokens, and that surplus token is the last
    character of the block.  It stands after markup, on a line that
    [brace_balance] does not read, so with the flag off the block is
    trimmed, the re-check still reports imbalance, and no repaired
    block is returned. *)
Lemma flag_off_uncounted_closer_fails :
  ensure_starts_with_if_block ex_closer_after_markup (py "@if (a)") = Ok tt
  /\ brace_balance ex_closer_after_markup = (false, 1, 2)
  /\ ex_closer_after_markup
     = nl (py "@if (a)")
          (nl (py "{") (nl (py "}") (nl (py "}") (py "</div>"))))
       ++ trailing [[SP]] []
  /\ validate_and_maybe_fix false ex_closer_after_markup (py "@if (a)")
     = Fail (SurplusNotAtEOF 1 2).
Proof. repeat split; vm_compute; reflexivity. Qed.

(** * Region markers and the comparison *)

(** ** What the region pattern matches *)

Lemma ci_eq_inv :
  forall p c, Re.ci_eq p c = true ->
    c = Re.lower p \/ ((c + 32)%N = Re.lower p /\ (65 <= c <= 90)%N)
    \/ c = 304%N \/ c = 305%N \/ c = 383%N \/ c = 8490%N.
Proof.
  intros p c H. unfold Re.ci_eq in H.
  repeat rewrite ?orb_true_iff, ?andb_true_iff, ?N.eqb_eq in H.
  destruct H as [[[H | [_ [H | H]]] | [_ H]] | [_ H]]; auto 10.
  unfold Re.lower in H at 2.
  destruct (in_range 65%N 90%N c) eqn:R.
  - unfold in_range in R. rewrite andb_true_iff, !N.leb_le in R.
    right. left. split; [symmetry; exact H | exact R].
  - left. symmetry. exact H.
Qed.

Lemma ci_eq_not_lt :
  forall p c, N.eqb (Re.lower p) 60%N = false -> Re.ci_eq p c = true ->
              N.eqb 60%N c = false.
Proof.
  intros p c Hp H. apply N.eqb_neq in Hp. apply N.eqb_neq. intros <-.
  destruct (ci_eq_inv _ _ H) as [E | [[E R] | [E | [E | [E | E]]]]];
    try discriminate; lia.
Qed.

Lemma ci_match_no_lt :
  forall p s,
    forallb (fun a => negb (N.eqb (Re.lower a) 60%N)) p = true ->
    ci_match p s = true -> @existsb char (N.eqb 60%N) s = false.
Proof.
  induction p as [|a p IH]; intros [|c s] Hp H; try discriminate;
    [reflexivity|].
  cbn [forallb] in Hp. apply andb_true_iff in Hp as [Ha Hp].
  apply negb_true_iff in Ha.
  cbn [ci_match] in H. apply andb_true_iff in H as [Hc H].
  cbn [existsb]. rewrite (ci_eq_not_lt _ _ Ha Hc). apply (IH s Hp H).
Qed.

Lemma ci_eq_R_not_space :
  forall c, Re.ci_eq 82%N c = true -> Py.isspace c = false.
Proof.
  intros c H.
  destruct (ci_eq_inv _ _ H) as [E | [[E R] | [E | [E | [E | E]]]]];
    try (subst c; reflexivity).
  change (Re.lower 82%N) with 114%N in E.
  assert (c = 82%N) by lia. subst c. reflexivity.
Qed.

Lemma ci_eq_dot :
  forall c, Re.ci_eq 46%N c = true -> c = 46%N.
Proof.
  intros c H.
  destruct (ci_eq_inv _ _ H) as [E | [[E R] | [E | [E | [E | E]]]]];
    try (subst c; discriminate).
  - exact E.
  - change (Re.lower 46%N) with 46%N in E. lia.
Qed.

Lemma ci_eq_E_not_S :
  forall c, Re.ci_eq 69%N c = true -> Re.ci_eq 83%N c = false.
Proof.
  intros c H.
  destruct (ci_eq_inv _ _ H) as [E | [[E R] | [E | [E | [E | E]]]]];
    try (subst c; try reflexivity; discriminate).
  change (Re.lower 69%N) with 101%N in E.
  assert (c = 69%N) by lia. subst c. reflexivity.
Qed.

Lemma ci_match_length :
  forall p s, ci_match p s = true -> length s = length p.
Proof.
  induction p as [|a p IH]; intros [|c s] H; try discriminate;
    [reflexivity|].
  cbn [ci_match] in H. apply andb_true_iff in H as [_ H].
  cbn [length]. f_equal. apply IH. exact H.
Qed.

Lemma ci_match_app_inv :
  forall p (s s' x x' : str),
    ci_match p s = true -> ci_match p s' = true ->
    s ++ x = s' ++ x' -> s = s' /\ x = x'.
Proof.
  induction p as [|a p IH]; intros [|c s] [|c' s'] x x' H H' E;
    try discriminate.
  - split; [reflexivity | exact E].
  - cbn [ci_match] in H, H'.
    apply andb_true_iff in H as [_ H]. apply andb_true_iff in H' as [_ H'].
    cbn [app] in E. injection E as Ec E.
    destruct (IH s s' x x' H H' E) as [-> ->]. subst c'. auto.
Qed.

Lemma word_not_space :
  forall uni c, no_space_words uni ->
                Re.is_word uni c = true -> Py.isspace c = false.
Proof.
  intros uni c Huni H. unfold Re.is_word in H.
  destruct (N.ltb c 128%N).
  - apply ident_char_not_space. exact H.
  - destruct (Py.isspace c) eqn:E; [|reflexivity].
    rewrite (Huni c E) in H. discriminate.
Qed.

Lemma word_not_lt :
  forall uni c, Re.is_word uni c = true -> N.eqb 60%N c = false.
Proof.
  intros uni c H. apply N.eqb_neq. intros <-. discriminate.
Qed.

Lemma space_not_lt :
  forall w, all_space w = true -> @existsb char (N.eqb 60%N) w = false.
Proof.
  induction w as [|c w IH]; intros H; [reflexivity|].
  unfold all_space in H. cbn [forallb] in H.
  apply andb_true_iff in H as [Hc Hw]. cbn [existsb].
  rewrite (IH Hw). rewrite orb_false_r.
  apply N.eqb_neq. intros <-. discriminate.
Qed.

Lemma rmatch_lits_inv :
  forall p s k y,
    Re.rmatch (Re.lits p) s k = Some y ->
    exists s', s = p ++ s' /\ k s' = Some y.
Proof.
  intros p s k y H. unfold Re.lits in H.
  rewrite <- (app_nil_r (map Re.Lit p)) in H.
  apply rmatch_cat_lits_inv in H. destruct H as (s' & -> & H).
  exists s'. auto.
Qed.

Lemma rmatch_lits_i_inv :
  forall p s k y,
    Re.rmatch (Re.lits_i p) s k = Some y ->
    exists m s', s = m ++ s' /\ ci_match p m = true /\ k s' = Some y.
Proof.
  induction p as [|a p IH]; intros s k y H.
  - exists [], s. auto.
  - unfold Re.lits_i in H. cbn [map] in H.
    rewrite rmatch_cat_cons, rmatch_Cls in H.
    destruct s as [|c t]; [discriminate|].
    destruct (Re.ci_eq a c) eqn:Hc; [|discriminate].
    destruct (IH t k y H) as (m & s' & -> & Hm & Hk).
    exists (c :: m), s'. split; [reflexivity|]. split; [|exact Hk].
    cbn [ci_match]. rewrite Hc. exact Hm.
Qed.

Lemma rmatch_lits_i_ci :
  forall p m s k, ci_match p m = true ->
                  Re.rmatch (Re.lits_i p) (m ++ s) k = k s.
Proof.
  induction p as [|a p IH]; intros [|c m] s k H; try discriminate;
    [reflexivity|].
  cbn [ci_match] in H. apply andb_true_iff in H as [Hc H].
  unfold Re.lits_i in *. cbn [map]. rewrite rmatch_cat_cons, rmatch_Cls.
  cbn [app]. rewrite Hc. apply IH. exact H.
Qed.

Lemma rmatch_star_cls_inv :
  forall p s k y,
    Re.rmatch (Re.Star true (Re.Cls p)) s k = Some y ->
    exists run s', s = run ++ s' /\ forallb p run = true /\ k s' = Some y.
Proof.
  intros p s k y H. rewrite rmatch_star_greedy_cls in H.
  apply greedy_cls_inv. exact H.
Qed.

Lemma rmatch_plus_cls_inv :
  forall p s k y,
    Re.rmatch (Re.Plus (Re.Cls p)) s k = Some y ->
    exists run s', run <> [] /\ s = run ++ s' /\ forallb p run = true
                   /\ k s' = Some y.
Proof.
  intros p s k y H. rewrite rmatch_plus_cls in H.
  destruct s as [|c t]; [discriminate|].
  destruct (p c) eqn:Hc; [|discriminate].
  apply greedy_cls_inv in H. destruct H as (run & s' & -> & Hr & Hk).
  exists (c :: run), s'. split; [discriminate|]. split; [reflexivity|].
  split; [|exact Hk]. cbn [forallb]. rewrite Hc. exact Hr.
Qed.

(** A match of the region pattern is a region marker. *)
Lemma region_match_sound :
  forall uni tag t rest,
    Re.match_at (re_region uni tag) t = Some rest ->
    exists m, is_marker uni tag m /\ t = m ++ rest.
Proof.
  intros uni tag t rest H. unfold Re.match_at, re_region in H.
  rewrite rmatch_cat_cons in H.
  apply rmatch_lits_inv in H. destruct H as (t1 & -> & H).
  rewrite rmatch_cat_cons in H. unfold Re.ws in H at 1.
  apply rmatch_star_cls_inv in H. destruct H as (w1 & t2 & -> & Hw1 & H).
  rewrite rmatch_cat_cons in H.
  apply rmatch_lits_i_inv in H. destruct H as (R & t3 & -> & HR & H).
  rewrite rmatch_cat_cons in H. unfold Re.ws in H at 1.
  apply rmatch_star_cls_inv in H. destruct H as (w2 & t4 & -> & Hw2 & H).
  rewrite rmatch_cat_cons in H.
  apply rmatch_plus_cls_inv in H.
  destruct H as (name & t5 & Hne & -> & Hname & H).
  rewrite rmatch_cat_cons in H.
  apply rmatch_lits_i_inv in H. destruct H as (d & t6 & -> & Hd & H).
  rewrite rmatch_cat_cons in H.
  apply rmatch_lits_i_inv in H. destruct H as (T & t7 & -> & HT & H).
  rewrite rmatch_cat_cons in H. unfold Re.ws in H at 1.
  apply rmatch_star_cls_inv in H. destruct H as (w3 & t8 & -> & Hw3 & H).
  rewrite rmatch_cat_cons in H.
  apply rmatch_lits_inv in H. destruct H as (t9 & -> & H).
  rewrite rmatch_cat_nil in H. injection H as ->.
  change (py ".") with [46%N] in Hd.
  destruct d as [|d0 [|d1 d]]; cbn [ci_match] in Hd;
    [discriminate | | rewrite andb_false_r in Hd; discriminate].
  rewrite andb_true_r in Hd. apply ci_eq_dot in Hd. subst d0.
  exists (marker_text w1 R w2 name T w3). split.
  - constructor; assumption.
  - unfold marker_text. rewrite <- !app_assoc. reflexivity.
Qed.

Lemma marker_text_app :
  forall w1 R w2 name T w3 rest,
    marker_text w1 R w2 name T w3 ++ rest
    = py "<!--" ++ w1 ++ R ++ w2 ++ name ++ py "." ++ T ++ w3
      ++ py "-->" ++ rest.
Proof.
  intros. unfold marker_text. rewrite <- !app_assoc. reflexivity.
Qed.

Lemma greedy_cls_run_stop :
  forall p k run (c : char) t r,
    forallb p run = true -> p c = false -> k (c :: t) = Some r ->
    greedy_cls p k (run ++ c :: t) = Some r.
Proof.
  intros p k run c t r Hrun Hc Hk.
  apply greedy_cls_run_ok; [exact Hrun|].
  rewrite (@greedy_cls_stop p k c t Hc). exact Hk.
Qed.

(** The region pattern matches a region marker of its tag, and exactly
    it. *)
Lemma region_match_complete :
  forall uni tag m rest,
    no_space_words uni -> is_marker uni tag m ->
    Re.match_at (re_region uni tag) (m ++ rest) = Some rest.
Proof.
  intros uni tag m rest Huni Hm.
  destruct Hm as [w1 R w2 name T w3 Hw1 HR Hw2 Hne Hname HT Hw3].
  rewrite marker_text_app. unfold Re.match_at, re_region.
  rewrite rmatch_cat_cons, rmatch_lits_app.
  rewrite rmatch_cat_cons. unfold Re.ws at 1. rewrite rmatch_star_greedy_cls.
  destruct R as [|r0 R']; [discriminate|].
  pose proof HR as HR0. cbn [ci_match] in HR0.
  apply andb_true_iff in HR0 as [Hr0 _]. change (Re.ci_eq 82%N r0 = true) in Hr0.
  cbn [app].
  apply greedy_cls_run_stop;
    [exact Hw1 | exact (ci_eq_R_not_space _ Hr0) |].
  change (r0 :: R' ++ w2 ++ name ++ py "." ++ T ++ w3 ++ py "-->" ++ rest)
    with ((r0 :: R') ++ w2 ++ name ++ py "." ++ T ++ w3 ++ py "-->" ++ rest).
  rewrite rmatch_cat_cons. rewrite (@rmatch_lits_i_ci _ _ _ _ HR).
  rewrite rmatch_cat_cons. unfold Re.ws at 1. rewrite rmatch_star_greedy_cls.
  destruct name as [|n0 name']; [congruence|].
  cbn [forallb] in Hname. apply andb_true_iff in Hname as [Hn0 Hname].
  cbn [app].
  apply greedy_cls_run_stop;
    [exact Hw2 | exact (word_not_space _ Huni Hn0) |].
  rewrite rmatch_cat_cons, rmatch_plus_cls. rewrite Hn0.
  change (py "." ++ T ++ w3 ++ py "-->" ++ rest)
    with (46%N :: (T ++ w3 ++ py "-->" ++ rest)).
  apply greedy_cls_run_stop; [exact Hname | reflexivity |].
  change (46%N :: (T ++ w3 ++ py "-->" ++ rest))
    with (py "." ++ T ++ w3 ++ py "-->" ++ rest).
  rewrite rmatch_cat_cons, rmatch_lits_i_app.
  rewrite rmatch_cat_cons. rewrite (@rmatch_lits_i_ci _ _ _ _ HT).
  rewrite rmatch_cat_cons. unfold Re.ws at 1. rewrite rmatch_star_greedy_cls.
  change (py "-->" ++ rest) with (45%N :: (py "->" ++ rest)).
  apply greedy_cls_run_stop; [exact Hw3 | reflexivity |].
  change (45%N :: (py "->" ++ rest)) with (py "-->" ++ rest).
  rewrite rmatch_cat_cons, rmatch_lits_app. reflexivity.
Qed.

(** A region marker begins with [<] and holds no other [<]. *)
Lemma marker_no_lt :
  forall uni tag m,
    tag_text tag = true -> is_marker uni tag m ->
    exists m', m = 60%N :: m' /\ @existsb char (N.eqb 60%N) m' = false.
Proof.
  intros uni tag m Htag Hm.
  destruct Hm as [w1 R w2 name T w3 Hw1 HR Hw2 Hne Hname HT Hw3].
  exists (py "!--" ++ w1 ++ R ++ w2 ++ name ++ py "." ++ T ++ w3 ++ py "-->").
  split; [reflexivity|].
  rewrite !existsb_app.
  rewrite (space_not_lt _ Hw1), (space_not_lt _ Hw2), (space_not_lt _ Hw3).
  rewrite (@ci_match_no_lt (py "REGION:") R eq_refl HR).
  rewrite (@ci_match_no_lt (py tag) T Htag HT).
  assert (Hn : @existsb char (N.eqb 60%N) name = false).
  { clear Hne. induction name as [|c name IH]; [reflexivity|].
    cbn [forallb] in Hname. apply andb_true_iff in Hname as [Hc Hname].
    cbn [existsb]. rewrite (word_not_lt _ _ Hc). apply IH. exact Hname. }
  rewrite Hn. reflexivity.
Qed.

(** ** Removing region markers in any spelling *)

Lemma run_split_unique :
  forall (p : char -> bool) (run run' : str) (a a' : char) (x x' : str),
    forallb p run = true -> forallb p run' = true ->
    p a = false -> p a' = false ->
    run ++ a :: x = run' ++ a' :: x' ->
    run = run' /\ a :: x = a' :: x'.
Proof.
  intros p. induction run as [|c run IH]; intros [|c' run'] a a' x x'
    Hr Hr' Ha Ha' E; cbn [app] in E.
  - auto.
  - injection E as -> _. cbn [forallb] in Hr'.
    apply andb_true_iff in Hr' as [Hc _]. congruence.
  - injection E as <- _. cbn [forallb] in Hr.
    apply andb_true_iff in Hr as [Hc _]. congruence.
  - injection E as -> E. cbn [forallb] in Hr, Hr'.
    apply andb_true_iff in Hr as [_ Hr]. apply andb_true_iff in Hr' as [_ Hr'].
    destruct (IH run' a a' x x' Hr Hr' Ha Ha' E) as [-> E']. auto.
Qed.

(** The pattern of the Start marker does not match an End marker, in
    any spelling. *)
Lemma start_not_end :
  forall uni m rest,
    no_space_words uni -> is_marker uni "End" m ->
    Re.match_at (re_region uni "Start") (m ++ rest) = None.
Proof.
  intros uni m rest Huni Hm.
  destruct (Re.match_at (re_region uni "Start") (m ++ rest)) as [r|] eqn:E;
    [exfalso | reflexivity].
  apply region_match_sound in E. destruct E as (m' & Hm' & E).
  destruct Hm as [w1 R w2 name T w3 Hw1 HR Hw2 Hne Hname HT Hw3].
  destruct Hm' as [v1 Q v2 name' T' v3 Hv1 HQ Hv2 Hne' Hname' HT' Hv3].
  rewrite !marker_text_app in E. apply app_inv_head in E.
  destruct R as [|r0 R1]; [discriminate|].
  destruct Q as [|q0 Q1]; [discriminate|].
  pose proof HR as HR0. cbn [ci_match] in HR0.
  apply andb_true_iff in HR0 as [Hr0 _].
  pose proof HQ as HQ0. cbn [ci_match] in HQ0.
  apply andb_true_iff in HQ0 as [Hq0 _].
  change (Re.ci_eq 82%N r0 = true) in Hr0.
  change (Re.ci_eq 82%N q0 = true) in Hq0.
  cbn [app] in E.
  apply (@run_split_unique Py.isspace) in E;
    [| exact Hw1 | exact Hv1 | exact (ci_eq_R_not_space _ Hr0)
     | exact (ci_eq_R_not_space _ Hq0)].
  destruct E as [_ E].
  change (r0 :: R1 ++ w2 ++ name ++ py "." ++ T ++ w3 ++ py "-->" ++ rest)
    with ((r0 :: R1) ++ w2 ++ name ++ py "." ++ T ++ w3 ++ py "-->" ++ rest)
    in E.
  change (q0 :: Q1 ++ v2 ++ name' ++ py "." ++ T' ++ v3 ++ py "-->" ++ r)
    with ((q0 :: Q1) ++ v2 ++ name' ++ py "." ++ T' ++ v3 ++ py "-->" ++ r)
    in E.
  apply (ci_match_app_inv _ _ _ _ _ HR HQ) in E. destruct E as [_ E].
  destruct name as [|n0 nm]; [congruence|].
  destruct name' as [|n0' nm']; [congruence|].
  pose proof Hname as Hn. cbn [forallb] in Hn.
  apply andb_true_iff in Hn as [Hn0 _].
  pose proof Hname' as Hn'. cbn [forallb] in Hn'.
  apply andb_true_iff in Hn' as [Hn0' _].
  cbn [app] in E.
  apply (@run_split_unique Py.isspace) in E;
    [| exact Hw2 | exact Hv2 | exact (word_not_space _ Huni Hn0)
     | exact (word_not_space _ Huni Hn0')].
  destruct E as [_ E].
  change (n0 :: nm ++ py "." ++ T ++ w3 ++ py "-->" ++ rest)
    with ((n0 :: nm) ++ 46%N :: (T ++ w3 ++ py "-->" ++ rest)) in E.
  change (n0' :: nm' ++ py "." ++ T' ++ v3 ++ py "-->" ++ r)
    with ((n0' :: nm') ++ 46%N :: (T' ++ v3 ++ py "-->" ++ r)) in E.
  apply (@run_split_unique (Re.is_word uni)) in E;
    [| exact Hname | exact Hname' | reflexivity | reflexivity].
  destruct E as [_ E]. injection E as E.
  change (py "End") with (69%N :: py "nd") in HT.
  change (py "Start") with (83%N :: py "tart") in HT'.
  destruct T as [|t0 T1]; [discriminate|].
  destruct T' as [|t0' T1']; [discriminate|].
  cbn [ci_match] in HT, HT'.
  apply andb_true_iff in HT as [Ht0 _]. apply andb_true_iff in HT' as [Ht0' _].
  cbn [app] in E. injection E as -> _.
  rewrite (ci_eq_E_not_S _ Ht0) in Ht0'. discriminate.
Qed.

(** A stretch of the wrapped text without [<] is a stretch of the text
    itself. *)
Lemma wrapped_prefix :
  forall uni b g s,
    wrapped uni b g s ->
    forall u v, g = u ++ v -> @existsb char (N.eqb 60%N) u = false ->
                exists s2, s = u ++ s2.
Proof.
  intros uni b g s H.
  induction H as [|c g s H IH|m g s Hb Hm H IH|m g s Hm H IH];
    intros u v E Hu.
  - destruct u; [|discriminate]. exists []. reflexivity.
  - destruct u as [|x u].
    + exists (c :: s). reflexivity.
    + cbn [app] in E. injection E as <- E.
      cbn [existsb] in Hu. apply orb_false_iff in Hu as [_ Hu].
      destruct (IH u v E Hu) as (s2 & ->). exists s2. reflexivity.
  - destruct u as [|x u]; [exists s; reflexivity|].
    destruct (@marker_no_lt uni "Start" m eq_refl Hm) as (m' & -> & _).
    cbn [app] in E. injection E as <- _.
    cbn [existsb] in Hu. discriminate.
  - destruct u as [|x u]; [exists s; reflexivity|].
    destruct (@marker_no_lt uni "End" m eq_refl Hm) as (m' & -> & _).
    cbn [app] in E. injection E as <- _.
    cbn [existsb] in Hu. discriminate.
Qed.

Lemma marker_free_cons :
  forall uni (c : char) s,
    marker_free uni (c :: s) = true ->
    Re.match_at (re_region uni "Start") (c :: s) = None
    /\ Re.match_at (re_region uni "End") (c :: s) = None
    /\ marker_free uni s = true.
Proof.
  intros uni c s H. cbn [marker_free] in H.
  apply andb_true_iff in H as [H1 H2]. apply negb_true_iff in H1.
  unfold marker_at in H1.
  destruct (Re.match_at (re_region uni "Start") (c :: s));
    [discriminate|].
  destruct (Re.match_at (re_region uni "End") (c :: s));
    [discriminate|].
  auto.
Qed.

(** No pattern matches at a character of the text itself. *)
Lemma copied_no_match :
  forall uni (tag : string) b (c : char) g s,
    no_space_words uni ->
    tag = "Start"%string \/ tag = "End"%string ->
    wrapped uni b g s ->
    marker_free uni (c :: s) = true ->
    Re.match_at (re_region uni tag) (c :: g) = None.
Proof.
  intros uni tag b c g s Huni Htag Hw Hfree.
  destruct (Re.match_at (re_region uni tag) (c :: g)) as [r|] eqn:E;
    [exfalso | reflexivity].
  apply region_match_sound in E. destruct E as (m & Hm & E).
  assert (Htt : tag_text tag = true) by (destruct Htag; subst; reflexivity).
  destruct (@marker_no_lt uni tag m Htt Hm) as (m' & Em & Hm').
  rewrite Em in E. cbn [app] in E. injection E as -> E.
  destruct (@wrapped_prefix uni b g s Hw m' r E Hm') as (s2 & ->).
  pose proof (@region_match_complete uni tag m s2 Huni Hm) as Hc.
  rewrite Em in Hc. cbn [app] in Hc.
  destruct (marker_free_cons _ _ _ Hfree) as (H1 & H2 & _).
  destruct Htag; subst tag; congruence.
Qed.

Lemma sub_go_copy_no_lt :
  forall uni tag (x rest : str),
    @existsb char (N.eqb 60%N) x = false ->
    Re.sub_go (re_region uni tag) [] 0 (x ++ rest)
    = x ++ Re.sub_go (re_region uni tag) [] 0 rest.
Proof.
  intros uni tag x rest. induction x as [|c x IH]; intros H; [reflexivity|].
  cbn [existsb] in H. apply orb_false_iff in H as [Hc H].
  cbn [app]. rewrite sub_go_none.
  - rewrite (IH H). reflexivity.
  - unfold Re.match_at, re_region. rewrite rmatch_cat_cons.
    apply rmatch_lits_fail.
    change (py "<!--") with (60%N :: py "!--"). cbn [Py.startswith].
    rewrite Hc. reflexivity.
Qed.

Lemma is_marker_nonempty :
  forall uni tag m, is_marker uni tag m -> m <> [].
Proof. intros uni tag m H. destruct H. discriminate. Qed.

(** The first pass removes the Start markers and keeps the rest. *)
Lemma sub_start_wrapped :
  forall uni b g s,
    no_space_words uni ->
    wrapped uni b g s -> marker_free uni s = true ->
    wrapped uni false (Re.sub_go (re_region uni "Start") [] 0 g) s.
Proof.
  intros uni b g s Huni H.
  induction H as [|c g s H IH|m g s Hb Hm H IH|m g s Hm H IH]; intros Hfree.
  - rewrite sub_region_nil. constructor.
  - rewrite sub_go_none.
    + apply wrapped_char. apply IH.
      exact (proj2 (proj2 (marker_free_cons _ _ _ Hfree))).
    + apply (@copied_no_match uni "Start" b c g s Huni); auto.
  - rewrite (@sub_go_hit (re_region uni "Start") [] m g
               (is_marker_nonempty Hm)
               (@region_match_complete uni "Start" m g Huni Hm)).
    cbn [app]. apply IH. exact Hfree.
  - destruct (@marker_no_lt uni "End" m eq_refl Hm) as (m' & Em & Hm').
    assert (E : Re.sub_go (re_region uni "Start") [] 0 (m ++ g)
                = m ++ Re.sub_go (re_region uni "Start") [] 0 g).
    { pose proof (@start_not_end uni m g Huni Hm) as Hno.
      rewrite Em in Hno. rewrite Em. cbn [app] in Hno. cbn [app].
      etransitivity; [exact (@sub_go_none _ [] 60%N (m' ++ g) Hno)|].
      apply (f_equal (cons 60%N)).
      exact (@sub_go_copy_no_lt uni "Start" m' g Hm'). }
    rewrite E. apply wrapped_end; [exact Hm|]. apply IH. exact Hfree.
Qed.

(** The second pass removes the End markers. *)
Lemma sub_end_wrapped :
  forall uni g s,
    no_space_words uni ->
    wrapped uni false g s -> marker_free uni s = true ->
    Re.sub_go (re_region uni "End") [] 0 g = s.
Proof.
  intros uni g s Huni H.
  induction H as [|c g s H IH|m g s Hb Hm H IH|m g s Hm H IH]; intros Hfree.
  - apply sub_region_nil.
  - rewrite sub_go_none.
    + f_equal. apply IH.
      exact (proj2 (proj2 (marker_free_cons _ _ _ Hfree))).
    + apply (@copied_no_match uni "End" false c g s Huni); auto.
  - discriminate.
  - rewrite (@sub_go_hit (re_region uni "End") [] m g
               (is_marker_nonempty Hm)
               (@region_match_complete uni "End" m g Huni Hm)).
    cbn [app]. apply IH. exact Hfree.
Qed.

Lemma strip_wrapped :
  forall uni g s,
    no_space_words uni ->
    wrapped uni true g s -> marker_free uni s = true ->
    strip_region_wrappers uni g = s.
Proof.
  intros uni g s Huni H Hfree. unfold strip_region_wrappers, Re.sub.
  cbv zeta. apply sub_end_wrapped; [exact Huni | | exact Hfree].
  apply (@sub_start_wrapped uni true g s Huni H Hfree).
Qed.

Lemma wrapped_refl : forall uni b s, wrapped uni b s s.
Proof.
  intros uni b s. induction s as [|c s IH]; constructor. exact IH.
Qed.

Lemma wrapped_copy :
  forall uni b (x g s : str),
    wrapped uni b g s -> wrapped uni b (x ++ g) (x ++ s).
Proof.
  intros uni b x g s H. induction x as [|c x IH]; [exact H|].
  cbn [app]. constructor. exact IH.
Qed.

Lemma region_marker_is_marker :
  forall uni name tag,
    name <> [] -> forallb ident_char name = true ->
    is_marker uni tag (region_marker name tag).
Proof.
  intros uni name tag Hne Hname.
  assert (E : region_marker name tag
              = marker_text [SP] (py "REGION:") [SP] name (py tag) [SP]).
  { unfold region_marker, marker_text.
    repeat (rewrite <- ?app_assoc, <- ?app_comm_cons). reflexivity. }
  rewrite E. clear E.
  constructor; try reflexivity; try assumption.
  - apply ident_chars_word. exact Hname.
  - induction (py tag) as [|c t IH]; [reflexivity|].
    cbn [ci_match]. rewrite ci_eq_refl. exact IH.
Qed.

Lemma compare_wrapped :
  forall uni e g P post,
    no_space_words uni ->
    wrapped uni true g (lines_text P ++ e ++ post) ->
    marker_free uni (lines_text P ++ e ++ post) = true ->
    noise_prefix P ->
    Forall (fun l => no_linebreak l = true) P ->
    all_space post = true ->
    (P = [] \/ Py.startswith [BOM] e = false) ->
    compare uni e g = Match.
Proof.
  intros uni e g P post Huni Hw Hfree HP Hnl Hpost Hbom.
  apply (@compare_noise_wrapped uni e g P post); try assumption.
  apply strip_wrapped; assumption.
Qed.

Lemma compare_marker_pair :
  forall uni m1 m2 e P post,
    no_space_words uni ->
    is_marker uni "Start" m1 -> is_marker uni "End" m2 ->
    marker_free uni (lines_text P ++ LF :: e ++ LF :: post) = true ->
    noise_prefix P ->
    Forall (fun l => no_linebreak l = true) P ->
    all_space post = true ->
    Py.startswith [BOM] e = false ->
    compare uni e (lines_text P ++ m1 ++ (LF :: e ++ [LF]) ++ m2 ++ post)
    = Match.
Proof.
  intros uni m1 m2 e P post Huni H1 H2 Hfree HP Hnl Hpost Hbom.
  assert (E : lines_text P ++ LF :: e ++ LF :: post
              = lines_text (P ++ [[]]) ++ e ++ LF :: post).
  { unfold lines_text. rewrite flat_map_app. cbn [flat_map app].
    rewrite <- !app_assoc. reflexivity. }
  apply (@compare_wrapped uni e _ (P ++ [[]]) (LF :: post) Huni).
  - rewrite <- E. apply wrapped_copy.
    apply wrapped_start; [reflexivity | exact H1 |].
    assert (E2 : LF :: e ++ LF :: post = (LF :: e ++ [LF]) ++ post).
    { cbn [app]. rewrite <- app_assoc. reflexivity. }
    rewrite E2. apply wrapped_copy.
    apply wrapped_end; [exact H2|]. apply wrapped_refl.
  - rewrite <- E. exact Hfree.
  - apply noise_prefix_app; [assumption|].
    apply noise_blank; [reflexivity | constructor].
  - apply Forall_app. split; [assumption | now repeat constructor].
  - unfold all_space in *. cbn [forallb]. now rewrite Hpost.
  - now right.
Qed.

(** ** C4: the comparison *)

(** C4. (1) [compare] removes region markers from the candidate only,
    normalizes the head of both sides and reports [Match] exactly when
    the two sides are equal after collapsing whitespace runs and
    trimming; the lines handed to the diff play no part in the verdict.
    (2) Region markers are removed from the candidate in any spelling
    the patterns accept, any number of them and wherever they stand,
    the text around them holding no marker of its own.  (3) If the
    candidate without its markers is the expected text preceded by
    blank lines and by comments that occupy whole lines, and followed
    by whitespace, the verdict is [Match]; (4) so is it for a candidate
    from which removing the markers leaves such a text, and (5) in
    particular for a candidate that puts the expected text, on lines of
    its own, between a Start and an End marker, after such head noise. *)
Theorem compare_spec :
  forall uni : char -> bool,
    (forall e g,
        compare uni e g = Match
        <-> norm_ws (_strip_leading_noise e)
            = norm_ws (_strip_leading_noise (strip_region_wrappers uni g)))
    /\ (forall g s,
           no_space_words uni ->
           wrapped uni true g s -> marker_free uni s = true ->
           strip_region_wrappers uni g = s)
    /\ (forall e g P post,
           strip_region_wrappers uni g = lines_text P ++ e ++ post ->
           noise_prefix P ->
           Forall (fun l => no_linebreak l = true) P ->
           all_space post = true ->
           (P = [] \/ Py.startswith [BOM] e = false) ->
           compare uni e g = Match)
    /\ (forall e g P post,
           no_space_words uni ->
           wrapped uni true g (lines_text P ++ e ++ post) ->
           marker_free uni (lines_text P ++ e ++ post) = true ->
           noise_prefix P ->
           Forall (fun l => no_linebreak l = true) P ->
           all_space post = true ->
           (P = [] \/ Py.startswith [BOM] e = false) ->
           compare uni e g = Match)
    /\ (forall m1 m2 e P post,
           no_space_words uni ->
           is_marker uni "Start" m1 -> is_marker uni "End" m2 ->
           marker_free uni (lines_text P ++ LF :: e ++ LF :: post) = true ->
           noise_prefix P ->
           Forall (fun l => no_linebreak l = true) P ->
           all_space post = true ->
           Py.startswith [BOM] e = false ->
           compare uni e
             (lines_text P ++ m1 ++ (LF :: e ++ [LF]) ++ m2 ++ post)
           = Match).
Proof.
  intros uni. split; [|split; [|split; [|split]]].
  - apply compare_match_iff.
  - intros g s. apply strip_wrapped.
  - intros e g P post. apply compare_noise_wrapped.
  - intros e g P post. apply compare_wrapped.
  - intros m1 m2 e P post. apply compare_marker_pair.
Qed.

Lemma compare_spec_witness :
  compare no_unicode_words ex_expected ex_wrapped_spelled = Match.
Proof.
  destruct (compare_spec no_unicode_words) as (_ & _ & _ & _ & H).
  apply (H ex_start_marker ex_end_marker ex_expected
           [py "<!-- generated -->"] [LF]).
  - intros c _. reflexivity.
  - unfold ex_start_marker. constructor; try reflexivity. discriminate.
  - unfold ex_end_marker. constructor; try reflexivity. discriminate.
  - vm_compute. reflexivity.
  - apply (@noise_html [py "<!-- generated -->"] []); [|constructor].
    split; vm_compute; reflexivity.
  - repeat constructor.
  - reflexivity.
  - reflexivity.
Defined.

(** The two texts differ by the marker pair and by a leading comment;
    the comment is closed on the line of the guard, the normalization
    drops that line whole, and the verdict is a mismatch. *)
Lemma compare_comment_on_guard_line :
  strip_region_wrappers no_unicode_words ex_wrapped_comment
  = LF :: nl (py "<!-- generated --> @if (a)") (nl (py "{ }") [LF])
  /\ compare no_unicode_words ex_expected ex_wrapped_comment
     = Mismatch [py "@if (a)"; py "{ }"] [py "{ }"].
Proof. split; vm_compute; reflexivity. Qed.

(** The table of non-ASCII word characters plays no part in it. *)
Lemma compare_comment_on_guard_line_any_table :
  forall uni, compare uni ex_expected ex_wrapped_comment
              = Mismatch [py "@if (a)"; py "{ }"] [py "{ }"].
Proof. intros uni. vm_compute. reflexivity. Qed.

(** An expected text that holds a region marker of its own does not
    match itself: the marker is removed from the candidate only. *)
Lemma compare_marker_in_expected :
  marker_free no_unicode_words ex_expected_marker = false
  /\ compare no_unicode_words ex_expected_marker ex_expected_marker
     = Mismatch [py "@if (a)"; py "<!-- REGION: Student.Start -->"; py "{ }"]
                [py "@if (a)"; []; py "{ }"].
Proof. split; vm_compute; reflexivity. Qed.

(** * The search on the texts the script reads *)

(** ** A haystack that the normalization of line breaks leaves as it is *)

Lemma find_ws_insensitive_fixed :
  forall hay snippet start a b,
    Py.replace_crlf hay = hay ->
    find_ws_insensitive hay snippet start = Some (a, b) ->
    let pat := compile (Re.sub re_bs_ws (py "\s+")
                          (Re.escape (Py.replace_crlf snippet))) in
    start <= a
    /\ Re.match_len pat (skipn a hay) = Some (b - a)
    /\ forall j, start <= j < a -> Re.match_len pat (skipn j hay) = None.
Proof.
  intros hay snippet start a b Hfix H. cbv zeta.
  unfold find_ws_insensitive in H. cbv zeta in H.
  rewrite Hfix in H.
  remember (compile (Re.sub re_bs_ws (py "\s+")
                       (Re.escape (Py.replace_crlf snippet)))) as pat.
  match type of H with
  | context [Re.search ?p ?x] =>
      destruct (Re.search p x) as [[ms me]|] eqn:E; [|discriminate H]
  end.
  injection H as <- <-. unfold Re.search in E.
  destruct (search_from_leftmost _ _ _ E) as [_ [Hm Hbefore]].
  rewrite Nat.sub_0_r, skipn_skipn in Hm.
  repeat split; [lia | | ].
  - replace (start + me - (start + ms)) with (me - ms) by lia.
    replace (start + ms) with (ms + start) by lia. exact Hm.
  - intros j [Hj1 Hj2].
    specialize (Hbefore (j - start) ltac:(lia)).
    rewrite skipn_skipn in Hbefore.
    replace (j - start + start) with j in Hbefore by lia. exact Hbefore.
Qed.

Lemma find_ws_insensitive_fixed_none :
  forall hay snippet start,
    Py.replace_crlf hay = hay ->
    find_ws_insensitive hay snippet start = None ->
    forall j, start <= j ->
      Re.match_len (compile (Re.sub re_bs_ws (py "\s+")
                               (Re.escape (Py.replace_crlf snippet))))
                   (skipn j hay) = None.
Proof.
  intros hay snippet start Hfix H j Hj. unfold find_ws_insensitive in H.
  cbv zeta in H. rewrite Hfix in H.
  match type of H with
  | context [Re.search ?p ?x] =>
      destruct (Re.search p x) as [[ms me]|] eqn:E; [discriminate|]
  end.
  unfold Re.search in E.
  pose proof (@search_from_none _ _ _ E (j - start)) as Hn.
  rewrite skipn_skipn in Hn.
  replace (j - start + start) with j in Hn by lia. exact Hn.
Qed.

(** Every text [read] returns is such a haystack. *)
Lemma read_text_fixed :
  forall decoded, Py.replace_crlf (read_text decoded) = read_text decoded.
Proof.
  intros decoded. apply replace_crlf_no_cr. apply read_text_no_cr.
Qed.

(** ** C3: what [find_ws_insensitive] finds *)

(** C3. For a haystack that holds no carriage return followed by a
    line feed, as is every text [read] returns, and a snippet whose
    whitespace characters are the six ASCII ones, as in all snippets of
    the script: an answer [(a, b)] has [start <= a <= b], the text
    [hay[a:b]] of the given haystack is the snippet with each
    whitespace run replaced by some whitespace run, and no such text
    starts at an offset from [start] up to [a]; the answer is [None]
    only when no such text starts at or after [start]. *)
Theorem find_ws_insensitive_leftmost_variant :
  forall (hay snippet : str) (start : nat),
    Py.replace_crlf hay = hay ->
    ascii_ws_only snippet = true ->
    match find_ws_insensitive hay snippet start with
    | Some (a, b) =>
        start <= a /\ a <= b
        /\ ws_variant snippet (slice a b hay)
        /\ (forall j text rest,
               start <= j < a -> skipn j hay = text ++ rest ->
               ~ ws_variant snippet text)
    | None =>
        forall j text rest,
          start <= j -> skipn j hay = text ++ rest ->
          ~ ws_variant snippet text
    end.
Proof.
  intros hay snippet start Hfix Ha.
  destruct (find_ws_insensitive hay snippet start) as [[a b]|] eqn:E.
  - destruct (@find_ws_insensitive_ordered hay snippet start a b E)
      as [H1 H2].
    destruct (@find_ws_insensitive_fixed hay snippet start a b Hfix E)
      as (_ & Hm & Hbefore).
    rewrite (@snippet_pattern snippet Ha) in Hm, Hbefore.
    repeat split; [exact H1 | exact H2 | |].
    + unfold slice. apply match_len_variant. exact Hm.
    + intros j text rest Hj Hsk Hv.
      apply (@variant_matches snippet text rest Hv).
      rewrite <- Hsk. apply Hbefore. exact Hj.
  - intros j text rest Hj Hsk Hv.
    apply (@variant_matches snippet text rest Hv).
    rewrite <- Hsk.
    rewrite <- (@snippet_pattern snippet Ha).
    apply (@find_ws_insensitive_fixed_none hay snippet start Hfix E j Hj).
Qed.

Lemma find_ws_insensitive_leftmost_variant_witness :
  (Py.replace_crlf ex_spaced_hay = ex_spaced_hay
   /\ ascii_ws_only ex_anchor = true)
  /\ find_ws_insensitive ex_spaced_hay ex_anchor 0 = Some (4, 17)
  /\ match find_ws_insensitive ex_spaced_hay ex_anchor 0 with
     | Some (a, b) =>
         0 <= a /\ a <= b
         /\ ws_variant ex_anchor (slice a b ex_spaced_hay)
         /\ (forall j text rest,
                0 <= j < a -> skipn j ex_spaced_hay = text ++ rest ->
                ~ ws_variant ex_anchor text)
     | None =>
         forall j text rest,
           0 <= j -> skipn j ex_spaced_hay = text ++ rest ->
           ~ ws_variant ex_anchor text
     end.
Proof.
  split; [split; reflexivity|]. split; [vm_compute; reflexivity|].
  apply (@find_ws_insensitive_leftmost_variant ex_spaced_hay ex_anchor 0);
    reflexivity.
Defined.
